(** * Baker: a shallow embedding of [src/baker.py]

    Baker is an incremental build driver for C++ modules.  This file embeds
    the class [Baker] of [src/baker.py]: configuration loading
    ([load_bakerfile]), classification of a target's sources ([gen_classes]),
    dependency resolution ([fill_children]), the reduction of the graph to a
    tree ([clip_redundant], [fix_module_partition_deps]), and the scheduler
    ([compile_all], [compile], [link]).

    Python objects are mutable and compared by identity.  [Node] objects live
    in a heap ([gmap nat Node]) and are referred to by their address; every
    method that mutates a node is a function from heaps to heaps.  A raised
    exception is the [Err] case of [result].  Python bounds the depth of
    nested calls; the recursive methods take the remaining depth as [fuel]
    and raise [PyRecursionError] when it is used up. *)

From Stdlib Require Import ZArith Ascii String List Lia DecimalString DecimalNat DecimalFacts.
From stdpp Require Import base option list gmap strings fin_maps relations.

Local Open Scope string_scope.
Local Open Scope list_scope.

(** ** Exceptions *)

(** One constructor per [raise] of [baker.py]; the [Py...] constructors are
    the exceptions the interpreter raises itself. *)
Inductive exn : Type :=
| MissingBakerfile                               (* RuntimeError('Missing Bakerfile.json') *)
| MissingTargets                                 (* ValueError('Must specify targets') *)
| OptionType (key subkey : string)               (* TypeError(f'{key} > {subkey} must be of type ...') *)
| BadSuffix                                      (* ValueError('Only .cpp and .cppm files are permitted ...') *)
| BadDirectory (source : string)                 (* ValueError('Must have strictly one level of directory ...') *)
| RootNotPlain                                   (* ValueError('Source represeting the target ... must be plain') *)
| ForeignPartition (module : option string) (child : string)
                                                 (* RuntimeError(f'Module {module} can't import a foreign parition {child}') *)
| UnknownModule (module : option string)         (* RuntimeError(f'No module named {module} is known. ...') *)
| CommandFailed                                  (* RuntimeError('Last command abnormally exited ...') *)
| ClassifyError                                  (* anything raised by classify *)
| PyAttributeError
| PyTypeError
| PyKeyError
| PyIndexError
| PyValueError
| PyOSError
| PyRecursionError
| Diverges.                                      (* a while loop that did not stop within the given number of rounds *)

Global Instance exn_eq_dec : EqDecision exn.
Proof. solve_decision. Defined.

Inductive result (A : Type) : Type :=
| Ok (a : A)
| Err (e : exn).
Arguments Ok {A} a.
Arguments Err {A} e.

Global Instance result_eq_dec {A} `{EqDecision A} : EqDecision (result A).
Proof. solve_decision. Defined.

Global Instance result_ret : MRet result := fun A a => Ok a.
Global Instance result_bind : MBind result := fun A B f m =>
  match m with
  | Ok a => f a
  | Err e => Err e
  end.

Global Instance result_fmap : FMap result := fun A B f m =>
  match m with
  | Ok a => Ok (f a)
  | Err e => Err e
  end.

Definition of_option {A} (e : exn) (o : option A) : result A :=
  match o with
  | Some a => Ok a
  | None => Err e
  end.

(** [for x in xs: st = body(x, st)], stopping at the first exception. *)
Fixpoint for_each {A S} (body : A -> S -> result S) (xs : list A) (st : S) : result S :=
  match xs with
  | [] => Ok st
  | x :: xs' => st' ← body x st; for_each body xs' st'
  end.

(** ** Python strings and paths *)

Module Py.

Definition endswith (s suffix : string) : bool :=
  (String.length suffix <=? String.length s)%nat
  && String.eqb (substring (String.length s - String.length suffix) (String.length suffix) s) suffix.

Definition startswith (s pre : string) : bool := String.prefix pre s.

(** [str.removesuffix]: an empty suffix removes nothing. *)
Definition removesuffix (s suffix : string) : string :=
  if negb (String.eqb suffix "") && endswith s suffix
  then substring 0 (String.length s - String.length suffix) s
  else s.

(** [s.split(sep)] for a one-character separator. *)
Fixpoint split (sep : ascii) (s : string) : list string :=
  match s with
  | EmptyString => [""]
  | String c r =>
      if Ascii.eqb c sep then "" :: split sep r
      else match split sep r with
           | h :: t => String c h :: t
           | [] => [String c ""]
           end
  end.

(** [s.split(sep)[0]] *)
Definition split0 (sep : ascii) (s : string) : string := hd "" (split sep s).

(** [c in s] for a character [c]. *)
Fixpoint contains (c : ascii) (s : string) : bool :=
  match s with
  | EmptyString => false
  | String d r => Ascii.eqb c d || contains c r
  end.

(** [s.replace(a, b)] for characters. *)
Fixpoint replace (a b : ascii) (s : string) : string :=
  match s with
  | EmptyString => ""
  | String c r => String (if Ascii.eqb c a then b else c) (replace a b r)
  end.

(** [posixpath.join(a, b)] *)
Definition join (a b : string) : string :=
  if startswith b "/" then b
  else if String.eqb a "" || endswith a "/" then a +:+ b
  else a +:+ "/" +:+ b.

(** [p[:p.rfind('/') + 1]] *)
Fixpoint upto_last_slash (p : string) : string :=
  match p with
  | EmptyString => ""
  | String c r =>
      let t := upto_last_slash r in
      if negb (String.eqb t "") || Ascii.eqb c "/" then String c t else ""
  end.

(** [s.rstrip('/')] *)
Fixpoint rstrip_slash (s : string) : string :=
  match s with
  | EmptyString => ""
  | String c r =>
      let t := rstrip_slash r in
      if String.eqb t "" && Ascii.eqb c "/" then "" else String c t
  end.

(** [posixpath.dirname]: the head is stripped of trailing slashes unless it
    consists of slashes only. *)
Definition dirname (p : string) : string :=
  let head := upto_last_slash p in
  if String.eqb (rstrip_slash head) "" then head else rstrip_slash head.

(** [str(n)] for a non-negative integer. *)
Definition str (n : nat) : string := NilEmpty.string_of_uint (Nat.to_uint n).

(** ASCII white space, as [int] strips it. *)
Definition is_space (c : ascii) : bool :=
  let n := nat_of_ascii c in
  (n =? 32)%nat || ((9 <=? n)%nat && (n <=? 13)%nat) || ((28 <=? n)%nat && (n <=? 31)%nat).

Fixpoint lstrip (s : string) : string :=
  match s with
  | String c r => if is_space c then lstrip r else s
  | EmptyString => ""
  end.

Fixpoint rstrip (s : string) : string :=
  match s with
  | EmptyString => ""
  | String c r =>
      let t := rstrip r in
      if String.eqb t "" && is_space c then "" else String c t
  end.

Definition digit (c : ascii) : option Z :=
  let n := nat_of_ascii c in
  if (48 <=? n)%nat && (n <=? 57)%nat then Some (Z.of_nat (n - 48)) else None.

(** Digits with single underscores between them; [prev] tells whether the
    previous character was a digit. *)
Fixpoint digits (acc : Z) (prev : bool) (s : string) : option Z :=
  match s with
  | EmptyString => if prev then Some acc else None
  | String c r =>
      match digit c with
      | Some d => digits (10 * acc + d) true r
      | None => if Ascii.eqb c "_" && prev
                then match r with
                     | String c' _ => match digit c' with
                                      | Some _ => digits acc false r
                                      | None => None
                                      end
                     | EmptyString => None
                     end
                else None
      end
  end.

(** [int(s)] on an ASCII string: surrounding white space, an optional sign,
    decimal digits; [None] is [ValueError]. *)
Definition int (s : string) : option Z :=
  match rstrip (lstrip s) with
  | String "-" r => Z.opp <$> digits 0 false r
  | String "+" r => digits 0 false r
  | r => digits 0 false r
  end.

(** [l[i]] for a Python integer: a negative index counts from the end. *)
Definition index {A} (l : list A) (i : Z) : option A :=
  if (0 <=? i)%Z then l !! Z.to_nat i
  else if (- i <=? Z.of_nat (length l))%Z then l !! (length l - Z.to_nat (- i))%nat
  else None.

(** [l.remove(x)]: delete the first element equal to [x]; [None] is
    [ValueError]. *)
Fixpoint remove {A} `{EqDecision A} (x : A) (l : list A) : option (list A) :=
  match l with
  | [] => None
  | y :: l' => if decide (y = x) then Some l' else cons y <$> remove x l'
  end.

End Py.

(** ** Data model *)

(** [utility.Type] *)
Inductive Type_ : Type := plain | module | module_partition | module_impl.

Global Instance Type_eq_dec : EqDecision Type_.
Proof. solve_decision. Defined.

(** The record returned by [classify] and kept as [node.data]. *)
Record Data : Type := mkData {
  type : Type_;
  module_ : option string;          (* data['module']; None for a plain source *)
  filename : string;                (* data['filename'] *)
  post : list string;               (* data['post']: the imported identifiers *)
  header_units : list string        (* data['header_units'] *)
}.

(** An element of [node.children]: an identifier that is still to be
    resolved, or a reference to a [Node]. *)
Inductive child : Type :=
| Ident (s : string)
| NodeRef (n : nat).

Global Instance child_eq_dec : EqDecision child.
Proof. solve_decision. Defined.

(** [Node(parent, children, **data)].  Of the class [Node], [baker.py] reads
    and writes the attributes [parent], [children] and [data]; it keeps nodes in
    a [set], uses them as keys of [self.node_depth] and compares them with
    [id]: two nodes are the same when they are the same object. *)
Record Node : Type := mkNode {
  parent : option nat;
  children : list child;
  data : Data
}.

Definition set_parent (p : option nat) (n : Node) : Node :=
  mkNode p (children n) (data n).
Definition set_children (cs : list child) (n : Node) : Node :=
  mkNode (parent n) cs (data n).
Definition set_post (ps : list string) (n : Node) : Node :=
  mkNode (parent n) (children n)
    (mkData (type (data n)) (module_ (data n)) (filename (data n)) ps (header_units (data n))).

Abbreviation heap := (gmap nat Node).

(** Reading an attribute of the object at address [a]. *)
Definition deref (h : heap) (a : nat) : result Node := of_option PyAttributeError (h !! a).

(** Reading an attribute of an element of [node.children]: a [str] has
    neither [parent], [children] nor [data]. *)
Definition deref_child (h : heap) (c : child) : result (nat * Node) :=
  match c with
  | Ident _ => Err PyAttributeError
  | NodeRef a => n ← deref h a; Ok (a, n)
  end.

(** [self.classes]: the interfaces and the partitions by name, the
    implementation units of a module in the order of the sources (a [dict] keeps
    its keys in insertion order), the plain sources. *)
Record Classes : Type := mkClasses {
  cls_plain : list nat;
  cls_module : gmap (option string) nat;
  cls_module_partition : gmap (option string) nat;
  cls_module_impl : list (option string * list nat)
}.

(** [Baker.options_default] is in the configuration part below; the build
    itself reads the fields that [process_args] derives from the options and the
    command line. *)
Record Settings : Type := mkSettings {
  show : bool;                      (* self.show *)
  rebuild : bool;                   (* self.rebuild *)
  cxx : list string;                (* self.cxx *)
  base_flags : list string;         (* self.base_flags *)
  type_flags : list string;         (* self.type_flags *)
  source_dir : string;              (* self.options['dirs']['source'] *)
  dir_build : string;               (* self.dirs['build'] *)
  dir_object : string;              (* self.dirs['object'] *)
  dir_header_units : string         (* self.dirs['header_units'] *)
}.

(** ** The tree passes *)

(** [for index, child in enumerate(node.children):
       if id(child.parent) != id(node): ...]
    the index of the first child that [node] does not own. *)
Fixpoint first_stale (h : heap) (node : nat) (cs : list child) : result (option nat) :=
  match cs with
  | [] => Ok None
  | c :: cs' =>
      '(_, n) ← deref_child h c;
      if decide (parent n = Some node)
      then i ← first_stale h node cs'; Ok (option_map S i)
      else Ok (Some 0%nat)
  end.

(** The [while True] loop of [clip_redundant]: each round deletes the first
    stale child of [node] and starts over. *)
Fixpoint clip_loop (rounds : nat) (node : nat) (h : heap) : result heap :=
  match rounds with
  | O => Err Diverges
  | S r =>
      n ← deref h node;
      i ← first_stale h node (children n);
      match i with
      | None => Ok h
      | Some i => clip_loop r node (<[node := set_children (delete i (children n)) n]> h)
      end
  end.

(** [clip_redundant(self, node)].  The second loop runs over [node.children]
    as the first loop left it: a nested call that comes back to [node] finds
    nothing more to delete there. *)
Fixpoint clip_redundant (fuel : nat) (node : nat) (h : heap) : result heap :=
  match fuel with
  | O => Err PyRecursionError
  | S f =>
      n ← deref h node;
      h1 ← clip_loop (S (length (children n))) node h;
      n1 ← deref h1 node;
      for_each (fun c h' => '(a, _) ← deref_child h' c; clip_redundant f a h')
               (children n1) h1
  end.

(** The body of the loop of [fix_module_partition_deps] before the recursive
    call: [c_node.data['post'] += c_partition_node.data['post']]. *)
Definition fold_partition (cls : Classes) (node : nat) (c : child) (h : heap) : result heap :=
  n ← deref h node;
  if decide (type (data n) = module) then
    '(_, cn) ← deref_child h c;
    if decide (type (data cn) = module_partition) then
      c_node ← of_option PyKeyError (cls_module cls !! module_ (data n));
      c_partition_node ← of_option PyKeyError (cls_module_partition cls !! module_ (data cn));
      tgt ← deref h c_node;
      src ← deref h c_partition_node;
      Ok (<[c_node := set_post (post (data tgt) ++ post (data src)) tgt]> h)
    else Ok h
  else Ok h.

(** [fix_module_partition_deps(self, node)] *)
Fixpoint fix_module_partition_deps (fuel : nat) (cls : Classes) (node : nat) (h : heap)
  : result heap :=
  match fuel with
  | O => Err PyRecursionError
  | S f =>
      n ← deref h node;
      for_each (fun c h' =>
                  h'' ← fold_partition cls node c h';
                  '(a, _) ← deref_child h'' c;
                  fix_module_partition_deps f cls a h'')
               (children n) h
  end.

(** [build_compile_tree(self)] *)
Definition build_compile_tree (fuel : nat) (cls : Classes) (root : nat) (h : heap) : result heap :=
  h1 ← clip_redundant fuel root h;
  fix_module_partition_deps fuel cls root h1.

(** ** The toolchain driver *)

(** [removesuffixes(self, suffixes, path)] *)
Definition removesuffixes (suffixes : list string) (path : string) : string :=
  fold_left Py.removesuffix suffixes path.

Definition is_module_type (t : Type_) : bool :=
  bool_decide (t = module) || bool_decide (t = module_partition).

(** [collect_modules(self, node, collected)] *)
Fixpoint collect_modules (fuel : nat) (st : Settings) (h : heap) (node : nat)
    (collected : list (option string * string)) : result (list (option string * string)) :=
  match fuel with
  | O => Err PyRecursionError
  | S f =>
      n ← deref h node;
      let collected :=
        if is_module_type (type (data n)) then
          let bmi_path := Py.join (dir_object st)
                            (Py.removesuffix (filename (data n)) ".cppm" +:+ ".pcm") in
          collected ++ [(module_ (data n), bmi_path)]
        else collected in
      for_each (fun c col => '(a, _) ← deref_child h c; collect_modules f st h a col)
               (children n) collected
  end.

(** [collect_objects(self, node, collected)] *)
Fixpoint collect_objects (fuel : nat) (st : Settings) (h : heap) (node : nat)
    (collected : list string) : result (list string) :=
  match fuel with
  | O => Err PyRecursionError
  | S f =>
      n ← deref h node;
      let collected :=
        collected ++ [removesuffixes [".cpp"; ".cppm"]
                        (Py.join (dir_object st) (filename (data n))) +:+ ".o"] in
      for_each (fun c col => '(a, _) ← deref_child h c; collect_objects f st h a col)
               (children n) collected
  end.

(** The argument vector that [compile(self, source, target, node)] hands to
    [run]. *)
Definition compile_args (fuel : nat) (st : Settings) (h : heap)
    (source target : string) (node : nat) : result (list string) :=
  n ← deref h node;
  let extra_flags :=
    map (fun header =>
           "-fmodule-file=" +:+ Py.join (dir_header_units st) (Py.replace "/" "-" header) +:+ ".pcm")
        (header_units (data n)) in
  collected ← collect_modules fuel st h node [];
  module_flags ← mapM (fun '(s_module, s_bmi_path) =>
                         m ← of_option PyTypeError s_module;
                         Ok ("-fmodule-file=" +:+ m +:+ "=" +:+ s_bmi_path)) collected;
  Ok (cxx st ++ base_flags st ++ type_flags st ++ extra_flags ++ module_flags
      ++ ["-fmodule-output"; "-c"; source; "-o"; target]).

(** The world outside the process: the modification time of every file that
    exists, and the commands run so far. *)
Record World : Type := mkWorld {
  fs : gmap string Z;
  cmds : list (list string)
}.

(** The effect of a command on the files; [None] is a non-zero exit status. *)
Definition Toolchain : Type := list string -> gmap string Z -> option (gmap string Z).

(** [run(self, args)] *)
Definition run (tc : Toolchain) (args : list string) (w : World) : result World :=
  match tc args (fs w) with
  | Some fs' => Ok (mkWorld fs' (cmds w ++ [args]))
  | None => Err CommandFailed
  end.

(** [compile(self, source, target, node)] *)
Definition compile (tc : Toolchain) (fuel : nat) (st : Settings) (h : heap)
    (source target : string) (node : nat) (w : World) : result World :=
  args ← compile_args fuel st h source target node;
  run tc args w.

Definition exists_ (files : gmap string Z) (path : string) : bool :=
  bool_decide (is_Some (files !! path)).

Definition getmtime (files : gmap string Z) (path : string) : result Z :=
  of_option PyOSError (files !! path).

(** [is_later(self, path, path2)] *)
Definition is_later (files : gmap string Z) (path path2 : string) : result bool :=
  t ← getmtime files path;
  t2 ← getmtime files path2;
  Ok (t2 <? t)%Z.

Definition source_path (st : Settings) (n : Node) : string :=
  Py.join (source_dir st) (filename (data n)).
Definition target_path (st : Settings) (n : Node) : string :=
  Py.join (dir_object st) (removesuffixes [".cpp"; ".cppm"] (filename (data n)) +:+ ".o").
Definition bmi_target_path (st : Settings) (n : Node) : string :=
  Py.removesuffix (target_path st n) ".o" +:+ ".pcm".

(** The part of the condition of [compile_all] that looks at the files:
    [(not exists(target) or is_later(source, target))
     or (is_module and (not exists(bmi_target) or is_later(source, bmi_target)))] *)
Definition out_of_date (st : Settings) (files : gmap string Z) (n : Node) : result bool :=
  let source := source_path st n in
  let target := target_path st n in
  let bmi_target := bmi_target_path st n in
  a ← (if negb (exists_ files target) then Ok true else is_later files source target);
  if a : bool then Ok true
  else if is_module_type (type (data n))
       then (if negb (exists_ files bmi_target) then Ok true
             else is_later files source bmi_target)
       else Ok false.

(** ** The scheduler *)

(** The local variables of [compile_all], [self.compiles], the world, and
    the nodes handed to [self.compile] so far. *)
Record Sched : Type := mkSched {
  s_node : nat;
  s_siblings_left : option (list child);
  s_triggered_recompile : bool;
  s_triggered_recompile_next : bool;
  s_compiles : nat;
  s_compiled : list nat;
  s_world : World
}.

(** One round of the [while True] loop; the boolean is true at [break]. *)
Definition sched_round (tc : Toolchain) (fuel : nat) (st : Settings) (root_node : nat)
    (h : heap) (s : Sched) : result (Sched * bool) :=
  let node := s_node s in
  n ← deref h node;
  stale ← (if s_triggered_recompile s then Ok true else out_of_date st (fs (s_world s)) n);
  s1 ← (if stale : bool then
          w ← compile tc fuel st h (source_path st n) (target_path st n) node (s_world s);
          Ok (mkSched node (s_siblings_left s) (s_triggered_recompile s) true
                      (S (s_compiles s)) (s_compiled s ++ [node]) w)
        else Ok s);
  if decide (node = root_node) then Ok (s1, true)
  else
    siblings ← of_option PyAttributeError (s_siblings_left s1);
    siblings_left ← of_option PyValueError (Py.remove (NodeRef node) siblings);
    match siblings_left with
    | next :: _ =>
        '(a, _) ← deref_child h next;
        Ok (mkSched a (Some siblings_left) (s_triggered_recompile s1)
                    (s_triggered_recompile_next s1) (s_compiles s1) (s_compiled s1)
                    (s_world s1), false)
    | [] =>
        let triggered := s_triggered_recompile_next s1 || s_triggered_recompile s1 in
        p ← of_option PyAttributeError (parent n);
        pn ← deref h p;
        siblings' ← match parent pn with
                    | Some pp => ppn ← deref h pp; Ok (Some (children ppn))
                    | None => Ok None
                    end;
        Ok (mkSched p siblings' triggered (s_triggered_recompile_next s1)
                    (s_compiles s1) (s_compiled s1) (s_world s1), false)
    end.

Fixpoint sched_loop (rounds : nat) (tc : Toolchain) (fuel : nat) (st : Settings)
    (root_node : nat) (h : heap) (s : Sched) : result Sched :=
  match rounds with
  | O => Err Diverges
  | S r =>
      '(s', stop) ← sched_round tc fuel st root_node h s;
      if stop : bool then Ok s' else sched_loop r tc fuel st root_node h s'
  end.

(** [compile_all(self)]: starts at [self.last_node] with a copy of the
    children of its parent. *)
Definition compile_all (rounds : nat) (tc : Toolchain) (fuel : nat) (st : Settings)
    (root_node last_node : nat) (h : heap) (w : World) : result Sched :=
  n ← deref h last_node;
  siblings_left ← match parent n with
                  | Some p => pn ← deref h p; Ok (Some (children pn))
                  | None => Ok None
                  end;
  sched_loop rounds tc fuel st root_node h
    (mkSched last_node siblings_left (rebuild st) false 0 [] w).

(** [link(self, target)] *)
Definition link (tc : Toolchain) (fuel : nat) (st : Settings) (root_node : nat) (h : heap)
    (compiles : nat) (target : string) (w : World) : result World :=
  if (0 <? compiles)%nat then
    collected ← collect_objects fuel st h root_node [];
    run tc (cxx st ++ base_flags st ++ type_flags st ++ collected
            ++ ["-o"; Py.join (dir_build st) target]) w
  else Ok w.

(** [walk(self, node, depth)]: of each line it prints, the depth, the [id]
    of the node and the [id] of its parent. *)
Fixpoint walk (fuel : nat) (h : heap) (node : nat) (depth : nat)
    (printed : list (nat * nat * option nat)) : result (list (nat * nat * option nat)) :=
  match fuel with
  | O => Err PyRecursionError
  | S f =>
      n ← deref h node;
      for_each (fun c out => '(a, _) ← deref_child h c; walk f h a (S depth) out)
               (children n) (printed ++ [(depth, node, parent n)])
  end.

(** ** Classification of the sources of a target *)

(** What [gen_classes] leaves in [self]: the nodes, [self.classes],
    [self.header_units], [self.primary_dirs] and [self.root_node]. *)
Record Classified : Type := mkClassified {
  c_heap : heap;
  c_classes : Classes;
  c_header_units : gset string;
  c_primary_dirs : gset string;
  c_root_node : option nat
}.

(** [self.classes[Type.module_impl][module] = [node]] or [+= [node]] *)
Fixpoint add_impl (m : option string) (a : nat) (impls : list (option string * list nat))
  : list (option string * list nat) :=
  match impls with
  | [] => [(m, [a])]
  | (k, l) :: rest => if decide (k = m) then (k, l ++ [a]) :: rest
                      else (k, l) :: add_impl m a rest
  end.

Definition add_class (d : Data) (a : nat) (cls : Classes) : Classes :=
  match type d with
  | plain => mkClasses (cls_plain cls ++ [a]) (cls_module cls)
                       (cls_module_partition cls) (cls_module_impl cls)
  | module_impl => mkClasses (cls_plain cls) (cls_module cls) (cls_module_partition cls)
                             (add_impl (module_ d) a (cls_module_impl cls))
  | module => mkClasses (cls_plain cls) (<[module_ d := a]> (cls_module cls))
                        (cls_module_partition cls) (cls_module_impl cls)
  | module_partition => mkClasses (cls_plain cls) (cls_module cls)
                                  (<[module_ d := a]> (cls_module_partition cls))
                                  (cls_module_impl cls)
  end.

(** The body of the loop of [gen_classes] for the source at position
    [index].  The node made for it gets the address [index]: the heap of a
    target starts empty and one node is made per source.  [utility.Type] has
    the four members of [Type_], so the last [else] of the source (an unknown
    type) has no case here. *)
Definition gen_class (classify : string -> result Data) (index : nat) (source : string)
    (c : Classified) : result Classified :=
  if negb (Py.endswith source ".cpp" || Py.endswith source ".cppm") then Err BadSuffix
  else
    let primary_dir := Py.dirname source in
    if Py.contains "/" primary_dir || String.eqb primary_dir "" then Err (BadDirectory source)
    else
      d ← classify source;
      let node := mkNode None (Ident <$> post d) d in
      let c1 := mkClassified (<[index := node]> (c_heap c)) (add_class d index (c_classes c))
                  (c_header_units c ∪ list_to_set (header_units d))
                  (c_primary_dirs c ∪ {[primary_dir]}) (c_root_node c) in
      if decide (index = 0%nat) then
        if negb (bool_decide (type d = plain)) || negb (Py.endswith source ".cpp")
        then Err RootNotPlain
        else Ok (mkClassified (c_heap c1) (c_classes c1) (c_header_units c1)
                              (c_primary_dirs c1) (Some index))
      else Ok c1.

Fixpoint gen_classes_from (classify : string -> result Data) (index : nat)
    (sources : list string) (c : Classified) : result Classified :=
  match sources with
  | [] => Ok c
  | source :: rest =>
      c' ← gen_class classify index source c;
      gen_classes_from classify (S index) rest c'
  end.

(** [gen_classes(self, sources)].  [self.classes[Type.plain]] is a [set]
    until the end, where [list(...)] puts its members in an order that the
    language leaves open: [plain_order] is that order. *)
Definition gen_classes (classify : string -> result Data) (plain_order : list nat -> list nat)
    (sources : list string) : result Classified :=
  c ← gen_classes_from classify 0 sources
         (mkClassified ∅ (mkClasses [] ∅ ∅ []) ∅ ∅ None);
  let cls := c_classes c in
  Ok (mkClassified (c_heap c)
        (mkClasses (plain_order (cls_plain cls)) (cls_module cls)
                   (cls_module_partition cls) (cls_module_impl cls))
        (c_header_units c) (c_primary_dirs c) (c_root_node c)).

(** ** Dependency resolution *)

Definition add_children (cs : list child) (n : Node) : Node :=
  set_children (children n ++ cs) n.

(** [attach_plain_sources(self)] *)
Definition attach_plain_sources (cls : Classes) (root_node : nat) (h : heap) : result heap :=
  for_each (fun '(index, plain_node) h' =>
              if decide (plain_node = root_node) then Ok h'
              else r ← deref h' root_node;
                   Ok (<[root_node := add_children [Ident ("@" +:+ Py.str index)] r]> h'))
           (imap pair (cls_plain cls)) h.

(** [attach_module_impls(self)]; ['%' + key] is a [TypeError] when the
    module name is [None]. *)
Definition attach_module_impls (cls : Classes) (root_node : nat) (h : heap) : result heap :=
  for_each (fun '(key, impls) h' =>
              for_each (fun index h'' =>
                          k ← of_option PyTypeError key;
                          r ← deref h'' root_node;
                          Ok (<[root_node :=
                                  add_children [Ident ("%" +:+ k +:+ "," +:+ Py.str index)] r]> h''))
                       (seq 0 (length impls)) h')
           (cls_module_impl cls) h.

Fixpoint assoc {K V} `{EqDecision K} (k : K) (l : list (K * V)) : option V :=
  match l with
  | [] => None
  | (k', v) :: rest => if decide (k' = k) then Some v else assoc k rest
  end.

(** The body of the first loop of [fill_children]: what [node.children[index]]
    is after the round for [child]. *)
Definition resolve (cls : Classes) (module : option string) (c : child) : result child :=
  match c with
  | NodeRef _ => Ok c
  | Ident s =>
      match cls_module cls !! Some s with
      | Some a => Ok (NodeRef a)
      | None =>
          match cls_module_partition cls !! Some s with
          | Some a =>
              m ← of_option PyAttributeError module;
              if negb (String.eqb (Py.split0 ":" m) (Py.split0 ":" s))
              then Err (ForeignPartition module s)
              else Ok (NodeRef a)
          | None =>
              match s with
              | EmptyString => Err PyIndexError
              | String c0 rest =>
                  if Ascii.eqb c0 "%" then
                    match Py.split "," rest with
                    | [impl_name; index2] =>
                        impls ← of_option PyKeyError (assoc (Some impl_name) (cls_module_impl cls));
                        i ← of_option PyValueError (Py.int index2);
                        NodeRef <$> of_option PyIndexError (Py.index impls i)
                    | _ => Err PyValueError
                    end
                  else if Ascii.eqb c0 "@" then
                    i ← of_option PyValueError (Py.int rest);
                    NodeRef <$> of_option PyIndexError (Py.index (cls_plain cls) i)
                  else Err (UnknownModule module)
              end
          end
      end
  end.

(** One arrival of the second loop of [fill_children] at a child: the node
    whose children are being walked, the child, and the depth of the walk. *)
Record Reach : Type := mkReach {
  r_from : nat;
  r_child : nat;
  r_depth : Z
}.

(** The state of the resolution: the nodes, [self.node_depth],
    [self.last_node_depth] and [self.last_node].  [g_reached] is a history
    variable: the arrivals so far, oldest first; it is written and never
    read. *)
Record Graph : Type := mkGraph {
  g_heap : heap;
  node_depth : gmap nat Z;
  last_node_depth : Z;
  last_node : option nat;
  g_reached : list Reach
}.

(** [if (child not in self.node_depth) or (depth > self.node_depth[child])] *)
Definition deeper (depths : gmap nat Z) (a : nat) (depth : Z) : bool :=
  match depths !! a with
  | None => true
  | Some d => (d <? depth)%Z
  end.

(** The body of the second loop of [fill_children] before the recursive
    call. *)
Definition reach (node : nat) (depth : Z) (c : child) (g : Graph) : result (nat * Graph) :=
  '(a, cn) ← deref_child (g_heap g) c;
  let hist := g_reached g ++ [mkReach node a depth] in
  if deeper (node_depth g) a depth then
    Ok (a, mkGraph (<[a := set_parent (Some node) cn]> (g_heap g))
                   (<[a := depth]> (node_depth g))
                   (last_node_depth g) (last_node g) hist)
  else Ok (a, mkGraph (g_heap g) (node_depth g) (last_node_depth g) (last_node g) hist).

(** [fill_children(self, node, depth)].  The first loop replaces the
    identifiers of [node.children] by nodes; an exception in it ends the
    build, so the list is written back at once.  The second loop runs over
    the list so obtained: once every element is a node, no later round
    changes it. *)
Fixpoint fill_children (fuel : nat) (cls : Classes) (node : nat) (depth : Z) (g : Graph)
  : result Graph :=
  match fuel with
  | O => Err PyRecursionError
  | S f =>
      let g0 := if (last_node_depth g <? depth)%Z
                then mkGraph (g_heap g) (node_depth g) depth (Some node) (g_reached g)
                else g in
      n ← deref (g_heap g0) node;
      cs ← mapM (resolve cls (module_ (data n))) (children n);
      let g1 := mkGraph (<[node := set_children cs n]> (g_heap g0)) (node_depth g0)
                        (last_node_depth g0) (last_node g0) (g_reached g0) in
      for_each (fun c g' =>
                  '(a, g'') ← reach node depth c g';
                  fill_children f cls a (depth + 1) g'')
               cs g1
  end.

(** [build_dependency_tree(self)] *)
Definition build_dependency_tree (fuel : nat) (cls : Classes) (root_node : nat) (h : heap)
  : result Graph :=
  h1 ← attach_plain_sources cls root_node h;
  h2 ← attach_module_impls cls root_node h1;
  fill_children fuel cls root_node 0 (mkGraph h2 ∅ (-1) None []).

(** ** A target from its sources to its link *)

(** [make_header_units(self)]; the headers are taken in the order of
    [elements]. *)
Definition make_header_units (tc : Toolchain) (st : Settings) (headers : gset string)
    (w : World) : result World :=
  for_each (fun header w' =>
              let bmi_path :=
                Py.join (dir_header_units st) (Py.replace "/" "-" header) +:+ ".pcm" in
              if negb (exists_ (fs w') bmi_path) then
                run tc (cxx st ++ base_flags st
                        ++ ["-Wno-pragma-system-header-outside-header"; "--precompile";
                            "-xc++-system-header"; header; "-o"; bmi_path]) w'
              else Ok w')
           (elements headers) w.

(** What the body of the loop of [make_targets] leaves behind when neither
    [deptree] nor [tree] is asked for: the reduced tree, the node the
    scheduler started from, the state of the scheduler at its end, and the
    world after the link.  [make_directories] is left out: the world holds
    files, not directories. *)
Record Built : Type := mkBuilt {
  b_classes : Classes;
  b_root_node : nat;
  b_last_node : nat;
  b_tree : heap;
  b_sched : Sched;
  b_world : World
}.

Definition make_target (classify : string -> result Data) (plain_order : list nat -> list nat)
    (tc : Toolchain) (fuel rounds : nat) (st : Settings)
    (target : string) (sources : list string) (w : World) : result Built :=
  c ← gen_classes classify plain_order sources;
  w1 ← make_header_units tc st (c_header_units c) w;
  root ← of_option PyAttributeError (c_root_node c);
  g ← build_dependency_tree fuel (c_classes c) root (c_heap c);
  h ← build_compile_tree fuel (c_classes c) root (g_heap g);
  last ← of_option PyAttributeError (last_node g);
  s ← compile_all rounds tc fuel st root last h w1;
  w2 ← link tc fuel st root h (s_compiles s) target (s_world s);
  Ok (mkBuilt (c_classes c) root last h s w2).

(** ** The configuration *)

(** A value returned by [json.load].  A [dict] has one value per key. *)
#[local] Unset Elimination Schemes.
Inductive json : Type :=
| JNull
| JBool (b : bool)
| JInt (z : Z)
| JFloat (repr : string)
| JStr (s : string)
| JList (l : list json)
| JObj (o : gmap string json).
#[local] Set Elimination Schemes.

(** [type(value)] *)
Inductive pytype : Type := NoneType | bool_ | int_ | float_ | str_ | list_ | dict_.

Global Instance pytype_eq_dec : EqDecision pytype.
Proof. solve_decision. Defined.

Definition py_type (v : json) : pytype :=
  match v with
  | JNull => NoneType
  | JBool _ => bool_
  | JInt _ => int_
  | JFloat _ => float_
  | JStr _ => str_
  | JList _ => list_
  | JObj _ => dict_
  end.

(** [sub in s] for strings *)
Fixpoint is_substring (sub s : string) : bool :=
  String.prefix sub s
  || match s with
     | EmptyString => false
     | String _ r => is_substring sub r
     end.

Definition is_str (k : string) (v : json) : bool :=
  match v with
  | JStr s => String.eqb s k
  | _ => false
  end.

(** [k in v] for a string [k]: a key of a [dict], an element of a [list], a
    part of a [str]; the other values are not iterable. *)
Definition py_in (k : string) (v : json) : result bool :=
  match v with
  | JObj o => Ok (bool_decide (is_Some (o !! k)))
  | JList l => Ok (existsb (is_str k) l)
  | JStr s => Ok (is_substring k s)
  | _ => Err PyTypeError
  end.

(** [v[k]] for a string [k] *)
Definition py_getitem (v : json) (k : string) : result json :=
  match v with
  | JObj o => of_option PyKeyError (o !! k)
  | _ => Err PyTypeError
  end.

(** [Baker.options_default], in the order in which it is written. *)
Definition options_default : list (string * list (string * json)) :=
  [("dirs", [("source", JStr "src");
             ("build", JStr "build");
             ("object", JStr "object");
             ("header_units", JStr "header_units")]);
   ("flags", [("debug", JList [JStr "-g"; JStr "-DDEBUG"]);
              ("release", JList [JStr "-O3"; JStr "-DNDEBUG"]);
              ("base", JList [JStr "-std=c++23"; JStr "-Wno-experimental-header-units"])]);
   ("options", [("cxx", JStr "clang++")])].

(** The body of [for subkey in self.options_default[key]] *)
Definition load_subkey (key : string) (given : json) (entry : string * json)
    (acc : gmap string json) : result (gmap string json) :=
  let '(subkey, value_def) := entry in
  present ← py_in subkey given;
  if present : bool then
    value ← py_getitem given subkey;
    if decide (py_type value ≠ py_type value_def) then Err (OptionType key subkey)
    else Ok (<[subkey := value]> acc)
  else Ok (<[subkey := value_def]> acc).

(** The body of [for key in self.options_default] *)
Definition load_key (options : gmap string json) (entry : string * list (string * json))
    (acc : gmap string json) : result (gmap string json) :=
  let '(key, defaults) := entry in
  match options !! key with
  | Some given =>
      sub ← for_each (load_subkey key given) defaults ∅;
      Ok (<[key := JObj sub]> acc)
  | None => Ok (<[key := JObj (list_to_map defaults)]> acc)
  end.

(** [load_bakerfile(self)].  [file] is [None] when there is no
    [Bakerfile.json], else the [dict] that [json.load] makes of a file that
    holds a JSON object.  The result is [self.options]. *)
Definition load_bakerfile (file : option (gmap string json)) : result (gmap string json) :=
  match file with
  | None => Err MissingBakerfile
  | Some options =>
      if negb (bool_decide (is_Some (options !! "targets"))) then Err MissingTargets
      else
        self_options ← for_each (load_key options) options_default ∅;
        Ok (map_fold (fun key value acc =>
                        if bool_decide (is_Some (acc !! key)) then acc
                        else <[key := value]> acc)
                     self_options options)
  end.

(** ** The command line *)

(** [Baker.args_nature]: the arguments Baker knows, each with the number of
    values that follow it. *)
Definition args_nature : list (string * nat) :=
  [("help", 0); ("release", 0); ("run", 1); ("show", 0); ("rebuild", 0);
   ("default_bakerfile", 0); ("dump_bakerfile", 0); ("deptree", 0); ("tree", 0);
   ("maxrss", 0)]%nat.

(** How [parse_args] ends: with [self.args]; with one of its two
    [ValueError]s, [f'{current} requires {count} arguments'] or
    [f'Unknown argument: {current}']; or not within the rounds given to its
    loop. *)
Inductive Parsed : Type :=
| Args (args : gmap string (list string))
| RequiresArguments (current : string) (count : nat)
| UnknownArgument (current : string)
| StillParsing.

(** The [while i < len(sys.argv)] loop of [parse_args]; [argv] is
    [sys.argv]. *)
Fixpoint parse_loop (rounds : nat) (argv : list string) (i : nat)
    (args : gmap string (list string)) : Parsed :=
  match rounds with
  | O => StillParsing
  | S r =>
      match argv !! i with
      | None => Args args
      | Some current =>
          match assoc current args_nature with
          | Some count =>
              if (length argv <=? i + count)%nat then RequiresArguments current count
              else parse_loop r argv (i + count + 1)
                     (<[current := take count (drop (i + 1) argv)]> args)
          | None => UnknownArgument current
          end
      end
  end.

(** [parse_args(self)] *)
Definition parse_args (rounds : nat) (argv : list string) : Parsed :=
  parse_loop rounds argv 1 ∅.

(** What [process_args] prints before [exit(0)]. *)
Inductive Printed : Type :=
| PrintedArgsNature
| PrintedOptionsDefault
| PrintedOptions (options : gmap string json).

(** What [process_args] leaves in [self]: [self.show], [self.rebuild],
    [self.type], the flags as the configuration has them, the three
    directories of [self.dirs], and [self.cxx]. *)
Record Processed : Type := mkProcessed {
  p_show : bool;
  p_rebuild : bool;
  p_type : string;
  p_type_flags : json;
  p_base_flags : json;
  p_dir_build : string;
  p_dir_object : string;
  p_dir_header_units : string;
  p_cxx : list json
}.

Inductive Started : Type :=
| Exit0 (printed : Printed)
| Proceed (p : Processed).

(** [self.options[key][subkey]] *)
Definition option_of (options : gmap string json) (key subkey : string) : result json :=
  v ← of_option PyKeyError (options !! key);
  py_getitem v subkey.

(** [os.path.join(a, b)] on values of the configuration: anything but a
    string is a [TypeError]. *)
Definition path_join (a b : json) : result string :=
  match a, b with
  | JStr a, JStr b => Ok (Py.join a b)
  | _, _ => Err PyTypeError
  end.

Definition given (args : gmap string (list string)) (name : string) : bool :=
  bool_decide (is_Some (args !! name)).

(** [process_args(self)] *)
Definition process_args (options : gmap string json) (args : gmap string (list string))
  : result Started :=
  if given args "help" then Ok (Exit0 PrintedArgsNature)
  else if given args "default_bakerfile" then Ok (Exit0 PrintedOptionsDefault)
  else if given args "dump_bakerfile" then Ok (Exit0 (PrintedOptions options))
  else
    let type := if given args "release" then "release" else "debug" in
    type_flags ← (if String.eqb type "release" then option_of options "flags" "release"
                  else option_of options "flags" "debug");
    base_flags ← option_of options "flags" "base";
    build ← option_of options "dirs" "build";
    dir_build ← path_join build (JStr type);
    object ← option_of options "dirs" "object";
    dir_object ← path_join (JStr dir_build) object;
    build' ← option_of options "dirs" "build";
    header_units ← option_of options "dirs" "header_units";
    dir_header_units ← path_join build' header_units;
    cxx ← option_of options "options" "cxx";
    Ok (Proceed (mkProcessed (given args "show") (given args "rebuild") type
                   type_flags base_flags dir_build dir_object dir_header_units [cxx])).

(** The settings of a build, when the flags and the compiler are strings as
    [subprocess.run] needs them, and [self.options['dirs']['source']] is one
    too. *)
Definition as_str (v : json) : option string :=
  match v with
  | JStr s => Some s
  | _ => None
  end.

Definition as_strs (v : json) : option (list string) :=
  match v with
  | JList l => mapM as_str l
  | _ => None
  end.

Definition settings_of (options : gmap string json) (p : Processed) : option Settings :=
  type_flags ← as_strs (p_type_flags p);
  base_flags ← as_strs (p_base_flags p);
  cxx ← mapM as_str (p_cxx p);
  source ← match option_of options "dirs" "source" with
           | Ok v => as_str v
           | Err _ => None
           end;
  Some (mkSettings (p_show p) (p_rebuild p) cxx base_flags type_flags source
          (p_dir_build p) (p_dir_object p) (p_dir_header_units p)).

(** How the last lines of [make_targets] end, which run the target named
    after [run]: nothing was asked for; the target was run; [ValueError(f'Can't
    run invalid target {target}')]; or another exception. *)
Inductive Ran : Type :=
| NotAsked
| Ran_ (w : World)
| InvalidTarget (target : string)
| RunRaised (e : exn).

(** [if 'run' in self.args: ...] at the end of [make_targets]; [targets] is
    [self.options['targets']], a [dict]. *)
Definition run_target (tc : Toolchain) (dir_build : string) (targets : gmap string json)
    (args : gmap string (list string)) (w : World) : Ran :=
  match args !! "run" with
  | None => NotAsked
  | Some values =>
      match values !! 0%nat with
      | None => RunRaised PyIndexError
      | Some target =>
          if bool_decide (is_Some (targets !! target)) then
            match run tc [Py.join dir_build target] w with
            | Ok w' => Ran_ w'
            | Err e => RunRaised e
            end
          else InvalidTarget target
      end
  end.

(** How [__init__] stands when it comes to [make_targets]: an exception of
    [load_bakerfile] or of [process_args]; a command line that [parse_args]
    has refused; an exit after printing; or a build with its options,
    arguments and settings. *)
Inductive Startup : Type :=
| Raised (e : exn)
| Refused (p : Parsed)
| Exited (printed : Printed)
| Building (options : gmap string json) (args : gmap string (list string)) (p : Processed).

(** [handle_args(self)]: [parse_args], then [process_args]. *)
Definition handle_args (rounds : nat) (argv : list string) (options : gmap string json)
  : Startup :=
  match parse_args rounds argv with
  | Args args =>
      match process_args options args with
      | Ok (Exit0 printed) => Exited printed
      | Ok (Proceed p) => Building options args p
      | Err e => Raised e
      end
  | refused => Refused refused
  end.

(** [__init__(self)] before [make_targets]: [load_bakerfile], then
    [handle_args]. *)
Definition init (file : option (gmap string json)) (rounds : nat) (argv : list string)
  : Startup :=
  match load_bakerfile file with
  | Ok options => handle_args rounds argv options
  | Err e => Raised e
  end.

(** ** The ways to make a target *)

(** What the body of the loop of [make_targets] leaves behind: the lines of
    [walk] and the world after the header units, when [deptree] or [tree] is
    given; else the build. *)
Inductive Made : Type :=
| Shown (printed : list (nat * nat * option nat)) (w : World)
| Built_ (b : Built).

(** The body of the loop of [make_targets], with [self.args]. *)
Definition make_target_as (args : gmap string (list string))
    (classify : string -> result Data) (plain_order : list nat -> list nat)
    (tc : Toolchain) (fuel rounds : nat) (st : Settings)
    (target : string) (sources : list string) (w : World) : result Made :=
  c ← gen_classes classify plain_order sources;
  w1 ← make_header_units tc st (c_header_units c) w;
  root ← of_option PyAttributeError (c_root_node c);
  g ← build_dependency_tree fuel (c_classes c) root (c_heap c);
  if given args "deptree" then
    printed ← walk fuel (g_heap g) root 0 [];
    Ok (Shown printed w1)
  else
    h ← build_compile_tree fuel (c_classes c) root (g_heap g);
    if given args "tree" then
      printed ← walk fuel h root 0 [];
      Ok (Shown printed w1)
    else
      last ← of_option PyAttributeError (last_node g);
      s ← compile_all rounds tc fuel st root last h w1;
      w2 ← link tc fuel st root h (s_compiles s) target (s_world s);
      Ok (Built_ (mkBuilt (c_classes c) root last h s w2)).

(** ** The directory of the sources and the depth of the calls *)

(** [gen_classes] enters the directory of the sources with
    [os.chdir(self.options['dirs']['source'])] and leaves it with
    [os.chdir('..')].  The two lead back to the directory of the project, to
    which the paths of the files of a [World] are relative, when the directory
    of the sources is named by one plain name: a directory of the project
    itself, not a path of several levels, not the project and not its
    parent. *)
Definition beneath_the_project (dir : string) : Prop :=
  Py.contains "/" dir = false /\ dir <> "" /\ dir <> "." /\ dir <> "..".

(** The body of the loop of [make_targets] for a build, each pass with the
    depth of calls that is left to it: the passes start at different depths
    of the stack ([collect_modules] is called by [compile], which
    [compile_all] calls), so that the limit of the recursion is not at the
    same depth of the tree for all of them. *)
Definition make_target_at (classify : string -> result Data)
    (plain_order : list nat -> list nat) (tc : Toolchain)
    (fuel_resolve fuel_reduce fuel_compile fuel_link rounds : nat) (st : Settings)
    (target : string) (sources : list string) (w : World) : result Built :=
  c ← gen_classes classify plain_order sources;
  w1 ← make_header_units tc st (c_header_units c) w;
  root ← of_option PyAttributeError (c_root_node c);
  g ← build_dependency_tree fuel_resolve (c_classes c) root (c_heap c);
  h ← build_compile_tree fuel_reduce (c_classes c) root (g_heap g);
  last ← of_option PyAttributeError (last_node g);
  s ← compile_all rounds tc fuel_compile st root last h w1;
  w2 ← link tc fuel_link st root h (s_compiles s) target (s_world s);
  Ok (mkBuilt (c_classes c) root last h s w2).

(** * The vocabulary of the statements *)

(** ** The rounds of the scheduler *)

(** [later_round s s']: the loop of [compile_all], being in state [s] at the
    head of a round, is in state [s'] at the head of the same or of a later
    round. *)
Inductive later_round (tc : Toolchain) (fuel : nat) (st : Settings) (root_node : nat)
    (h : heap) : Sched -> Sched -> Prop :=
| later_now s : later_round tc fuel st root_node h s s
| later_next s s' s'' :
    sched_round tc fuel st root_node h s = Ok (s', false) ->
    later_round tc fuel st root_node h s' s'' ->
    later_round tc fuel st root_node h s s''.

(** ** The configuration *)

(** What the loop over the subkeys leaves for one of them. *)
Definition subkey_loaded (given : json) (subkey : string) (value_def : json)
    (sub : gmap string json) : Prop :=
  (py_in subkey given = Ok false /\ sub !! subkey = Some value_def)
  \/ (exists value, py_in subkey given = Ok true /\ py_getitem given subkey = Ok value
                    /\ py_type value = py_type value_def /\ sub !! subkey = Some value).

(** What the loop over [options_default] leaves for one of its keys. *)
Definition key_loaded (options : gmap string json) (key : string)
    (defaults : list (string * json)) (self : gmap string json) : Prop :=
  match options !! key with
  | None => self !! key = Some (JObj (list_to_map defaults))
  | Some given =>
      exists sub, for_each (load_subkey key given) defaults ∅ = Ok sub
                  /\ self !! key = Some (JObj sub)
  end.

(** ** The root source *)

(** The checks every source meets before it is classified. *)
Definition source_checks (source : string) : Prop :=
  Py.endswith source ".cpp" || Py.endswith source ".cppm" = true
  /\ Py.contains "/" (Py.dirname source) || String.eqb (Py.dirname source) "" = false.

Definition source_accepted (classify : string -> result Data) (source : string) : Prop :=
  source_checks source /\ exists d, classify source = Ok d.

(** C9 as the specification states it: the first source either raises the
    root-source error or becomes the root. *)
Definition root_source_claim (classify : string -> result Data)
    (plain_order : list nat -> list nat) (sources : list string) : Prop :=
  forall source rest, sources = source :: rest ->
    let eligible := (exists d, classify source = Ok d /\ type d = plain)
                    /\ Py.endswith source ".cpp" = true in
    (~ eligible -> gen_classes classify plain_order sources = Err RootNotPlain)
    /\ (eligible -> exists c, gen_classes classify plain_order sources = Ok c
                              /\ c_root_node c = Some 0%nat).

(** ** The folding of partitions *)

(** Two nodes that differ in [data['post']] at most. *)
Definition same_but_post (n n' : Node) : Prop :=
  parent n = parent n' /\ children n = children n'
  /\ type (data n) = type (data n') /\ module_ (data n) = module_ (data n')
  /\ filename (data n) = filename (data n')
  /\ header_units (data n) = header_units (data n').

(** Two heaps with the same objects, which differ in [data['post']] at
    most. *)
Definition frame (h h' : heap) : Prop :=
  forall a, match h !! a, h' !! a with
            | Some n, Some n' => same_but_post n n'
            | None, None => True
            | _, _ => False
            end.

(** The nodes that [self.classes[Type.module]] holds. *)
Definition is_interface (cls : Classes) (a : nat) : Prop :=
  exists m, cls_module cls !! m = Some a.

(** [changes_interfaces cls h h']: from [h] to [h'] only [data['post']] of
    nodes of [self.classes[Type.module]] has changed. *)
Definition changes_interfaces (cls : Classes) (h h' : heap) : Prop :=
  frame h h' /\ forall a, is_interface cls a \/ h' !! a = h !! a.

(** ** Folding twice *)

(** C3 as the specification states it: a second run of the pass leaves
    [data['post']] of every interface as the first run left it. *)
Definition folding_idempotent_claim (fuel : nat) (cls : Classes) (root_node : nat)
    (h : heap) : Prop :=
  forall h1 h2,
    fix_module_partition_deps fuel cls root_node h = Ok h1 ->
    fix_module_partition_deps fuel cls root_node h1 = Ok h2 ->
    forall a n1 n2, h1 !! a = Some n1 -> h2 !! a = Some n2 ->
                    type (data n1) = module ->
                    post (data n2) = post (data n1).

(** [extends e b x]: the heap [x] is the heap [b] with [e a] appended to
    [data['post']] of every node [a]. *)
Definition extends (e : nat -> list string) (b x : heap) : Prop :=
  forall a, match b !! a, x !! a with
            | Some nb, Some nx =>
                same_but_post nb nx /\ post (data nx) = post (data nb) ++ e a
            | None, None => True
            | _, _ => False
            end.

(** The nodes of [self.classes[Type.module_partition]] have the same
    [data['post']] in both heaps. *)
Definition partitions_agree (cls : Classes) (x y : heap) : Prop :=
  forall m p nx ny, cls_module_partition cls !! m = Some p ->
                    x !! p = Some nx -> y !! p = Some ny ->
                    post (data nx) = post (data ny).

(** The relation between a run of the pass from [h0], which has reached the
    heap [x], and a run from [h1], which has reached [y] at the same point:
    both have appended the same lists. *)
Definition in_step (cls : Classes) (h0 h1 x y : heap) : Prop :=
  partitions_agree cls x y /\ exists e, extends e h0 x /\ extends e h1 y.

(** ** The tree after the clip *)

(** [edge h a b]: [b] is among the children of [a]. *)
Definition edge (h : heap) (a b : nat) : Prop :=
  exists n, h !! a = Some n /\ In (NodeRef b) (children n).

(** [owned h a c]: the child [c] is a node whose parent is [a]. *)
Definition owned (h : heap) (a : nat) (c : child) : Prop :=
  exists b nb, c = NodeRef b /\ h !! b = Some nb /\ parent nb = Some a.

(** [clean h a]: every child of [a] is owned by [a]. *)
Definition clean (h : heap) (a : nat) : Prop :=
  forall n, h !! a = Some n -> Forall (owned h a) (children n).

(** [clips h h']: [h'] is [h] with some children deleted, and none from a
    node that owns all its children. *)
Definition clips (h h' : heap) : Prop :=
  forall a, match h !! a, h' !! a with
            | Some n, Some n' =>
                parent n' = parent n /\ data n' = data n
                /\ children n' `sublist_of` children n
                /\ (Forall (owned h a) (children n) -> children n' = children n)
            | None, None => True
            | _, _ => False
            end.

(** C4 as the specification states it, for the tree that the build of a
    target makes of its sources: the retained edges agree with the parents,
    no node of the tree is on a cycle, and every classified node is printed
    once by [walk]. *)
Definition reduced_tree_claim (classify : string -> result Data)
    (plain_order : list nat -> list nat) (fuel : nat) (sources : list string) : Prop :=
  forall c root_node g h printed,
    gen_classes classify plain_order sources = Ok c ->
    c_root_node c = Some root_node ->
    build_dependency_tree fuel (c_classes c) root_node (c_heap c) = Ok g ->
    clip_redundant fuel root_node (g_heap g) = Ok h ->
    walk fuel h root_node 0 [] = Ok printed ->
    (forall a b, rtc (edge h) root_node a -> edge h a b ->
                 exists nb, h !! b = Some nb /\ parent nb = Some a)
    /\ (forall a, rtc (edge h) root_node a -> ~ tc (edge h) a a)
    /\ (forall a, is_Some (c_heap c !! a) ->
                  length (filter (fun line => line.1.2 = a) printed) = 1%nat).

(** A child that is a node of the heap. *)
Definition is_node (h : heap) (c : child) : Prop :=
  exists d, c = NodeRef d /\ is_Some (h !! d).

(** [resolved h a]: every child of a node that can be reached from [a] is a
    node of the heap. *)
Definition resolved (h : heap) (a : nat) : Prop :=
  is_Some (h !! a)
  /\ forall b n, rtc (edge h) a b -> h !! b = Some n -> Forall (is_node h) (children n).

(** [shallow h k a]: every path from [a] has fewer than [k] edges. *)
Definition shallow (h : heap) (k : nat) (a : nat) : Prop :=
  forall m b, nsteps (edge h) m a b -> (m < k)%nat.

(** ** The recorded depths *)

(** [deepest_first hist c i p d]: the arrival number [i] came to [c] from [p]
    at depth [d]; no arrival at [c] was deeper, and every earlier one was less
    deep. *)
Definition deepest_first (hist : list Reach) (c : nat) (i : nat) (p : nat) (d : Z) : Prop :=
  hist !! i = Some (mkReach p c d)
  /\ forall j r, hist !! j = Some r -> r_child r = c ->
                 (r_depth r <= d)%Z /\ ((j < i)%nat -> (r_depth r < d)%Z).

(** What [self.node_depth] and the parents say about [c], against the
    arrivals. *)
Definition depth_recorded (g : Graph) (c : nat) : Prop :=
  match node_depth g !! c with
  | None => forall r, In r (g_reached g) -> r_child r <> c
  | Some d => exists i p n, deepest_first (g_reached g) c i p d
                            /\ g_heap g !! c = Some n /\ parent n = Some p
  end.

Definition depths_recorded (g : Graph) : Prop := forall c, depth_recorded g c.

(** An element of [node.children] that is a node. *)
Definition is_ref (c : child) : Prop :=
  match c with
  | NodeRef _ => True
  | Ident _ => False
  end.

(** [keeps h h']: the nodes of [h] are nodes of [h'], and a node whose
    children are all resolved in [h] has the same children in [h']. *)
Definition keeps (h h' : heap) : Prop :=
  forall a n, h !! a = Some n ->
    exists n', h' !! a = Some n' /\ (Forall is_ref (children n) -> children n' = children n).

(** [arrivals_below h node depth tr]: the arrivals [tr] are those of a walk
    that is at [node] at depth [depth] and follows every chain of children of
    [h] from there: one arrival per chain and per child at its end, at the depth
    of the node the chain ends at. *)
Definition arrivals_below (h : heap) (node : nat) (depth : Z) (tr : list Reach) : Prop :=
  (forall k q c, nsteps (edge h) k node q -> edge h q c ->
                 In (mkReach q c (depth + Z.of_nat k)) tr)
  /\ (forall r, In r tr ->
        exists k, r_depth r = (depth + Z.of_nat k)%Z
                  /\ nsteps (edge h) k node (r_from r) /\ edge h (r_from r) (r_child r)).

(** What a call [fill_children(node, depth)] that returns has done between
    the states [g] and [g']. *)
Definition fills (node : nat) (depth : Z) (g g' : Graph) : Prop :=
  keeps (g_heap g) (g_heap g')
  /\ (exists n', g_heap g' !! node = Some n' /\ Forall is_ref (children n'))
  /\ exists tr, g_reached g' = g_reached g ++ tr
                /\ forall h, keeps (g_heap g') h -> arrivals_below h node depth tr.

(** ** The walk of the scheduler *)

(** [l.remove(x)] on a list of nodes. *)
Fixpoint remove_first (x : nat) (l : list nat) : list nat :=
  match l with
  | [] => []
  | y :: l' => if decide (y = x) then l' else y :: remove_first x l'
  end.

(** [walk_up h root_node x levels]: the way of the scheduler from [x] to the
    root.  Each level is [x] followed by the other children of the parent of [x]
    in their stored order; all of them have that parent, none is the root; the
    next level is that of the parent. *)
Inductive walk_up (h : heap) (root_node : nat) : nat -> list (list nat) -> Prop :=
| walk_up_root : walk_up h root_node root_node []
| walk_up_level x p pn siblings levels :
    h !! p = Some pn ->
    children pn = NodeRef <$> siblings ->
    In x siblings ->
    Forall (fun y => y <> root_node /\ exists ny, h !! y = Some ny /\ parent ny = Some p)
           siblings ->
    walk_up h root_node p levels ->
    walk_up h root_node x ((x :: remove_first x siblings) :: levels).

(** The list that [compile_all] copies when it arrives at a node. *)
Definition siblings_of (h : heap) (n : Node) : result (option (list child)) :=
  match parent n with
  | Some p => pn ← deref h p; Ok (Some (children pn))
  | None => Ok None
  end.

(** The nodes of a level: none is the root, all have the parent [p]. *)
Definition level_of (root_node : nat) (h : heap) (p : nat) (nodes : list nat) : Prop :=
  Forall (fun y => y <> root_node /\ exists ny, h !! y = Some ny /\ parent ny = Some p) nodes.

(** The nodes from [a] up to the root, along the parents. *)
Fixpoint chain (fuel : nat) (h : heap) (a : nat) : list nat :=
  match fuel with
  | O => []
  | S f => a :: match h !! a with
                | Some n => match parent n with
                            | Some p => chain f h p
                            | None => []
                            end
                | None => []
                end
  end.

(** C2 as the specification states it: with every node up to date but the
    leaf module [leaf], the scheduler compiles [leaf] and the nodes above it,
    and no node of a subtree that hangs beside that chain. *)
Definition touched_leaf_claim (tc : Toolchain) (fuel rounds : nat) (st : Settings)
    (root_node last_node : nat) (h : heap) (w : World) (leaf : nat) : Prop :=
  (exists n, h !! leaf = Some n /\ children n = []
             /\ is_module_type (type (data n)) = true
             /\ out_of_date st (fs w) n = Ok true) ->
  map_Forall (fun a n => a <> leaf -> out_of_date st (fs w) n = Ok false) h ->
  exists s,
    compile_all rounds tc fuel st root_node last_node h w = Ok s
    /\ (forall a, In a (chain (size h) h leaf) -> In a (s_compiled s))
    /\ (forall a p pn beside printed b,
          In a (chain (size h) h leaf) ->
          h !! p = Some pn -> In (NodeRef a) (children pn) ->
          In (NodeRef beside) (children pn) -> ~ In beside (chain (size h) h leaf) ->
          walk fuel h beside 0 [] = Ok printed -> In b (map (fun line => line.1.2) printed) ->
          ~ In b (s_compiled s)).

(** ** Partitions of another module *)


(** ** The paths of the artifacts *)

(** What [posixpath.join] puts in front of its second argument. *)
Definition joined_dir (a : string) : string :=
  if String.eqb a "" || Py.endswith a "/" then a else a +:+ "/".

(** The object file of the node of a line of [walk]. *)
Definition object_of (st : Settings) (h : heap) (line : nat * nat * option nat) : string :=
  match h !! line.1.2 with
  | Some n => target_path st n
  | None => ""
  end.

(** The module flag of the node of a line of [walk], when the node is an
    interface or a partition. *)
Definition module_of (st : Settings) (h : heap) (line : nat * nat * option nat)
  : option (option string * string) :=
  n ← h !! line.1.2;
  if is_module_type (type (data n))
  then Some (module_ (data n),
             Py.join (dir_object st) (Py.removesuffix (filename (data n)) ".cppm" +:+ ".pcm"))
  else None.

(** ** The sources by position *)

(** What [classify] says of the source at position [i]. *)
Definition data_at (classify : string -> result Data) (sources : list string) (i : nat)
  : option Data :=
  source ← sources !! i;
  match classify source with
  | Ok d => Some d
  | Err _ => None
  end.

(** The kind and the module name of the source at position [i]. *)
Definition kind_at (classify : string -> result Data) (sources : list string) (i : nat)
  : option (Type_ * option string) :=
  (fun d => (type d, module_ d)) <$> data_at classify sources i.

(** The positions of the sources of kind [t] and name [m], in ascending
    order. *)
Definition positions (classify : string -> result Data) (sources : list string)
    (t : Type_) (m : option string) : list nat :=
  filter (fun i => kind_at classify sources i = Some (t, m)) (seq 0 (length sources)).

(** The positions of the sources of kind [t], whatever their name. *)
Definition positions_of_kind (classify : string -> result Data) (sources : list string)
    (t : Type_) : list nat :=
  filter (fun i => fst <$> kind_at classify sources i = Some t) (seq 0 (length sources)).

(** The node that [gen_classes] makes of a source. *)
Definition node_of (d : Data) : Node := mkNode None (Ident <$> post d) d.

(** What [gen_classes] has built when it has gone through [done]. *)
Definition indexes (classify : string -> result Data) (done : list string) (c : Classified)
  : Prop :=
  (forall i, (i < length done)%nat -> is_Some (data_at classify done i))
  /\ (forall i, c_heap c !! i = node_of <$> data_at classify done i)
  /\ cls_plain (c_classes c) = positions_of_kind classify done plain
  /\ (forall m, cls_module (c_classes c) !! m = last (positions classify done module m))
  /\ (forall m, cls_module_partition (c_classes c) !! m
                = last (positions classify done module_partition m))
  /\ (forall m, assoc m (cls_module_impl (c_classes c))
                = match positions classify done module_impl m with
                  | [] => None
                  | l => Some l
                  end)
  /\ c_root_node c = match done with [] => None | _ => Some 0%nat end.

(** ** The kinds of the nodes *)

(** The kind and the module name of a node. *)
Definition kind_of (n : Node) : Type_ * option string := (type (data n), module_ (data n)).

(** [same_kinds h h']: the same nodes, each of the kind and with the name it
    had. *)
Definition same_kinds (h h' : heap) : Prop :=
  forall a, kind_of <$> h' !! a = kind_of <$> h !! a.

(** [registered cls h]: every interface and every partition of [h] has its
    name in [self.classes], and the node found under that name is a node of
    [h]. *)
Definition registered (cls : Classes) (h : heap) : Prop :=
  forall a n, h !! a = Some n ->
    (type (data n) = module ->
     exists b, cls_module cls !! module_ (data n) = Some b /\ is_Some (h !! b))
    /\ (type (data n) = module_partition ->
        exists b, cls_module_partition cls !! module_ (data n) = Some b /\ is_Some (h !! b)).

(** ** The way of the scheduler *)

(** [retains h h']: a child that its node owns in [h] is a child of that
    node in [h'] still. *)
Definition retains (h h' : heap) : Prop :=
  forall a n n' c, h !! a = Some n -> h' !! a = Some n' ->
    In c (children n) -> owned h a c -> In c (children n').

(** [untouched g0 g]: a node without entry in [self.node_depth] had none in
    [g0], and has the parent it had there. *)
Definition untouched (g0 g : Graph) : Prop :=
  forall x, node_depth g !! x = None ->
    node_depth g0 !! x = None /\ parent <$> g_heap g !! x = parent <$> g_heap g0 !! x.

(** [arrived_at root_node g x depth]: the call [fill_children(x, depth)] is
    the first call, or follows an arrival at [x] that [self.node_depth]
    accounts for. *)
Definition arrived_at (root_node : nat) (g : Graph) (x : nat) (depth : Z) : Prop :=
  (x = root_node /\ depth = 0%Z)
  \/ exists d, node_depth g !! x = Some d /\ (depth <= d + 1)%Z.

(** [self.last_node] is set, to a node that the walk has arrived at at the
    depth [self.last_node_depth]. *)
Definition last_arrived (root_node : nat) (g : Graph) : Prop :=
  exists x, last_node g = Some x /\ arrived_at root_node g x (last_node_depth g).

(** The entries of [self.node_depth] stay, and do not decrease. *)
Definition grows (g g' : Graph) : Prop :=
  forall x d, node_depth g !! x = Some d ->
    exists d', node_depth g' !! x = Some d' /\ (d <= d')%Z.

(** No entry of [self.node_depth] is as great as [self.last_node_depth]. *)
Definition bounded (g : Graph) : Prop :=
  forall x d, node_depth g !! x = Some d -> (d < last_node_depth g)%Z.

(** [same_parents h h']: every node has in [h'] the parent it has in [h]. *)
Definition same_parents (h h' : heap) : Prop :=
  forall x, parent <$> h' !! x = parent <$> h !! x.

(** ** Header units *)

(** The interface file of a header unit, and the command that makes it. *)
Definition header_bmi_path (st : Settings) (header : string) : string :=
  Py.join (dir_header_units st) (Py.replace "/" "-" header) +:+ ".pcm".

Definition precompile_args (st : Settings) (header : string) : list string :=
  cxx st ++ base_flags st
  ++ ["-Wno-pragma-system-header-outside-header"; "--precompile";
      "-xc++-system-header"; header; "-o"; header_bmi_path st header].

(** ** The commands of a build *)

(** [compile_command fuel st h a args]: [args] is the command that [compile]
    runs for the node [a]. *)
Definition compile_command (fuel : nat) (st : Settings) (h : heap) (a : nat)
    (args : list string) : Prop :=
  exists n, h !! a = Some n
            /\ compile_args fuel st h (source_path st n) (target_path st n) a = Ok args.

(** The command of [link]. *)
Definition link_args (st : Settings) (objects : list string) (target : string) : list string :=
  cxx st ++ base_flags st ++ type_flags st ++ objects ++ ["-o"; Py.join (dir_build st) target].

(** ** The arguments read *)

(** [read_at argv name values]: [name] is an argument of the command line,
    other than the name of the program, that Baker knows, and [values] are the
    arguments that follow it, as many as [args_nature] says. *)
Definition read_at (argv : list string) (name : string) (values : list string) : Prop :=
  assoc name args_nature = Some (length values)
  /\ exists i, (0 < i)%nat /\ argv !! i = Some name
               /\ values = take (length values) (drop (S i) argv)
               /\ (i + length values < length argv)%nat.

(** ** What can stop a build *)

(** [nameless h]: an interface or a partition of [h] has no module name. *)
Definition nameless (h : heap) : Prop :=
  exists b nb, h !! b = Some nb /\ is_module_type (type (data nb)) = true
               /\ module_ (data nb) = None.

(** The exceptions that come from outside the tree: a command that fails,
    a file that is missing, a module without name. *)
Definition from_outside (h : heap) (e : exn) : Prop :=
  e = CommandFailed \/ e = PyOSError \/ (e = PyTypeError /\ nameless h).

(** [on_the_way h root_node s k]: the scheduler is at a node of its way, with
    the nodes of the level that are still to come in [siblings_left], and
    fewer than [k] nodes before it at all. *)
Definition on_the_way (h : heap) (root_node : nat) (s : Sched) (k : nat) : Prop :=
  if decide (s_node s = root_node) then (0 < k)%nat
  else exists p pn left levels,
         h !! p = Some pn /\ s_siblings_left s = Some (NodeRef <$> left)
         /\ In (s_node s) left /\ level_of root_node h p left
         /\ Forall (fun y => rtc (edge h) root_node y) left
         /\ walk_up h root_node p levels
         /\ (length left + length (concat levels) < k)%nat.

(** ** The imports, resolved where they stand *)

(** [resolves cls h0 h]: every node of [h0] is in [h] with the data it had,
    and with the children it had or with their resolutions. *)
Definition resolves (cls : Classes) (h0 h : heap) : Prop :=
  forall a n0, h0 !! a = Some n0 ->
    exists n, h !! a = Some n /\ data n = data n0
              /\ (children n = children n0
                  \/ mapM (resolve cls (module_ (data n0))) (children n0) = Ok (children n)).

(** ** What the clip keeps *)

Global Instance owned_dec (h : heap) (a : nat) (c : child) : Decision (owned h a c).
Proof.
  destruct c as [s|b].
  - right. intros (b & nb & Hc & _). discriminate Hc.
  - destruct (h !! b) as [nb|] eqn:Hb.
    + destruct (decide (parent nb = Some a)) as [Hp|Hp].
      * left. exists b, nb. auto.
      * right. intros (b' & nb' & [= <-] & Hb' & Hp'). congruence.
    + right. intros (b' & nb' & [= <-] & Hb' & _). congruence.
Defined.

(** [keeps_owned h h']: the children that a node owns are in [h'] what they
    are in [h], each as often and in the same order. *)
Definition keeps_owned (h h' : heap) : Prop :=
  forall a n n', h !! a = Some n -> h' !! a = Some n' ->
    filter (owned h a) (children n') = filter (owned h a) (children n).

(** ** The tree, node by node *)

(** [held a cs]: how often the node [a] stands in the list of children [cs]. *)
Definition held (a : nat) (cs : list child) : nat :=
  length (filter (fun c => c = NodeRef a) cs).

(** [lines_of a printed]: how many of the lines that [walk] has printed are
    lines of the node [a]. *)
Definition lines_of (a : nat) (printed : list (nat * nat * option nat)) : nat :=
  length (filter (fun line => line.1.2 = a) printed).

(** [no_repeat h root_node]: no node that [root_node] reaches lists a child
    twice. *)
Definition no_repeat (h : heap) (root_node : nat) : Prop :=
  forall x nx, rtc (edge h) root_node x -> h !! x = Some nx -> NoDup (children nx).

(** * Example projects *)

(** A classifier for the examples: what it says of each source file. *)
Definition example_table : list (string * Data) :=
  [("app/main.cpp", mkData plain None "app/main.cpp" ["A"; "B"] []);
   ("app/a.cppm", mkData module (Some "A") "app/a.cppm" ["C"; "E"] []);
   ("app/b.cppm", mkData module (Some "B") "app/b.cppm" ["D"] []);
   ("app/c.cppm", mkData module (Some "C") "app/c.cppm" [] []);
   ("app/d.cppm", mkData module (Some "D") "app/d.cppm" [] []);
   ("app/e.cppm", mkData module (Some "E") "app/e.cppm" [] []);
   ("app/m.cppm", mkData module (Some "M") "app/m.cppm" [] []);
   ("lib/main.cpp", mkData plain None "lib/main.cpp" ["X"] []);
   ("lib/x.cppm", mkData module (Some "X") "lib/x.cppm" ["X:part"] []);
   ("lib/xp.cppm", mkData module_partition (Some "X:part") "lib/xp.cppm" ["B"] []);
   ("dia/main.cpp", mkData plain None "dia/main.cpp" ["Q"; "P"] []);
   ("dia/p.cppm", mkData module (Some "P") "dia/p.cppm" ["Q"] []);
   ("dia/q.cppm", mkData module (Some "Q") "dia/q.cppm" [] []);
   ("main.cpp", mkData plain None "main.cpp" [] [])].

Definition example_classify (source : string) : result Data :=
  of_option ClassifyError (assoc source example_table).

(** The settings of a debug build with the default options. *)
Definition example_settings (full_rebuild : bool) : Settings :=
  mkSettings false full_rebuild ["clang++"]
    ["-std=c++23"; "-Wno-experimental-header-units"] ["-g"; "-DDEBUG"]
    "src" "build/debug" "build/debug/object" "build/header_units".

Fixpoint argument_after (flag : string) (args : list string) : option string :=
  match args with
  | a :: ((b :: _) as rest) => if String.eqb a flag then Some b else argument_after flag rest
  | _ => None
  end.

(** A toolchain for the examples: a command writes the file named after
    [-o], and the module interface beside it when the source named after [-c]
    is a [.cppm] file, with a time later than that of every file. *)
Definition example_toolchain : Toolchain := fun args files =>
  match argument_after "-o" args with
  | Some out =>
      let now := (1 + map_fold (fun _ t latest => Z.max t latest) 0 files)%Z in
      let source := default "" (argument_after "-c" args) in
      Some (<[out := now]>
              (if Py.endswith source ".cppm"
               then <[Py.removesuffix out ".o" +:+ ".pcm" := now]> files
               else files))
  | None => Some files
  end.

(** The sources of target [app]: [main.cpp] imports [A] and [B], [A] imports
    [C] and [E], [B] imports [D]. *)
Definition app_sources : list string :=
  ["app/main.cpp"; "app/a.cppm"; "app/b.cppm"; "app/c.cppm"; "app/d.cppm"; "app/e.cppm"].

(** The same with the interface [M], which nothing imports. *)
Definition app_sources_m : list string := app_sources ++ ["app/m.cppm"].

(** The sources of target [lib]: [main.cpp] imports [X], [X] imports its
    partition [X:part], which imports [B], which imports [D]. *)
Definition lib_sources : list string :=
  ["lib/main.cpp"; "lib/x.cppm"; "lib/xp.cppm"; "app/b.cppm"; "app/d.cppm"].

(** The sources of target [dia]: [main.cpp] imports [Q] and [P], and [P]
    imports [Q] too. *)
Definition dia_sources : list string := ["dia/main.cpp"; "dia/p.cppm"; "dia/q.cppm"].

(** The files of [app] after a build, every source older than its artifacts ... *)
Definition app_files : gmap string Z :=
  list_to_map
    [("src/app/main.cpp", 10%Z); ("src/app/a.cppm", 10%Z); ("src/app/b.cppm", 10%Z);
     ("src/app/c.cppm", 10%Z); ("src/app/d.cppm", 10%Z); ("src/app/e.cppm", 10%Z);
     ("build/debug/object/app/main.o", 20%Z);
     ("build/debug/object/app/a.o", 20%Z); ("build/debug/object/app/a.pcm", 20%Z);
     ("build/debug/object/app/b.o", 20%Z); ("build/debug/object/app/b.pcm", 20%Z);
     ("build/debug/object/app/c.o", 20%Z); ("build/debug/object/app/c.pcm", 20%Z);
     ("build/debug/object/app/d.o", 20%Z); ("build/debug/object/app/d.pcm", 20%Z);
     ("build/debug/object/app/e.o", 20%Z); ("build/debug/object/app/e.pcm", 20%Z)].

(** ... and after [c.cppm] has been touched. *)
Definition app_files_touched : gmap string Z := <["src/app/c.cppm" := 30%Z]> app_files.

(** ... or after [e.cppm] has been touched. *)
Definition app_files_touched_e : gmap string Z := <["src/app/e.cppm" := 30%Z]> app_files.

Definition example_fuel : nat := 50.

(** The state of a target of the examples after each step of its build. *)
Definition classified (sources : list string) : Classified :=
  match gen_classes example_classify id sources with
  | Ok c => c
  | Err _ => mkClassified ∅ (mkClasses [] ∅ ∅ []) ∅ ∅ None
  end.

Definition resolved_graph (sources : list string) : Graph :=
  match build_dependency_tree example_fuel (c_classes (classified sources)) 0
          (c_heap (classified sources)) with
  | Ok g => g
  | Err _ => mkGraph ∅ ∅ 0 None []
  end.

Definition clipped_tree (sources : list string) : heap :=
  match clip_redundant example_fuel 0 (g_heap (resolved_graph sources)) with
  | Ok h => h
  | Err _ => ∅
  end.

Definition reduced_tree (sources : list string) : heap :=
  match fix_module_partition_deps example_fuel (c_classes (classified sources)) 0
          (clipped_tree sources) with
  | Ok h => h
  | Err _ => ∅
  end.

Definition folded_twice (sources : list string) : heap :=
  match fix_module_partition_deps example_fuel (c_classes (classified sources)) 0
          (reduced_tree sources) with
  | Ok h => h
  | Err _ => ∅
  end.

(** The sources of [app] alone, before any build. *)
Definition app_files_fresh : gmap string Z :=
  list_to_map
    [("src/app/main.cpp", 10%Z); ("src/app/a.cppm", 10%Z); ("src/app/b.cppm", 10%Z);
     ("src/app/c.cppm", 10%Z); ("src/app/d.cppm", 10%Z); ("src/app/e.cppm", 10%Z)].

(** The full rebuild of [app] from its sources alone. *)
Definition app_rebuilt : Built :=
  match make_target example_classify id example_toolchain example_fuel 50
          (example_settings true) "app" app_sources (mkWorld app_files_fresh []) with
  | Ok b => b
  | Err _ => mkBuilt (mkClasses [] ∅ ∅ []) 0 0 ∅
               (mkSched 0 None false false 0 [] (mkWorld ∅ [])) (mkWorld ∅ [])
  end.

(** The scheduler of [app] at the start of a full rebuild, and one round
    later. *)
Definition app_sched_start : Sched :=
  mkSched 3 (Some [NodeRef 3; NodeRef 5]) true false 0 [] (mkWorld ∅ []).

Definition app_sched_second : Sched :=
  match sched_round example_toolchain example_fuel (example_settings true) 0
          (reduced_tree app_sources) app_sched_start with
  | Ok (s, _) => s
  | Err _ => app_sched_start
  end.

(** A configuration file: a full table of targets, one flag set, and a key
    that Baker does not know. *)
Definition example_bakerfile : gmap string json :=
  list_to_map
    [("targets", JObj (list_to_map [("app", JList [JStr "app/main.cpp"])]));
     ("flags", JObj (list_to_map [("debug", JList [JStr "-O0"])]));
     ("jobs", JInt 4)].

(** The same with a number where the compiler is named. *)
Definition example_bakerfile_wrong : gmap string json :=
  <["options" := JObj (list_to_map [("cxx", JInt 7)])]> example_bakerfile.

(** The sources of target [tools]: three plain sources, the first of which
    is the root. *)
Definition tools_sources : list string := ["app/main.cpp"; "lib/main.cpp"; "dia/main.cpp"].

(** A project with implementation units: [main.cpp] imports [K], and
    [k.cpp] and [k2.cpp] implement [K]. *)
Definition eng_table : list (string * Data) :=
  [("eng/main.cpp", mkData plain None "eng/main.cpp" ["K"] []);
   ("eng/k.cppm", mkData module (Some "K") "eng/k.cppm" [] []);
   ("eng/k.cpp", mkData module_impl (Some "K") "eng/k.cpp" [] []);
   ("eng/k2.cpp", mkData module_impl (Some "K") "eng/k2.cpp" [] [])].

Definition eng_classify (source : string) : result Data :=
  of_option ClassifyError (assoc source eng_table).

Definition eng_sources : list string := ["eng/main.cpp"; "eng/k.cppm"; "eng/k.cpp"; "eng/k2.cpp"].

Definition eng_classified : Classified :=
  match gen_classes eng_classify id eng_sources with
  | Ok c => c
  | Err _ => mkClassified ∅ (mkClasses [] ∅ ∅ []) ∅ ∅ None
  end.

(** The heap of a target after [attach_plain_sources], and after
    [attach_module_impls]. *)
Definition with_plain_sources (c : Classified) : heap :=
  match attach_plain_sources (c_classes c) 0 (c_heap c) with
  | Ok h => h
  | Err _ => ∅
  end.

Definition with_module_impls (c : Classified) : heap :=
  match attach_module_impls (c_classes c) 0 (c_heap c) with
  | Ok h => h
  | Err _ => ∅
  end.

(** The scheduler of [app] after the run that follows a touch of [c.cppm]. *)
Definition app_touched_sched : Sched :=
  match compile_all 50 example_toolchain example_fuel (example_settings false) 0 3
          (reduced_tree app_sources) (mkWorld app_files_touched []) with
  | Ok s => s
  | Err _ => app_sched_start
  end.

(** A configuration file that names its targets and nothing else. *)
Definition plain_bakerfile : gmap string json :=
  list_to_map [("targets", JObj (list_to_map [("app", JList [JStr "app/main.cpp"])]))].

(** A command line: a full rebuild of everything, then a run of [app]. *)
Definition example_argv : list string := ["baker"; "rebuild"; "run"; "app"].

Definition example_args : gmap string (list string) :=
  match parse_args 4 example_argv with
  | Args args => args
  | _ => ∅
  end.

(** What [load_bakerfile] makes of the two files. *)
Definition loaded (file : gmap string json) : gmap string json :=
  match load_bakerfile (Some file) with
  | Ok options => options
  | Err _ => ∅
  end.

(** A project with a repeated import: [main.cpp] imports [R] twice. *)
Definition rep_table : list (string * Data) :=
  [("rep/main.cpp", mkData plain None "rep/main.cpp" ["R"; "R"] []);
   ("rep/r.cppm", mkData module (Some "R") "rep/r.cppm" [] [])].

Definition rep_classify (source : string) : result Data :=
  of_option ClassifyError (assoc source rep_table).

Definition rep_sources : list string := ["rep/main.cpp"; "rep/r.cppm"].

Definition rep_classified : Classified :=
  match gen_classes rep_classify id rep_sources with
  | Ok c => c
  | Err _ => mkClassified ∅ (mkClasses [] ∅ ∅ []) ∅ ∅ None
  end.

Definition rep_resolved : Graph :=
  match build_dependency_tree example_fuel (c_classes rep_classified) 0
          (c_heap rep_classified) with
  | Ok g => g
  | Err _ => mkGraph ∅ ∅ 0 None []
  end.

Definition rep_clipped : heap :=
  match clip_redundant example_fuel 0 (g_heap rep_resolved) with
  | Ok h => h
  | Err _ => ∅
  end.

(** * Proofs *)

(** ** The exception monad *)

Lemma bind_Ok {A B} (m : result A) (f : A -> result B) (b : B) :
  m ≫= f = Ok b <-> exists a, m = Ok a /\ f a = Ok b.
Proof.
  destruct m as [a|e]; simpl; split.
  - intros H. exists a. auto.
  - intros (a' & Ha & H). congruence.
  - discriminate.
  - intros (a' & Ha & _). discriminate.
Qed.

Lemma fmap_Ok {A B} (m : result A) (f : A -> B) (b : B) :
  f <$> m = Ok b <-> exists a, m = Ok a /\ f a = b.
Proof.
  destruct m as [a|e]; simpl; split.
  - intros [= <-]. eauto.
  - intros (a' & [= <-] & <-). reflexivity.
  - discriminate.
  - intros (a' & Ha & _). discriminate.
Qed.

Lemma of_option_Ok {A} (e : exn) (o : option A) (a : A) :
  of_option e o = Ok a <-> o = Some a.
Proof. destruct o; simpl; split; congruence. Qed.

Lemma Ok_inj {A} (a b : A) : Ok a = Ok b -> a = b.
Proof. congruence. Qed.

(** Takes a hypothesis [m ≫= f = Ok b] apart, again and again. *)
Ltac inv_ok :=
  repeat match goal with
         | H : _ ≫= _ = Ok _ |- _ =>
             let x := fresh "x" in
             let Hx := fresh "Hx" in
             apply bind_Ok in H; destruct H as (x & Hx & H)
         | H : _ <$> _ = Ok _ |- _ =>
             let x := fresh "x" in
             let Hx := fresh "Hx" in
             apply fmap_Ok in H; destruct H as (x & Hx & H)
         | H : of_option _ _ = Ok _ |- _ => apply of_option_Ok in H
         | H : Ok _ = Ok _ |- _ => apply Ok_inj in H
         | H : Err _ = Ok _ |- _ => discriminate H
         | H : (let '(_, _) := ?p in _) = Ok _ |- _ => destruct p
         end.

Lemma for_each_app {A S} (body : A -> S -> result S) (xs ys : list A) (st : S) :
  for_each body (xs ++ ys) st = for_each body xs st ≫= for_each body ys.
Proof.
  revert st. induction xs as [|x xs IH]; intros st; simpl; [reflexivity|].
  destruct (body x st); simpl; auto.
Qed.

(** An invariant of the body is an invariant of the loop. *)
Lemma for_each_inv {A S} (P : S -> Prop) (body : A -> S -> result S) (xs : list A) :
  (forall x st st', In x xs -> P st -> body x st = Ok st' -> P st') ->
  forall st st', P st -> for_each body xs st = Ok st' -> P st'.
Proof.
  induction xs as [|x xs IH]; intros Hbody st st' HP H; simpl in H.
  - congruence.
  - inv_ok. eapply IH; [| |exact H].
    + intros y s s' Hy. apply Hbody. now right.
    + eapply Hbody; [now left|exact HP|exact Hx].
Qed.

(** ** C7: the triggered flag *)

Lemma sched_round_triggered tc fuel st root_node h s s' stop :
  s_triggered_recompile s = true ->
  sched_round tc fuel st root_node h s = Ok (s', stop) ->
  s_triggered_recompile s' = true
  /\ s_compiled s' = s_compiled s ++ [s_node s]
  /\ s_compiles s' = S (s_compiles s).
Proof.
  intros Ht H. unfold sched_round in H. rewrite Ht in H. simpl in H.
  inv_ok. subst.
  destruct (decide (s_node s = root_node)); inv_ok; simpl in *.
  - simplify_eq. simpl. auto.
  - match goal with
    | H : match ?l with [] => _ | _ :: _ => _ end = _ |- _ => destruct l
    end; inv_ok; simplify_eq; simpl; auto.
Qed.

(** C7.  Once [triggered_recompile] is true at the head of a round of
    [compile_all], it is true at the head of every later round of the run, and
    every round from then on hands its node to [compile] (and counts it),
    whatever the files say. *)
Theorem triggered_recompile_never_cleared tc fuel st root_node h s s' :
  s_triggered_recompile s = true ->
  later_round tc fuel st root_node h s s' ->
  s_triggered_recompile s' = true
  /\ forall s'' stop,
       sched_round tc fuel st root_node h s' = Ok (s'', stop) ->
       s_triggered_recompile s'' = true
       /\ s_compiled s'' = s_compiled s' ++ [s_node s']
       /\ s_compiles s'' = S (s_compiles s').
Proof.
  intros Ht Hl. induction Hl as [s|s s1 s2 Hr Hl IH].
  - split; [exact Ht|]. intros s'' stop. now apply sched_round_triggered.
  - apply IH. eapply sched_round_triggered; eauto.
Qed.

(** The flag is set by a request for a full rebuild ... *)
Lemma compile_all_rebuild_triggered rounds tc fuel st root_node last h w n :
  h !! last = Some n ->
  compile_all rounds tc fuel st root_node last h w
  = match parent n with
    | Some p => pn ← deref h p; Ok (Some (children pn))
    | None => Ok None
    end ≫= fun sib =>
      sched_loop rounds tc fuel st root_node h (mkSched last sib (rebuild st) false 0 [] w).
Proof. intros Hn. unfold compile_all, deref. rewrite Hn. reflexivity. Qed.

(** ... and by going up from a level after some node has been compiled. *)
Lemma sched_round_ascent tc fuel st root_node h s s' n :
  h !! s_node s = Some n ->
  sched_round tc fuel st root_node h s = Ok (s', false) ->
  s_siblings_left s = Some [NodeRef (s_node s)] ->
  s_node s' = default 0%nat (parent n)
  /\ s_triggered_recompile s' = s_triggered_recompile_next s' || s_triggered_recompile s.
Proof.
  intros Hn H Hsib. unfold sched_round, deref in H. rewrite Hn in H. simpl in H.
  inv_ok.
  match goal with
  | H1 : (if ?b then _ else _) = Ok ?s1 |- _ =>
      assert (Hs1 : s_siblings_left s1 = Some [NodeRef (s_node s)]
                    /\ s_triggered_recompile s1 = s_triggered_recompile s)
        by (destruct b; inv_ok; subst; simpl; auto);
      clear H1
  end.
  destruct Hs1 as [Hs1 Hs2].
  destruct (decide (s_node s = root_node)); [inv_ok; congruence|].
  rewrite Hs1 in H. simpl in H.
  destruct (decide (NodeRef (s_node s) = NodeRef (s_node s))); [|congruence].
  simpl in H. inv_ok. simplify_eq. simpl.
  match goal with H : parent n = Some _ |- _ => rewrite H end.
  rewrite Hs2. auto.
Qed.

(** ** C8: partitions of another module *)

Lemma mapM_cons {A B} (f : A -> result B) (x : A) (l : list A) :
  mapM f (x :: l) = y ← f x; k ← mapM f l; Ok (y :: k).
Proof. reflexivity. Qed.






(** ** C10: the configuration *)

Lemma load_subkey_other key given entry acc acc' k :
  load_subkey key given entry acc = Ok acc' -> k <> entry.1 -> acc' !! k = acc !! k.
Proof.
  destruct entry as [subkey value_def]. unfold load_subkey. intros H Hk. simpl in Hk.
  inv_ok. destruct x; inv_ok.
  - destruct (decide (py_type x <> py_type value_def)); inv_ok. subst.
    now rewrite lookup_insert_ne.
  - subst. now rewrite lookup_insert_ne.
Qed.

Lemma load_subkey_this key given subkey value_def acc acc' :
  load_subkey key given (subkey, value_def) acc = Ok acc' ->
  subkey_loaded given subkey value_def acc'.
Proof.
  unfold load_subkey, subkey_loaded. intros H. inv_ok. destruct x; inv_ok.
  - destruct (decide (py_type x <> py_type value_def)) as [|E]; inv_ok. subst.
    right. exists x. rewrite lookup_insert_eq. repeat split; auto.
    destruct (decide (py_type x = py_type value_def)); tauto.
  - subst. left. rewrite lookup_insert_eq. auto.
Qed.

Lemma load_subkeys_other key given defaults acc sub k :
  for_each (load_subkey key given) defaults acc = Ok sub ->
  ~ In k defaults.*1 -> sub !! k = acc !! k.
Proof.
  revert acc. induction defaults as [|entry rest IH]; intros acc H Hk; simpl in *.
  - inv_ok. now subst.
  - inv_ok. rewrite (IH _ H) by tauto.
    eapply load_subkey_other; [eassumption|]. intros ->. tauto.
Qed.

Lemma load_subkeys_loaded key given defaults acc sub subkey value_def :
  NoDup defaults.*1 ->
  for_each (load_subkey key given) defaults acc = Ok sub ->
  In (subkey, value_def) defaults ->
  subkey_loaded given subkey value_def sub.
Proof.
  revert acc. induction defaults as [|entry rest IH]; intros acc Hnd H Hin; simpl in *.
  - contradiction.
  - apply NoDup_cons in Hnd as [Hfresh Hnd]. inv_ok. destruct Hin as [->|Hin].
    + apply load_subkey_this in Hx.
      assert (Hsame : sub !! subkey = x !! subkey).
      { eapply load_subkeys_other; [eassumption|]. rewrite <- list_elem_of_In. exact Hfresh. }
      unfold subkey_loaded in *. rewrite Hsame. exact Hx.
    + eapply IH; eauto.
Qed.

(** A subkey of the wrong type stops the loop over the subkeys. *)
Lemma load_subkeys_wrong_type key given defaults acc subkey value_def value :
  In (subkey, value_def) defaults ->
  py_in subkey given = Ok true ->
  py_getitem given subkey = Ok value ->
  py_type value <> py_type value_def ->
  exists e, for_each (load_subkey key given) defaults acc = Err e.
Proof.
  intros Hin Hp Hg Ht. revert acc.
  induction defaults as [|entry rest IH]; intros acc; cbn [for_each In] in *; [contradiction|].
  destruct Hin as [->|Hin].
  - assert (load_subkey key given (subkey, value_def) acc = Err (OptionType key subkey)) as ->.
    { unfold load_subkey. rewrite Hp. cbn [mbind result_bind]. rewrite Hg.
      cbn [mbind result_bind].
      destruct (decide (py_type value <> py_type value_def)); [reflexivity|tauto]. }
    cbn [mbind result_bind]. eauto.
  - destruct (load_subkey key given entry acc) as [acc'|e]; cbn [mbind result_bind]; eauto.
Qed.

Lemma load_key_other options entry acc acc' k :
  load_key options entry acc = Ok acc' -> k <> entry.1 -> acc' !! k = acc !! k.
Proof.
  destruct entry as [key defaults]. unfold load_key. intros H Hk. simpl in Hk.
  destruct (options !! key); inv_ok; subst; now rewrite lookup_insert_ne.
Qed.

Lemma load_keys_other options entries acc self k :
  for_each (load_key options) entries acc = Ok self ->
  ~ In k entries.*1 -> self !! k = acc !! k.
Proof.
  revert acc. induction entries as [|entry rest IH]; intros acc H Hk; simpl in *.
  - inv_ok. now subst.
  - inv_ok. rewrite (IH _ H) by tauto.
    eapply load_key_other; [eassumption|]. intros ->. tauto.
Qed.

Lemma load_keys_loaded options entries acc self key defaults :
  NoDup entries.*1 ->
  for_each (load_key options) entries acc = Ok self ->
  In (key, defaults) entries ->
  key_loaded options key defaults self.
Proof.
  revert acc. induction entries as [|entry rest IH]; intros acc Hnd H Hin; simpl in *.
  - contradiction.
  - apply NoDup_cons in Hnd as [Hfresh Hnd]. inv_ok. destruct Hin as [->|Hin].
    + assert (Hsame : self !! key = x !! key).
      { eapply load_keys_other; [eassumption|]. rewrite <- list_elem_of_In. exact Hfresh. }
      unfold key_loaded, load_key in *. rewrite Hsame.
      destruct (options !! key); inv_ok; subst; rewrite lookup_insert_eq; eauto.
    + eapply IH; eauto.
Qed.

(** The last loop of [load_bakerfile] keeps what [self.options] has and
    takes the other keys from the file. *)
Lemma pass_through_lookup (self options : gmap string json) (k : string) :
  map_fold (fun key value acc =>
              if bool_decide (is_Some (acc !! key)) then acc else <[key := value]> acc)
           self options !! k
  = match self !! k with
    | Some v => Some v
    | None => options !! k
    end.
Proof.
  apply (map_fold_weak_ind (fun r m => r !! k = match self !! k with
                                               | Some v => Some v
                                               | None => m !! k
                                               end)).
  - rewrite lookup_empty. destruct (self !! k); reflexivity.
  - intros i x m r Hi IH. case_bool_decide as Hr.
    + rewrite IH. destruct (self !! k) eqn:E; [reflexivity|].
      destruct (decide (i = k)) as [->|Hne].
      * rewrite IH, Hi in Hr. destruct Hr. discriminate.
      * now rewrite lookup_insert_ne.
    + destruct (decide (i = k)) as [->|Hne].
      * rewrite lookup_insert_eq.
        destruct (self !! k) eqn:E; [|now rewrite lookup_insert_eq].
        exfalso. apply Hr. rewrite IH. eauto.
      * rewrite !lookup_insert_ne by done. exact IH.
Qed.

Lemma options_default_NoDup : NoDup options_default.*1.
Proof. apply (bool_decide_unpack _). by vm_compute. Qed.

Lemma options_default_sub_NoDup key defaults :
  In (key, defaults) options_default -> NoDup defaults.*1.
Proof.
  simpl. intros [[= <- <-]|[[= <- <-]|[[= <- <-]|[]]]];
    apply (bool_decide_unpack _); by vm_compute.
Qed.

(** C10.  For a configuration file that holds the object [options]:
    a recognized key that the file lacks gets its table of defaults; a
    recognized subkey that the value of its key does not contain gets its
    default; a recognized subkey present with a value of another type than its
    default makes [load_bakerfile] raise; every other top-level key of the file
    is in [self.options] with the value it has in the file. *)
Theorem load_bakerfile_defaults_and_pass_through (options : gmap string json) :
  (forall self key defaults,
     load_bakerfile (Some options) = Ok self ->
     In (key, defaults) options_default ->
     options !! key = None ->
     self !! key = Some (JObj (list_to_map defaults)))
  /\ (forall self key defaults given subkey value_def,
        load_bakerfile (Some options) = Ok self ->
        In (key, defaults) options_default ->
        In (subkey, value_def) defaults ->
        options !! key = Some given ->
        py_in subkey given = Ok false ->
        exists sub, self !! key = Some (JObj sub) /\ sub !! subkey = Some value_def)
  /\ (forall key defaults given subkey value_def value,
        In (key, defaults) options_default ->
        In (subkey, value_def) defaults ->
        options !! key = Some (JObj given) ->
        given !! subkey = Some value ->
        py_type value <> py_type value_def ->
        exists e, load_bakerfile (Some options) = Err e)
  /\ (forall self key value,
        load_bakerfile (Some options) = Ok self ->
        ~ In key options_default.*1 ->
        options !! key = Some value ->
        self !! key = Some value).
Proof.
  unfold load_bakerfile. repeat split.
  - intros self key defaults H Hin Hk.
    destruct (negb _); [discriminate|]. inv_ok. subst.
    rewrite pass_through_lookup.
    pose proof (load_keys_loaded _ _ _ _ _ _ options_default_NoDup Hx Hin) as Hl.
    unfold key_loaded in Hl. rewrite Hk in Hl. now rewrite Hl.
  - intros self key defaults given subkey value_def H Hin Hsub Hk Hp.
    destruct (negb _); [discriminate|]. inv_ok. subst.
    pose proof (load_keys_loaded _ _ _ _ _ _ options_default_NoDup Hx Hin) as Hl.
    unfold key_loaded in Hl. rewrite Hk in Hl. destruct Hl as (sub & Hsubs & Hself).
    exists sub. rewrite pass_through_lookup, Hself. split; [reflexivity|].
    pose proof (load_subkeys_loaded _ _ _ _ _ _ _
                  (options_default_sub_NoDup _ _ Hin) Hsubs Hsub) as [[_ ?]|(v & Hv & _)].
    + assumption.
    + congruence.
  - intros key defaults given subkey value_def value Hin Hsub Hk Hv Ht.
    destruct (negb _); [eauto|].
    destruct (for_each (load_key options) options_default ∅) as [self|e] eqn:E; [|simpl; eauto].
    exfalso.
    pose proof (load_keys_loaded _ _ _ _ _ _ options_default_NoDup E Hin) as Hl.
    unfold key_loaded in Hl. rewrite Hk in Hl. destruct Hl as (sub & Hsubs & _).
    destruct (load_subkeys_wrong_type key (JObj given) defaults ∅ subkey value_def value)
      as [e He]; auto.
    + simpl. rewrite Hv. rewrite bool_decide_true; eauto.
    + simpl. now rewrite Hv.
    + congruence.
  - intros self key value H Hin Hk.
    destruct (negb _); [discriminate|]. inv_ok. subst.
    rewrite pass_through_lookup, (load_keys_other _ _ _ _ _ Hx Hin), lookup_empty.
    exact Hk.
Qed.

(** ** C9: the root source *)

Lemma gen_class_later classify index source c c' :
  gen_class classify (S index) source c = Ok c' ->
  c_root_node c' = c_root_node c
  /\ forall a, a <> S index -> c_heap c' !! a = c_heap c !! a.
Proof.
  unfold gen_class. intros H.
  destruct (negb _); [discriminate|]. destruct (_ || _); [discriminate|].
  inv_ok. destruct (decide (S index = 0%nat)); [discriminate|]. inv_ok. subst. simpl.
  split; [reflexivity|]. intros a Ha. now rewrite lookup_insert_ne.
Qed.

Lemma gen_classes_from_later classify index sources c c' :
  gen_classes_from classify (S index) sources c = Ok c' ->
  c_root_node c' = c_root_node c
  /\ forall a, (a <= index)%nat -> c_heap c' !! a = c_heap c !! a.
Proof.
  revert index c. induction sources as [|source rest IH]; intros index c H; simpl in H.
  - inv_ok. subst. auto.
  - inv_ok. apply gen_class_later in Hx as [Hr Hh]. apply IH in H as [Hr' Hh'].
    split; [congruence|]. intros a Ha. rewrite Hh' by lia. apply Hh. lia.
Qed.

Lemma gen_class_accepted classify index source c :
  source_accepted classify source ->
  exists c', gen_class classify (S index) source c = Ok c'.
Proof.
  intros [[Hs Hd] [d Hc]]. unfold gen_class. rewrite Hs, Hd, Hc. simpl.
  destruct (decide (S index = 0%nat)); [discriminate|]. eauto.
Qed.

Lemma gen_classes_from_accepted classify index sources c :
  Forall (source_accepted classify) sources ->
  exists c', gen_classes_from classify (S index) sources c = Ok c'.
Proof.
  intros H. revert index c. induction H as [|source rest Hs _ IH]; intros index c; simpl.
  - eauto.
  - destruct (gen_class_accepted classify index source c Hs) as [c' ->]. simpl. apply IH.
Qed.

(** C9, amended.  Let the first source of a target pass the checks on its
    suffix and its directory and be classified as [d].  If [d] is not plain or
    the source does not end in [.cpp], [gen_classes] raises the root-source error,
    whatever the other sources are, and so does the build of the target, which has
    run no command by then.  Otherwise, when the other sources pass the checks
    and are classified too, [gen_classes] returns, and the root node is the node
    made for the first source, with no parent and the imports of [d] as
    children. *)
Theorem root_source_checked classify plain_order source rest d :
  source_checks source ->
  classify source = Ok d ->
  (type d <> plain \/ Py.endswith source ".cpp" = false ->
     gen_classes classify plain_order (source :: rest) = Err RootNotPlain
     /\ forall tc fuel rounds st target w,
          make_target classify plain_order tc fuel rounds st target (source :: rest) w
          = Err RootNotPlain)
  /\ (type d = plain -> Py.endswith source ".cpp" = true ->
      Forall (source_accepted classify) rest ->
      exists c, gen_classes classify plain_order (source :: rest) = Ok c
                /\ c_root_node c = Some 0%nat
                /\ c_heap c !! 0%nat = Some (mkNode None (Ident <$> post d) d)).
Proof.
  intros [Hs Hd] Hc. split.
  - intros Hbad.
    assert (E : gen_classes classify plain_order (source :: rest) = Err RootNotPlain).
    { unfold gen_classes. simpl. unfold gen_class. rewrite Hs, Hd, Hc. simpl.
      destruct Hbad as [Ht| ->].
      - rewrite bool_decide_false by exact Ht. reflexivity.
      - rewrite orb_true_r. reflexivity. }
    split; [exact E|]. intros. unfold make_target. rewrite E. reflexivity.
  - intros Ht Hcpp Hrest. unfold gen_classes. simpl. unfold gen_class at 1.
    rewrite Hs, Hd, Hc. simpl. rewrite bool_decide_true by exact Ht. rewrite Hcpp. simpl.
    match goal with
    | |- context [gen_classes_from classify 1 rest ?c0] =>
        destruct (gen_classes_from_accepted classify 0 rest c0 Hrest) as [c' Hc'];
        rewrite Hc'; apply gen_classes_from_later in Hc' as [Hr Hh]
    end.
    simpl. eexists. split; [reflexivity|]. simpl. split; [exact Hr|].
    rewrite Hh by lia. simpl. apply lookup_insert_eq.
Qed.

(** ** C6: what the folding of partitions leaves alone *)

Lemma same_but_post_refl n : same_but_post n n.
Proof. unfold same_but_post. tauto. Qed.

Lemma same_but_post_trans n1 n2 n3 :
  same_but_post n1 n2 -> same_but_post n2 n3 -> same_but_post n1 n3.
Proof. unfold same_but_post. intuition congruence. Qed.

Lemma same_but_post_set_post ps n : same_but_post n (set_post ps n).
Proof. unfold same_but_post. simpl. tauto. Qed.

Lemma frame_refl h : frame h h.
Proof. intros a. destruct (h !! a); auto using same_but_post_refl. Qed.

Lemma frame_trans h1 h2 h3 : frame h1 h2 -> frame h2 h3 -> frame h1 h3.
Proof.
  intros H12 H23 a. specialize (H12 a). specialize (H23 a).
  destruct (h1 !! a), (h2 !! a), (h3 !! a); try tauto.
  eauto using same_but_post_trans.
Qed.

Lemma frame_sym h1 h2 : frame h1 h2 -> frame h2 h1.
Proof.
  intros H a. specialize (H a). destruct (h1 !! a), (h2 !! a); try tauto.
  unfold same_but_post in *. intuition congruence.
Qed.

Lemma frame_set_post h a n ps :
  h !! a = Some n -> frame h (<[a := set_post ps n]> h).
Proof.
  intros Hn b. destruct (decide (a = b)) as [<-|Hne].
  - rewrite lookup_insert_eq, Hn. apply same_but_post_set_post.
  - rewrite lookup_insert_ne by done. destruct (h !! b); auto using same_but_post_refl.
Qed.

Lemma frame_deref h h' a n :
  frame h h' -> deref h a = Ok n -> exists n', deref h' a = Ok n' /\ same_but_post n n'.
Proof.
  unfold deref. intros H Hn. apply of_option_Ok in Hn. specialize (H a). rewrite Hn in H.
  destruct (h' !! a) as [n'|]; [|contradiction]. simpl. eauto.
Qed.

Lemma frame_deref_Err h h' a e :
  frame h h' -> deref h a = Err e -> deref h' a = Err e.
Proof.
  unfold deref. intros H Hn. specialize (H a).
  destruct (h !! a); [discriminate|]. destruct (h' !! a); [contradiction|]. exact Hn.
Qed.

Lemma frame_deref_child h h' c a n :
  frame h h' -> deref_child h c = Ok (a, n) ->
  exists n', deref_child h' c = Ok (a, n') /\ same_but_post n n'.
Proof.
  intros H Hc. destruct c as [s|b]; simpl in *; [discriminate|]. inv_ok. simplify_eq.
  destruct (frame_deref _ _ _ _ H Hx) as (n' & -> & Hs). simpl. eauto.
Qed.

Lemma frame_deref_child_Err h h' c e :
  frame h h' -> deref_child h c = Err e -> deref_child h' c = Err e.
Proof.
  intros H Hc. destruct c as [s|b]; simpl in *; [exact Hc|].
  destruct (deref h b) eqn:E; simpl in *; [discriminate|].
  now rewrite (frame_deref_Err _ _ _ _ H E).
Qed.

Lemma changes_interfaces_refl cls h : changes_interfaces cls h h.
Proof. split; [apply frame_refl|auto]. Qed.

Lemma changes_interfaces_trans cls h1 h2 h3 :
  changes_interfaces cls h1 h2 -> changes_interfaces cls h2 h3 ->
  changes_interfaces cls h1 h3.
Proof.
  intros [F12 H12] [F23 H23]. split; [eauto using frame_trans|].
  intros a. destruct (H12 a) as [|E12]; [auto|]. destruct (H23 a) as [|E23]; [auto|].
  right. congruence.
Qed.

Lemma fold_partition_changes cls node c h h' :
  fold_partition cls node c h = Ok h' -> changes_interfaces cls h h'.
Proof.
  unfold fold_partition. intros H. inv_ok.
  destruct (decide (type (data x) = module)); inv_ok; [|subst; apply changes_interfaces_refl].
  destruct (decide (type (data n0) = module_partition)); inv_ok;
    [|subst; apply changes_interfaces_refl].
  subst. unfold deref in *. inv_ok. split.
  - now apply frame_set_post.
  - intros a. destruct (decide (a = x0)) as [->|Hne].
    + left. eexists. eassumption.
    + right. now rewrite lookup_insert_ne.
Qed.

Lemma fix_module_partition_deps_changes fuel cls node h h' :
  fix_module_partition_deps fuel cls node h = Ok h' -> changes_interfaces cls h h'.
Proof.
  revert node h h'. induction fuel as [|f IH]; intros node h h' H; simpl in H; [discriminate|].
  inv_ok. revert H. generalize (children x). intros cs. clear Hx.
  assert (Hrefl : changes_interfaces cls h h) by apply changes_interfaces_refl.
  revert Hrefl. generalize h at 2 3 as h0. revert h'.
  induction cs as [|c cs IHcs]; intros h' h0 Hinv H; simpl in H.
  - inv_ok. now subst.
  - inv_ok. eapply IHcs; [|exact H].
    eapply changes_interfaces_trans; [exact Hinv|].
    eapply changes_interfaces_trans; [eapply fold_partition_changes; eassumption|].
    eapply IH; eassumption.
Qed.

Lemma for_each_ext {A S} (body body' : A -> S -> result S) (xs : list A) (st : S) :
  (forall x s, In x xs -> body x s = body' x s) ->
  for_each body xs st = for_each body' xs st.
Proof.
  revert st. induction xs as [|x xs IH]; intros st H; simpl; [reflexivity|].
  rewrite H by now left. destruct (body' x st); simpl; [|reflexivity].
  apply IH. intros y s Hy. apply H. now right.
Qed.

(** A walk that follows [children] and reads [data] except [post] does not
    see the difference between two heaps related by [frame]. *)
Lemma frame_walk {S} (h h' : heap) (k k' : nat -> S -> result S) (c : child) (s : S) :
  frame h h' ->
  (forall a, k a s = k' a s) ->
  ('(a, _) ← deref_child h c; k a s) = ('(a, _) ← deref_child h' c; k' a s).
Proof.
  intros F Hk. destruct (deref_child h c) as [[a n]|e] eqn:E.
  - destruct (frame_deref_child _ _ _ _ _ F E) as (n' & -> & _). simpl. apply Hk.
  - rewrite (frame_deref_child_Err _ _ _ _ F E). reflexivity.
Qed.

Lemma collect_modules_frame fuel st h h' node collected :
  frame h h' ->
  collect_modules fuel st h node collected = collect_modules fuel st h' node collected.
Proof.
  intros F. revert node collected.
  induction fuel as [|f IH]; intros node collected; simpl; [reflexivity|].
  destruct (deref h node) as [n|e] eqn:E.
  - destruct (frame_deref _ _ _ _ F E) as (n' & -> & Hs). simpl.
    destruct Hs as (_ & -> & -> & -> & -> & _).
    apply for_each_ext. intros c col _. apply frame_walk; auto.
  - rewrite (frame_deref_Err _ _ _ _ F E). reflexivity.
Qed.

Lemma collect_objects_frame fuel st h h' node collected :
  frame h h' ->
  collect_objects fuel st h node collected = collect_objects fuel st h' node collected.
Proof.
  intros F. revert node collected.
  induction fuel as [|f IH]; intros node collected; simpl; [reflexivity|].
  destruct (deref h node) as [n|e] eqn:E.
  - destruct (frame_deref _ _ _ _ F E) as (n' & -> & Hs). simpl.
    destruct Hs as (_ & -> & _ & _ & -> & _).
    apply for_each_ext. intros c col _. apply frame_walk; auto.
  - rewrite (frame_deref_Err _ _ _ _ F E). reflexivity.
Qed.

Lemma compile_args_frame fuel st h h' source target node :
  frame h h' ->
  compile_args fuel st h source target node = compile_args fuel st h' source target node.
Proof.
  intros F. unfold compile_args.
  destruct (deref h node) as [n|e] eqn:E.
  - destruct (frame_deref _ _ _ _ F E) as (n' & -> & Hs). simpl.
    destruct Hs as (_ & _ & _ & _ & _ & ->).
    now rewrite (collect_modules_frame _ _ _ _ _ _ F).
  - rewrite (frame_deref_Err _ _ _ _ F E). reflexivity.
Qed.

Lemma out_of_date_frame st files n n' :
  same_but_post n n' -> out_of_date st files n = out_of_date st files n'.
Proof.
  intros (_ & _ & Ht & _ & Hf & _).
  unfold out_of_date, bmi_target_path, source_path, target_path. now rewrite Ht, Hf.
Qed.

Lemma sched_round_frame tc fuel st root_node h h' s :
  frame h h' ->
  sched_round tc fuel st root_node h s = sched_round tc fuel st root_node h' s.
Proof.
  intros F. unfold sched_round, compile.
  destruct (deref h (s_node s)) as [n|e] eqn:E.
  2: { rewrite (frame_deref_Err _ _ _ _ F E). reflexivity. }
  destruct (frame_deref _ _ _ _ F E) as (n' & -> & Hs). simpl.
  rewrite (out_of_date_frame st _ n n' Hs).
  pose proof Hs as (Hp & _ & _ & _ & Hf & _).
  unfold source_path, target_path. rewrite Hf.
  rewrite !(compile_args_frame _ _ h h' _ _ _ F).
  match goal with |- ?l ≫= ?k = ?l ≫= ?k' => destruct l as [stale|]; [|reflexivity] end.
  simpl.
  match goal with |- ?l ≫= ?k = ?l ≫= ?k' => destruct l as [s1|]; [|reflexivity] end.
  simpl. destruct (decide (s_node s = root_node)); [reflexivity|].
  destruct (of_option PyAttributeError (s_siblings_left s1)) as [sib|]; [|reflexivity]. simpl.
  destruct (of_option PyValueError (Py.remove (NodeRef (s_node s)) sib)) as [[|next rest]|];
    [| |reflexivity]; simpl.
  - rewrite <- Hp. destruct (of_option PyAttributeError (parent n)) as [p|]; [|reflexivity].
    simpl. destruct (deref h p) as [pn|e] eqn:Ep.
    2: { rewrite (frame_deref_Err _ _ _ _ F Ep). reflexivity. }
    destruct (frame_deref _ _ _ _ F Ep) as (pn' & -> & (Hpp & _)). simpl. rewrite <- Hpp.
    destruct (parent pn) as [pp|]; [|reflexivity].
    destruct (deref h pp) as [ppn|e] eqn:Epp.
    2: { rewrite (frame_deref_Err _ _ _ _ F Epp). reflexivity. }
    destruct (frame_deref _ _ _ _ F Epp) as (ppn' & Hd & (_ & Hc & _)).
    rewrite Hd. simpl. rewrite Hc. reflexivity.
  - destruct (deref_child h next) as [[a na]|e] eqn:Ec.
    + destruct (frame_deref_child _ _ _ _ _ F Ec) as (na' & -> & _). reflexivity.
    + rewrite (frame_deref_child_Err _ _ _ _ F Ec). reflexivity.
Qed.

Lemma compile_all_frame rounds tc fuel st root_node last h h' w :
  frame h h' ->
  compile_all rounds tc fuel st root_node last h w
  = compile_all rounds tc fuel st root_node last h' w.
Proof.
  intros F. unfold compile_all.
  destruct (deref h last) as [n|e] eqn:E.
  2: { rewrite (frame_deref_Err _ _ _ _ F E). reflexivity. }
  destruct (frame_deref _ _ _ _ F E) as (n' & -> & (Hp & _)). simpl. rewrite <- Hp.
  assert (Hsib : match parent n with
                 | Some p => pn ← deref h p; Ok (Some (children pn))
                 | None => Ok None
                 end
                 = match parent n with
                   | Some p => pn ← deref h' p; Ok (Some (children pn))
                   | None => Ok None
                   end).
  { destruct (parent n) as [p|]; [|reflexivity].
    destruct (deref h p) as [pn|e] eqn:Ep.
    - destruct (frame_deref _ _ _ _ F Ep) as (pn' & Hd & (_ & Hc & _)).
      rewrite Hd. simpl. rewrite Hc. reflexivity.
    - rewrite (frame_deref_Err _ _ _ _ F Ep). reflexivity. }
  rewrite Hsib.
  match goal with |- ?l ≫= ?k = ?l ≫= ?k' => destruct l as [sib|]; [|reflexivity] end.
  simpl. generalize (mkSched last sib (rebuild st) false 0 [] w) as s.
  induction rounds as [|r IH]; intros s; simpl; [reflexivity|].
  rewrite (sched_round_frame tc fuel st root_node h h' s F).
  destruct (sched_round tc fuel st root_node h' s) as [[s' stop]|]; [|reflexivity].
  simpl. destruct stop; [reflexivity|apply IH].
Qed.

(** C6.  Running [fix_module_partition_deps] on the tree changes [data['post']]
    of interface nodes and nothing else: every node keeps its parent, its
    children and the rest of its data.  So the module flags that
    [collect_modules] gathers, the arguments of every compilation, the object
    paths that [collect_objects] gathers for the link, and the whole run of
    the scheduler are the same on the tree before and after the pass. *)
Theorem partition_folding_frame fuel cls root_node h h' :
  map_Forall (fun _ a => type ∘ data <$> h !! a = Some module) (cls_module cls) ->
  fix_module_partition_deps fuel cls root_node h = Ok h' ->
  (forall a, h' !! a = h !! a
             \/ exists n n', h !! a = Some n /\ h' !! a = Some n'
                             /\ type (data n) = module /\ same_but_post n n')
  /\ (forall f st a collected,
        collect_modules f st h' a collected = collect_modules f st h a collected)
  /\ (forall f st source target a,
        compile_args f st h' source target a = compile_args f st h source target a)
  /\ (forall f st a collected,
        collect_objects f st h' a collected = collect_objects f st h a collected)
  /\ (forall rounds tc f st last w,
        compile_all rounds tc f st root_node last h' w
        = compile_all rounds tc f st root_node last h w).
Proof.
  intros Hcls H. apply fix_module_partition_deps_changes in H as [F Hch].
  split; [|repeat split; intros; symmetry;
           auto using collect_modules_frame, compile_args_frame, collect_objects_frame,
                      compile_all_frame].
  intros a. destruct (Hch a) as [[m Hm]|E]; [|auto].
  right. pose proof (Hcls m a Hm) as Ht. simpl in Ht.
  destruct (h !! a) as [n|] eqn:Hn; [|discriminate]. injection Ht as Ht.
  specialize (F a). rewrite Hn in F.
  destruct (h' !! a) as [n'|]; [|contradiction]. eauto 6.
Qed.

(** ** C3: folding the partitions twice *)

Lemma extends_frame e b x : extends e b x -> frame b x.
Proof.
  intros H a. specialize (H a). destruct (b !! a), (x !! a); tauto.
Qed.

Lemma extends_nil h : extends (fun _ => []) h h.
Proof.
  intros a. destruct (h !! a); [|exact I]. split; [apply same_but_post_refl|].
  now rewrite app_nil_r.
Qed.

Lemma in_step_frame cls h0 h1 x y : frame h0 h1 -> in_step cls h0 h1 x y -> frame x y.
Proof.
  intros F (_ & e & Hx & Hy).
  eapply frame_trans; [apply frame_sym; eapply extends_frame; eassumption|].
  eapply frame_trans; [exact F|]. eapply extends_frame; eassumption.
Qed.

Lemma extends_append e b x a n ps :
  extends e b x -> x !! a = Some n ->
  extends (fun a' => if decide (a' = a) then e a' ++ ps else e a') b
          (<[a := set_post (post (data n) ++ ps) n]> x).
Proof.
  intros H Hn a'. specialize (H a'). destruct (decide (a' = a)) as [->|Hne].
  - rewrite lookup_insert_eq. rewrite Hn in H. destruct (b !! a) as [nb|]; [|contradiction].
    destruct H as [Hs Hp]. split.
    + eapply same_but_post_trans; [exact Hs|apply same_but_post_set_post].
    + simpl. rewrite Hp. now rewrite app_assoc.
  - rewrite lookup_insert_ne by done. exact H.
Qed.

Lemma fold_partition_in_step cls h0 h1 node c x y x' :
  frame h0 h1 -> in_step cls h0 h1 x y ->
  fold_partition cls node c x = Ok x' ->
  exists y', fold_partition cls node c y = Ok y' /\ in_step cls h0 h1 x' y'.
Proof.
  intros F0 J H. pose proof (in_step_frame _ _ _ _ _ F0 J) as F.
  unfold fold_partition in *. inv_ok.
  destruct (frame_deref _ _ _ _ F Hx) as (ny & Hny & (_ & _ & Hty & Hmy & _)).
  rewrite Hny. simpl. rewrite <- Hty, <- Hmy.
  destruct (decide (type (data x0) = module)); [|inv_ok; subst; eauto].
  inv_ok.
  match goal with
  | Hc : deref_child x c = Ok (_, ?cn) |- _ =>
      destruct (frame_deref_child _ _ _ _ _ F Hc) as (cn' & Hcn & (_ & _ & Htc & Hmc & _));
      rewrite Hcn; simpl; rewrite <- Htc, <- Hmc;
      destruct (decide (type (data cn) = module_partition)); [|inv_ok; subst; eauto]
  end.
  inv_ok.
  rename x1 into t, x2 into p, x3 into tgt, x4 into src.
  rewrite Hx1, Hx2. simpl.
  destruct (frame_deref _ _ _ _ F Hx3) as (tgt' & Ht' & _).
  destruct (frame_deref _ _ _ _ F Hx4) as (src' & Hs' & _).
  rewrite Ht', Hs'. simpl. eexists. split; [reflexivity|].
  unfold deref in Hx3, Hx4, Ht', Hs'. inv_ok.
  destruct J as (Hag & e1 & Ex & Ey).
  assert (Hsrc : post (data src) = post (data src')) by (eapply Hag; eassumption).
  rewrite <- Hsrc. subst x'. split.
  - intros m p1 nx ny' Hm Hnx Hny'.
    rename p into p0. rename p1 into p.
    destruct (decide (p = t)) as [->|Hne].
    + rewrite lookup_insert_eq in Hnx, Hny'. simplify_eq. simpl. f_equal. eapply Hag; eassumption.
    + rewrite lookup_insert_ne in Hnx, Hny' by done. eapply Hag; eassumption.
  - eexists. split; eapply extends_append; eassumption.
Qed.

Lemma fix_module_partition_deps_in_step fuel cls h0 h1 node x y x' :
  frame h0 h1 -> in_step cls h0 h1 x y ->
  fix_module_partition_deps fuel cls node x = Ok x' ->
  exists y', fix_module_partition_deps fuel cls node y = Ok y' /\ in_step cls h0 h1 x' y'.
Proof.
  intros F0. revert node x y x'.
  induction fuel as [|f IH]; intros node x y x' J H; simpl in *; [discriminate|].
  inv_ok. pose proof (in_step_frame _ _ _ _ _ F0 J) as F.
  destruct (frame_deref _ _ _ _ F Hx) as (ny & Hny & (_ & Hcy & _)).
  rewrite Hny. simpl. rewrite <- Hcy.
  clear Hx F Hny Hcy. revert x y x' J H. generalize (children x0) as cs.
  induction cs as [|c cs IHcs]; intros x y x' J H; simpl in *.
  - inv_ok. subst. eauto.
  - inv_ok.
    match goal with
    | Hf : fold_partition cls node c x = Ok ?x1 |- _ =>
        destruct (fold_partition_in_step _ _ _ _ _ _ _ _ F0 J Hf) as (y1 & Hy1 & J1);
        pose proof (in_step_frame _ _ _ _ _ F0 J1) as F1
    end. rewrite Hy1. simpl.
    match goal with
    | Hc : deref_child _ c = Ok (?a, _), Hr : fix_module_partition_deps f cls ?a _ = Ok _ |- _ =>
        destruct (frame_deref_child _ _ _ _ _ F1 Hc) as (cn' & Hcn & _); rewrite Hcn; simpl;
        destruct (IH _ _ _ _ J1 Hr) as (y2 & Hy2 & J2); rewrite Hy2
    end. simpl. eapply IHcs; eassumption.
Qed.

(** C3, amended.  When no node is both in [self.classes[Type.module]] and in
    [self.classes[Type.module_partition]], a second run of
    [fix_module_partition_deps] on the result of a first run returns too, and
    appends to [data['post']] of every node what the first run has appended to
    it: the list of an interface is as the first run left it only when the
    first run appended nothing to it. *)
Theorem partition_folding_twice fuel cls root_node h h1 :
  map_Forall (fun _ a => map_Forall (fun _ p => a <> p) (cls_module_partition cls))
             (cls_module cls) ->
  fix_module_partition_deps fuel cls root_node h = Ok h1 ->
  exists h2,
    fix_module_partition_deps fuel cls root_node h1 = Ok h2
    /\ forall a n n1, h !! a = Some n -> h1 !! a = Some n1 ->
         exists n2 appended,
           h2 !! a = Some n2
           /\ post (data n1) = post (data n) ++ appended
           /\ post (data n2) = post (data n1) ++ appended
           /\ (post (data n2) = post (data n1) <-> post (data n1) = post (data n)).
Proof.
  intros Hdisj H.
  pose proof (fix_module_partition_deps_changes _ _ _ _ _ H) as [F Hch].
  assert (J : in_step cls h h1 h h1).
  { split.
    - intros m p nx ny Hm Hnx Hny. destruct (Hch p) as [[m' Hi]|E].
      + exfalso. exact (Hdisj m' p Hi m p Hm eq_refl).
      + congruence.
    - exists (fun _ => []). split; apply extends_nil. }
  destruct (fix_module_partition_deps_in_step _ _ _ _ _ _ _ _ F J H) as (h2 & H2 & _ & e & E1 & E2).
  exists h2. split; [exact H2|]. intros a n n1 Hn Hn1.
  specialize (E1 a). specialize (E2 a). rewrite Hn, Hn1 in E1. rewrite Hn1 in E2.
  destruct (h2 !! a) as [n2|]; [|contradiction].
  destruct E1 as [_ E1], E2 as [_ E2]. exists n2, (e a). repeat split; auto.
  - rewrite E2, E1. intros Heq.
    assert (e a = []) as ->.
    { apply (f_equal (@length string)) in Heq. rewrite !length_app in Heq.
      destruct (e a); [reflexivity|simpl in Heq; lia]. }
    now rewrite app_nil_r.
  - rewrite E2, E1. intros Heq.
    assert (e a = []) as ->.
    { apply (f_equal (@length string)) in Heq. rewrite !length_app in Heq.
      destruct (e a); [reflexivity|simpl in Heq; lia]. }
    now rewrite !app_nil_r.
Qed.

(** ** C4: the tree after the clip *)

Lemma clips_parent h h' a n :
  clips h h' -> h !! a = Some n -> exists n', h' !! a = Some n' /\ parent n' = parent n.
Proof.
  intros H Hn. specialize (H a). rewrite Hn in H.
  destruct (h' !! a) as [n'|]; [|contradiction]. exists n'. tauto.
Qed.

Lemma clips_owned h h' a c : clips h h' -> owned h a c -> owned h' a c.
Proof.
  intros H (b & nb & -> & Hb & Hp).
  destruct (clips_parent _ _ _ _ H Hb) as (nb' & Hb' & Hp').
  exists b, nb'. repeat split; congruence.
Qed.

Lemma clips_owned_inv h h' a c : clips h h' -> owned h' a c -> owned h a c.
Proof.
  intros H (b & nb' & -> & Hb' & Hp'). specialize (H b). rewrite Hb' in H.
  destruct (h !! b) as [nb|] eqn:Hb; [|contradiction].
  exists b, nb. split; [reflexivity|]. split; [exact Hb|].
  destruct H as [<- _]. exact Hp'.
Qed.

Lemma clips_refl h : clips h h.
Proof. intros a. destruct (h !! a); [|exact I]. repeat split; auto. Qed.

Lemma clips_trans h1 h2 h3 : clips h1 h2 -> clips h2 h3 -> clips h1 h3.
Proof.
  intros H12 H23 a. pose proof (H12 a) as Ha. pose proof (H23 a) as Hb.
  destruct (h1 !! a) as [n1|], (h2 !! a) as [n2|], (h3 !! a) as [n3|]; try tauto.
  destruct Ha as (Hp & Hd & Hs & Hc), Hb as (Hp' & Hd' & Hs' & Hc').
  repeat split; try congruence.
  - etrans; eassumption.
  - intros Hall. specialize (Hc Hall). rewrite <- Hc. apply Hc'. rewrite Hc.
    eapply Forall_impl; [exact Hall|]. intros c. now apply clips_owned.
Qed.

Lemma clips_clean h h' a : clips h h' -> clean h a -> clean h' a.
Proof.
  intros H Hc n' Hn'. pose proof (H a) as Ha. rewrite Hn' in Ha.
  destruct (h !! a) as [n|] eqn:Hn; [|contradiction].
  destruct Ha as (_ & _ & _ & Hsame). rewrite (Hsame (Hc n Hn)).
  eapply Forall_impl; [exact (Hc n Hn)|]. intros c. now apply clips_owned.
Qed.

Lemma clips_edge h h' a b : clips h h' -> edge h' a b -> edge h a b.
Proof.
  intros H (n' & Hn' & Hin). specialize (H a). rewrite Hn' in H.
  destruct (h !! a) as [n|] eqn:Hn; [|contradiction]. exists n. split; [exact Hn|].
  destruct H as (_ & _ & Hs & _).
  apply list_elem_of_In. eapply elem_of_sublist; [|exact Hs]. now apply list_elem_of_In.
Qed.

Lemma clips_rtc h h' a b : clips h h' -> rtc (edge h') a b -> rtc (edge h) a b.
Proof.
  intros H Hr. induction Hr as [|x y z Hxy _ IH]; [constructor|].
  econstructor; [eapply clips_edge; eassumption|exact IH].
Qed.

(** [first_stale] finds nothing exactly when [node] owns all the children. *)
Lemma deref_child_owned h node c b nb :
  deref_child h c = Ok (b, nb) -> parent nb = Some node -> owned h node c.
Proof.
  intros Hc Hp. destruct c as [s|a]; simpl in Hc; [discriminate|].
  unfold deref in Hc. inv_ok. simplify_eq. exists b, nb. auto.
Qed.

Lemma owned_deref_child h node c :
  owned h node c -> exists b nb, deref_child h c = Ok (b, nb) /\ parent nb = Some node.
Proof.
  intros (b & nb & -> & Hb & Hp). exists b, nb. simpl. unfold deref. rewrite Hb. auto.
Qed.

Lemma first_stale_None h node cs :
  first_stale h node cs = Ok None -> Forall (owned h node) cs.
Proof.
  induction cs as [|c cs IH]; intros H; simpl in H; [constructor|].
  destruct (deref_child h c) as [[b nb]|e] eqn:Ec; simpl in H; [|discriminate].
  destruct (decide (parent nb = Some node)) as [Hp|]; [|discriminate].
  destruct (first_stale h node cs) as [[j|]|e]; simpl in H; try discriminate.
  constructor; [|now apply IH]. eapply deref_child_owned; eassumption.
Qed.

Lemma first_stale_Some h node cs i :
  first_stale h node cs = Ok (Some i) ->
  (i < length cs)%nat /\ ~ Forall (owned h node) cs.
Proof.
  revert i. induction cs as [|c cs IH]; intros i H; simpl in H; [discriminate|].
  destruct (deref_child h c) as [[b nb]|e] eqn:Ec; simpl in H; [|discriminate].
  destruct (decide (parent nb = Some node)) as [Hp|Hp].
  - destruct (first_stale h node cs) as [[j|]|e]; simpl in H; try discriminate.
    injection H as <-. destruct (IH j eq_refl) as [Hlt Hnot]. split; [simpl; lia|].
    intros Hall. apply Hnot. now inversion Hall.
  - injection H as <-. split; [simpl; lia|]. intros Hall.
    inversion Hall as [|? ? Ho _]; subst.
    apply owned_deref_child in Ho as (b' & nb' & Ec' & Hp'). congruence.
Qed.

Lemma clips_delete h node n i :
  h !! node = Some n -> ~ Forall (owned h node) (children n) ->
  clips h (<[node := set_children (delete i (children n)) n]> h).
Proof.
  intros Hn Hnot a. destruct (decide (node = a)) as [<-|Hne].
  - rewrite lookup_insert_eq, Hn. simpl. repeat split; [apply sublist_delete|tauto].
  - rewrite lookup_insert_ne by done. destruct (h !! a); [|exact I]. repeat split; auto.
Qed.

(** The loop of [clip_redundant] stops within the rounds it is given, and
    leaves [node] with children it owns. *)
Lemma clip_loop_spec rounds node h n :
  h !! node = Some n -> (length (children n) < rounds)%nat ->
  (exists h', clip_loop rounds node h = Ok h' /\ clips h h' /\ clean h' node)
  \/ clip_loop rounds node h = Err PyAttributeError.
Proof.
  revert h n. induction rounds as [|r IH]; intros h n Hn Hlen; [lia|].
  simpl. unfold deref. rewrite Hn. simpl.
  destruct (first_stale h node (children n)) as [[i|]|e] eqn:E; simpl.
  - destruct (first_stale_Some _ _ _ _ E) as [Hi Hnot].
    destruct (IH (<[node := set_children (delete i (children n)) n]> h)
                 (set_children (delete i (children n)) n)) as [(h' & -> & Hc & Hcl)| ->].
    + apply lookup_insert_eq.
    + simpl. rewrite length_delete; [lia|]. now apply lookup_lt_is_Some_2.
    + left. exists h'. split; [reflexivity|]. split; [|exact Hcl].
      eapply clips_trans; [|exact Hc]. now apply clips_delete.
    + now right.
  - left. exists h. split; [reflexivity|]. split; [apply clips_refl|].
    intros n' Hn'. rewrite Hn in Hn'. injection Hn' as <-. now apply first_stale_None.
  - right. f_equal. clear -E. revert E. generalize (children n) as cs.
    induction cs as [|c cs IHcs]; intros E; simpl in E; [discriminate|].
    destruct (deref_child h c) as [[b nb]|e'] eqn:Ec; simpl in E.
    + destruct (decide (parent nb = Some node)); [|discriminate].
      destruct (first_stale h node cs) as [o|e'']; simpl in E; [discriminate|].
      injection E as <-. now apply IHcs.
    + injection E as <-. destruct c as [s|b]; simpl in Ec; [congruence|].
      unfold deref in Ec. destruct (h !! b); simpl in Ec; congruence.
Qed.

Lemma clip_loop_Ok rounds node h h' n :
  h !! node = Some n -> (length (children n) < rounds)%nat ->
  clip_loop rounds node h = Ok h' -> clips h h' /\ clean h' node.
Proof.
  intros Hn Hlen H.
  destruct (clip_loop_spec rounds node h n Hn Hlen) as [(h'' & E & ?)|E]; rewrite E in H.
  - injection H as <-. assumption.
  - discriminate.
Qed.

Lemma clip_redundant_S f node h :
  clip_redundant (S f) node h
  = n ← deref h node;
    h1 ← clip_loop (S (length (children n))) node h;
    n1 ← deref h1 node;
    for_each (fun c h' => '(a, _) ← deref_child h' c; clip_redundant f a h') (children n1) h1.
Proof. reflexivity. Qed.

(** After [clip_redundant(node)], every node that can be reached from [node]
    owns all its children. *)
Lemma clip_redundant_clean fuel node h h' :
  clip_redundant fuel node h = Ok h' ->
  clips h h' /\ forall b, rtc (edge h') node b -> clean h' b.
Proof.
  revert node h h'. induction fuel as [|f IH]; intros node h h' H; [discriminate|].
  rewrite clip_redundant_S in H.
  inv_ok. unfold deref in Hx, Hx1. inv_ok.
  destruct (clip_loop_Ok _ _ _ _ _ Hx (Nat.lt_succ_diag_r _) Hx0) as [Hc1 Hcl1].
  assert (Hloop : clips x0 h' /\ forall a b, In (NodeRef a) (children x1) ->
                    rtc (edge h') a b -> clean h' b).
  { clear Hx1 Hcl1 Hc1 Hx0 Hx. revert x0 H. generalize (children x1) as cs.
    induction cs as [|c cs IHcs]; intros h0 H; simpl in H.
    - inv_ok. subst. split; [apply clips_refl|]. intros a b [].
    - inv_ok.
      match goal with
      | Hr : clip_redundant f _ h0 = Ok _ |- _ => destruct (IH _ _ _ Hr) as [Hc Hr']
      end.
      destruct (IHcs _ H) as [Hc' Hr''].
      split; [eapply clips_trans; eassumption|].
      intros a b [->|Hin] Hreach; [|eapply Hr''; eassumption].
      match goal with
      | Hd : deref_child h0 (NodeRef a) = Ok _ |- _ =>
          simpl in Hd; inv_ok; simplify_eq
      end.
      eapply clips_clean; [exact Hc'|]. apply Hr'. eapply clips_rtc; eassumption. }
  destruct Hloop as [Hc2 Hr]. split; [eapply clips_trans; eassumption|].
  intros b Hb. apply rtc_inv in Hb as [<-|(c & (n' & Hn' & Hin) & Hcb)].
  - eapply clips_clean; eassumption.
  - pose proof (Hc2 node) as Hnode. rewrite Hx1, Hn' in Hnode.
    destruct Hnode as (_ & _ & Hsub & _).
    apply (Hr c b); [| exact Hcb].
    apply list_elem_of_In. eapply elem_of_sublist; [|exact Hsub]. now apply list_elem_of_In.
Qed.

Lemma clean_edge h a b :
  clean h a -> edge h a b -> exists nb, h !! b = Some nb /\ parent nb = Some a.
Proof.
  intros Hc (n & Hn & Hin). specialize (Hc n Hn). rewrite Forall_forall in Hc.
  destruct (Hc (NodeRef b)) as (b' & nb & [= <-] & Hb & Hp); [|eauto].
  now apply list_elem_of_In.
Qed.

(** In a heap where the nodes reachable from a parentless root own their
    children, no reachable node is on a cycle. *)
Lemma owned_tree_acyclic h root_node r :
  h !! root_node = Some r -> parent r = None ->
  (forall a, rtc (edge h) root_node a -> clean h a) ->
  forall m a, nsteps (edge h) m root_node a -> ~ tc (edge h) a a.
Proof.
  intros Hr Hp Hclean. induction m as [|m IH]; intros a Hm Hcyc.
  - assert (root_node = a) by (inversion Hm; auto). subst a.
    apply tc_nsteps in Hcyc as (k & Hk & Hsteps). destruct k as [|k]; [lia|].
    apply nsteps_inv_r in Hsteps as (y & Hy & Hedge).
    destruct (clean_edge h y root_node) as (nb & Hb & Hpb); [|exact Hedge|congruence].
    apply Hclean. eapply rtc_nsteps_2. exact Hy.
  - apply nsteps_inv_r in Hm as (z & Hz & Hza).
    pose proof Hcyc as Hcyc0.
    apply tc_nsteps in Hcyc as (k & Hk & Hsteps). destruct k as [|k]; [lia|].
    apply nsteps_inv_r in Hsteps as (y & Hy & Hedge).
    assert (Hrz : rtc (edge h) root_node z) by (eapply rtc_nsteps_2; exact Hz).
    assert (Hry : rtc (edge h) root_node y).
    { etrans; [exact Hrz|]. eapply rtc_l; [exact Hza|]. eapply rtc_nsteps_2. exact Hy. }
    destruct (clean_edge h z a (Hclean z Hrz) Hza) as (na & Hna & Hpz).
    destruct (clean_edge h y a (Hclean y Hry) Hedge) as (na' & Hna' & Hpy).
    assert (y = z) as -> by congruence.
    apply (IH z Hz). eapply tc_rtc_r; [apply tc_once; exact Hza|].
    eapply rtc_nsteps_2. exact Hy.
Qed.

(** The shape of the tree after [clip_redundant] on a root that has no
    parent: every edge that leaves a node of the tree goes to a child whose
    parent is that node; no node of the tree is on a cycle and the root is
    the child of none; every other node of the tree is held by one node of the
    tree only, its parent.  The pass has deleted children and changed nothing
    else. *)
Lemma clip_redundant_shape fuel root_node h h' r :
  h !! root_node = Some r ->
  parent r = None ->
  clip_redundant fuel root_node h = Ok h' ->
  (forall a b, rtc (edge h') root_node a -> edge h' a b ->
               rtc (edge h') root_node b
               /\ exists nb, h' !! b = Some nb /\ parent nb = Some a)
  /\ (forall a, rtc (edge h') root_node a -> ~ tc (edge h') a a)
  /\ (forall a, rtc (edge h') root_node a -> ~ edge h' a root_node)
  /\ (forall a a' b, rtc (edge h') root_node a -> rtc (edge h') root_node a' ->
                     edge h' a b -> edge h' a' b -> a = a')
  /\ clips h h'.
Proof.
  intros Hr Hp H. destruct (clip_redundant_clean _ _ _ _ H) as [Hc Hclean].
  destruct (clips_parent _ _ _ _ Hc Hr) as (r' & Hr' & Hp'). rewrite Hp in Hp'.
  assert (Hacyc : forall a, rtc (edge h') root_node a -> ~ tc (edge h') a a).
  { intros a Ha. apply rtc_nsteps_1 in Ha as [m Hm].
    eapply owned_tree_acyclic; eauto. }
  repeat split.
  - eapply rtc_r; eassumption.
  - apply clean_edge; auto.
  - exact Hacyc.
  - intros a Ha He. apply (Hacyc root_node); [constructor|].
    eapply tc_rtc_l; [exact Ha|]. now apply tc_once.
  - intros a a' b Ha Ha' He He'.
    destruct (clean_edge h' a b (Hclean a Ha) He) as (nb & Hb & Hpb).
    destruct (clean_edge h' a' b (Hclean a' Ha') He') as (nb' & Hb' & Hpb').
    congruence.
  - exact Hc.
Qed.

(** *** The clip returns *)

Lemma clips_is_node h h' c : clips h h' -> is_node h c -> is_node h' c.
Proof.
  intros H (d & -> & [n Hn]). destruct (clips_parent _ _ _ _ H Hn) as (n' & Hn' & _).
  exists d. eauto.
Qed.

Lemma clips_resolved h h' a : clips h h' -> resolved h a -> resolved h' a.
Proof.
  intros H [[n Hn] Hall]. split.
  - destruct (clips_parent _ _ _ _ H Hn) as (n' & Hn' & _). eauto.
  - intros b nb' Hb Hnb'. pose proof (H b) as Hb'. rewrite Hnb' in Hb'.
    destruct (h !! b) as [nb|] eqn:Hnb; [|contradiction].
    destruct Hb' as (_ & _ & Hsub & _).
    specialize (Hall b nb (clips_rtc _ _ _ _ H Hb) Hnb).
    rewrite Forall_forall in *. intros c Hc.
    eapply clips_is_node; [exact H|]. apply Hall. eapply elem_of_sublist; eassumption.
Qed.

Lemma clips_shallow h h' k a : clips h h' -> shallow h k a -> shallow h' k a.
Proof.
  intros H Hs m b Hm. apply (Hs m b). clear Hs.
  induction Hm as [|m x y z Hxy _ IH]; [constructor|].
  econstructor; [eapply clips_edge; eassumption|exact IH].
Qed.

Lemma first_stale_returns h node cs :
  Forall (is_node h) cs -> exists i, first_stale h node cs = Ok i.
Proof.
  induction 1 as [|c cs (d & -> & [n Hn]) _ [i IH]]; simpl; [eauto|].
  unfold deref. rewrite Hn. simpl.
  destruct (decide (parent n = Some node)); [|eauto]. rewrite IH. simpl. eauto.
Qed.

Lemma clip_loop_returns rounds node h n :
  h !! node = Some n -> (length (children n) < rounds)%nat ->
  Forall (is_node h) (children n) ->
  exists h', clip_loop rounds node h = Ok h'.
Proof.
  revert h n. induction rounds as [|r IH]; intros h n Hn Hlen Hall; [lia|].
  simpl. unfold deref. rewrite Hn. simpl.
  destruct (first_stale_returns h node (children n) Hall) as [[i|] E]; rewrite E; simpl;
    [|eauto].
  destruct (first_stale_Some _ _ _ _ E) as [Hi Hnot].
  apply (IH _ (set_children (delete i (children n)) n)).
  - apply lookup_insert_eq.
  - simpl. rewrite length_delete; [lia|]. now apply lookup_lt_is_Some_2.
  - simpl. pose proof (clips_delete h node n i Hn Hnot) as Hc.
    eapply Forall_impl; [|intros c; apply clips_is_node; exact Hc].
    rewrite Forall_forall in *. intros c Hc'. apply Hall.
    eapply elem_of_sublist; [exact Hc'|apply sublist_delete].
Qed.

(** On a graph without cycles whose identifiers are resolved,
    [clip_redundant] returns as soon as the fuel exceeds the length of the
    longest path. *)
Lemma clip_redundant_returns fuel node h :
  resolved h node -> shallow h fuel node ->
  exists h', clip_redundant fuel node h = Ok h'.
Proof.
  revert node h. induction fuel as [|f IH]; intros node h Hres Hsh.
  - exfalso. specialize (Hsh 0%nat node (nsteps_O _ _)). lia.
  - rewrite clip_redundant_S. destruct Hres as [[n Hn] Hall]. unfold deref. rewrite Hn.
    cbn [of_option mbind result_bind].
    destruct (clip_loop_returns (S (length (children n))) node h n Hn (Nat.lt_succ_diag_r _))
      as [h1 E1]; [apply (Hall node n); [constructor|exact Hn]|].
    rewrite E1. cbn [of_option mbind result_bind].
    destruct (clip_loop_Ok _ _ _ _ _ Hn (Nat.lt_succ_diag_r _) E1) as [Hc1 _].
    destruct (clips_parent _ _ _ _ Hc1 Hn) as (n1 & Hn1 & _). rewrite Hn1.
    cbn [of_option mbind result_bind].
    assert (Hres1 : resolved h1 node)
      by (eapply clips_resolved; [exact Hc1|split; eauto]).
    assert (Hsh1 : shallow h1 (S f) node) by (eapply clips_shallow; eassumption).
    assert (Hsub : forall c, In c (children n1) -> In c (children n1)) by auto.
    revert Hsub. generalize (children n1) at 1 3 as cs.
    assert (Hc0 : clips h1 h1) by apply clips_refl.
    revert Hc0. generalize h1 at 2 3 as hi.
    intros hi Hci cs. revert hi Hci.
    induction cs as [|c cs IHcs]; intros hi Hci Hsub; simpl; [eauto|].
    assert (Hin : In c (children n1)) by (apply Hsub; now left).
    destruct Hres1 as [_ Hall1].
    pose proof (Hall1 node n1 (rtc_refl _ _) Hn1) as Hnodes.
    rewrite Forall_forall in Hnodes.
    destruct (Hnodes c) as (d & -> & [nd Hd]); [now apply list_elem_of_In|].
    destruct (clips_parent _ _ _ _ Hci Hd) as (nd' & Hd' & _).
    simpl. unfold deref. rewrite Hd'. simpl.
    assert (Hedge : edge h1 node d) by (exists n1; auto).
    destruct (IH d hi) as [h2 E2].
    + eapply clips_resolved; [exact Hci|]. split; [eauto|].
      intros b nb Hb Hnb. apply (Hall1 b nb); [|exact Hnb]. eapply rtc_l; eassumption.
    + eapply clips_shallow; [exact Hci|]. intros m b Hm.
      specialize (Hsh1 (S m) b (nsteps_l _ _ _ _ _ Hedge Hm)). lia.
    + rewrite E2. simpl. apply IHcs.
      * eapply clips_trans; [exact Hci|]. now apply clip_redundant_clean in E2.
      * intros c' Hc'. apply Hsub. now right.
Qed.

(** ** C5: the recorded depth and the parent *)

Lemma deepest_first_later hist c i p d r :
  deepest_first hist c i p d ->
  (r_child r = c -> (r_depth r <= d)%Z) ->
  deepest_first (hist ++ [r]) c i p d.
Proof.
  intros [Hi Hmax] Hr. split.
  - apply lookup_app_l_Some. exact Hi.
  - intros j r' Hj Hc. apply lookup_app_Some in Hj as [Hj|[Hlen Hj]].
    + now apply Hmax.
    + apply list_lookup_singleton_Some in Hj as [_ <-]. split; [auto|].
      intros Hlt. apply lookup_lt_Some in Hi. lia.
Qed.

Lemma reach_recorded node depth c g a g' :
  depths_recorded g -> reach node depth c g = Ok (a, g') -> depths_recorded g'.
Proof.
  unfold reach. intros Hg H.
  destruct (deref_child (g_heap g) c) as [[b nb]|e] eqn:Ec; simpl in H; [|discriminate].
  assert (Hb : g_heap g !! b = Some nb).
  { destruct c as [s|b']; simpl in Ec; [discriminate|]. unfold deref in Ec. inv_ok.
    now simplify_eq. }
  unfold deeper in H. intros k. pose proof (Hg k) as Hk. unfold depth_recorded in *.
  destruct (node_depth g !! b) as [d0|] eqn:Ed.
  - destruct (d0 <? depth)%Z eqn:Elt; injection H as <- <-; simpl.
    + apply Z.ltb_lt in Elt. destruct (decide (b = k)) as [->|Hne].
      * rewrite lookup_insert_eq. exists (length (g_reached g)), node, (set_parent (Some node) nb).
        rewrite lookup_insert_eq. split; [|auto]. rewrite Ed in Hk.
        destruct Hk as (i & p & n & [Hi Hmax] & _). split.
        -- apply list_lookup_middle. reflexivity.
        -- intros j r Hj Hc. apply lookup_app_Some in Hj as [Hj|[Hlen Hj]].
           ++ destruct (Hmax j r Hj Hc) as [Hle _]. split; [lia|]. intros _. lia.
           ++ apply list_lookup_singleton_Some in Hj as [Hz <-]. simpl. split; [lia|].
              intros Hlt. lia.
      * rewrite !lookup_insert_ne by done. destruct (node_depth g !! k) as [d|].
        -- destruct Hk as (i & p & n & Hdf & Hn & Hp). exists i, p, n.
           split; [|auto]. apply deepest_first_later; [exact Hdf|]. simpl. congruence.
        -- intros r Hr. apply in_app_or in Hr as [Hr|[<-|[]]]; [now apply Hk|]. simpl. congruence.
    + apply Z.ltb_ge in Elt. destruct (decide (b = k)) as [->|Hne].
      * rewrite Ed in *. destruct Hk as (i & p & n & Hdf & Hn & Hp). exists i, p, n.
        split; [|auto]. apply deepest_first_later; [exact Hdf|]. simpl. intros _. lia.
      * destruct (node_depth g !! k) as [d|].
        -- destruct Hk as (i & p & n & Hdf & Hn & Hp). exists i, p, n.
           split; [|auto]. apply deepest_first_later; [exact Hdf|]. simpl. congruence.
        -- intros r Hr. apply in_app_or in Hr as [Hr|[<-|[]]]; [now apply Hk|]. simpl. congruence.
  - injection H as <- <-; simpl. destruct (decide (b = k)) as [->|Hne].
    + rewrite lookup_insert_eq. exists (length (g_reached g)), node, (set_parent (Some node) nb).
      rewrite lookup_insert_eq. split; [|auto]. rewrite Ed in Hk. split.
      * apply list_lookup_middle. reflexivity.
      * intros j r Hj Hc. apply lookup_app_Some in Hj as [Hj|[Hlen Hj]].
        -- exfalso. apply (Hk r); [|exact Hc]. apply list_elem_of_In.
           eapply list_elem_of_lookup_2. exact Hj.
        -- apply list_lookup_singleton_Some in Hj as [Hz <-]. simpl. split; [lia|].
           intros Hlt. lia.
    + rewrite !lookup_insert_ne by done. destruct (node_depth g !! k) as [d|].
      * destruct Hk as (i & p & n & Hdf & Hn & Hp). exists i, p, n.
        split; [|auto]. apply deepest_first_later; [exact Hdf|]. simpl. congruence.
      * intros r Hr. apply in_app_or in Hr as [Hr|[<-|[]]]; [now apply Hk|]. simpl. congruence.
Qed.

Lemma fill_children_S f cls node depth g :
  fill_children (S f) cls node depth g
  = let g0 := if (last_node_depth g <? depth)%Z
              then mkGraph (g_heap g) (node_depth g) depth (Some node) (g_reached g)
              else g in
    n ← deref (g_heap g0) node;
    cs ← mapM (resolve cls (module_ (data n))) (children n);
    let g1 := mkGraph (<[node := set_children cs n]> (g_heap g0)) (node_depth g0)
                      (last_node_depth g0) (last_node g0) (g_reached g0) in
    for_each (fun c g' => '(a, g'') ← reach node depth c g'; fill_children f cls a (depth + 1) g'')
             cs g1.
Proof. reflexivity. Qed.

Lemma fill_children_recorded fuel cls node depth g g' :
  depths_recorded g -> fill_children fuel cls node depth g = Ok g' -> depths_recorded g'.
Proof.
  revert node depth g g'. induction fuel as [|f IH]; intros node depth g g' Hg H; [discriminate|].
  rewrite fill_children_S in H. cbv zeta in H. inv_ok.
  match goal with
  | H : for_each _ ?cs ?g1 = Ok g' |- _ =>
      assert (Hg1 : depths_recorded g1); [|revert Hg1 H; generalize g1; generalize cs]
  end.
  { unfold deref in Hx. inv_ok. intros c. specialize (Hg c). unfold depth_recorded in *.
    assert (Hnd : node_depth (if (last_node_depth g <? depth)%Z
                              then mkGraph (g_heap g) (node_depth g) depth (Some node) (g_reached g)
                              else g) = node_depth g) by (destruct (_ <? _)%Z; reflexivity).
    assert (Hre : g_reached (if (last_node_depth g <? depth)%Z
                             then mkGraph (g_heap g) (node_depth g) depth (Some node) (g_reached g)
                             else g) = g_reached g) by (destruct (_ <? _)%Z; reflexivity).
    assert (Hhe : g_heap (if (last_node_depth g <? depth)%Z
                          then mkGraph (g_heap g) (node_depth g) depth (Some node) (g_reached g)
                          else g) = g_heap g) by (destruct (_ <? _)%Z; reflexivity).
    simpl. rewrite Hnd, Hre, Hhe in *. destruct (node_depth g !! c) as [d|]; [|exact Hg].
    destruct Hg as (i & p & n & Hdf & Hn & Hp).
    destruct (decide (node = c)) as [->|Hne].
    - exists i, p, (set_children x0 x). rewrite lookup_insert_eq. simplify_eq. auto.
    - exists i, p, n. rewrite lookup_insert_ne by done. auto. }
  intros cs. induction cs as [|c cs IHcs]; intros g1 Hg1 H; simpl in H.
  - inv_ok. now subst.
  - inv_ok. eapply IHcs; [|exact H]. eapply IH; [|eassumption].
    eapply reach_recorded; eassumption.
Qed.

(** *** The arrivals are the chains of children of the resolved graph *)

Lemma keeps_refl h : keeps h h.
Proof. intros a n Hn. eauto. Qed.

Lemma keeps_trans h1 h2 h3 : keeps h1 h2 -> keeps h2 h3 -> keeps h1 h3.
Proof.
  intros H12 H23 a n Hn. destruct (H12 a n Hn) as (n2 & Hn2 & Hc2).
  destruct (H23 a n2 Hn2) as (n3 & Hn3 & Hc3). exists n3. split; [exact Hn3|].
  intros Hrefs. rewrite <- (Hc2 Hrefs). apply Hc3. rewrite (Hc2 Hrefs). exact Hrefs.
Qed.

Lemma keeps_set_parent h a n p : h !! a = Some n -> keeps h (<[a := set_parent p n]> h).
Proof.
  intros Hn b nb Hb. destruct (decide (a = b)) as [->|Hne].
  - rewrite lookup_insert_eq. rewrite Hn in Hb. injection Hb as <-. eauto.
  - rewrite lookup_insert_ne by done. eauto.
Qed.

Lemma keeps_set_children h a n cs :
  h !! a = Some n -> (Forall is_ref (children n) -> cs = children n) ->
  keeps h (<[a := set_children cs n]> h).
Proof.
  intros Hn Hcs b nb Hb. destruct (decide (a = b)) as [->|Hne].
  - rewrite lookup_insert_eq. rewrite Hn in Hb. injection Hb as <-. eauto.
  - rewrite lookup_insert_ne by done. eauto.
Qed.

(** A list of nodes has nothing left to resolve. *)
Lemma mapM_resolve_refs cls m cs : Forall is_ref cs -> mapM (resolve cls m) cs = Ok cs.
Proof.
  induction 1 as [|c cs Hc _ IH]; [reflexivity|].
  rewrite mapM_cons. destruct c as [s|a]; [contradiction|]. simpl. rewrite IH. reflexivity.
Qed.

Lemma reach_arrival node depth c g a g' :
  reach node depth c g = Ok (a, g') ->
  c = NodeRef a /\ keeps (g_heap g) (g_heap g')
  /\ g_reached g' = g_reached g ++ [mkReach node a depth].
Proof.
  unfold reach. intros H.
  destruct c as [s|b]; [discriminate|]. simpl in H. unfold deref in H.
  destruct (g_heap g !! b) as [nb|] eqn:Hb; [|discriminate]. simpl in H.
  destruct (deeper (node_depth g) b depth); injection H as <- <-; simpl.
  - split; [reflexivity|]. split; [|reflexivity]. now apply keeps_set_parent.
  - split; [reflexivity|]. split; [|reflexivity]. apply keeps_refl.
Qed.

(** The second loop of [fill_children] over the children [cs] of [node]. *)
Lemma fill_loop_fills f cls node depth :
  (forall a g g', fill_children f cls a (depth + 1) g = Ok g' -> fills a (depth + 1) g g') ->
  forall cs g1 g',
    for_each (fun c g' => '(a, g'') ← reach node depth c g'; fill_children f cls a (depth + 1) g'')
             cs g1 = Ok g' ->
    keeps (g_heap g1) (g_heap g') /\ Forall is_ref cs
    /\ exists tr,
         g_reached g' = g_reached g1 ++ tr
         /\ forall h, keeps (g_heap g') h ->
              (forall a, In (NodeRef a) cs ->
                 In (mkReach node a depth) tr
                 /\ forall k q c, nsteps (edge h) k a q -> edge h q c ->
                                  In (mkReach q c (depth + 1 + Z.of_nat k)) tr)
              /\ (forall r, In r tr ->
                    (r_from r = node /\ In (NodeRef (r_child r)) cs /\ r_depth r = depth)
                    \/ exists a k, In (NodeRef a) cs
                                   /\ r_depth r = (depth + 1 + Z.of_nat k)%Z
                                   /\ nsteps (edge h) k a (r_from r)
                                   /\ edge h (r_from r) (r_child r)).
Proof.
  intros IH cs. induction cs as [|c cs IHcs]; intros g1 g' H.
  - simpl in H. injection H as <-. split; [apply keeps_refl|]. split; [constructor|].
    exists []. rewrite app_nil_r. split; [reflexivity|]. intros h _. split.
    + intros a [].
    + intros r [].
  - cbn [for_each] in H.
    destruct (reach node depth c g1) as [[a g2]|e] eqn:Hreach; [|discriminate H].
    cbn [mbind result_bind] in H.
    destruct (fill_children f cls a (depth + 1) g2) as [g3|e] eqn:Hcall; [|discriminate H].
    cbn [mbind result_bind] in H.
    apply reach_arrival in Hreach as (-> & K12 & T12).
    apply IH in Hcall as (K23 & _ & tr2 & T23 & A2).
    apply IHcs in H as (K3 & Hrefs & tr3 & T3 & A3).
    split; [exact (keeps_trans _ _ _ K12 (keeps_trans _ _ _ K23 K3))|].
    split; [constructor; [exact I|exact Hrefs]|].
    exists (mkReach node a depth :: tr2 ++ tr3). split.
    { rewrite T3, T23, T12, <- !app_assoc. reflexivity. }
    intros h Kh. destruct (A2 h (keeps_trans _ _ _ K3 Kh)) as [A2a A2b].
    destruct (A3 h Kh) as [A3a A3b]. split.
    + intros a' [Ha'|Ha'].
      * injection Ha' as <-. split; [now left|].
        intros k q c Hk Hc. right. apply in_or_app. left. now apply A2a.
      * destruct (A3a a' Ha') as [Hin Hbelow]. split.
        -- right. apply in_or_app. now right.
        -- intros k q c Hk Hc. right. apply in_or_app. right. now apply Hbelow.
    + intros r [<-|Hr].
      * left. simpl. auto.
      * apply in_app_or in Hr as [Hr|Hr].
        -- right. destruct (A2b r Hr) as (k & Hd & Hk & Hc). exists a, k. simpl. auto.
        -- destruct (A3b r Hr) as [(Hf & Hin & Hd)|(a' & k & Hin & Hd & Hk & Hc)].
           ++ left. simpl. auto.
           ++ right. exists a', k. simpl. auto.
Qed.

Lemma fill_children_fills fuel cls :
  forall node depth g g', fill_children fuel cls node depth g = Ok g' -> fills node depth g g'.
Proof.
  induction fuel as [|f IH]; intros node depth g g' H; [discriminate|].
  rewrite fill_children_S in H. cbv zeta in H.
  set (g0 := if (last_node_depth g <? depth)%Z
             then mkGraph (g_heap g) (node_depth g) depth (Some node) (g_reached g)
             else g) in H.
  assert (Hh0 : g_heap g0 = g_heap g) by (subst g0; destruct (_ <? _)%Z; reflexivity).
  assert (Hr0 : g_reached g0 = g_reached g) by (subst g0; destruct (_ <? _)%Z; reflexivity).
  clearbody g0.
  destruct (deref (g_heap g0) node) as [n|e] eqn:Hn; [|discriminate H].
  cbn [mbind result_bind] in H.
  destruct (mapM (resolve cls (module_ (data n))) (children n)) as [cs|e] eqn:Hcs;
    [|discriminate H].
  cbn [mbind result_bind] in H.
  apply (fill_loop_fills f cls node depth (fun a => IH a (depth + 1)%Z)) in H
    as (K & Hrefs & tr & T & A).
  cbn [g_heap g_reached] in K, T. rewrite Hh0 in K. rewrite Hr0 in T.
  unfold deref in Hn. rewrite Hh0 in Hn.
  destruct (g_heap g !! node) as [n0|] eqn:Hnode; [|discriminate Hn]. injection Hn as ->.
  assert (K1 : keeps (g_heap g) (<[node := set_children cs n]> (g_heap g))).
  { apply keeps_set_children; [exact Hnode|]. intros Hall.
    rewrite (mapM_resolve_refs _ _ _ Hall) in Hcs. congruence. }
  destruct (K node (set_children cs n)) as (n' & Hn' & Hc'); [apply lookup_insert_eq|].
  specialize (Hc' Hrefs). cbn [children set_children] in Hc'.
  split; [exact (keeps_trans _ _ _ K1 K)|].
  split; [exists n'; split; [exact Hn'|now rewrite Hc']|].
  exists tr. split; [exact T|]. intros h Kh.
  destruct (A h Kh) as [Aa Ab].
  destruct (Kh node n' Hn') as (n'' & Hn'' & Hc''). rewrite Hc' in Hc''. specialize (Hc'' Hrefs).
  assert (Hedge : forall b, edge h node b <-> In (NodeRef b) cs).
  { intros b. unfold edge. split.
    - intros (m & Hm & Hin). rewrite Hn'' in Hm. injection Hm as <-. now rewrite Hc'' in Hin.
    - intros Hin. exists n''. split; [exact Hn''|]. now rewrite Hc''. }
  split.
  - intros k q c Hk Hc. inversion Hk as [|k' x y z Hxy Hyz]; subst.
    + replace (depth + Z.of_nat 0)%Z with depth by lia. apply Aa. now apply Hedge.
    + replace (depth + Z.of_nat (S k'))%Z with (depth + 1 + Z.of_nat k')%Z by lia.
      apply (Aa y); [now apply Hedge|exact Hyz|exact Hc].
  - intros r Hr. destruct (Ab r Hr) as [(Hf & Hin & Hd)|(a & k & Hin & Hd & Hk & Hc)].
    + exists 0%nat. rewrite Hd, Hf. split; [lia|]. split; [constructor|]. now apply Hedge.
    + exists (S k). rewrite Hd. split; [lia|]. split; [|exact Hc].
      eapply nsteps_l; [|exact Hk]. now apply Hedge.
Qed.

(** C5.  After the resolution of a target, let [self.node_depth] hold [d]
    for the node [c].  Depths are counted as [fill_children] counts them: the
    depth at which a node is reached is the value of [depth] in the call that
    arrives at it, which is the number of edges of the chain of children that
    the walk has followed from the root to the node it arrives from.  Then [c]
    is reached at depth [d] from its parent [p], along a chain of the resolved
    graph; no chain of the resolved graph reaches [c] at a greater depth; of
    the arrivals of the walk at [c] the first of depth [d] came from [p] (all
    earlier ones were less deep); the clip and the folding of partitions leave
    the parents as they are, so [p] is the parent of [c] in the reduced tree.
    A node without entry in [self.node_depth] is at the end of no chain from the
    root. *)
Theorem recorded_depth_is_deepest fuel cls root_node h g tree :
  build_dependency_tree fuel cls root_node h = Ok g ->
  build_compile_tree fuel cls root_node (g_heap g) = Ok tree ->
  forall c,
    match node_depth g !! c with
    | None => forall k q, nsteps (edge (g_heap g)) k root_node q -> ~ edge (g_heap g) q c
    | Some d =>
        exists k i p n,
          d = Z.of_nat k
          /\ nsteps (edge (g_heap g)) k root_node p /\ edge (g_heap g) p c
          /\ (forall k' q, nsteps (edge (g_heap g)) k' root_node q -> edge (g_heap g) q c ->
                           (k' <= k)%nat)
          /\ g_reached g !! i = Some (mkReach p c d)
          /\ (forall j r, g_reached g !! j = Some r -> r_child r = c ->
                          (r_depth r <= d)%Z /\ ((j < i)%nat -> (r_depth r < d)%Z))
          /\ tree !! c = Some n /\ parent n = Some p
    end.
Proof.
  unfold build_dependency_tree, build_compile_tree. intros H Ht c. inv_ok.
  assert (Hrec : depths_recorded g).
  { eapply fill_children_recorded; [|exact H]. intros k. unfold depth_recorded. simpl.
    rewrite lookup_empty. intros r []. }
  apply fill_children_fills in H as (_ & _ & tr & T & A).
  cbn [g_reached] in T. rewrite app_nil_l in T. subst tr.
  destruct (A (g_heap g) (keeps_refl _)) as [Aa Ab].
  specialize (Hrec c). unfold depth_recorded in Hrec.
  destruct (node_depth g !! c) as [d|].
  - destruct Hrec as (i & p & n & [Hi Hmax] & Hn & Hp).
    match goal with
    | Hc : clip_redundant _ _ _ = Ok ?h1 |- _ =>
        apply clip_redundant_clean in Hc as [Hc _];
        destruct (clips_parent _ _ _ _ Hc Hn) as (n1 & Hn1 & Hp1)
    end.
    apply fix_module_partition_deps_changes in Ht as [F _]. specialize (F c). rewrite Hn1 in F.
    destruct (tree !! c) as [n2|]; [|contradiction]. destruct F as (Hp2 & _).
    destruct (Ab (mkReach p c d)) as (k & Hd & Hk & Hc).
    { apply list_elem_of_In. eapply list_elem_of_lookup_2. exact Hi. }
    cbn [r_depth r_from r_child] in Hd, Hk, Hc.
    exists k, i, p, n2. split; [lia|]. split; [exact Hk|]. split; [exact Hc|].
    split; [|split; [exact Hi|split; [exact Hmax|split; [reflexivity|congruence]]]].
    intros k' q Hk' Hc'. specialize (Aa k' q c Hk' Hc').
    apply list_elem_of_In, list_elem_of_lookup_1 in Aa as [j Hj].
    destruct (Hmax j _ Hj eq_refl) as [Hle _]. cbn [r_depth] in Hle. lia.
  - intros k q Hk Hc. apply (Hrec _ (Aa k q c Hk Hc)). reflexivity.
Qed.

(** ** C2: the walk of the scheduler *)

Lemma remove_NodeRef x l :
  In x l -> Py.remove (NodeRef x) (NodeRef <$> l) = Some (NodeRef <$> remove_first x l).
Proof.
  induction l as [|y l IH]; intros Hin; [contradiction|].
  rewrite fmap_cons. cbn [Py.remove remove_first].
  destruct (decide (y = x)) as [->|Hne].
  - destruct (decide (NodeRef x = NodeRef x)); [reflexivity|congruence].
  - destruct (decide (NodeRef y = NodeRef x)) as [E|_]; [congruence|].
    rewrite IH by (destruct Hin; congruence). reflexivity.
Qed.

Lemma remove_first_head x l : remove_first x (x :: l) = l.
Proof. simpl. destruct (decide (x = x)); congruence. Qed.

Section Scheduler.

Context (tc : Toolchain) (fuel : nat) (st : Settings) (root_node : nat) (h : heap).

(** The toolchain exits with status 0, and the arguments of the compilation
    of every node can be gathered. *)
Hypothesis toolchain_succeeds : forall args files, is_Some (tc args files).
Hypothesis args_gathered :
  forall a n, h !! a = Some n ->
    exists args, compile_args fuel st h (source_path st n) (target_path st n) a = Ok args.

Lemma deref_Some a n : h !! a = Some n -> deref h a = Ok n.
Proof. intros H. unfold deref. now rewrite H. Qed.

Lemma compile_returns a n w :
  h !! a = Some n ->
  exists args files',
    tc args (fs w) = Some files'
    /\ compile tc fuel st h (source_path st n) (target_path st n) a w
       = Ok (mkWorld files' (cmds w ++ [args])).
Proof.
  intros Hn. unfold compile, run. destruct (args_gathered a n Hn) as [args ->]. simpl.
  destruct (toolchain_succeeds args (fs w)) as [files' E]. rewrite E. eauto.
Qed.

(** A round at a node that is compiled and is not the last of its level. *)
Lemma round_compile_next s n y rest :
  h !! s_node s = Some n -> s_node s <> root_node ->
  s_triggered_recompile s = true \/ out_of_date st (fs (s_world s)) n = Ok true ->
  (exists sl, s_siblings_left s = Some sl
              /\ Py.remove (NodeRef (s_node s)) sl = Some (NodeRef <$> (y :: rest))) ->
  is_Some (h !! y) ->
  exists w', compile tc fuel st h (source_path st n) (target_path st n) (s_node s) (s_world s)
             = Ok w'
             /\ sched_round tc fuel st root_node h s
                = Ok (mkSched y (Some (NodeRef <$> (y :: rest))) (s_triggered_recompile s) true
                              (S (s_compiles s)) (s_compiled s ++ [s_node s]) w', false).
Proof.
  intros Hn Hroot Hstale (sl & Hsl & Hrem) [ny Hy].
  destruct (compile_returns (s_node s) n (s_world s) Hn) as (args & files' & Htc & Hw).
  exists (mkWorld files' (cmds (s_world s) ++ [args])). split; [exact Hw|].
  unfold sched_round. rewrite (deref_Some _ _ Hn). simpl.
  assert (Hst : (if s_triggered_recompile s then Ok true
                 else out_of_date st (fs (s_world s)) n) = Ok true).
  { destruct Hstale as [-> | ->]; [reflexivity|]. now destruct (s_triggered_recompile s). }
  rewrite Hst. simpl. rewrite Hw. simpl.
  destruct (decide (s_node s = root_node)); [contradiction|].
  rewrite Hsl. simpl. rewrite Hrem. simpl. rewrite (deref_Some _ _ Hy). reflexivity.
Qed.

(** A round at a node that is compiled and is the last of its level. *)
Lemma round_compile_up s n p pn :
  h !! s_node s = Some n -> s_node s <> root_node ->
  s_triggered_recompile s = true \/ out_of_date st (fs (s_world s)) n = Ok true ->
  (exists sl, s_siblings_left s = Some sl /\ Py.remove (NodeRef (s_node s)) sl = Some []) ->
  parent n = Some p -> h !! p = Some pn ->
  forall sib, siblings_of h pn = Ok sib ->
  exists w', sched_round tc fuel st root_node h s
             = Ok (mkSched p sib true true
                           (S (s_compiles s)) (s_compiled s ++ [s_node s]) w', false).
Proof.
  intros Hn Hroot Hstale (sl & Hsl & Hrem) Hp Hpn sib Hsib.
  destruct (compile_returns (s_node s) n (s_world s) Hn) as (args & files' & _ & Hw).
  eexists. unfold sched_round. rewrite (deref_Some _ _ Hn). simpl.
  assert (Hst : (if s_triggered_recompile s then Ok true
                 else out_of_date st (fs (s_world s)) n) = Ok true).
  { destruct Hstale as [-> | ->]; [reflexivity|]. now destruct (s_triggered_recompile s). }
  rewrite Hst. simpl. rewrite Hw. simpl.
  destruct (decide (s_node s = root_node)); [contradiction|].
  rewrite Hsl. simpl. rewrite Hrem. simpl. rewrite Hp. simpl. rewrite (deref_Some _ _ Hpn). simpl.
  unfold siblings_of in Hsib. rewrite Hsib. reflexivity.
Qed.

(** A round at a node that is up to date, while the flag is not set. *)
Lemma round_skip_next s n y rest :
  h !! s_node s = Some n -> s_node s <> root_node ->
  s_triggered_recompile s = false -> out_of_date st (fs (s_world s)) n = Ok false ->
  (exists sl, s_siblings_left s = Some sl
              /\ Py.remove (NodeRef (s_node s)) sl = Some (NodeRef <$> (y :: rest))) ->
  is_Some (h !! y) ->
  sched_round tc fuel st root_node h s
  = Ok (mkSched y (Some (NodeRef <$> (y :: rest))) false (s_triggered_recompile_next s)
                (s_compiles s) (s_compiled s) (s_world s), false).
Proof.
  intros Hn Hroot Ht Hfresh (sl & Hsl & Hrem) [ny Hy].
  unfold sched_round. rewrite (deref_Some _ _ Hn). simpl. rewrite Ht, Hfresh. simpl.
  destruct (decide (s_node s = root_node)); [contradiction|].
  rewrite Hsl. simpl. rewrite Hrem. simpl. rewrite (deref_Some _ _ Hy), Ht. reflexivity.
Qed.

Lemma round_skip_up s n p pn :
  h !! s_node s = Some n -> s_node s <> root_node ->
  s_triggered_recompile s = false -> out_of_date st (fs (s_world s)) n = Ok false ->
  (exists sl, s_siblings_left s = Some sl /\ Py.remove (NodeRef (s_node s)) sl = Some []) ->
  parent n = Some p -> h !! p = Some pn ->
  forall sib, siblings_of h pn = Ok sib ->
  sched_round tc fuel st root_node h s
  = Ok (mkSched p sib (s_triggered_recompile_next s) (s_triggered_recompile_next s)
                (s_compiles s) (s_compiled s) (s_world s), false).
Proof.
  intros Hn Hroot Ht Hfresh (sl & Hsl & Hrem) Hp Hpn sib Hsib.
  unfold sched_round. rewrite (deref_Some _ _ Hn). simpl. rewrite Ht, Hfresh. simpl.
  destruct (decide (s_node s = root_node)); [contradiction|].
  rewrite Hsl. simpl. rewrite Hrem. simpl. rewrite Hp. simpl. rewrite (deref_Some _ _ Hpn). simpl.
  unfold siblings_of in Hsib. rewrite Hsib. simpl. rewrite Ht, orb_false_r. reflexivity.
Qed.

(** The round at the root, with the flag set or the root out of date. *)
Lemma round_root s n :
  s_node s = root_node -> h !! root_node = Some n ->
  s_triggered_recompile s = true \/ out_of_date st (fs (s_world s)) n = Ok true ->
  exists w', sched_round tc fuel st root_node h s
             = Ok (mkSched root_node (s_siblings_left s) (s_triggered_recompile s) true
                           (S (s_compiles s)) (s_compiled s ++ [root_node]) w', true).
Proof.
  intros Hs Hn Hstale.
  destruct (compile_returns root_node n (s_world s) Hn) as (args & files' & _ & Hw).
  eexists. unfold sched_round. rewrite Hs, (deref_Some _ _ Hn). simpl.
  assert (Hst : (if s_triggered_recompile s then Ok true
                 else out_of_date st (fs (s_world s)) n) = Ok true).
  { destruct Hstale as [-> | ->]; [reflexivity|]. now destruct (s_triggered_recompile s). }
  rewrite Hst. simpl. rewrite Hw. simpl.
  destruct (decide (root_node = root_node)); [reflexivity|contradiction].
Qed.

Lemma sched_loop_S rounds s :
  sched_loop (S rounds) tc fuel st root_node h s
  = '(s', stop) ← sched_round tc fuel st root_node h s;
    if stop : bool then Ok s' else sched_loop rounds tc fuel st root_node h s'.
Proof. reflexivity. Qed.

Lemma sched_loop_next rounds s s' :
  sched_round tc fuel st root_node h s = Ok (s', false) ->
  sched_loop (S rounds) tc fuel st root_node h s = sched_loop rounds tc fuel st root_node h s'.
Proof. intros H. rewrite sched_loop_S, H. reflexivity. Qed.

Lemma sched_loop_stop rounds s s' :
  sched_round tc fuel st root_node h s = Ok (s', true) ->
  sched_loop (S rounds) tc fuel st root_node h s = Ok s'.
Proof. intros H. rewrite sched_loop_S, H. reflexivity. Qed.

(** With the flag set, the rest of a level is compiled node by node, and the
    walk goes on at the parent with the flag set. *)
Lemma level_triggered p pn sib :
  h !! p = Some pn -> siblings_of h pn = Ok sib ->
  forall rest y sl compiles compiled nxt w k,
    level_of root_node h p (y :: rest) ->
    Py.remove (NodeRef y) sl = Some (NodeRef <$> rest) ->
    exists w',
      sched_loop (length (y :: rest) + k) tc fuel st root_node h
        (mkSched y (Some sl) true nxt compiles compiled w)
      = sched_loop k tc fuel st root_node h
          (mkSched p sib true true (length (y :: rest) + compiles)
                   (compiled ++ y :: rest) w').
Proof.
  intros Hpn Hsib rest.
  induction rest as [|y2 rest IH]; intros y sl compiles compiled nxt w k Hlv Hrem.
  - apply Forall_cons in Hlv as [(Hroot & ny & Hy & Hp) _].
    destruct (round_compile_up (mkSched y (Some sl) true nxt compiles compiled w) ny p pn
                Hy Hroot (or_introl eq_refl) (ex_intro _ sl (conj eq_refl Hrem)) Hp Hpn sib Hsib)
      as [w' Hr].
    cbn [s_node s_siblings_left s_triggered_recompile s_triggered_recompile_next
         s_compiles s_compiled s_world] in Hr.
    exists w'. change (length [y] + k)%nat with (S k).
    rewrite (sched_loop_next _ _ _ Hr). reflexivity.
  - pose proof Hlv as Hlv0. apply Forall_cons in Hlv as [(Hroot & ny & Hy & Hp) Hlv].
    pose proof Hlv as Hlv2. apply Forall_cons in Hlv2 as [(_ & ny2 & Hy2 & _) _].
    destruct (round_compile_next (mkSched y (Some sl) true nxt compiles compiled w) ny y2 rest
                Hy Hroot (or_introl eq_refl) (ex_intro _ sl (conj eq_refl Hrem))
                (ex_intro _ ny2 Hy2))
      as (w1 & _ & Hr).
    cbn [s_node s_siblings_left s_triggered_recompile s_triggered_recompile_next
         s_compiles s_compiled s_world] in Hr.
    destruct (IH y2 (NodeRef <$> (y2 :: rest)) (S compiles) (compiled ++ [y]) true w1 k Hlv)
      as [w' Hw'].
    { change (NodeRef <$> y2 :: rest) with (NodeRef y2 :: (NodeRef <$> rest)). simpl.
      destruct (decide (NodeRef y2 = NodeRef y2)); [reflexivity|congruence]. }
    exists w'. change (length (y :: y2 :: rest) + k)%nat with (S (length (y2 :: rest) + k)).
    rewrite (sched_loop_next _ _ _ Hr), Hw'.
    rewrite <- app_assoc. simpl. do 3 f_equal. lia.
Qed.

(** Without the flag, a rest of a level that is up to date is passed without
    any compilation and the files stay as they are; at the parent the flag is
    what [triggered_recompile_next] was. *)
Lemma level_up_to_date p pn sib :
  h !! p = Some pn -> siblings_of h pn = Ok sib ->
  forall rest y sl compiles compiled nxt w k,
    level_of root_node h p (y :: rest) ->
    Forall (fun z => forall nz, h !! z = Some nz -> out_of_date st (fs w) nz = Ok false)
           (y :: rest) ->
    Py.remove (NodeRef y) sl = Some (NodeRef <$> rest) ->
    sched_loop (length (y :: rest) + k) tc fuel st root_node h
      (mkSched y (Some sl) false nxt compiles compiled w)
    = sched_loop k tc fuel st root_node h (mkSched p sib nxt nxt compiles compiled w).
Proof.
  intros Hpn Hsib rest.
  induction rest as [|y2 rest IH]; intros y sl compiles compiled nxt w k Hlv Hfresh Hrem.
  - apply Forall_cons in Hlv as [(Hroot & ny & Hy & Hp) _].
    apply Forall_cons in Hfresh as [Hf _].
    change (length [y] + k)%nat with (S k).
    apply sched_loop_next.
    apply (round_skip_up (mkSched y (Some sl) false nxt compiles compiled w) ny p pn
             Hy Hroot eq_refl (Hf ny Hy) (ex_intro _ sl (conj eq_refl Hrem)) Hp Hpn sib Hsib).
  - apply Forall_cons in Hlv as [(Hroot & ny & Hy & Hp) Hlv].
    pose proof Hlv as Hlv2. apply Forall_cons in Hlv2 as [(_ & ny2 & Hy2 & _) _].
    apply Forall_cons in Hfresh as [Hf Hfresh].
    change (length (y :: y2 :: rest) + k)%nat with (S (length (y2 :: rest) + k)).
    rewrite (sched_loop_next _ _ _
               (round_skip_next (mkSched y (Some sl) false nxt compiles compiled w) ny y2 rest
                  Hy Hroot eq_refl (Hf ny Hy) (ex_intro _ sl (conj eq_refl Hrem))
                  (ex_intro _ ny2 Hy2))).
    apply IH; auto.
    change (NodeRef <$> y2 :: rest) with (NodeRef y2 :: (NodeRef <$> rest)). simpl.
    destruct (decide (NodeRef y2 = NodeRef y2)); [reflexivity|congruence].
Qed.

Lemma level_of_head x siblings p :
  In x siblings -> level_of root_node h p siblings -> level_of root_node h p (x :: remove_first x siblings).
Proof.
  intros Hin Hlv. unfold level_of in *. rewrite Forall_forall in *.
  intros y Hy. apply list_elem_of_In in Hy. apply Hlv, list_elem_of_In.
  destruct Hy as [<-|Hy]; [exact Hin|].
  clear -Hy. induction siblings as [|z l IH]; simpl in *; [contradiction|].
  destruct (decide (z = x)); [now right|]. destruct Hy as [<-|Hy]; auto.
Qed.

(** Without the flag, the nodes of a level that come before [t], being up to
    date, are passed without any compilation; the walk is then at [t], with [t]
    and the nodes after it left in the list. *)
Lemma level_skipped_to p t post :
  forall pre y sl compiles compiled nxt w k,
    level_of root_node h p (y :: pre ++ t :: post) ->
    Forall (fun z => forall nz, h !! z = Some nz -> out_of_date st (fs w) nz = Ok false)
           (y :: pre) ->
    Py.remove (NodeRef y) sl = Some (NodeRef <$> (pre ++ t :: post)) ->
    sched_loop (length (y :: pre) + k) tc fuel st root_node h
      (mkSched y (Some sl) false nxt compiles compiled w)
    = sched_loop k tc fuel st root_node h
        (mkSched t (Some (NodeRef <$> (t :: post))) false nxt compiles compiled w).
Proof.
  induction pre as [|y2 pre IH]; intros y sl compiles compiled nxt w k Hlv Hfresh Hrem.
  - cbn [app] in Hlv, Hrem.
    apply Forall_cons in Hlv as [(Hroot & ny & Hy & _) Hlv].
    apply Forall_cons in Hlv as [(_ & nt & Ht & _) _].
    apply Forall_cons in Hfresh as [Hf _].
    change (length [y] + k)%nat with (S k).
    apply sched_loop_next.
    apply (round_skip_next (mkSched y (Some sl) false nxt compiles compiled w) ny t post
             Hy Hroot eq_refl (Hf ny Hy) (ex_intro _ sl (conj eq_refl Hrem))
             (ex_intro _ nt Ht)).
  - cbn [app] in Hlv, Hrem.
    apply Forall_cons in Hlv as [(Hroot & ny & Hy & _) Hlv].
    pose proof Hlv as Hlv2. apply Forall_cons in Hlv2 as [(_ & ny2 & Hy2 & _) _].
    apply Forall_cons in Hfresh as [Hf Hfresh].
    change (length (y :: y2 :: pre) + k)%nat with (S (length (y2 :: pre) + k)).
    rewrite (sched_loop_next _ _ _
               (round_skip_next (mkSched y (Some sl) false nxt compiles compiled w) ny y2
                  (pre ++ t :: post)
                  Hy Hroot eq_refl (Hf ny Hy) (ex_intro _ sl (conj eq_refl Hrem))
                  (ex_intro _ ny2 Hy2))).
    apply IH; auto.
    change (NodeRef <$> y2 :: pre ++ t :: post)
      with (NodeRef y2 :: (NodeRef <$> pre ++ t :: post)). simpl.
    destruct (decide (NodeRef y2 = NodeRef y2)); [reflexivity|congruence].
Qed.

Section Root.

Context (r : Node) (root_is_node : h !! root_node = Some r) (root_parent : parent r = None).

Lemma walk_up_siblings x levels nx :
  walk_up h root_node x levels -> h !! x = Some nx ->
  exists sib, siblings_of h nx = Ok sib
              /\ match levels with
                 | [] => x = root_node
                 | level :: _ =>
                     exists p pn siblings,
                       h !! p = Some pn /\ sib = Some (NodeRef <$> siblings)
                       /\ In x siblings /\ level = x :: remove_first x siblings
                       /\ level_of root_node h p siblings
                 end.
Proof.
  intros Hw Hx. destruct Hw as [|x p pn siblings levels Hp Hc Hin Hlv Hup].
  - rewrite root_is_node in Hx. injection Hx as <-. unfold siblings_of. rewrite root_parent.
    eauto.
  - pose proof Hlv as Hlv0. rewrite Forall_forall in Hlv.
    destruct (Hlv x) as (_ & nx' & Hx' & Hpx); [now apply list_elem_of_In|].
    rewrite Hx in Hx'. injection Hx' as <-. unfold siblings_of.
    rewrite Hpx, (deref_Some _ _ Hp). simpl. rewrite Hc. eexists. split; [reflexivity|].
    exists p, pn, siblings. auto.
Qed.

(** With the flag set, the whole way up to the root is compiled. *)
Lemma walk_triggered x levels :
  walk_up h root_node x levels ->
  forall nx sib compiles compiled nxt w k,
    h !! x = Some nx -> siblings_of h nx = Ok sib ->
    exists s,
      sched_loop (length (concat levels) + S k) tc fuel st root_node h
        (mkSched x sib true nxt compiles compiled w) = Ok s
      /\ s_compiled s = compiled ++ concat levels ++ [root_node]
      /\ s_compiles s = (length (concat levels) + 1 + compiles)%nat.
Proof.
  induction 1 as [|x p pn siblings levels Hp Hc Hin Hlv Hup IH];
    intros nx sib compiles compiled nxt w k Hx Hsib.
  - destruct (round_root (mkSched root_node sib true nxt compiles compiled w) nx eq_refl Hx
                (or_introl eq_refl)) as [w' Hr].
    cbn [s_node s_siblings_left s_triggered_recompile s_triggered_recompile_next
         s_compiles s_compiled s_world] in Hr.
    eexists. change (length (concat (@nil (list nat))) + S k)%nat with (S k).
    rewrite (sched_loop_stop _ _ _ Hr). simpl. split; [reflexivity|].
    auto.
  - destruct (walk_up_siblings x _ nx (walk_up_level _ _ _ _ _ _ _ Hp Hc Hin Hlv Hup) Hx)
      as (sib' & Hsib' & (p' & pn' & siblings' & Hp' & -> & Hin' & Heq & Hlv')).
    rewrite Hsib in Hsib'. injection Hsib' as ->.
    destruct (walk_up_siblings p levels pn Hup Hp) as (sibp & Hsibp & _).
    assert (Hrm : remove_first x siblings' = remove_first x siblings) by congruence.
    assert (p' = p) as ->.
    { unfold level_of in Hlv'. rewrite Forall_forall in Hlv, Hlv'.
      destruct (Hlv x) as (_ & n1 & Hn1 & Hp1); [now apply list_elem_of_In|].
      destruct (Hlv' x) as (_ & n2 & Hn2 & Hp2); [now apply list_elem_of_In|]. congruence. }
    destruct (level_triggered p pn sibp Hp Hsibp (remove_first x siblings') x
                (NodeRef <$> siblings') compiles compiled nxt w
                (length (concat levels) + S k))
      as [w' Hw'].
    + now apply level_of_head.
    + now apply remove_NodeRef.
    + destruct (IH pn sibp (length (x :: remove_first x siblings') + compiles)%nat
                  (compiled ++ x :: remove_first x siblings') true w' k Hp Hsibp)
        as (s & Hs & Hcomp & Hcount).
      exists s. rewrite <- Hrm. rewrite !concat_cons, length_app.
      rewrite <- Nat.add_assoc, Hw', Hs. split; [reflexivity|].
      rewrite Hcomp, Hcount. split; [now rewrite <- !app_assoc|]. simpl. lia.
Qed.

(** What a level of the way says of the node it starts with. *)
Lemma walk_up_level_inv x level levels nx sib :
  walk_up h root_node x (level :: levels) ->
  h !! x = Some nx -> siblings_of h nx = Ok sib ->
  exists p pn siblings,
    h !! p = Some pn /\ sib = Some (NodeRef <$> siblings) /\ In x siblings
    /\ level = x :: remove_first x siblings /\ level_of root_node h p siblings
    /\ parent nx = Some p /\ walk_up h root_node p levels.
Proof.
  intros Hw Hx Hsib.
  inversion Hw as [|x0 p pn siblings levels0 Hp Hc Hin Hlv Hup]; subst.
  exists p, pn, siblings.
  pose proof Hlv as Hlv1. rewrite Forall_forall in Hlv1.
  destruct (Hlv1 x) as (_ & nx1 & Hx1 & Hpx); [now apply list_elem_of_In|].
  rewrite Hx in Hx1. injection Hx1 as <-.
  unfold siblings_of in Hsib. rewrite Hpx, (deref_Some _ _ Hp) in Hsib. simpl in Hsib.
  rewrite Hc in Hsib. injection Hsib as <-. auto 10.
Qed.

(** Without the flag, levels whose nodes are all up to date are passed
    without any compilation: the walk is then at the first node of the next
    level, and the flag is still not set. *)
Lemma walk_up_to_date below :
  forall x levels nx sib compiles compiled w k,
    walk_up h root_node x (below ++ levels) ->
    h !! x = Some nx -> siblings_of h nx = Ok sib ->
    Forall (fun z => forall nz, h !! z = Some nz -> out_of_date st (fs w) nz = Ok false)
           (concat below) ->
    exists x' nx' sib',
      walk_up h root_node x' levels /\ h !! x' = Some nx' /\ siblings_of h nx' = Ok sib'
      /\ sched_loop (length (concat below) + k) tc fuel st root_node h
           (mkSched x sib false false compiles compiled w)
         = sched_loop k tc fuel st root_node h
             (mkSched x' sib' false false compiles compiled w).
Proof.
  induction below as [|level below IH]; intros x levels nx sib compiles compiled w k Hw Hx Hsib Hf.
  - exists x, nx, sib. auto.
  - cbn [app] in Hw.
    destruct (walk_up_level_inv x _ _ nx sib Hw Hx Hsib)
      as (p & pn & siblings & Hp & -> & Hin & -> & Hlv & Hpx & Hup).
    destruct (walk_up_siblings p _ pn Hup Hp) as (sibp & Hsibp & _).
    rewrite concat_cons in Hf. apply Forall_app in Hf as [Hf1 Hf2].
    destruct (IH p levels pn sibp compiles compiled w k Hup Hp Hsibp Hf2)
      as (x' & nx' & sib' & Hw' & Hx' & Hsib' & Hrun).
    exists x', nx', sib'. split; [exact Hw'|]. split; [exact Hx'|]. split; [exact Hsib'|].
    rewrite concat_cons, length_app, <- Nat.add_assoc, <- Hrun.
    apply (level_up_to_date p pn sibp Hp Hsibp (remove_first x siblings) x (NodeRef <$> siblings)
             compiles compiled false w (length (concat below) + k)).
    + now apply level_of_head.
    + exact Hf1.
    + now apply remove_NodeRef.
Qed.

(** The walk at a node [t] that is out of date, the flag not being set: [t]
    is compiled, the nodes left in its level, which that leaves up to date, are
    not, and all the levels above are. *)
Lemma touched_then_triggered t post p pn upper :
  h !! p = Some pn -> walk_up h root_node p upper ->
  level_of root_node h p (t :: post) ->
  forall n sl w k,
    h !! t = Some n ->
    out_of_date st (fs w) n = Ok true ->
    (forall w1,
       compile tc fuel st h (source_path st n) (target_path st n) t w = Ok w1 ->
       Forall (fun z => forall nz, h !! z = Some nz -> out_of_date st (fs w1) nz = Ok false)
              post) ->
    Py.remove (NodeRef t) sl = Some (NodeRef <$> post) ->
    exists s,
      sched_loop (length (t :: post) + (length (concat upper) + S k)) tc fuel st root_node h
        (mkSched t (Some sl) false false 0 [] w) = Ok s
      /\ s_compiled s = t :: concat upper ++ [root_node]
      /\ s_compiles s = length (s_compiled s).
Proof.
  intros Hp Hup Hlevel n sl w k Hn Hstale Hfresh Hrem.
  destruct (walk_up_siblings p upper pn Hup Hp) as (sibp & Hsibp & _).
  pose proof Hlevel as Hlv0. apply Forall_cons in Hlv0 as [(Htroot & nt & Ht & Hpt) Hpost].
  rewrite Hn in Ht. injection Ht as <-.
  destruct post as [|y rest].
  - destruct (round_compile_up (mkSched t (Some sl) false false 0 [] w) n p pn
                Hn Htroot (or_intror Hstale) (ex_intro _ _ (conj eq_refl Hrem))
                Hpt Hp sibp Hsibp) as [w' Hround].
    cbn [s_node s_siblings_left s_triggered_recompile s_triggered_recompile_next
         s_compiles s_compiled s_world] in Hround.
    change (length [t] + (length (concat upper) + S k))%nat
      with (S (length (concat upper) + S k)).
    rewrite (sched_loop_next _ _ _ Hround).
    destruct (walk_triggered p upper Hup pn sibp 1%nat ([] ++ [t]) true w' k Hp Hsibp)
      as (s & Hs & Hcomp & Hcount).
    exists s. split; [exact Hs|]. rewrite Hcomp, Hcount. split; [reflexivity|].
    simpl. rewrite !length_app. simpl. lia.
  - pose proof Hpost as Hy. apply Forall_cons in Hy as [(_ & ny & Hy & _) _].
    destruct (round_compile_next (mkSched t (Some sl) false false 0 [] w) n y rest
                Hn Htroot (or_intror Hstale) (ex_intro _ _ (conj eq_refl Hrem))
                (ex_intro _ ny Hy)) as (w1 & Hrun & Hround).
    cbn [s_node s_siblings_left s_triggered_recompile s_triggered_recompile_next
         s_compiles s_compiled s_world] in Hround, Hrun.
    change (length (t :: y :: rest) + (length (concat upper) + S k))%nat
      with (S (length (y :: rest) + (length (concat upper) + S k))).
    rewrite (sched_loop_next _ _ _ Hround).
    rewrite (level_up_to_date p pn sibp Hp Hsibp rest y
               (NodeRef <$> y :: rest) 1%nat ([] ++ [t]) true w1
               (length (concat upper) + S k)).
    + destruct (walk_triggered p upper Hup pn sibp 1%nat ([] ++ [t]) true w1 k Hp Hsibp)
        as (s & Hs & Hcomp & Hcount).
      exists s. split; [exact Hs|]. rewrite Hcomp, Hcount. split; [reflexivity|].
      simpl. rewrite !length_app. simpl. lia.
    + exact Hpost.
    + exact (Hfresh w1 Hrun).
    + rewrite fmap_cons. simpl.
      destruct (decide (NodeRef y = NodeRef y)); [reflexivity|congruence].
Qed.

End Root.

End Scheduler.

(** C2, amended.  Let the toolchain succeed and no full rebuild be asked
    for, in a tree whose root has no parent.  Let [t] be a node on the way of
    the scheduler from its start node [last] to the root: the way passes the
    levels [below], then the nodes [pre] of the level of [t], then [t], and has
    the nodes [post] of that level and the levels [upper] still before it.  Let
    [t] be out of date, the nodes passed before it up to date, and the nodes
    [post] up to date once [t] is compiled.  Then [compile_all] returns, and
    the nodes it has compiled are, in this order: [t]; every node of every
    higher level, that is each ancestor of [t] followed by the other children
    of the parent of that ancestor; the root.  So the siblings of [t] are not
    compiled, and every sibling of an ancestor of [t] is. *)
Theorem touched_node_cascade tc fuel st root_node h r last below pre t post upper n w rounds :
  (forall args files, is_Some (tc args files)) ->
  (forall a na, h !! a = Some na ->
     exists args, compile_args fuel st h (source_path st na) (target_path st na) a = Ok args) ->
  rebuild st = false ->
  h !! root_node = Some r -> parent r = None ->
  walk_up h root_node last (below ++ (pre ++ t :: post) :: upper) ->
  Forall (fun z => forall nz, h !! z = Some nz -> out_of_date st (fs w) nz = Ok false)
         (concat below ++ pre) ->
  h !! t = Some n ->
  out_of_date st (fs w) n = Ok true ->
  (forall w1,
     compile tc fuel st h (source_path st n) (target_path st n) t w = Ok w1 ->
     Forall (fun z => forall nz, h !! z = Some nz -> out_of_date st (fs w1) nz = Ok false)
            post) ->
  (length (concat (below ++ (pre ++ t :: post) :: upper)) < rounds)%nat ->
  exists s,
    compile_all rounds tc fuel st root_node last h w = Ok s
    /\ s_compiled s = t :: concat upper ++ [root_node]
    /\ s_compiles s = length (s_compiled s).
Proof.
  intros Htc Hargs Hrebuild Hr Hpr Hw Hfresh Hn Hstale Hpost Hrounds.
  assert (exists nl, h !! last = Some nl) as [nl Hl].
  { destruct below; cbn [app] in Hw;
      inversion Hw as [|x0 p0 pn0 siblings0 levels0 Hp0 Hc0 Hin0 Hlv0 Hup0]; subst;
      rewrite Forall_forall in Hlv0;
      (destruct (Hlv0 last) as (_ & nl & Hl & _); [now apply list_elem_of_In|eauto]). }
  destruct (walk_up_siblings root_node h r Hr Hpr last _ nl Hw Hl) as (sib & Hsib & _).
  unfold compile_all. rewrite (deref_Some h _ _ Hl). simpl.
  pose proof Hsib as Hsib0. unfold siblings_of in Hsib0. rewrite Hsib0. simpl. rewrite Hrebuild.
  apply Forall_app in Hfresh as [Hbelow Hpre].
  rewrite concat_app, concat_cons, !length_app in Hrounds.
  assert (exists k, rounds = (length (concat below)
                              + (length pre + (length (t :: post)
                                               + (length (concat upper) + S k))))%nat)
    as [k ->].
  { exists (rounds - length (concat below) - length pre - length (t :: post)
            - length (concat upper) - 1)%nat. lia. }
  destruct (walk_up_to_date tc fuel st root_node h r Hr Hpr below last _ nl sib
              0%nat [] w (length pre + (length (t :: post) + (length (concat upper) + S k)))%nat
              Hw Hl Hsib Hbelow)
    as (x & nx & sibx & Hwx & Hx & Hsibx & ->).
  destruct (walk_up_level_inv root_node h x _ _ nx sibx Hwx Hx Hsibx)
    as (p & pn & siblings & Hp & -> & Hin & Heq & Hlv & Hpx & Hup).
  pose proof (level_of_head root_node h x siblings p Hin Hlv) as Hlevel.
  pose proof (remove_NodeRef x siblings Hin) as Hrem.
  rewrite <- Heq in Hlevel.
  destruct pre as [|y pre].
  - cbn [app] in Heq, Hlevel. injection Heq as -> Heq. rewrite <- Heq in Hrem.
    change (length (@nil nat) + ?a)%nat with a.
    apply (touched_then_triggered tc fuel st root_node h Htc Hargs r Hr Hpr x post p pn upper
             Hp Hup Hlevel n (NodeRef <$> siblings) w k Hn Hstale Hpost Hrem).
  - cbn [app] in Heq, Hlevel. injection Heq as -> Heq. rewrite <- Heq in Hrem.
    rewrite (level_skipped_to tc fuel st root_node h p t post pre x (NodeRef <$> siblings)
               0%nat [] false w _ Hlevel Hpre Hrem).
    assert (Hlevel' : level_of root_node h p (t :: post)).
    { unfold level_of in *. apply Forall_cons in Hlevel as [_ Hlevel].
      apply Forall_app in Hlevel as [_ Hlevel]. exact Hlevel. }
    apply (touched_then_triggered tc fuel st root_node h Htc Hargs r Hr Hpr t post p pn upper
             Hp Hup Hlevel' n (NodeRef <$> t :: post) w k Hn Hstale Hpost).
    rewrite fmap_cons. simpl.
    destruct (decide (NodeRef t = NodeRef t)); [reflexivity|congruence].
Qed.

(** ** The examples, step by step *)

Lemma app_classified :
  gen_classes example_classify id app_sources = Ok (classified app_sources).
Proof. vm_compute. reflexivity. Qed.

Lemma app_resolved :
  build_dependency_tree example_fuel (c_classes (classified app_sources)) 0
    (c_heap (classified app_sources)) = Ok (resolved_graph app_sources).
Proof. vm_compute. reflexivity. Qed.

Lemma app_clipped :
  clip_redundant example_fuel 0 (g_heap (resolved_graph app_sources))
  = Ok (clipped_tree app_sources).
Proof. vm_compute. reflexivity. Qed.

Lemma app_reduced :
  build_compile_tree example_fuel (c_classes (classified app_sources)) 0
    (g_heap (resolved_graph app_sources)) = Ok (reduced_tree app_sources).
Proof. vm_compute. reflexivity. Qed.

Lemma app_m_classified :
  gen_classes example_classify id app_sources_m = Ok (classified app_sources_m).
Proof. vm_compute. reflexivity. Qed.

Lemma app_m_resolved :
  build_dependency_tree example_fuel (c_classes (classified app_sources_m)) 0
    (c_heap (classified app_sources_m)) = Ok (resolved_graph app_sources_m).
Proof. vm_compute. reflexivity. Qed.

Lemma app_m_clipped :
  clip_redundant example_fuel 0 (g_heap (resolved_graph app_sources_m))
  = Ok (clipped_tree app_sources_m).
Proof. vm_compute. reflexivity. Qed.

Lemma dia_classified :
  gen_classes example_classify id dia_sources = Ok (classified dia_sources).
Proof. vm_compute. reflexivity. Qed.

Lemma dia_resolved :
  build_dependency_tree example_fuel (c_classes (classified dia_sources)) 0
    (c_heap (classified dia_sources)) = Ok (resolved_graph dia_sources).
Proof. vm_compute. reflexivity. Qed.

(** The walk of [dia] arrives at [Q] (node 2) from [main] at depth 0, at [P]
    (node 1) from [main] at depth 0, and at [Q] again from [P] at depth 1. *)
Lemma dia_arrivals :
  g_reached (resolved_graph dia_sources) = [mkReach 0 2 0; mkReach 0 1 0; mkReach 1 2 1]
  /\ node_depth (resolved_graph dia_sources) !! 2%nat = Some 1%Z
  /\ last_node (resolved_graph dia_sources) = Some 2%nat.
Proof. repeat split; vm_compute; reflexivity. Qed.

Lemma dia_clipped :
  clip_redundant example_fuel 0 (g_heap (resolved_graph dia_sources))
  = Ok (clipped_tree dia_sources).
Proof. vm_compute. reflexivity. Qed.

(** The clip of [dia] takes [Q] away from [main] and leaves it with [P]. *)
Lemma dia_clip_deletes :
  children <$> g_heap (resolved_graph dia_sources) !! 0%nat = Some [NodeRef 2; NodeRef 1]
  /\ children <$> clipped_tree dia_sources !! 0%nat = Some [NodeRef 1]
  /\ children <$> clipped_tree dia_sources !! 1%nat = Some [NodeRef 2]
  /\ parent <$> clipped_tree dia_sources !! 2%nat = Some (Some 1%nat).
Proof. repeat split; vm_compute; reflexivity. Qed.

Lemma dia_reduced :
  build_compile_tree example_fuel (c_classes (classified dia_sources)) 0
    (g_heap (resolved_graph dia_sources)) = Ok (reduced_tree dia_sources).
Proof. vm_compute. reflexivity. Qed.

Lemma lib_folded :
  fix_module_partition_deps example_fuel (c_classes (classified lib_sources)) 0
    (clipped_tree lib_sources) = Ok (reduced_tree lib_sources).
Proof. vm_compute. reflexivity. Qed.

Lemma lib_folded_twice :
  fix_module_partition_deps example_fuel (c_classes (classified lib_sources)) 0
    (reduced_tree lib_sources) = Ok (folded_twice lib_sources).
Proof. vm_compute. reflexivity. Qed.

Lemma example_toolchain_succeeds args files : is_Some (example_toolchain args files).
Proof. unfold example_toolchain. destruct (argument_after "-o" args); eauto. Qed.

(** ** C1: a full rebuild *)

(** C1, on the code.  For target [app], whose reduced tree [walk] prints as
    main, A, C, E, B, D, a full rebuild compiles C, E, A, B and main, and never
    D, which lies below the sibling B of A; the link that follows names the
    object of D all the same, a file that no command has written. *)
Theorem full_rebuild_misses_sibling_subtree :
  make_target example_classify id example_toolchain example_fuel 50
    (example_settings true) "app" app_sources (mkWorld app_files_fresh []) = Ok app_rebuilt
  /\ rebuild (example_settings true) = true
  /\ walk example_fuel (b_tree app_rebuilt) (b_root_node app_rebuilt) 0 []
     = Ok [(0, 0, None); (1, 1, Some 0); (2, 3, Some 1); (2, 5, Some 1);
           (1, 2, Some 0); (2, 4, Some 2)]%nat
  /\ s_compiled (b_sched app_rebuilt) = [3; 5; 1; 2; 0]%nat
  /\ ~ In 4%nat (s_compiled (b_sched app_rebuilt))
  /\ last (cmds (b_world app_rebuilt))
     = Some ["clang++"; "-std=c++23"; "-Wno-experimental-header-units"; "-g"; "-DDEBUG";
        "build/debug/object/app/main.o"; "build/debug/object/app/a.o";
        "build/debug/object/app/c.o"; "build/debug/object/app/e.o";
        "build/debug/object/app/b.o"; "build/debug/object/app/d.o";
        "-o"; "build/debug/app"]
  /\ fs (b_world app_rebuilt) !! "build/debug/object/app/d.o" = None.
Proof.
  assert (Hcompiled : s_compiled (b_sched app_rebuilt) = [3; 5; 1; 2; 0]%nat)
    by (vm_compute; reflexivity).
  split; [vm_compute; reflexivity|].
  split; [reflexivity|]. split; [vm_compute; reflexivity|].
  split; [exact Hcompiled|]. split; [|split; vm_compute; reflexivity].
  rewrite Hcompiled. intros H. repeat destruct H as [H|H]; try discriminate H. exact H.
Qed.

(** ** C7: witness *)

Lemma app_second_round :
  sched_round example_toolchain example_fuel (example_settings true) 0
    (reduced_tree app_sources) app_sched_start = Ok (app_sched_second, false).
Proof. vm_compute. reflexivity. Qed.

(** [app] under a full rebuild: the flag is set at the start at C, is still
    set one round later at E, and the round at E compiles E. *)
Lemma triggered_recompile_never_cleared_witness :
  s_triggered_recompile app_sched_second = true
  /\ forall s'' stop,
       sched_round example_toolchain example_fuel (example_settings true) 0
         (reduced_tree app_sources) app_sched_second = Ok (s'', stop) ->
       s_triggered_recompile s'' = true
       /\ s_compiled s'' = s_compiled app_sched_second ++ [s_node app_sched_second]
       /\ s_compiles s'' = S (s_compiles app_sched_second).
Proof.
  apply (triggered_recompile_never_cleared example_toolchain example_fuel
           (example_settings true) 0 (reduced_tree app_sources) app_sched_start).
  - reflexivity.
  - eapply later_next; [exact app_second_round|apply later_now].
Defined.

(** ** C8: counterexample and witness *)


(** The same in a whole node: a plain root that lists the partition among its
    children stops the resolution with the attribute error. *)
Lemma plain_unit_importing_partition :
  fill_children example_fuel (c_classes (classified lib_sources)) 0 0
    (mkGraph (<[0%nat := mkNode None [Ident "X"; Ident "X:part"]
                           (mkData plain None "lib/main.cpp" ["X"; "X:part"] [])]>
                (c_heap (classified lib_sources))) ∅ (-1) None [])
  = Err PyAttributeError.
Proof. vm_compute. reflexivity. Qed.


(** ** C9: counterexample and witness *)

(** A first source that is plain and ends in [.cpp], but lies in no
    directory: it does not become the root, [gen_classes] raises the error of
    the directory check. *)
Lemma root_source_claim_fails :
  ~ root_source_claim example_classify id ["main.cpp"].
Proof.
  intros H. destruct (H "main.cpp" [] eq_refl) as [_ H2].
  destruct H2 as (c & Hc & _).
  - split; [|reflexivity]. eexists. split; reflexivity.
  - vm_compute in Hc. discriminate Hc.
Qed.

Lemma root_source_checked_witness :
  (type (mkData plain None "app/main.cpp" ["A"; "B"] []) <> plain
   \/ Py.endswith "app/main.cpp" ".cpp" = false ->
   gen_classes example_classify id app_sources = Err RootNotPlain
   /\ forall tc fuel rounds st target w,
        make_target example_classify id tc fuel rounds st target app_sources w
        = Err RootNotPlain)
  /\ (type (mkData plain None "app/main.cpp" ["A"; "B"] []) = plain ->
      Py.endswith "app/main.cpp" ".cpp" = true ->
      Forall (source_accepted example_classify) (tail app_sources) ->
      exists c, gen_classes example_classify id app_sources = Ok c
                /\ c_root_node c = Some 0%nat
                /\ c_heap c !! 0%nat
                   = Some (mkNode None
                             (Ident <$> post (mkData plain None "app/main.cpp" ["A"; "B"] []))
                             (mkData plain None "app/main.cpp" ["A"; "B"] []))).
Proof.
  apply (root_source_checked example_classify id "app/main.cpp" (tail app_sources)
           (mkData plain None "app/main.cpp" ["A"; "B"] [])).
  - split; reflexivity.
  - reflexivity.
Defined.

(** A module interface as first source raises the root-source error. *)
Lemma root_source_interface_refused :
  gen_classes example_classify id ["app/a.cppm"; "app/c.cppm"; "app/e.cppm"] = Err RootNotPlain.
Proof. vm_compute. reflexivity. Qed.

(** ** C10: witness *)

Lemma load_bakerfile_defaults_and_pass_through_witness :
  (exists self, load_bakerfile (Some example_bakerfile) = Ok self
                /\ self !! "options" = Some (JObj (list_to_map [("cxx", JStr "clang++")]))
                /\ (exists sub, self !! "flags" = Some (JObj sub)
                                /\ sub !! "release" = Some (JList [JStr "-O3"; JStr "-DNDEBUG"]))
                /\ self !! "jobs" = Some (JInt 4))
  /\ exists e, load_bakerfile (Some example_bakerfile_wrong) = Err e.
Proof.
  pose proof (load_bakerfile_defaults_and_pass_through example_bakerfile)
    as (Hkey & Hsub & _ & Hpass).
  pose proof (load_bakerfile_defaults_and_pass_through example_bakerfile_wrong)
    as (_ & _ & Hwrong & _).
  split.
  - destruct (load_bakerfile (Some example_bakerfile)) as [self|e] eqn:E;
      [|vm_compute in E; discriminate E].
    exists self. split; [reflexivity|]. split; [|split].
    + apply (Hkey self "options" [("cxx", JStr "clang++")] eq_refl).
      * simpl. auto.
      * vm_compute. reflexivity.
    + apply (Hsub self "flags"
               [("debug", JList [JStr "-g"; JStr "-DDEBUG"]);
                ("release", JList [JStr "-O3"; JStr "-DNDEBUG"]);
                ("base", JList [JStr "-std=c++23"; JStr "-Wno-experimental-header-units"])]
               (JObj (list_to_map [("debug", JList [JStr "-O0"])]))
               "release" (JList [JStr "-O3"; JStr "-DNDEBUG"]) eq_refl).
      * simpl. right. left. reflexivity.
      * simpl. auto.
      * vm_compute. reflexivity.
      * vm_compute. reflexivity.
    + apply (Hpass self "jobs" (JInt 4) eq_refl).
      * vm_compute. intros H. repeat destruct H as [H|H]; try discriminate H. exact H.
      * vm_compute. reflexivity.
  - apply (Hwrong "options" [("cxx", JStr "clang++")] (list_to_map [("cxx", JInt 7)])
             "cxx" (JStr "clang++") (JInt 7)).
    + simpl. auto.
    + simpl. auto.
    + vm_compute. reflexivity.
    + vm_compute. reflexivity.
    + discriminate.
Defined.

(** ** C3: counterexample and witness *)

(** In [lib], the first run of the pass makes the imports of [X] the list
    [X:part, B]; the second run makes it [X:part, B, B]. *)
Lemma folding_idempotent_claim_fails :
  ~ folding_idempotent_claim example_fuel (c_classes (classified lib_sources)) 0
      (clipped_tree lib_sources).
Proof.
  intros H.
  assert (E : post (data (mkNode (Some 0%nat) [NodeRef 2]
                            (mkData module (Some "X") "lib/x.cppm" ["X:part"; "B"; "B"] [])))
              = post (data (mkNode (Some 0%nat) [NodeRef 2]
                              (mkData module (Some "X") "lib/x.cppm" ["X:part"; "B"] [])))).
  { apply (H _ _ lib_folded lib_folded_twice 1%nat).
    - vm_compute. reflexivity.
    - vm_compute. reflexivity.
    - reflexivity. }
  discriminate E.
Qed.

Lemma partition_folding_twice_witness :
  exists h2,
    fix_module_partition_deps example_fuel (c_classes (classified lib_sources)) 0
      (reduced_tree lib_sources) = Ok h2
    /\ forall a n n1,
         clipped_tree lib_sources !! a = Some n -> reduced_tree lib_sources !! a = Some n1 ->
         exists n2 appended,
           h2 !! a = Some n2
           /\ post (data n1) = post (data n) ++ appended
           /\ post (data n2) = post (data n1) ++ appended
           /\ (post (data n2) = post (data n1) <-> post (data n1) = post (data n)).
Proof.
  apply (partition_folding_twice example_fuel (c_classes (classified lib_sources)) 0
           (clipped_tree lib_sources) (reduced_tree lib_sources)).
  - apply (bool_decide_unpack _). vm_compute. exact I.
  - exact lib_folded.
Defined.

(** ** C6: witness *)

Lemma partition_folding_frame_witness :
  (forall a, reduced_tree lib_sources !! a = clipped_tree lib_sources !! a
             \/ exists n n', clipped_tree lib_sources !! a = Some n
                             /\ reduced_tree lib_sources !! a = Some n'
                             /\ type (data n) = module /\ same_but_post n n')
  /\ (forall f st a collected,
        collect_modules f st (reduced_tree lib_sources) a collected
        = collect_modules f st (clipped_tree lib_sources) a collected)
  /\ (forall f st source target a,
        compile_args f st (reduced_tree lib_sources) source target a
        = compile_args f st (clipped_tree lib_sources) source target a)
  /\ (forall f st a collected,
        collect_objects f st (reduced_tree lib_sources) a collected
        = collect_objects f st (clipped_tree lib_sources) a collected)
  /\ (forall rounds tc f st last w,
        compile_all rounds tc f st 0 last (reduced_tree lib_sources) w
        = compile_all rounds tc f st 0 last (clipped_tree lib_sources) w).
Proof.
  apply (partition_folding_frame example_fuel (c_classes (classified lib_sources)) 0
           (clipped_tree lib_sources) (reduced_tree lib_sources)).
  - apply (bool_decide_unpack _). vm_compute. exact I.
  - exact lib_folded.
Defined.

(** ** C4: counterexample *)

(** With the interface [M], which nothing imports, among the sources of
    [app]: [M] is classified as node 6, and [walk] prints the six other nodes. *)
Lemma reduced_tree_claim_fails :
  ~ reduced_tree_claim example_classify id example_fuel app_sources_m.
Proof.
  intros H.
  destruct (H (classified app_sources_m) 0%nat (resolved_graph app_sources_m)
              (clipped_tree app_sources_m)
              [(0, 0, None); (1, 1, Some 0); (2, 3, Some 1); (2, 5, Some 1);
               (1, 2, Some 0); (2, 4, Some 2)]%nat)
    as (_ & _ & Hcount).
  - exact app_m_classified.
  - reflexivity.
  - exact app_m_resolved.
  - exact app_m_clipped.
  - vm_compute. reflexivity.
  - specialize (Hcount 6%nat). vm_compute in Hcount.
    assert (E : 0%nat = 1%nat) by (apply Hcount; eauto). discriminate E.
Qed.

(** ** C5: witness *)

(** In [dia], the interface [Q] (node 2) is arrived at from [main] at depth
    0 and then from [P] (node 1) at depth 1: its recorded depth is 1 and its
    parent is [P]. *)
Lemma recorded_depth_is_deepest_witness :
  match node_depth (resolved_graph dia_sources) !! 2%nat with
  | None => forall k q, nsteps (edge (g_heap (resolved_graph dia_sources))) k 0%nat q ->
                        ~ edge (g_heap (resolved_graph dia_sources)) q 2%nat
  | Some d =>
      exists k i p n,
        d = Z.of_nat k
        /\ nsteps (edge (g_heap (resolved_graph dia_sources))) k 0%nat p
        /\ edge (g_heap (resolved_graph dia_sources)) p 2%nat
        /\ (forall k' q, nsteps (edge (g_heap (resolved_graph dia_sources))) k' 0%nat q ->
                         edge (g_heap (resolved_graph dia_sources)) q 2%nat -> (k' <= k)%nat)
        /\ g_reached (resolved_graph dia_sources) !! i = Some (mkReach p 2 d)
        /\ (forall j r, g_reached (resolved_graph dia_sources) !! j = Some r ->
                        r_child r = 2%nat ->
                        (r_depth r <= d)%Z /\ ((j < i)%nat -> (r_depth r < d)%Z))
        /\ reduced_tree dia_sources !! 2%nat = Some n /\ parent n = Some p
  end.
Proof.
  apply (recorded_depth_is_deepest example_fuel (c_classes (classified dia_sources)) 0
           (c_heap (classified dia_sources)) (resolved_graph dia_sources)
           (reduced_tree dia_sources)).
  - exact dia_resolved.
  - exact dia_reduced.
Defined.

(** ** C2: counterexample and witness *)

Lemma app_touched_run :
  exists s,
    compile_all 50 example_toolchain example_fuel (example_settings false) 0 3
      (reduced_tree app_sources) (mkWorld app_files_touched []) = Ok s
    /\ s_compiled s = [3; 1; 2; 0]%nat.
Proof. eexists. split; vm_compute; reflexivity. Qed.

(** [app] after [c.cppm] was touched: the scheduler compiles C, A, B and
    main.  B is a sibling of A, which is above C, and is up to date. *)
Lemma touched_leaf_claim_fails :
  ~ touched_leaf_claim example_toolchain example_fuel 50 (example_settings false) 0 3
      (reduced_tree app_sources) (mkWorld app_files_touched []) 3.
Proof.
  intros H. destruct app_touched_run as (s0 & Hs0 & Hcompiled).
  destruct H as (s & Hs & _ & Hbeside).
  - eexists. split; [vm_compute; reflexivity|]. repeat split; vm_compute; reflexivity.
  - apply (bool_decide_unpack _). vm_compute. exact I.
  - rewrite Hs0 in Hs. injection Hs as <-.
    apply (Hbeside 1%nat 0%nat
             (mkNode None [NodeRef 1; NodeRef 2]
                (mkData plain None "app/main.cpp" ["A"; "B"] []))
             2%nat [(0, 2, Some 0); (1, 4, Some 2)]%nat 2%nat).
    + vm_compute. auto.
    + vm_compute. reflexivity.
    + simpl. auto.
    + simpl. auto.
    + vm_compute. intros Hin. repeat destruct Hin as [Hin|Hin]; try discriminate Hin.
      exact Hin.
    + vm_compute. reflexivity.
    + simpl. auto.
    + rewrite Hcompiled. simpl. auto.
Qed.

Lemma app_args_gathered a na :
  reduced_tree app_sources !! a = Some na ->
  exists args,
    compile_args example_fuel (example_settings false) (reduced_tree app_sources)
      (source_path (example_settings false) na) (target_path (example_settings false) na) a
    = Ok args.
Proof.
  revert a na.
  assert (H : map_Forall
                (fun a na =>
                   match compile_args example_fuel (example_settings false)
                           (reduced_tree app_sources)
                           (source_path (example_settings false) na)
                           (target_path (example_settings false) na) a with
                   | Ok _ => true
                   | Err _ => false
                   end = true) (reduced_tree app_sources))
    by (apply (bool_decide_unpack _); vm_compute; exact I).
  intros a na Hna. specialize (H a na Hna). cbv beta in H.
  destruct (compile_args _ _ _ _ _ a); [eauto|discriminate H].
Qed.

(** [app] after [e.cppm] was touched: the walk starts at C (node 3), which
    is up to date, and comes to its sibling E (node 5); above are A and B
    (nodes 1 and 2), then the root. *)
Lemma touched_node_cascade_witness :
  exists s,
    compile_all 50 example_toolchain example_fuel (example_settings false) 0 3
      (reduced_tree app_sources) (mkWorld app_files_touched_e []) = Ok s
    /\ s_compiled s = (5 :: concat [[1; 2]] ++ [0])%nat
    /\ s_compiles s = length (s_compiled s).
Proof.
  apply (touched_node_cascade example_toolchain example_fuel (example_settings false)
           0 (reduced_tree app_sources)
           (mkNode None [NodeRef 1; NodeRef 2]
              (mkData plain None "app/main.cpp" ["A"; "B"] []))
           3 [] [3]%nat 5%nat [] [[1; 2]]%nat
           (mkNode (Some 1%nat) [] (mkData module (Some "E") "app/e.cppm" [] []))
           (mkWorld app_files_touched_e []) 50).
  - exact example_toolchain_succeeds.
  - exact app_args_gathered.
  - reflexivity.
  - vm_compute. reflexivity.
  - reflexivity.
  - apply (walk_up_level _ _ 3%nat 1%nat
             (mkNode (Some 0%nat) [NodeRef 3; NodeRef 5]
                (mkData module (Some "A") "app/a.cppm" ["C"; "E"] []))
             [3; 5]%nat [[1; 2]]%nat).
    + vm_compute. reflexivity.
    + reflexivity.
    + left. reflexivity.
    + apply Forall_cons. split; [split; [discriminate|]|apply Forall_cons; split;
                                   [split; [discriminate|]|apply Forall_nil]];
        eexists; (split; [vm_compute; reflexivity|reflexivity]).
    + apply (walk_up_level _ _ 1%nat 0%nat
               (mkNode None [NodeRef 1; NodeRef 2]
                  (mkData plain None "app/main.cpp" ["A"; "B"] []))
               [1; 2]%nat []).
      * vm_compute. reflexivity.
      * reflexivity.
      * left. reflexivity.
      * apply Forall_cons. split; [split; [discriminate|]|apply Forall_cons; split;
                                     [split; [discriminate|]|apply Forall_nil]];
          eexists; (split; [vm_compute; reflexivity|reflexivity]).
      * apply walk_up_root.
  - apply Forall_cons. split; [|apply Forall_nil; exact I].
    intros nz Hnz. vm_compute in Hnz. injection Hnz as <-. vm_compute. reflexivity.
  - vm_compute. reflexivity.
  - vm_compute. reflexivity.
  - intros w1 _. apply Forall_nil. exact I.
  - vm_compute. lia.
Defined.

(** ** The scheduler on a whole way to the root *)

Lemma walk_up_is_node h root_node r x levels :
  h !! root_node = Some r -> walk_up h root_node x levels -> is_Some (h !! x).
Proof.
  intros Hr Hw. destruct Hw as [|x p pn siblings levels Hp Hc Hin Hlv Hup]; [eauto|].
  rewrite Forall_forall in Hlv. destruct (Hlv x) as (_ & nx & Hx & _); [|eauto].
  now apply list_elem_of_In.
Qed.

(** The round at the root when it is up to date and the flag is not set:
    nothing is compiled and the loop ends. *)
Lemma round_root_skip tc fuel st root_node h s n :
  s_node s = root_node -> h !! root_node = Some n ->
  s_triggered_recompile s = false -> out_of_date st (fs (s_world s)) n = Ok false ->
  sched_round tc fuel st root_node h s = Ok (s, true).
Proof.
  intros Hs Hn Ht Hfresh. unfold sched_round. rewrite Hs. unfold deref. rewrite Hn.
  cbn [of_option mbind result_bind]. rewrite Ht, Hfresh. cbn [mbind result_bind].
  destruct (decide (root_node = root_node)); [reflexivity|contradiction].
Qed.

(** What one round does to the files and to the counters: nothing, or one
    command, which is the compilation of the node of the round. *)
Lemma sched_round_effect tc fuel st root_node h s s' stop :
  sched_round tc fuel st root_node h s = Ok (s', stop) ->
  exists n,
    h !! s_node s = Some n
    /\ ((s_compiles s' = s_compiles s /\ s_compiled s' = s_compiled s
         /\ s_world s' = s_world s)
        \/ exists args files',
             compile_args fuel st h (source_path st n) (target_path st n) (s_node s) = Ok args
             /\ tc args (fs (s_world s)) = Some files'
             /\ s_world s' = mkWorld files' (cmds (s_world s) ++ [args])
             /\ s_compiles s' = S (s_compiles s)
             /\ s_compiled s' = s_compiled s ++ [s_node s]).
Proof.
  unfold sched_round. intros H. inv_ok. exists x. unfold deref in Hx. inv_ok.
  split; [exact Hx|].
  assert (Hx1' : (s_compiles x1 = s_compiles s /\ s_compiled x1 = s_compiled s
                  /\ s_world x1 = s_world s)
                 \/ exists args files',
                      compile_args fuel st h (source_path st x) (target_path st x) (s_node s)
                      = Ok args
                      /\ tc args (fs (s_world s)) = Some files'
                      /\ s_world x1 = mkWorld files' (cmds (s_world s) ++ [args])
                      /\ s_compiles x1 = S (s_compiles s)
                      /\ s_compiled x1 = s_compiled s ++ [s_node s]).
  { destruct x0.
    - right. unfold compile, run in Hx1. inv_ok.
      destruct (tc x2 (fs (s_world s))) as [files'|] eqn:Etc; [|discriminate Hx2].
      injection Hx2 as <-. subst x1. exists x2, files'. simpl. auto.
    - left. inv_ok. subst. auto. }
  clear Hx1.
  destruct (decide (s_node s = root_node)).
  - injection H as <- _. exact Hx1'.
  - inv_ok.
    match type of H with
    | match ?l with _ => _ end = _ => destruct l as [|next rest]
    end; inv_ok; injection H as <- _; exact Hx1'.
Qed.

(** Every compilation of a run is one command. *)
Lemma sched_loop_commands tc fuel st root_node h rounds s s' :
  sched_loop rounds tc fuel st root_node h s = Ok s' ->
  (length (cmds (s_world s')) + s_compiles s
   = length (cmds (s_world s)) + s_compiles s')%nat.
Proof.
  revert s. induction rounds as [|r IH]; intros s H; [discriminate|].
  cbn [sched_loop] in H.
  destruct (sched_round tc fuel st root_node h s) as [[s1 stop]|e] eqn:Hround;
    [|discriminate H].
  cbn [mbind result_bind] in H.
  assert (Hone : (length (cmds (s_world s1)) + s_compiles s
                  = length (cmds (s_world s)) + s_compiles s1)%nat).
  { apply sched_round_effect in Hround
      as (n & _ & [(-> & _ & ->)|(args & files' & _ & _ & -> & -> & _)]); [lia|].
    simpl. rewrite length_app. simpl. lia. }
  destruct stop; [injection H as <-; exact Hone|].
  apply IH in H. lia.
Qed.

(** A full rebuild compiles the nodes of the way from the start node to the
    root, each once, in the order of the way, and no other node: the start
    node and its siblings, then each ancestor and its siblings, then the
    root. *)
Theorem full_rebuild_compiles_the_way tc fuel st root_node h r last levels rounds w :
  (forall args files, is_Some (tc args files)) ->
  (forall a na, h !! a = Some na ->
     exists args, compile_args fuel st h (source_path st na) (target_path st na) a = Ok args) ->
  rebuild st = true ->
  h !! root_node = Some r -> parent r = None ->
  walk_up h root_node last levels ->
  (length (concat levels) < rounds)%nat ->
  exists s,
    compile_all rounds tc fuel st root_node last h w = Ok s
    /\ s_compiled s = concat levels ++ [root_node]
    /\ s_compiles s = length (s_compiled s)
    /\ length (cmds (s_world s)) = (length (cmds w) + length (s_compiled s))%nat.
Proof.
  intros Htc Hargs Hrebuild Hr Hpr Hw Hrounds.
  destruct (walk_up_is_node h root_node r last levels Hr Hw) as [nl Hl].
  destruct (walk_up_siblings root_node h r Hr Hpr last levels nl Hw Hl) as (sib & Hsib & _).
  unfold compile_all. rewrite (deref_Some h _ _ Hl). cbn [mbind result_bind].
  unfold siblings_of in Hsib. rewrite Hsib. cbn [mbind result_bind]. rewrite Hrebuild.
  assert (exists k, rounds = (length (concat levels) + S k)%nat) as [k ->]
    by (exists (rounds - length (concat levels) - 1)%nat; lia).
  destruct (walk_triggered tc fuel st root_node h Htc Hargs r Hr Hpr last levels Hw
              nl sib 0%nat [] false w k Hl Hsib) as (s & Hs & Hcomp & Hcount).
  exists s. split; [exact Hs|]. cbn [app] in Hcomp. split; [exact Hcomp|].
  split; [rewrite Hcount, Hcomp, length_app; simpl; lia|].
  apply sched_loop_commands in Hs. cbn [s_world s_compiles] in Hs. rewrite Hcount in Hs.
  rewrite Hcomp, length_app. simpl. lia.
Qed.

(** When every node of the way from the start node to the root is up to date
    and no full rebuild is asked for, the run compiles nothing and runs no
    command, and [link] runs none either. *)
Theorem up_to_date_build_runs_nothing tc fuel st root_node h r last levels rounds w target :
  rebuild st = false ->
  h !! root_node = Some r -> parent r = None ->
  walk_up h root_node last levels ->
  Forall (fun z => forall nz, h !! z = Some nz -> out_of_date st (fs w) nz = Ok false)
         (concat levels ++ [root_node]) ->
  (length (concat levels) < rounds)%nat ->
  exists s,
    compile_all rounds tc fuel st root_node last h w = Ok s
    /\ s_compiles s = 0%nat /\ s_compiled s = [] /\ s_world s = w
    /\ link tc fuel st root_node h (s_compiles s) target (s_world s) = Ok w.
Proof.
  intros Hrebuild Hr Hpr Hw Hfresh Hrounds.
  destruct (walk_up_is_node h root_node r last levels Hr Hw) as [nl Hl].
  destruct (walk_up_siblings root_node h r Hr Hpr last levels nl Hw Hl) as (sib & Hsib & _).
  unfold compile_all. rewrite (deref_Some h _ _ Hl). cbn [mbind result_bind].
  pose proof Hsib as Hsib0. unfold siblings_of in Hsib0. rewrite Hsib0.
  cbn [mbind result_bind]. rewrite Hrebuild.
  assert (exists k, rounds = (length (concat levels) + S k)%nat) as [k ->]
    by (exists (rounds - length (concat levels) - 1)%nat; lia).
  apply Forall_app in Hfresh as [Hlevels Hroot].
  rewrite <- (app_nil_r levels) in Hw.
  destruct (walk_up_to_date tc fuel st root_node h r Hr Hpr levels last [] nl sib
              0%nat [] w (S k) Hw Hl Hsib Hlevels)
    as (x & nx & sibx & Hwx & Hx & Hsibx & ->).
  assert (x = root_node) as -> by (inversion Hwx; congruence).
  apply Forall_cons in Hroot as [Hroot _].
  rewrite Hr in Hx. injection Hx as <-.
  exists (mkSched root_node sibx false false 0 [] w).
  split; [|cbn [s_compiles s_compiled s_world link Nat.ltb Nat.leb]; auto].
  cbn [sched_loop].
  rewrite (round_root_skip tc fuel st root_node h (mkSched root_node sibx false false 0 [] w) r
             eq_refl Hr eq_refl (Hroot r Hr)).
  reflexivity.
Qed.

(** Where one round goes: at the root the loop ends; elsewhere the walk goes
    to the next node left in the list or, when none is left, to the parent. *)
Lemma sched_round_moves tc fuel st root_node h s s' stop n :
  sched_round tc fuel st root_node h s = Ok (s', stop) ->
  h !! s_node s = Some n ->
  if decide (s_node s = root_node) then stop = true
  else stop = false
       /\ exists sl left,
            s_siblings_left s = Some sl
            /\ Py.remove (NodeRef (s_node s)) sl = Some left
            /\ match left with
               | next :: _ => next = NodeRef (s_node s') /\ is_Some (h !! s_node s')
                              /\ s_siblings_left s' = Some left
               | [] => exists pn, parent n = Some (s_node s') /\ h !! s_node s' = Some pn
                                  /\ siblings_of h pn = Ok (s_siblings_left s')
               end.
Proof.
  unfold sched_round. intros H Hn. unfold deref in H. rewrite Hn in H.
  cbn [of_option mbind result_bind] in H. inv_ok.
  assert (Hsl : s_siblings_left x0 = s_siblings_left s).
  { destruct x; inv_ok; subst; reflexivity. }
  clear Hx0. destruct (decide (s_node s = root_node)); [now injection H as _ <-|].
  destruct (s_siblings_left x0) as [sl|] eqn:Esl; [|discriminate H].
  cbn [of_option mbind result_bind] in H.
  destruct (Py.remove (NodeRef (s_node s)) sl) as [left|] eqn:Erem; [|discriminate H].
  cbn [of_option mbind result_bind] in H.
  assert (stop = false /\
          match left with
          | next :: _ => next = NodeRef (s_node s') /\ is_Some (h !! s_node s')
                         /\ s_siblings_left s' = Some left
          | [] => exists pn, parent n = Some (s_node s') /\ h !! s_node s' = Some pn
                             /\ siblings_of h pn = Ok (s_siblings_left s')
          end) as [Hstop Hleft].
  { destruct left as [|next left].
    - destruct (parent n) as [p|]; [|discriminate H].
      cbn [of_option mbind result_bind] in H.
      destruct (h !! p) as [pn|] eqn:Hp; [|discriminate H].
      cbn [of_option mbind result_bind] in H.
      destruct (match parent pn with
                | Some pp => of_option PyAttributeError (h !! pp)
                             ≫= λ ppn : Node, Ok (Some (children ppn))
                | None => Ok None
                end) as [sib'|e] eqn:Esib; [|discriminate H].
      cbn [mbind result_bind] in H. injection H as <- <-. split; [reflexivity|].
      cbn [s_node s_siblings_left]. exists pn. split; [reflexivity|]. split; [exact Hp|].
      exact Esib.
    - destruct next as [i|b]; [discriminate H|]. cbn [deref_child] in H. unfold deref in H.
      destruct (h !! b) as [nb|] eqn:Hb; [|discriminate H].
      cbn [of_option mbind result_bind] in H. injection H as <- <-. split; [reflexivity|].
      cbn [s_node s_siblings_left]. rewrite Hb. eauto. }
  split; [exact Hstop|]. exists sl, left. rewrite <- Hsl. auto.
Qed.

(** Whatever the files say and whatever the commands do, a level is passed
    node by node, and what is compiled of it is compiled in its order. *)
Lemma level_along tc fuel st root_node h p pn :
  h !! p = Some pn ->
  forall rest y s k s_fin,
    level_of root_node h p (y :: rest) ->
    s_node s = y ->
    (exists sl, s_siblings_left s = Some sl
                /\ Py.remove (NodeRef y) sl = Some (NodeRef <$> rest)) ->
    sched_loop k tc fuel st root_node h s = Ok s_fin ->
    exists k' s_mid done,
      sched_loop k' tc fuel st root_node h s_mid = Ok s_fin
      /\ s_node s_mid = p /\ siblings_of h pn = Ok (s_siblings_left s_mid)
      /\ done `sublist_of` (y :: rest)
      /\ s_compiled s_mid = s_compiled s ++ done
      /\ s_compiles s_mid = (s_compiles s + length done)%nat.
Proof.
  intros Hp rest. induction rest as [|y2 rest IH]; intros y s k s_fin Hlv Hy Hsl Hrun;
    (destruct k as [|k]; [discriminate Hrun|]); cbn [sched_loop] in Hrun;
    (destruct (sched_round tc fuel st root_node h s) as [[s1 stop]|e] eqn:Hround;
       [|discriminate Hrun]); cbn [mbind result_bind] in Hrun;
    pose proof Hlv as Hlv0; apply Forall_cons in Hlv0 as [(Hroot & ny & Hny & Hpy) Hrest];
    rewrite <- Hy in Hny, Hroot;
    pose proof (sched_round_moves _ _ _ _ _ _ _ _ _ Hround Hny) as Hmove;
    (destruct (decide (s_node s = root_node)); [contradiction|]);
    destruct Hmove as (-> & sl' & left & Hsl' & Hrem' & Hleft);
    destruct Hsl as (sl & Hsl & Hrem); rewrite Hsl in Hsl'; injection Hsl' as <-;
    rewrite Hy, Hrem in Hrem'; injection Hrem' as <-;
    destruct (sched_round_effect _ _ _ _ _ _ _ _ Hround) as (n' & Hn' & Heffect);
    rewrite Hy in Heffect.
  - cbn [fmap list_fmap] in Hleft. destruct Hleft as (pn' & Hpar & Hpn' & Hsib).
    rewrite Hpy in Hpar. injection Hpar as Hpar. rewrite <- Hpar, Hp in Hpn'.
    injection Hpn' as <-.
    exists k, s1. destruct Heffect as [(Hc & Hd & _)|(args & files' & _ & _ & _ & Hc & Hd)].
    + exists []. rewrite app_nil_r. cbn [length]. rewrite Nat.add_0_r.
      split; [exact Hrun|]. split; [now symmetry|]. split; [exact Hsib|].
      split; [apply sublist_nil_l|auto].
    + exists [y]. split; [exact Hrun|]. split; [now symmetry|]. split; [exact Hsib|].
      split; [reflexivity|]. split; [exact Hd|]. rewrite Hc. simpl. lia.
  - destruct Hleft as (Hnext & _ & Hsl1).
    injection Hnext as Hnext.
    destruct (IH y2 s1 k s_fin Hrest (eq_sym Hnext)) as (k' & s_mid & done & Hmid & Hnode & Hsib
                                                         & Hsub & Hd' & Hc'); [|exact Hrun|].
    { exists (NodeRef y2 :: (NodeRef <$> rest)). split; [exact Hsl1|]. simpl.
      destruct (decide (NodeRef y2 = NodeRef y2)); [reflexivity|congruence]. }
    exists k', s_mid.
    destruct Heffect as [(Hc & Hd & _)|(args & files' & _ & _ & _ & Hc & Hd)].
    + exists done. split; [exact Hmid|]. split; [exact Hnode|]. split; [exact Hsib|].
      split; [now apply sublist_cons|]. rewrite <- Hc, <- Hd. auto.
    + exists (y :: done). split; [exact Hmid|]. split; [exact Hnode|]. split; [exact Hsib|].
      split; [now apply sublist_skip|]. rewrite Hd', Hc', Hd, Hc, <- app_assoc. simpl.
      split; [reflexivity|lia].
Qed.

(** The same for the whole way up to the root. *)
Lemma walk_along tc fuel st root_node h r x levels :
  h !! root_node = Some r -> parent r = None ->
  walk_up h root_node x levels ->
  forall nx s k s_fin,
    s_node s = x -> h !! x = Some nx -> siblings_of h nx = Ok (s_siblings_left s) ->
    sched_loop k tc fuel st root_node h s = Ok s_fin ->
    exists done,
      done `sublist_of` (concat levels ++ [root_node])
      /\ s_compiled s_fin = s_compiled s ++ done
      /\ s_compiles s_fin = (s_compiles s + length done)%nat.
Proof.
  intros Hr Hpr. induction 1 as [|x p pn siblings levels Hp Hc Hin Hlv Hup IH];
    intros nx s k s_fin Hs Hx Hsib Hrun.
  - destruct k as [|k]; [discriminate Hrun|]. cbn [sched_loop] in Hrun.
    destruct (sched_round tc fuel st root_node h s) as [[s1 stop]|e] eqn:Hround;
      [|discriminate Hrun].
    cbn [mbind result_bind] in Hrun. rewrite <- Hs in Hx.
    pose proof (sched_round_moves _ _ _ _ _ _ _ _ _ Hround Hx) as Hmove.
    destruct (decide (s_node s = root_node)); [|contradiction]. subst stop.
    injection Hrun as <-.
    destruct (sched_round_effect _ _ _ _ _ _ _ _ Hround)
      as (n' & _ & [(Hc & Hd & _)|(args & files' & _ & _ & _ & Hc & Hd)]).
    + exists []. rewrite app_nil_r. cbn [length]. rewrite Nat.add_0_r.
      split; [apply sublist_nil_l|auto].
    + exists [root_node]. split; [reflexivity|]. rewrite Hd, Hc, Hs. simpl.
      split; [reflexivity|lia].
  - pose proof (walk_up_level _ _ _ _ _ _ _ Hp Hc Hin Hlv Hup) as Hw.
    destruct (walk_up_level_inv root_node h x _ _ nx _ Hw Hx Hsib)
      as (p' & pn' & siblings' & Hp' & Hsl & Hin' & Heq & Hlv' & Hpx & _).
    injection Heq as Heq.
    assert (p' = p) as ->.
    { unfold level_of in Hlv'. rewrite Forall_forall in Hlv.
      destruct (Hlv x) as (_ & n1 & Hn1 & Hp1); [now apply list_elem_of_In|]. congruence. }
    destruct (level_along tc fuel st root_node h p pn Hp (remove_first x siblings) x s k s_fin)
      as (k' & s_mid & done & Hmid & Hnode & Hsibp & Hsub & Hd & Hcnt).
    + now apply level_of_head.
    + exact Hs.
    + exists (NodeRef <$> siblings'). split; [now symmetry|].
      rewrite Heq. now apply remove_NodeRef.
    + exact Hrun.
    + destruct (IH pn s_mid k' s_fin Hnode Hp Hsibp Hmid) as (done' & Hsub' & Hd' & Hcnt').
      exists (done ++ done'). rewrite concat_cons, <- app_assoc.
      split; [now apply sublist_app|]. rewrite Hd', Hcnt', Hd, Hcnt, length_app, <- app_assoc.
      split; [reflexivity|lia].
Qed.

(** Whatever the files say and whatever the commands do, a run that returns
    has compiled nodes of the way from the start node to the root only, in
    the order of the way and none more often than it occurs there; it has
    counted each compilation, and run one command for each. *)
Theorem compiles_along_the_way_only tc fuel st root_node h r last levels rounds w s :
  h !! root_node = Some r -> parent r = None ->
  walk_up h root_node last levels ->
  compile_all rounds tc fuel st root_node last h w = Ok s ->
  s_compiled s `sublist_of` (concat levels ++ [root_node])
  /\ s_compiles s = length (s_compiled s)
  /\ length (cmds (s_world s)) = (length (cmds w) + s_compiles s)%nat.
Proof.
  intros Hr Hpr Hw H. unfold compile_all in H.
  destruct (deref h last) as [nl|e] eqn:Hl; [|discriminate H].
  cbn [mbind result_bind] in H. unfold deref in Hl. apply of_option_Ok in Hl.
  destruct (walk_up_siblings root_node h r Hr Hpr last levels nl Hw Hl) as (sib & Hsib & _).
  pose proof Hsib as Hsib0. unfold siblings_of in Hsib0. rewrite Hsib0 in H.
  cbn [mbind result_bind] in H.
  destruct (walk_along tc fuel st root_node h r last levels Hr Hpr Hw nl
              (mkSched last sib (rebuild st) false 0 [] w) rounds s eq_refl Hl Hsib H)
    as (done & Hsub & Hd & Hc).
  cbn [s_compiled s_compiles app] in Hd, Hc. rewrite Hd, Hc.
  split; [exact Hsub|]. split; [reflexivity|].
  apply sched_loop_commands in H. cbn [s_world s_compiles] in H. lia.
Qed.

(** ** The identifiers that stand for plain sources and implementation units *)

(** The value of a string of decimal digits. *)
Lemma digits_string_of_uint d :
  forall acc prev, d <> Decimal.Nil \/ prev = true ->
    Py.digits (Z.of_nat acc) prev (NilEmpty.string_of_uint d)
    = Some (Z.of_nat (Nat.of_uint_acc d acc)).
Proof.
  induction d as [|d IH|d IH|d IH|d IH|d IH|d IH|d IH|d IH|d IH|d IH]; intros acc prev Hd;
    [destruct Hd as [Hd| ->]; [contradiction|reflexivity]|..];
    cbn [NilEmpty.string_of_uint Py.digits Nat.of_uint_acc];
    (match goal with
     | |- context [Py.digit ?c] =>
         let v := eval vm_compute in (Py.digit c) in
         change (Py.digit c) with v
     end);
    cbv iota;
    rewrite <- (IH _ true (or_intror eq_refl)); f_equal;
    rewrite ?Nat2Z.inj_succ, Nat.tail_mul_spec, Nat2Z.inj_mul; simpl Z.of_nat; lia.
Qed.

Lemma rstrip_string_of_uint d :
  Py.rstrip (NilEmpty.string_of_uint d) = NilEmpty.string_of_uint d.
Proof.
  induction d; cbn [NilEmpty.string_of_uint Py.rstrip]; [reflexivity|..];
    rewrite IHd;
    (match goal with
     | |- context [Py.is_space ?c] =>
         let v := eval vm_compute in (Py.is_space c) in
         change (Py.is_space c) with v
     end);
    rewrite andb_false_r; reflexivity.
Qed.

(** [int(str(n)) == n] *)
Lemma int_str n : Py.int (Py.str n) = Some (Z.of_nat n).
Proof.
  unfold Py.str, Py.int.
  assert (Hnn : Nat.to_uint n <> Decimal.Nil).
  { rewrite <- (Unsigned.of_to n) at 1. rewrite Unsigned.to_of. apply unorm_nonnil. }
  pose proof (digits_string_of_uint (Nat.to_uint n) 0 false (or_introl Hnn)) as Hd.
  change (Nat.of_uint_acc (Nat.to_uint n) 0) with (Nat.of_uint (Nat.to_uint n)) in Hd.
  rewrite Unsigned.of_to in Hd. change (Z.of_nat 0) with 0%Z in Hd.
  destruct (Nat.to_uint n) as [|d|d|d|d|d|d|d|d|d|d] eqn:E; [contradiction|..];
    cbn [NilEmpty.string_of_uint Py.lstrip] in Hd |- *;
    (match goal with
     | |- context [Py.is_space ?c] =>
         let v := eval vm_compute in (Py.is_space c) in
         change (Py.is_space c) with v
     end);
    cbv iota; cbn [Py.rstrip];
    (match goal with
     | |- context [Py.is_space ?c] =>
         let v := eval vm_compute in (Py.is_space c) in
         change (Py.is_space c) with v
     end);
    rewrite andb_false_r, rstrip_string_of_uint; exact Hd.
Qed.

(** A string without the separator is not split. *)
Lemma split_none sep s : Py.contains sep s = false -> Py.split sep s = [s].
Proof.
  induction s as [|c r IH]; intros H; [reflexivity|].
  cbn [Py.contains] in H. apply orb_false_elim in H as [Hc Hr].
  cbn [Py.split]. rewrite Ascii.eqb_sym, Hc, (IH Hr). reflexivity.
Qed.

Lemma split_at sep s r :
  Py.contains sep s = false -> Py.split sep (s +:+ String sep r) = s :: Py.split sep r.
Proof.
  induction s as [|c s IH]; intros H.
  - change ("" +:+ String sep r) with (String sep r). cbn [Py.split].
    rewrite Ascii.eqb_refl. reflexivity.
  - cbn [Py.contains] in H. apply orb_false_elim in H as [Hc Hs].
    change (String c s +:+ String sep r) with (String c (s +:+ String sep r)).
    cbn [Py.split]. rewrite Ascii.eqb_sym, Hc, (IH Hs). reflexivity.
Qed.

Lemma split_nonempty sep t : (1 <= length (Py.split sep t))%nat.
Proof.
  induction t as [|c t IHt]; cbn [Py.split]; [simpl; lia|].
  destruct (Ascii.eqb c sep); [simpl; lia|].
  destruct (Py.split sep t); simpl in *; lia.
Qed.

Lemma split_cons_length sep c t :
  length (Py.split sep (String c t))
  = if Ascii.eqb c sep then S (length (Py.split sep t)) else length (Py.split sep t).
Proof.
  cbn [Py.split]. pose proof (split_nonempty sep t) as Hne.
  destruct (Ascii.eqb c sep); [reflexivity|].
  destruct (Py.split sep t); simpl in *; lia.
Qed.

(** A string with a separator has two parts at least. *)
Lemma split_more sep s : Py.contains sep s = true -> (2 <= length (Py.split sep s))%nat.
Proof.
  induction s as [|c s IH]; intros H; [discriminate H|].
  rewrite split_cons_length. pose proof (split_nonempty sep s) as Hne.
  destruct (Ascii.eqb c sep) eqn:Ec; [lia|].
  cbn [Py.contains] in H. rewrite Ascii.eqb_sym, Ec in H. exact (IH H).
Qed.

Lemma split_app_length sep s r :
  length (Py.split sep (s +:+ String sep r))
  = (length (Py.split sep s) + length (Py.split sep r))%nat.
Proof.
  induction s as [|c s IH].
  - change ("" +:+ String sep r) with (String sep r).
    rewrite split_cons_length, Ascii.eqb_refl. reflexivity.
  - change (String c s +:+ String sep r) with (String c (s +:+ String sep r)).
    rewrite !split_cons_length, IH. destruct (Ascii.eqb c sep); reflexivity.
Qed.

Lemma contains_string_of_uint c d :
  Py.digit c = None -> Py.contains c (NilEmpty.string_of_uint d) = false.
Proof.
  intros Hc. induction d; cbn [NilEmpty.string_of_uint Py.contains]; [reflexivity|..];
    rewrite IHd, orb_false_r; apply Ascii.eqb_neq; intros ->; discriminate Hc.
Qed.

Lemma index_of_nat {A} (l : list A) (i : nat) : Py.index l (Z.of_nat i) = l !! i.
Proof.
  unfold Py.index. destruct (0 <=? Z.of_nat i)%Z eqn:E; [now rewrite Nat2Z.id|].
  apply Z.leb_gt in E. lia.
Qed.

(** [attach_plain_sources] writes the plain source at position [index] as
    ['@' + str(index)], and the first loop of [fill_children] reads that
    back, unless the string is the name of an interface or of a partition:
    the children of the root are what they were, followed by one identifier
    for every plain source but the root itself, in the order of
    [self.classes[Type.plain]], and each of them resolves to its source. *)
Theorem plain_sources_round_trip cls root_node h h' r module :
  h !! root_node = Some r ->
  attach_plain_sources cls root_node h = Ok h' ->
  exists r',
    h' !! root_node = Some r'
    /\ children r'
       = children r
         ++ ((fun ia => Ident ("@" +:+ Py.str ia.1))
               <$> filter (fun ia => ia.2 <> root_node) (imap pair (cls_plain cls)))
    /\ forall index a,
         cls_plain cls !! index = Some a ->
         cls_module cls !! Some ("@" +:+ Py.str index) = None ->
         cls_module_partition cls !! Some ("@" +:+ Py.str index) = None ->
         resolve cls module (Ident ("@" +:+ Py.str index)) = Ok (NodeRef a).
Proof.
  intros Hr H.
  assert (Hattach : forall l h0 r0 h1,
             h0 !! root_node = Some r0 ->
             for_each (fun '(index, plain_node) h' =>
                         if decide (plain_node = root_node) then Ok h'
                         else r ← deref h' root_node;
                              Ok (<[root_node := add_children [Ident ("@" +:+ Py.str index)] r]> h'))
                      l h0 = Ok h1 ->
             exists r1, h1 !! root_node = Some r1
                        /\ children r1
                           = children r0
                             ++ ((fun ia : nat * nat => Ident ("@" +:+ Py.str ia.1))
                                   <$> filter (fun ia => ia.2 <> root_node) l)).
  { clear. induction l as [|[index a] l IH]; intros h0 r0 h1 Hr0 H.
    - injection H as <-. exists r0. rewrite app_nil_r. auto.
    - cbn [for_each] in H. rewrite filter_cons. cbn [snd].
      destruct (decide (a = root_node)) as [->|Hne].
      + cbn [mbind result_bind] in H.
        destruct (decide (root_node <> root_node)) as [Hc|_]; [contradiction|].
        exact (IH _ _ _ Hr0 H).
      + unfold deref in H. rewrite Hr0 in H. cbn [of_option mbind result_bind] in H.
        destruct (decide (a <> root_node)) as [_|Hc]; [|contradiction].
        destruct (IH _ (add_children [Ident ("@" +:+ Py.str index)] r0) _
                    (lookup_insert_eq _ _ _) H) as (r1 & Hr1 & Hc1).
        exists r1. split; [exact Hr1|]. rewrite Hc1. cbn [children add_children set_children].
        rewrite <- app_assoc. reflexivity. }
  destruct (Hattach _ _ _ _ Hr H) as (r' & Hr' & Hc'). exists r'.
  split; [exact Hr'|]. split; [exact Hc'|].
  intros index a Ha Hm Hp. cbn [resolve]. rewrite Hm, Hp.
  change ("@" +:+ Py.str index) with (String "@" (Py.str index)). cbv iota.
  change (Ascii.eqb "@" "%") with false. change (Ascii.eqb "@" "@") with true. cbv iota.
  rewrite int_str. cbn [of_option mbind result_bind]. rewrite index_of_nat, Ha. reflexivity.
Qed.

(** [attach_module_impls] writes the implementation unit at position
    [index] of the module [key] as ['%' + key + ',' + str(index)], and the
    first loop of [fill_children] reads that back when the name of the module
    has no comma in it (and the string is not the name of an interface or of a
    partition); with a comma in the name of the module, [fill_children] raises
    the [ValueError] of the unpacking. *)
Theorem module_impls_round_trip cls root_node h h' r module :
  h !! root_node = Some r ->
  attach_module_impls cls root_node h = Ok h' ->
  (exists r',
     h' !! root_node = Some r'
     /\ children r'
        = children r
          ++ flat_map (fun entry =>
                         (fun index => Ident ("%" +:+ default "" entry.1 +:+ "," +:+ Py.str index))
                           <$> seq 0 (length entry.2))
                      (cls_module_impl cls))
  /\ forall key impls index,
       assoc (Some key) (cls_module_impl cls) = Some impls ->
       cls_module cls !! Some ("%" +:+ key +:+ "," +:+ Py.str index) = None ->
       cls_module_partition cls !! Some ("%" +:+ key +:+ "," +:+ Py.str index) = None ->
       (Py.contains "," key = false ->
        forall a, impls !! index = Some a ->
          resolve cls module (Ident ("%" +:+ key +:+ "," +:+ Py.str index)) = Ok (NodeRef a))
       /\ (Py.contains "," key = true ->
           resolve cls module (Ident ("%" +:+ key +:+ "," +:+ Py.str index))
           = Err PyValueError).
Proof.
  intros Hr H. split.
  - unfold attach_module_impls in H. revert h r Hr H.
    induction (cls_module_impl cls) as [|[key impls] entries IH]; intros h r Hr H.
    + injection H as <-. exists r. rewrite app_nil_r. auto.
    + cbn [for_each] in H.
      match type of H with
      | (?m ≫= _) = _ => destruct m as [h1|e] eqn:Hinner; [|discriminate H]
      end.
      cbn [mbind result_bind] in H.
      assert (Hin : exists r1,
                 h1 !! root_node = Some r1
                 /\ children r1
                    = children r
                      ++ ((fun index => Ident ("%" +:+ default "" key +:+ "," +:+ Py.str index))
                            <$> seq 0 (length impls))).
      { clear -Hr Hinner. revert h r Hr Hinner.
        generalize 0%nat as start. generalize (length impls) as len.
        induction len as [|len IHlen]; intros start h r Hr Hinner.
        - injection Hinner as <-. exists r. rewrite app_nil_r. auto.
        - cbn [seq for_each] in Hinner.
          destruct key as [k|]; [|discriminate Hinner].
          cbn [of_option mbind result_bind] in Hinner. unfold deref in Hinner.
          rewrite Hr in Hinner. cbn [of_option mbind result_bind] in Hinner.
          destruct (IHlen _ _ _ (lookup_insert_eq _ _ _) Hinner) as (r1 & Hr1 & Hc1).
          exists r1. split; [exact Hr1|]. rewrite Hc1.
          cbn [children add_children set_children seq fmap list_fmap default].
          rewrite <- app_assoc. reflexivity. }
      destruct Hin as (r1 & Hr1 & Hc1). destruct (IH _ _ Hr1 H) as (r' & Hr' & Hc').
      exists r'. split; [exact Hr'|]. rewrite Hc', Hc1. cbn [flat_map fst snd].
      rewrite <- app_assoc. reflexivity.
  - intros key impls index Hkey Hm Hp.
    assert (Hres : resolve cls module (Ident ("%" +:+ key +:+ "," +:+ Py.str index))
                   = match Py.split "," (key +:+ String "," (Py.str index)) with
                     | [impl_name; index2] =>
                         impls ← of_option PyKeyError
                                   (assoc (Some impl_name) (cls_module_impl cls));
                         i ← of_option PyValueError (Py.int index2);
                         NodeRef <$> of_option PyIndexError (Py.index impls i)
                     | _ => Err PyValueError
                     end).
    { cbn [resolve]. rewrite Hm, Hp. reflexivity. }
    rewrite Hres. split.
    + intros Hcomma a Ha. rewrite (split_at _ _ _ Hcomma).
      rewrite (split_none "," (Py.str index))
        by (apply contains_string_of_uint; reflexivity).
      rewrite Hkey. cbn [of_option mbind result_bind]. rewrite int_str.
      cbn [of_option mbind result_bind]. rewrite index_of_nat, Ha. reflexivity.
    + intros Hcomma. pose proof (split_app_length "," key (Py.str index)) as Hlen.
      pose proof (split_more "," key Hcomma). pose proof (split_nonempty "," (Py.str index)).
      destruct (Py.split "," (key +:+ String "," (Py.str index))) as [|p1 [|p2 [|p3 ps]]];
        simpl in Hlen; try lia; reflexivity.
Qed.

(** ** Paths *)

Lemma app_string_cons c (a b : string) : String c a +:+ b = String c (a +:+ b).
Proof. reflexivity. Qed.

Lemma app_string_nil (b : string) : "" +:+ b = b.
Proof. reflexivity. Qed.

Lemma length_app_string (a b : string) :
  String.length (a +:+ b) = (String.length a + String.length b)%nat.
Proof.
  induction a as [|c a IH]; [reflexivity|].
  rewrite app_string_cons. cbn [String.length]. now rewrite IH.
Qed.

Lemma app_string_assoc (a b c : string) : (a +:+ b) +:+ c = a +:+ (b +:+ c).
Proof.
  induction a as [|x a IH]; [reflexivity|]. rewrite !app_string_cons. now rewrite IH.
Qed.

Lemma substring_whole (s : string) : substring 0 (String.length s) s = s.
Proof.
  induction s as [|c s IH]; [reflexivity|]. cbn [String.length substring]. now rewrite IH.
Qed.

Lemma substring_head (a b : string) : substring 0 (String.length a) (a +:+ b) = a.
Proof.
  induction a as [|c a IH]; [destruct b; reflexivity|].
  rewrite app_string_cons. cbn [String.length substring]. now rewrite IH.
Qed.

(** A string is its first [k] characters followed by the others. *)
Lemma substring_split (s : string) :
  forall k, (k <= String.length s)%nat ->
    s = substring 0 k s +:+ substring k (String.length s - k) s.
Proof.
  induction s as [|c s IH]; intros k Hk.
  - simpl in Hk. assert (k = 0%nat) as -> by lia. reflexivity.
  - destruct k as [|k].
    + cbn [substring String.length Nat.sub]. rewrite substring_whole. reflexivity.
    + cbn [substring String.length Nat.sub]. simpl in Hk.
      change (String c (substring 0 k s) +:+ substring k (String.length s - k) s)
        with (String c (substring 0 k s +:+ substring k (String.length s - k) s)).
      rewrite <- IH by lia. reflexivity.
Qed.

Lemma endswith_refl (s : string) : Py.endswith s s = true.
Proof.
  unfold Py.endswith. rewrite Nat.leb_refl, Nat.sub_diag, substring_whole, String.eqb_refl.
  reflexivity.
Qed.

(** [endswith] on a string with one more character in front. *)
Lemma endswith_cons c s suffix :
  Py.endswith (String c s) suffix
  = if (String.length suffix <=? String.length s)%nat then Py.endswith s suffix
    else String.eqb (String c s) suffix.
Proof.
  unfold Py.endswith. cbn [String.length].
  destruct (String.length suffix <=? String.length s)%nat eqn:E.
  - apply Nat.leb_le in E.
    replace (String.length suffix <=? S (String.length s))%nat with true
      by (symmetry; apply Nat.leb_le; lia).
    replace (S (String.length s) - String.length suffix)%nat
      with (S (String.length s - String.length suffix)) by lia.
    reflexivity.
  - apply Nat.leb_gt in E.
    destruct (String.length suffix <=? S (String.length s))%nat eqn:E2.
    + apply Nat.leb_le in E2. assert (Hlen : String.length suffix = S (String.length s)) by lia.
      rewrite Hlen, Nat.sub_diag. cbn [substring andb]. rewrite substring_whole. reflexivity.
    + apply Nat.leb_gt in E2. cbn [andb]. symmetry. apply String.eqb_neq. intros <-.
      simpl in E2. lia.
Qed.

(** A suffix that fits into the tail of a string is looked for there. *)
Lemma endswith_app a b suffix :
  (String.length suffix <= String.length b)%nat ->
  Py.endswith (a +:+ b) suffix = Py.endswith b suffix.
Proof.
  intros Hlen. induction a as [|c a IH]; [reflexivity|].
  change (String c a +:+ b) with (String c (a +:+ b)). rewrite endswith_cons.
  replace (String.length suffix <=? String.length (a +:+ b))%nat with true; [exact IH|].
  symmetry. apply Nat.leb_le. rewrite length_app_string. lia.
Qed.

Lemma endswith_app_refl a suffix : Py.endswith (a +:+ suffix) suffix = true.
Proof. rewrite endswith_app by lia. apply endswith_refl. Qed.

(** What [endswith] says: the string is something followed by the suffix. *)
Lemma endswith_true s suffix :
  Py.endswith s suffix = true ->
  s = substring 0 (String.length s - String.length suffix) s +:+ suffix.
Proof.
  unfold Py.endswith. intros H. apply andb_prop in H as [Hlen Heq].
  apply Nat.leb_le in Hlen. apply String.eqb_eq in Heq.
  pose proof (substring_split s (String.length s - String.length suffix)
                (Nat.le_sub_l _ _)) as Hs.
  replace (String.length s - (String.length s - String.length suffix))%nat
    with (String.length suffix) in Hs by lia.
  rewrite Heq in Hs. exact Hs.
Qed.

Lemma removesuffix_app a suffix :
  suffix <> "" -> Py.removesuffix (a +:+ suffix) suffix = a.
Proof.
  intros Hne. unfold Py.removesuffix. rewrite endswith_app_refl.
  destruct (String.eqb_spec suffix ""); [contradiction|]. cbn [negb andb].
  rewrite length_app_string, Nat.add_sub. apply substring_head.
Qed.

Lemma removesuffix_other s suffix :
  Py.endswith s suffix = false -> Py.removesuffix s suffix = s.
Proof. intros H. unfold Py.removesuffix. rewrite H, andb_false_r. reflexivity. Qed.

(** [removesuffix] takes the suffix away from the end or leaves the string
    as it is. *)
Lemma removesuffix_cases s suffix :
  suffix <> "" ->
  (Py.endswith s suffix = true /\ s = Py.removesuffix s suffix +:+ suffix)
  \/ (Py.endswith s suffix = false /\ Py.removesuffix s suffix = s).
Proof.
  intros Hne. destruct (Py.endswith s suffix) eqn:E.
  - left. split; [reflexivity|]. pose proof (endswith_true _ _ E) as Hs.
    rewrite Hs at 2. now rewrite removesuffix_app.
  - right. split; [reflexivity|]. now apply removesuffix_other.
Qed.

Lemma contains_app c a b : Py.contains c (a +:+ b) = Py.contains c a || Py.contains c b.
Proof.
  induction a as [|x a IH]; [reflexivity|].
  change (String x a +:+ b) with (String x (a +:+ b)). cbn [Py.contains].
  rewrite IH, orb_assoc. reflexivity.
Qed.

Lemma endswith_contains c a : Py.endswith a (String c "") = true -> Py.contains c a = true.
Proof.
  induction a as [|x a IH]; [discriminate|].
  rewrite endswith_cons. cbn [String.length Py.contains].
  destruct a as [|y a].
  - cbn [String.length Nat.leb]. intros H. apply String.eqb_eq in H. injection H as ->.
    now rewrite Ascii.eqb_refl.
  - cbn [String.length Nat.leb]. intros H. rewrite (IH H). apply orb_true_r.
Qed.

(** Behind a directory (nothing, or a string that ends with a slash), a
    suffix without slash is found at the end of the whole path exactly when
    it is at the end of the file name. *)
Lemma endswith_behind dir f suffix :
  dir = "" \/ Py.endswith dir "/" = true ->
  Py.contains "/" suffix = false ->
  Py.endswith (dir +:+ f) suffix = Py.endswith f suffix.
Proof.
  intros Hdir Hsuffix.
  destruct (le_lt_dec (String.length suffix) (String.length f)) as [Hle|Hgt];
    [now apply endswith_app|].
  assert (Hf : Py.endswith f suffix = false).
  { unfold Py.endswith. replace (String.length suffix <=? String.length f)%nat with false;
      [reflexivity|]. symmetry. apply Nat.leb_gt. exact Hgt. }
  rewrite Hf. destruct Hdir as [->|Hslash]; [exact Hf|].
  destruct (Py.endswith (dir +:+ f) suffix) eqn:E; [|reflexivity]. exfalso.
  pose proof (endswith_true _ _ E) as Hs.
  set (p := substring 0 (String.length (dir +:+ f) - String.length suffix) (dir +:+ f)) in Hs.
  (* the suffix is longer than [f]: it holds the last slash of [dir] *)
  assert (Hcut : forall a b c d : string,
             a +:+ b = c +:+ d -> (String.length b < String.length d)%nat ->
             exists m, m <> "" /\ d = m +:+ b /\ a = c +:+ m).
  { clear. intros a b c. revert a. induction c as [|x c IH]; intros a d H Hlen.
    - exists a. change ("" +:+ d) with d in H. split; [|auto].
      intros ->. change ("" +:+ b) with b in H. subst. lia.
    - destruct a as [|y a].
      + change ("" +:+ b) with b in H. subst b. rewrite length_app_string in Hlen.
        simpl in Hlen. lia.
      + change (String y a +:+ b) with (String y (a +:+ b)) in H.
        change (String x c +:+ d) with (String x (c +:+ d)) in H.
        injection H as -> H. destruct (IH a d H Hlen) as (m & Hm & Hd & Ha).
        exists m. split; [exact Hm|]. split; [exact Hd|]. now rewrite Ha. }
  destruct (Hcut dir f p suffix Hs Hgt) as (m & Hm & Hsuf & Hdirm).
  rewrite Hdirm, endswith_app in Hslash
    by (destruct m; [contradiction|cbn [String.length]; lia]).
  apply endswith_contains in Hslash.
  rewrite Hsuf, contains_app, Hslash in Hsuffix. discriminate Hsuffix.
Qed.

(** [removesuffix] behind a directory. *)
Lemma removesuffix_behind dir f suffix :
  dir = "" \/ Py.endswith dir "/" = true ->
  suffix <> "" -> Py.contains "/" suffix = false ->
  Py.removesuffix (dir +:+ f) suffix = dir +:+ Py.removesuffix f suffix.
Proof.
  intros Hdir Hne Hsuffix.
  destruct (removesuffix_cases f suffix Hne) as [[Hend Hf]|[Hend Hf]].
  - rewrite Hf at 1. rewrite <- app_string_assoc. now apply removesuffix_app.
  - rewrite Hf. apply removesuffix_other. now rewrite endswith_behind.
Qed.

Lemma joined_dir_slash a : joined_dir a = "" \/ Py.endswith (joined_dir a) "/" = true.
Proof.
  unfold joined_dir. destruct (String.eqb_spec a "") as [->|Hne]; [now left|].
  cbn [orb]. destruct (Py.endswith a "/") eqn:E; [now right|].
  right. apply endswith_app_refl.
Qed.

Lemma join_relative a b : Py.startswith b "/" = false -> Py.join a b = joined_dir a +:+ b.
Proof.
  intros Hb. unfold Py.join, joined_dir. rewrite Hb.
  destruct (String.eqb a "" || Py.endswith a "/"); [reflexivity|].
  now rewrite app_string_assoc.
Qed.

Lemma join_absolute a b : Py.startswith b "/" = true -> Py.join a b = b.
Proof. intros Hb. unfold Py.join. now rewrite Hb. Qed.

Lemma startswith_slash b : Py.startswith b "/" = true <-> exists r, b = String "/" r.
Proof.
  unfold Py.startswith. destruct b as [|c b]; cbn [String.prefix].
  - split; [discriminate|intros [r Hr]; discriminate Hr].
  - destruct (ascii_dec "/" c) as [<-|Hne].
    + split; [eauto|]. intros _. destruct b; reflexivity.
    + split; [discriminate|]. intros [r Hr]. congruence.
Qed.

(** Taking a suffix without slash away leaves the first character of a path
    that begins with a slash. *)
Lemma removesuffix_absolute r suffix :
  suffix <> "" -> Py.contains "/" suffix = false ->
  exists r', Py.removesuffix (String "/" r) suffix = String "/" r'.
Proof.
  intros Hne Hsuffix.
  destruct (removesuffix_cases (String "/" r) suffix Hne) as [[_ Hf]|[_ Hf]].
  - destruct (Py.removesuffix (String "/" r) suffix) as [|c r'].
    + rewrite app_string_nil in Hf. rewrite <- Hf in Hsuffix. cbn [Py.contains] in Hsuffix.
      rewrite Ascii.eqb_refl in Hsuffix. discriminate Hsuffix.
    + rewrite app_string_cons in Hf. injection Hf as <- _. eauto.
  - rewrite Hf. eauto.
Qed.

(** Taking a suffix away does not bring a slash to the front. *)
Lemma removesuffix_relative f suffix :
  suffix <> "" ->
  Py.startswith f "/" = false -> Py.startswith (Py.removesuffix f suffix) "/" = false.
Proof.
  intros Hne Hf.
  destruct (removesuffix_cases f suffix Hne) as [[_ Hs]|[_ Hs]]; [|now rewrite Hs].
  destruct (Py.startswith (Py.removesuffix f suffix) "/") eqn:E; [|reflexivity].
  apply startswith_slash in E as [r' Hr']. rewrite Hr', app_string_cons in Hs.
  assert (Py.startswith f "/" = true) by (apply startswith_slash; eauto). congruence.
Qed.

Lemma startswith_app_dot g e :
  Py.startswith (g +:+ String "." e) "/" = Py.startswith g "/".
Proof.
  destruct g as [|c g]; [reflexivity|]. rewrite app_string_cons.
  unfold Py.startswith. cbn [String.prefix]. destruct (ascii_dec "/" c); [|reflexivity].
  destruct g; reflexivity.
Qed.

(** The object file of a source, as [compile_all] writes it and as
    [collect_objects] names it. *)
Lemma object_path_agrees dir f :
  Py.join dir (removesuffixes [".cpp"; ".cppm"] f +:+ ".o")
  = removesuffixes [".cpp"; ".cppm"] (Py.join dir f) +:+ ".o".
Proof.
  unfold removesuffixes. cbn [fold_left].
  destruct (Py.startswith f "/") eqn:Hf.
  - rewrite (join_absolute dir f Hf). apply join_absolute.
    apply startswith_slash in Hf as [r ->].
    destruct (removesuffix_absolute r ".cpp") as [r1 ->]; [discriminate|reflexivity|].
    destruct (removesuffix_absolute r1 ".cppm") as [r2 ->]; [discriminate|reflexivity|].
    apply startswith_slash. rewrite app_string_cons. eauto.
  - rewrite (join_relative dir f Hf).
    rewrite !removesuffix_behind by (apply joined_dir_slash || discriminate || reflexivity).
    rewrite join_relative, app_string_assoc; [reflexivity|].
    rewrite startswith_app_dot.
    do 2 (apply removesuffix_relative; [discriminate|]). exact Hf.
Qed.

(** The interface file of a module in a [.cppm] file, as [compile_all] looks
    for it and as [collect_modules] names it. *)
Lemma bmi_path_agrees dir f :
  Py.endswith f ".cppm" = true ->
  Py.removesuffix (Py.join dir (removesuffixes [".cpp"; ".cppm"] f +:+ ".o")) ".o" +:+ ".pcm"
  = Py.join dir (Py.removesuffix f ".cppm" +:+ ".pcm").
Proof.
  intros Hf. apply endswith_true in Hf.
  set (p := substring 0 (String.length f - String.length ".cppm") f) in Hf. clearbody p.
  subst f. unfold removesuffixes. cbn [fold_left].
  rewrite (removesuffix_other (p +:+ ".cppm") ".cpp")
    by (rewrite endswith_app by (simpl; lia); reflexivity).
  rewrite removesuffix_app by discriminate.
  destruct (Py.startswith p "/") eqn:Hp.
  - rewrite !join_absolute by (now rewrite startswith_app_dot).
    now rewrite removesuffix_app by discriminate.
  - rewrite !join_relative by (now rewrite startswith_app_dot).
    rewrite <- app_string_assoc, removesuffix_app by discriminate.
    apply app_string_assoc.
Qed.

(** ** What is gathered for the commands, against [walk] *)

(** [collect_objects] and [collect_modules] go through the tree as [walk]
    does: where [walk] returns, they return, with one object for every line
    printed and one module flag for every line of an interface or a
    partition, in the order of the lines. *)
Lemma gathered_along_walk st h fuel :
  forall a depth out0 out,
    walk fuel h a depth out0 = Ok out ->
    exists n lines,
      h !! a = Some n /\ out = out0 ++ (depth, a, parent n) :: lines
      /\ (forall collected,
            collect_objects fuel st h a collected
            = Ok (collected ++ (object_of st h <$> (depth, a, parent n) :: lines)))
      /\ (forall collected,
            collect_modules fuel st h a collected
            = Ok (collected ++ omap (module_of st h) ((depth, a, parent n) :: lines))).
Proof.
  induction fuel as [|f IH]; intros a depth out0 out H; [discriminate H|].
  cbn [walk] in H. unfold deref in H.
  destruct (h !! a) as [n|] eqn:Hn; [|discriminate H].
  cbn [of_option mbind result_bind] in H.
  assert (Hloop : forall cs o0 o,
             for_each (fun c out => '(a, _) ← deref_child h c; walk f h a (S depth) out) cs o0
             = Ok o ->
             exists lines,
               o = o0 ++ lines
               /\ (forall col,
                     for_each (fun c col => '(a, _) ← deref_child h c;
                                            collect_objects f st h a col) cs col
                     = Ok (col ++ (object_of st h <$> lines)))
               /\ (forall col,
                     for_each (fun c col => '(a, _) ← deref_child h c;
                                            collect_modules f st h a col) cs col
                     = Ok (col ++ omap (module_of st h) lines))).
  { induction cs as [|c cs IHcs]; intros o0 o Hcs.
    - injection Hcs as <-. exists []. rewrite app_nil_r.
      split; [reflexivity|]. split; intros col; cbn [for_each fmap list_fmap omap];
        now rewrite app_nil_r.
    - cbn [for_each] in Hcs.
      destruct (deref_child h c) as [[b nb]|e] eqn:Hc; [|discriminate Hcs].
      cbn [mbind result_bind] in Hcs.
      destruct (walk f h b (S depth) o0) as [o1|e] eqn:Hwalk; [|discriminate Hcs].
      cbn [mbind result_bind] in Hcs.
      destruct (IH _ _ _ _ Hwalk) as (n1 & lines1 & Hn1 & -> & Hobj1 & Hmod1).
      destruct (IHcs _ _ Hcs) as (lines2 & -> & Hobj2 & Hmod2).
      exists (((S depth, b, parent n1) :: lines1) ++ lines2).
      split; [now rewrite <- app_assoc|].
      split; intros col; cbn [for_each]; rewrite Hc; cbn [mbind result_bind].
      + rewrite Hobj1. cbn [mbind result_bind]. rewrite Hobj2, fmap_app, <- app_assoc.
        reflexivity.
      + rewrite Hmod1. cbn [mbind result_bind]. rewrite Hmod2, omap_app, <- app_assoc.
        reflexivity. }
  destruct (Hloop _ _ _ H) as (lines & -> & Hobj & Hmod).
  exists n, lines. split; [reflexivity|]. split; [now rewrite <- app_assoc|].
  split; intros collected.
  - cbn [collect_objects]. unfold deref. rewrite Hn. cbn [of_option mbind result_bind].
    rewrite Hobj, fmap_cons, <- app_assoc.
    unfold object_of at 2. cbn [fst snd]. rewrite Hn. unfold target_path.
    rewrite object_path_agrees. reflexivity.
  - cbn [collect_modules]. unfold deref. rewrite Hn. cbn [of_option mbind result_bind].
    rewrite Hmod. cbn [omap list_omap].
    assert (Hline : module_of st h (depth, a, parent n)
                    = if is_module_type (type (data n))
                      then Some (module_ (data n),
                                 Py.join (dir_object st)
                                   (Py.removesuffix (filename (data n)) ".cppm" +:+ ".pcm"))
                      else None).
    { unfold module_of. cbn [fst snd]. rewrite Hn. reflexivity. }
    rewrite Hline.
    destruct (is_module_type (type (data n))); [|reflexivity].
    now rewrite <- app_assoc.
Qed.

(** After a run that has compiled something, [link] hands to the linker the
    object files of the nodes that [walk] prints from the root, one for each
    line and in the order of the lines; each is the file that [compile_all]
    names as the target of the node.  After a run that has compiled nothing,
    [link] runs no command. *)
Theorem link_names_the_objects_of_the_tree tc fuel st root_node h target w printed :
  walk fuel h root_node 0 [] = Ok printed ->
  Forall (fun line => exists n, h !! line.1.2 = Some n /\ object_of st h line = target_path st n)
         printed
  /\ (forall compiles, (0 < compiles)%nat ->
        link tc fuel st root_node h compiles target w
        = run tc (cxx st ++ base_flags st ++ type_flags st ++ (object_of st h <$> printed)
                  ++ ["-o"; Py.join (dir_build st) target]) w)
  /\ link tc fuel st root_node h 0 target w = Ok w.
Proof.
  intros Hwalk. split; [|split].
  - assert (Hall : forall f a depth out0 out,
               walk f h a depth out0 = Ok out ->
               Forall (fun line => is_Some (h !! line.1.2)) out0 ->
               Forall (fun line => is_Some (h !! line.1.2)) out).
    { clear. induction f as [|f IH]; intros a depth out0 out H Hout0; [discriminate H|].
      cbn [walk] in H. unfold deref in H. destruct (h !! a) as [n|] eqn:Hn; [|discriminate H].
      cbn [of_option mbind result_bind] in H. revert H.
      apply for_each_inv.
      - intros c o o' _ Ho Hc. destruct (deref_child h c) as [[b nb]|e]; [|discriminate Hc].
        cbn [mbind result_bind] in Hc. eapply IH; eassumption.
      - apply Forall_app. split; [exact Hout0|]. apply Forall_cons. split; [|constructor].
        cbn [fst snd]. rewrite Hn. eauto. }
    specialize (Hall _ _ _ _ _ Hwalk (Forall_nil_2 _)).
    eapply Forall_impl; [exact Hall|]. intros line [n Hn]. exists n. split; [exact Hn|].
    unfold object_of. now rewrite Hn.
  - intros compiles Hc. unfold link.
    replace (0 <? compiles)%nat with true by (symmetry; apply Nat.ltb_lt; exact Hc).
    destruct (gathered_along_walk st h fuel _ _ _ _ Hwalk) as (n & lines & _ & -> & Hobj & _).
    rewrite Hobj. reflexivity.
  - reflexivity.
Qed.

(** The module flags of the compilation of a node are gathered from the
    interfaces and partitions that [walk] prints from that node, the node itself
    included, one for each and in the order of the lines.  When the files of
    these modules end in [.cppm], the interface file named in a flag is the one
    that [compile_all] looks for when it decides whether to compile that
    module. *)
Theorem compile_names_the_interfaces_below fuel st h a depth lines :
  walk fuel h a depth [] = Ok lines ->
  collect_modules fuel st h a [] = Ok (omap (module_of st h) lines)
  /\ ((forall line n, In line lines -> h !! line.1.2 = Some n ->
         is_module_type (type (data n)) = true ->
         Py.endswith (filename (data n)) ".cppm" = true) ->
      collect_modules fuel st h a []
      = Ok (omap (fun line => n ← h !! line.1.2;
                              if is_module_type (type (data n))
                              then Some (module_ (data n), bmi_target_path st n)
                              else None) lines)).
Proof.
  intros Hwalk.
  destruct (gathered_along_walk st h fuel _ _ _ _ Hwalk) as (n & lines' & _ & -> & _ & Hmod).
  specialize (Hmod []). cbn [app] in Hmod. split; [exact Hmod|].
  intros Hcppm. rewrite Hmod. f_equal. cbn [app] in Hcppm.
  revert Hcppm. generalize ((depth, a, parent n) :: lines'). clear.
  induction l as [|line l IH]; intros Hcppm; [reflexivity|].
  cbn [omap list_omap].
  assert (Hline : module_of st h line
                  = n ← h !! line.1.2;
                    if is_module_type (type (data n))
                    then Some (module_ (data n), bmi_target_path st n)
                    else None).
  { unfold module_of. destruct (h !! line.1.2) as [n|] eqn:Hn; [|reflexivity].
    cbn [mbind option_bind]. destruct (is_module_type (type (data n))) eqn:Hm; [|reflexivity].
    unfold bmi_target_path, target_path.
    rewrite bmi_path_agrees; [reflexivity|]. apply (Hcppm line n); [now left|exact Hn|exact Hm]. }
  rewrite Hline.
  change (list_omap _ _ ?f l) with (omap f l).
  rewrite IH by (intros line' n' Hin; apply Hcppm; now right).
  reflexivity.
Qed.

(** ** The check of the modification times *)

Lemma exists_Some files path t : files !! path = Some t -> exists_ files path = true.
Proof. intros H. unfold exists_. apply bool_decide_eq_true. eauto. Qed.

Lemma exists_None files path : files !! path = None -> exists_ files path = false.
Proof. intros H. unfold exists_. apply bool_decide_eq_false. rewrite H. now intros [? ?]. Qed.

(** What the files decide in [compile_all].  A node whose object file is
    missing is out of date, whether its source exists or not.  A node is up
    to date exactly when its object file exists and is not older than the
    source and, for an interface or a partition, the interface file exists too
    and is not older than the source: equal times count as up to date.  The
    check raises, and only the [OSError] of [getmtime], exactly when the
    object file exists and the source does not. *)
Theorem out_of_date_by_times st files n :
  (files !! target_path st n = None -> out_of_date st files n = Ok true)
  /\ (out_of_date st files n = Ok false
      <-> exists ts tt,
            files !! source_path st n = Some ts /\ files !! target_path st n = Some tt
            /\ (ts <= tt)%Z
            /\ (is_module_type (type (data n)) = true ->
                exists tb, files !! bmi_target_path st n = Some tb /\ (ts <= tb)%Z))
  /\ (forall e, out_of_date st files n = Err e
                <-> e = PyOSError /\ files !! source_path st n = None
                    /\ is_Some (files !! target_path st n)).
Proof.
  unfold out_of_date, is_later, getmtime.
  destruct (files !! target_path st n) as [tt|] eqn:Ht;
    [rewrite (exists_Some _ _ _ Ht)|rewrite (exists_None _ _ Ht)]; cbn [negb].
  - destruct (files !! source_path st n) as [ts|] eqn:Hs; cbn [of_option mbind result_bind].
    + destruct (tt <? ts)%Z eqn:Hlt.
      * apply Z.ltb_lt in Hlt. split; [discriminate|]. split; [split|].
        -- discriminate.
        -- intros (ts' & tt' & [= <-] & [= <-] & Hle & _). lia.
        -- intros e. split; [discriminate|]. intros (_ & [=] & _).
      * apply Z.ltb_ge in Hlt. split; [discriminate|].
        destruct (is_module_type (type (data n))).
        -- destruct (files !! bmi_target_path st n) as [tb|] eqn:Hb;
             [rewrite (exists_Some _ _ _ Hb)|rewrite (exists_None _ _ Hb)]; cbn [negb].
           ++ cbn [of_option mbind result_bind]. destruct (tb <? ts)%Z eqn:Hlb.
              ** apply Z.ltb_lt in Hlb. split; [split|].
                 --- discriminate.
                 --- intros (ts' & tt' & [= <-] & _ & _ & Hm).
                     destruct (Hm eq_refl) as (tb' & [= <-] & Hle). lia.
                 --- intros e. split; [discriminate|]. intros (_ & [=] & _).
              ** apply Z.ltb_ge in Hlb. split; [split|].
                 --- intros _. exists ts, tt. repeat split; try assumption. eauto.
                 --- reflexivity.
                 --- intros e. split; [discriminate|]. intros (_ & [=] & _).
           ++ split; [split|].
              ** discriminate.
              ** intros (ts' & tt' & _ & _ & _ & Hm).
                 destruct (Hm eq_refl) as (tb' & [=] & _).
              ** intros e. split; [discriminate|]. intros (_ & [=] & _).
        -- split; [split|].
           ++ intros _. exists ts, tt. repeat split; try assumption. discriminate.
           ++ reflexivity.
           ++ intros e. split; [discriminate|]. intros (_ & [=] & _).
    + split; [discriminate|]. split; [split|].
      * discriminate.
      * intros (ts' & tt' & [=] & _).
      * intros e. split; [intros [= <-]; eauto|]. intros (-> & _ & _). reflexivity.
  - split; [reflexivity|]. split; [split|].
    + discriminate.
    + intros (ts' & tt' & _ & [=] & _).
    + intros e. split; [discriminate|]. intros (_ & _ & [? [=]]).
Qed.

(** ** The classes as an index of the sources *)

Lemma assoc_add_impl m a impls m' :
  assoc m' (add_impl m a impls)
  = if decide (m' = m) then Some (default [] (assoc m impls) ++ [a]) else assoc m' impls.
Proof.
  induction impls as [|[k l] impls IH]; cbn [add_impl assoc].
  - destruct (decide (m = m')), (decide (m' = m)); simpl; congruence.
  - destruct (decide (k = m)) as [->|Hk]; cbn [assoc].
    + destruct (decide (m = m')) as [<-|Hm].
      * destruct (decide (m = m)); [|contradiction]. reflexivity.
      * destruct (decide (m' = m)); [congruence|]. reflexivity.
    + destruct (decide (k = m')) as [->|Hk'].
      * destruct (decide (m' = m)); [congruence|]. reflexivity.
      * rewrite IH. destruct (decide (m' = m)) as [->|Hm]; [|reflexivity].
        destruct (decide (k = m)); [contradiction|]. reflexivity.
Qed.

Lemma data_at_app_l classify done source i :
  (i < length done)%nat -> data_at classify (done ++ [source]) i = data_at classify done i.
Proof. intros Hi. unfold data_at. now rewrite lookup_app_l. Qed.

Lemma data_at_last classify done source d :
  classify source = Ok d -> data_at classify (done ++ [source]) (length done) = Some d.
Proof.
  intros Hd. unfold data_at. rewrite list_lookup_middle by reflexivity.
  cbn [mbind option_bind]. now rewrite Hd.
Qed.

Lemma data_at_beyond classify done i :
  (length done <= i)%nat -> data_at classify done i = None.
Proof. intros Hi. unfold data_at. now rewrite lookup_ge_None_2. Qed.

Lemma filter_iff_in {A} (P Q : A -> Prop) `{forall x, Decision (P x)}
    `{forall x, Decision (Q x)} (l : list A) :
  (forall x, x ∈ l -> P x <-> Q x) -> filter P l = filter Q l.
Proof.
  induction l as [|x l IH]; intros Hpq; [reflexivity|].
  rewrite !filter_cons.
  assert (Hx : P x <-> Q x) by (apply Hpq; left).
  rewrite IH by (intros y Hy; apply Hpq; now right).
  destruct (decide (P x)), (decide (Q x)); tauto.
Qed.

(** The positions after one more source. *)
Lemma filter_positions_snoc (P Q : nat -> Prop) `{forall i, Decision (P i)}
    `{forall i, Decision (Q i)} (n : nat) :
  (forall i, (i < n)%nat -> P i <-> Q i) ->
  filter P (seq 0 (S n)) = filter Q (seq 0 n) ++ (if decide (P n) then [n] else []).
Proof.
  intros Hpq. rewrite seq_S, filter_app. cbn [Nat.add]. f_equal.
  apply filter_iff_in. intros i Hi. apply Hpq. apply elem_of_seq in Hi. lia.
Qed.

Lemma positions_snoc classify done source d t m :
  classify source = Ok d ->
  positions classify (done ++ [source]) t m
  = positions classify done t m
    ++ (if decide ((type d, module_ d) = (t, m)) then [length done] else []).
Proof.
  intros Hd. unfold positions. rewrite length_app. cbn [length]. rewrite Nat.add_1_r.
  rewrite (filter_positions_snoc _ (fun i => kind_at classify done i = Some (t, m))).
  - f_equal. unfold kind_at. rewrite (data_at_last _ _ _ _ Hd).
    cbn [fmap option_fmap option_map].
    destruct (decide ((type d, module_ d) = (t, m))) as [E|E].
    + rewrite decide_True by congruence. reflexivity.
    + rewrite decide_False by congruence. reflexivity.
  - intros i Hi. unfold kind_at. now rewrite data_at_app_l.
Qed.

Lemma positions_of_kind_snoc classify done source d t :
  classify source = Ok d ->
  positions_of_kind classify (done ++ [source]) t
  = positions_of_kind classify done t ++ (if decide (type d = t) then [length done] else []).
Proof.
  intros Hd. unfold positions_of_kind. rewrite length_app. cbn [length]. rewrite Nat.add_1_r.
  rewrite (filter_positions_snoc _ (fun i => fst <$> kind_at classify done i = Some t)).
  - f_equal. unfold kind_at. rewrite (data_at_last _ _ _ _ Hd).
    cbn [fmap option_fmap option_map fst].
    destruct (decide (type d = t)) as [E|E].
    + rewrite decide_True by congruence. reflexivity.
    + rewrite decide_False by congruence. reflexivity.
  - intros i Hi. unfold kind_at. now rewrite data_at_app_l.
Qed.

Lemma indexes_start classify :
  indexes classify [] (mkClassified ∅ (mkClasses [] ∅ ∅ []) ∅ ∅ None).
Proof.
  unfold indexes. cbn [c_heap c_classes c_root_node cls_plain cls_module cls_module_partition
                         cls_module_impl length].
  split; [intros i Hi; lia|]. split; [intros i; now rewrite lookup_empty|].
  split; [reflexivity|]. split; [intros m; now rewrite lookup_empty|].
  split; [intros m; now rewrite lookup_empty|]. split; [reflexivity|reflexivity].
Qed.

(** One round of the loop of [gen_classes]. *)
Lemma gen_class_indexes classify done source c c' :
  indexes classify done c ->
  gen_class classify (length done) source c = Ok c' ->
  indexes classify (done ++ [source]) c' /\ source_accepted classify source
  /\ (done = [] -> exists d, classify source = Ok d /\ type d = plain
                             /\ Py.endswith source ".cpp" = true).
Proof.
  intros (Hall & Hheap & Hplain & Hmod & Hpart & Himpl & Hroot) H. unfold gen_class in H.
  destruct (Py.endswith source ".cpp" || Py.endswith source ".cppm") eqn:Hsuffix;
    [|discriminate H].
  cbn [negb] in H.
  destruct (Py.contains "/" (Py.dirname source) || String.eqb (Py.dirname source) "") eqn:Hdir;
    [discriminate H|].
  destruct (classify source) as [d|e] eqn:Hd; [|discriminate H].
  cbn [mbind result_bind] in H.
  assert (Hc' : c_heap c' = <[length done := node_of d]> (c_heap c)
                /\ c_classes c' = add_class d (length done) (c_classes c)
                /\ c_root_node c' = match done with [] => Some 0%nat | _ => c_root_node c end
                /\ (done = [] -> type d = plain /\ Py.endswith source ".cpp" = true)).
  { destruct (decide (length done = 0%nat)) as [E|E].
    - destruct (negb (bool_decide (type d = plain)) || negb (Py.endswith source ".cpp"))
        eqn:Hr; [discriminate H|].
      injection H as <-. cbn [c_heap c_classes c_root_node].
      apply length_zero_iff_nil in E. subst done. apply orb_false_elim in Hr as [Ht Hcpp].
      apply negb_false_iff in Ht, Hcpp. apply bool_decide_eq_true in Ht. auto.
    - injection H as <-. cbn [c_heap c_classes c_root_node].
      destruct done; [contradiction|]. repeat split; discriminate. }
  destruct Hc' as (Hh' & Hcls' & Hroot' & Hfirst).
  split; [|split; [split; [split; [exact Hsuffix|exact Hdir]|eauto]|]].
  - unfold indexes. rewrite Hh', Hcls', Hroot'. split; [|split; [|split; [|split; [|split; [|split]]]]].
    + intros i Hi. rewrite length_app in Hi. cbn [length] in Hi.
      destruct (decide (i = length done)) as [->|Hne].
      * rewrite (data_at_last _ _ _ _ Hd). eauto.
      * rewrite data_at_app_l by lia. apply Hall. lia.
    + intros i. destruct (decide (i = length done)) as [->|Hne].
      * rewrite lookup_insert_eq, (data_at_last _ _ _ _ Hd). reflexivity.
      * rewrite lookup_insert_ne by congruence. rewrite Hheap.
        destruct (le_lt_dec (length done) i).
        -- rewrite !data_at_beyond; [reflexivity|rewrite length_app; simpl|]; lia.
        -- now rewrite data_at_app_l.
    + rewrite (positions_of_kind_snoc _ _ _ _ _ Hd). unfold add_class.
      destruct (type d); cbn [cls_plain]; rewrite Hplain;
        [rewrite decide_True by reflexivity; reflexivity|..];
        rewrite decide_False by discriminate; now rewrite app_nil_r.
    + intros m. rewrite (positions_snoc _ _ _ _ _ _ Hd). unfold add_class.
      destruct (type d) eqn:Ht; cbn [cls_module];
        try (rewrite decide_False by congruence; rewrite app_nil_r; apply Hmod).
      destruct (decide (module_ d = m)) as [<-|Hm].
      * rewrite lookup_insert_eq, decide_True by reflexivity. now rewrite last_snoc.
      * rewrite lookup_insert_ne by exact Hm. rewrite decide_False by congruence.
        rewrite app_nil_r. apply Hmod.
    + intros m. rewrite (positions_snoc _ _ _ _ _ _ Hd). unfold add_class.
      destruct (type d) eqn:Ht; cbn [cls_module_partition];
        try (rewrite decide_False by congruence; rewrite app_nil_r; apply Hpart).
      destruct (decide (module_ d = m)) as [<-|Hm].
      * rewrite lookup_insert_eq, decide_True by reflexivity. now rewrite last_snoc.
      * rewrite lookup_insert_ne by exact Hm. rewrite decide_False by congruence.
        rewrite app_nil_r. apply Hpart.
    + intros m. rewrite (positions_snoc _ _ _ _ _ _ Hd). unfold add_class.
      destruct (type d) eqn:Ht; cbn [cls_module_impl];
        try (rewrite decide_False by congruence; rewrite app_nil_r; apply Himpl).
      rewrite assoc_add_impl.
      destruct (decide (m = module_ d)) as [->|Hm].
      * rewrite decide_True by reflexivity. rewrite Himpl.
        destruct (positions classify done module_impl (module_ d)); reflexivity.
      * rewrite decide_False by congruence. rewrite app_nil_r. apply Himpl.
    + destruct done; [reflexivity|]. rewrite Hroot. reflexivity.
  - intros Hnil. destruct (Hfirst Hnil). eauto.
Qed.

Lemma gen_classes_from_indexes classify rest :
  forall done c c',
    indexes classify done c ->
    gen_classes_from classify (length done) rest c = Ok c' ->
    indexes classify (done ++ rest) c' /\ Forall (source_accepted classify) rest.
Proof.
  induction rest as [|source rest IH]; intros done c c' Hc H.
  - injection H as <-. rewrite app_nil_r. auto.
  - cbn [gen_classes_from] in H.
    destruct (gen_class classify (length done) source c) as [c1|e] eqn:H1; [|discriminate H].
    cbn [mbind result_bind] in H.
    destruct (gen_class_indexes _ _ _ _ _ Hc H1) as (Hc1 & Hs & _).
    replace (S (length done)) with (length (done ++ [source])) in H
      by (rewrite length_app; simpl; lia).
    destruct (IH _ _ _ Hc1 H) as [Hc' Hrest]. rewrite <- app_assoc in Hc'. auto.
Qed.

(** What [gen_classes] leaves behind when it returns.  Every source has
    passed the checks on its suffix and its directory and is classified; the
    source at position [i] has become the node [i], without parent, with its
    imports as children.  [self.classes] is an index of these nodes: the plain
    sources, in the order that [list(set)] gives to their ascending positions;
    under each interface name and each partition name the LAST source that
    declares it (an earlier one of the same name is a node still, and is
    found under no name); under each module name its implementation units in
    the order of the sources.  The root is the first source, which is plain
    and ends in [.cpp].  (Of an empty list of sources nothing is said about
    the root: the pass sets [self.root_node] in the round of the first source
    only, and with no round [self.root_node] is what it was before.) *)
Theorem gen_classes_indexes_the_sources classify plain_order sources c :
  gen_classes classify plain_order sources = Ok c ->
  Forall (source_accepted classify) sources
  /\ (forall i, c_heap c !! i = node_of <$> data_at classify sources i)
  /\ cls_plain (c_classes c) = plain_order (positions_of_kind classify sources plain)
  /\ (forall m, cls_module (c_classes c) !! m = last (positions classify sources module m))
  /\ (forall m, cls_module_partition (c_classes c) !! m
                = last (positions classify sources module_partition m))
  /\ (forall m, assoc m (cls_module_impl (c_classes c))
                = match positions classify sources module_impl m with
                  | [] => None
                  | l => Some l
                  end)
  /\ match sources with
     | [] => True
     | source :: _ =>
         c_root_node c = Some 0%nat
         /\ exists d, classify source = Ok d /\ type d = plain
                      /\ Py.endswith source ".cpp" = true
     end.
Proof.
  unfold gen_classes. intros H.
  destruct (gen_classes_from classify 0 sources
              (mkClassified ∅ (mkClasses [] ∅ ∅ []) ∅ ∅ None)) as [c0|e] eqn:H0;
    [|discriminate H].
  cbn [mbind result_bind] in H. injection H as <-.
  cbn [c_heap c_classes c_root_node cls_plain cls_module cls_module_partition cls_module_impl].
  destruct (gen_classes_from_indexes classify sources [] _ _ (indexes_start classify) H0)
    as [(Hall & Hheap & Hplain & Hmod & Hpart & Himpl & Hroot) Hacc].
  cbn [app] in *. rewrite Hplain.
  repeat (split; [assumption || reflexivity|]).
  destruct sources as [|source rest]; [exact I|]. split; [exact Hroot|].
  cbn [gen_classes_from] in H0.
  destruct (gen_class classify 0 source (mkClassified ∅ (mkClasses [] ∅ ∅ []) ∅ ∅ None))
    as [c1|e] eqn:H1; [|discriminate H0].
  destruct (gen_class_indexes classify [] source _ _ (indexes_start classify) H1)
    as (_ & _ & Hfirst).
  exact (Hfirst eq_refl).
Qed.

(** ** From the resolution to the reduced tree *)

Lemma same_kinds_refl h : same_kinds h h.
Proof. intros a. reflexivity. Qed.

Lemma same_kinds_trans h1 h2 h3 : same_kinds h1 h2 -> same_kinds h2 h3 -> same_kinds h1 h3.
Proof. intros H12 H23 a. now rewrite H23, H12. Qed.

Lemma same_kinds_insert h a n n' :
  h !! a = Some n -> kind_of n' = kind_of n -> same_kinds h (<[a := n']> h).
Proof.
  intros Hn Hd b. destruct (decide (a = b)) as [->|Hne].
  - rewrite lookup_insert_eq, Hn. simpl. now rewrite Hd.
  - now rewrite lookup_insert_ne.
Qed.

Lemma same_kinds_Some h h' a n :
  same_kinds h h' -> h !! a = Some n ->
  exists n', h' !! a = Some n' /\ type (data n') = type (data n)
             /\ module_ (data n') = module_ (data n).
Proof.
  intros Hs Hn. specialize (Hs a). rewrite Hn in Hs.
  destruct (h' !! a) as [n'|]; [|discriminate Hs]. injection Hs as Ht Hm. eauto.
Qed.

Lemma same_kinds_Some_inv h h' a n' :
  same_kinds h h' -> h' !! a = Some n' ->
  exists n, h !! a = Some n /\ type (data n') = type (data n)
            /\ module_ (data n') = module_ (data n).
Proof.
  intros Hs Hn. specialize (Hs a). rewrite Hn in Hs.
  destruct (h !! a) as [n|]; [|discriminate Hs]. injection Hs as Ht Hm. eauto.
Qed.

Lemma registered_same_kinds cls h h' : same_kinds h h' -> registered cls h -> registered cls h'.
Proof.
  intros Hs Hr a n' Hn'. destruct (same_kinds_Some_inv _ _ _ _ Hs Hn') as (n & Hn & Ht' & Hm').
  rewrite Ht', Hm'. destruct (Hr a n Hn) as [Hm Hp]. split; intros Ht.
  - destruct (Hm Ht) as (b & Hb & [nb Hnb]). exists b. split; [exact Hb|].
    destruct (same_kinds_Some _ _ _ _ Hs Hnb) as (nb' & -> & _). eauto.
  - destruct (Hp Ht) as (b & Hb & [nb Hnb]). exists b. split; [exact Hb|].
    destruct (same_kinds_Some _ _ _ _ Hs Hnb) as (nb' & -> & _). eauto.
Qed.

Lemma clips_same_kinds h h' : clips h h' -> same_kinds h h'.
Proof.
  intros Hc a. specialize (Hc a). destruct (h !! a) as [n|], (h' !! a) as [n'|];
    try contradiction; [|reflexivity].
  destruct Hc as (_ & Hd & _). unfold kind_of. simpl. now rewrite Hd.
Qed.

Lemma frame_same_kinds h h' : frame h h' -> same_kinds h h'.
Proof.
  intros F a. specialize (F a). destruct (h !! a) as [n|], (h' !! a) as [n'|];
    try contradiction; [|reflexivity].
  destruct F as (_ & _ & Ht & Hm & _). unfold kind_of. simpl. now rewrite Ht, Hm.
Qed.

(** The resolution changes children and parents, never the data. *)
Lemma attach_plain_sources_same_kinds cls root_node h h' :
  attach_plain_sources cls root_node h = Ok h' -> same_kinds h h'.
Proof.
  unfold attach_plain_sources.
  apply (for_each_inv (same_kinds h)); [|apply same_kinds_refl].
  intros [index a] h1 h2 _ H1 H. destruct (decide (a = root_node)); [now injection H as <-|].
  unfold deref in H. destruct (h1 !! root_node) as [r|] eqn:Hr; [|discriminate H].
  cbn [of_option mbind result_bind] in H. injection H as <-.
  eapply same_kinds_trans; [exact H1|]. now apply (same_kinds_insert _ _ r).
Qed.

Lemma attach_module_impls_same_kinds cls root_node h h' :
  attach_module_impls cls root_node h = Ok h' -> same_kinds h h'.
Proof.
  unfold attach_module_impls.
  apply (for_each_inv (same_kinds h)); [|apply same_kinds_refl].
  intros [key impls] h1 h2 _ H1.
  apply (for_each_inv (same_kinds h)); [|exact H1].
  intros index h3 h4 _ H3 H. destruct key as [k|]; [|discriminate H].
  cbn [of_option mbind result_bind] in H. unfold deref in H.
  destruct (h3 !! root_node) as [r|] eqn:Hr; [|discriminate H].
  cbn [of_option mbind result_bind] in H. injection H as <-.
  eapply same_kinds_trans; [exact H3|]. now apply (same_kinds_insert _ _ r).
Qed.

Lemma fill_children_same_kinds fuel cls :
  forall node depth g g',
    fill_children fuel cls node depth g = Ok g' -> same_kinds (g_heap g) (g_heap g').
Proof.
  induction fuel as [|f IH]; intros node depth g g' H; [discriminate H|].
  rewrite fill_children_S in H. cbv zeta in H.
  set (g0 := if (last_node_depth g <? depth)%Z
             then mkGraph (g_heap g) (node_depth g) depth (Some node) (g_reached g)
             else g) in H.
  assert (Hh0 : g_heap g0 = g_heap g) by (subst g0; destruct (_ <? _)%Z; reflexivity).
  clearbody g0.
  destruct (deref (g_heap g0) node) as [n|e] eqn:Hn; [|discriminate H].
  cbn [mbind result_bind] in H.
  destruct (mapM (resolve cls (module_ (data n))) (children n)) as [cs|e] eqn:Hcs;
    [|discriminate H].
  cbn [mbind result_bind] in H.
  unfold deref in Hn. rewrite Hh0 in Hn. apply of_option_Ok in Hn.
  revert H. apply (for_each_inv (fun gi => same_kinds (g_heap g) (g_heap gi))).
  - intros c g1 g2 _ H1 H. unfold reach in H.
    destruct (deref_child (g_heap g1) c) as [[a na]|e] eqn:Hc; [|discriminate H].
    cbn [mbind result_bind] in H.
    assert (Ha : g_heap g1 !! a = Some na).
    { destruct c as [s|b]; [discriminate Hc|]. cbn [deref_child] in Hc. unfold deref in Hc.
      destruct (g_heap g1 !! b) eqn:Hb; [|discriminate Hc]. now injection Hc as <- <-. }
    destruct (deeper (node_depth g1) a depth); cbn [mbind result_bind] in H;
      apply IH in H; cbn [g_heap] in H; (eapply same_kinds_trans; [|exact H]); [|exact H1].
    eapply same_kinds_trans; [exact H1|]. now apply (same_kinds_insert _ _ na).
  - cbn [g_heap]. rewrite Hh0. now apply (same_kinds_insert _ _ n).
Qed.

Lemma build_dependency_tree_same_kinds fuel cls root_node h g :
  build_dependency_tree fuel cls root_node h = Ok g -> same_kinds h (g_heap g).
Proof.
  unfold build_dependency_tree. intros H.
  destruct (attach_plain_sources cls root_node h) as [h1|e] eqn:H1; [|discriminate H].
  cbn [mbind result_bind] in H.
  destruct (attach_module_impls cls root_node h1) as [h2|e] eqn:H2; [|discriminate H].
  cbn [mbind result_bind] in H.
  apply attach_plain_sources_same_kinds in H1. apply attach_module_impls_same_kinds in H2.
  apply fill_children_same_kinds in H. cbn [g_heap] in H.
  exact (same_kinds_trans _ _ _ H1 (same_kinds_trans _ _ _ H2 H)).
Qed.

(** The second loop of [fill_children], for what it has explored. *)
Lemma fill_loop_explored f cls node depth :
  (forall a g g', fill_children f cls a (depth + 1) g = Ok g' ->
                  keeps (g_heap g) (g_heap g')
                  /\ forall h, keeps (g_heap g') h -> resolved h a /\ shallow h f a) ->
  forall cs g1 g',
    for_each (fun c g' => '(a, g'') ← reach node depth c g'; fill_children f cls a (depth + 1) g'')
             cs g1 = Ok g' ->
    keeps (g_heap g1) (g_heap g') /\ Forall is_ref cs
    /\ forall h, keeps (g_heap g') h ->
         forall a, In (NodeRef a) cs -> resolved h a /\ shallow h f a.
Proof.
  intros IH cs. induction cs as [|c cs IHcs]; intros g1 g' H.
  - injection H as <-. split; [apply keeps_refl|]. split; [constructor|]. intros h _ a [].
  - cbn [for_each] in H.
    destruct (reach node depth c g1) as [[a g2]|e] eqn:Hreach; [|discriminate H].
    cbn [mbind result_bind] in H.
    destruct (fill_children f cls a (depth + 1) g2) as [g3|e] eqn:Hcall; [|discriminate H].
    cbn [mbind result_bind] in H.
    apply reach_arrival in Hreach as (-> & K12 & _).
    apply IH in Hcall as (K23 & A2).
    apply IHcs in H as (K3 & Hrefs & A3).
    split; [exact (keeps_trans _ _ _ K12 (keeps_trans _ _ _ K23 K3))|].
    split; [constructor; [exact I|exact Hrefs]|].
    intros h Kh a' [Ha'|Ha'].
    + injection Ha' as <-. apply A2. exact (keeps_trans _ _ _ K3 Kh).
    + now apply A3.
Qed.

(** A call of [fill_children] that returns has explored everything below its
    node: all the children there are nodes, and no chain of children is as
    long as the depth of calls that was at hand. *)
Lemma fill_children_explored fuel cls :
  forall node depth g g',
    fill_children fuel cls node depth g = Ok g' ->
    keeps (g_heap g) (g_heap g')
    /\ forall h, keeps (g_heap g') h -> resolved h node /\ shallow h fuel node.
Proof.
  induction fuel as [|f IH]; intros node depth g g' H; [discriminate|].
  rewrite fill_children_S in H. cbv zeta in H.
  set (g0 := if (last_node_depth g <? depth)%Z
             then mkGraph (g_heap g) (node_depth g) depth (Some node) (g_reached g)
             else g) in H.
  assert (Hh0 : g_heap g0 = g_heap g) by (subst g0; destruct (_ <? _)%Z; reflexivity).
  clearbody g0.
  destruct (deref (g_heap g0) node) as [n|e] eqn:Hn; [|discriminate H].
  cbn [mbind result_bind] in H.
  destruct (mapM (resolve cls (module_ (data n))) (children n)) as [cs|e] eqn:Hcs;
    [|discriminate H].
  cbn [mbind result_bind] in H.
  apply (fill_loop_explored f cls node depth (fun a => IH a (depth + 1)%Z)) in H
    as (K & Hrefs & A).
  cbn [g_heap] in K. rewrite Hh0 in K.
  unfold deref in Hn. rewrite Hh0 in Hn. apply of_option_Ok in Hn.
  assert (K1 : keeps (g_heap g) (<[node := set_children cs n]> (g_heap g))).
  { apply keeps_set_children; [exact Hn|]. intros Hall.
    rewrite (mapM_resolve_refs _ _ _ Hall) in Hcs. congruence. }
  destruct (K node (set_children cs n)) as (n' & Hn' & Hc'); [apply lookup_insert_eq|].
  specialize (Hc' Hrefs). cbn [children set_children] in Hc'.
  split; [exact (keeps_trans _ _ _ K1 K)|].
  intros h Kh. specialize (A h Kh).
  destruct (Kh node n' Hn') as (n'' & Hn'' & Hc''). rewrite Hc' in Hc''. specialize (Hc'' Hrefs).
  assert (Hedge : forall b, edge h node b -> In (NodeRef b) cs).
  { intros b (m & Hm & Hin). rewrite Hn'' in Hm. injection Hm as <-. now rewrite Hc'' in Hin. }
  split.
  - split; [eauto|]. intros b nb Hb Hnb.
    apply rtc_inv in Hb as [<-|(a & Ha & Hab)].
    + rewrite Hn'' in Hnb. injection Hnb as <-. rewrite Hc''.
      rewrite Forall_forall. intros c Hc. apply list_elem_of_In in Hc.
      pose proof Hrefs as Hr. rewrite Forall_forall in Hr.
      specialize (Hr c (proj2 (list_elem_of_In _ _) Hc)).
      destruct c as [s|a]; [contradiction|]. exists a. split; [reflexivity|].
      destruct (A a Hc) as [[Hsome _] _]. exact Hsome.
    + destruct (A a (Hedge a Ha)) as [[_ Hall] _]. exact (Hall b nb Hab Hnb).
  - intros m b Hm. inversion Hm as [|m' x y z Hxy Hyz]; subst; [lia|].
    destruct (A y (Hedge y Hxy)) as [_ Hsh]. specialize (Hsh m' b Hyz). lia.
Qed.

(** Every interface and every partition that [gen_classes] has made a node
    of is found under its name. *)
Lemma indexes_registered classify sources c :
  indexes classify sources c -> registered (c_classes c) (c_heap c).
Proof.
  intros (_ & Hheap & _ & Hmod & Hpart & _) a n Hn.
  rewrite Hheap in Hn. destruct (data_at classify sources a) as [d|] eqn:Hd; [|discriminate Hn].
  injection Hn as <-. cbn [node_of data].
  assert (Hlast : forall t,
             type d = t ->
             exists b, last (positions classify sources t (module_ d)) = Some b
                       /\ is_Some (c_heap c !! b)).
  { intros t Ht.
    assert (Hin : a ∈ positions classify sources t (module_ d)).
    { unfold positions. apply list_elem_of_filter. split.
      - unfold kind_at. rewrite Hd. cbn [fmap option_fmap option_map]. now rewrite Ht.
      - apply elem_of_seq. split; [lia|]. cbn [Nat.add].
        unfold data_at in Hd. destruct (sources !! a) eqn:Hs; [|discriminate Hd].
        eapply lookup_lt_Some. exact Hs. }
    destruct (last (positions classify sources t (module_ d))) as [b|] eqn:Hl.
    - exists b. split; [reflexivity|]. apply last_Some_elem_of in Hl.
      unfold positions in Hl. apply list_elem_of_filter in Hl as [Hk _]. unfold kind_at in Hk.
      rewrite Hheap. destruct (data_at classify sources b); [eauto|discriminate Hk].
    - apply last_None in Hl. rewrite Hl in Hin. now apply not_elem_of_nil in Hin. }
  split; intros Ht; destruct (Hlast _ Ht) as (b & Hb & Hsome); exists b;
    (split; [|exact Hsome]); [rewrite Hmod|rewrite Hpart]; exact Hb.
Qed.

Lemma deref_lookup (h : heap) a n : h !! a = Some n -> deref h a = Ok n.
Proof. intros H. unfold deref. now rewrite H. Qed.

Lemma frame_lookup h h' a n :
  frame h h' -> h !! a = Some n -> exists n', h' !! a = Some n' /\ same_but_post n n'.
Proof.
  intros F Hn. specialize (F a). rewrite Hn in F.
  destruct (h' !! a) as [n'|]; [eauto|contradiction].
Qed.

(** The folding of partitions returns on a tree whose children are nodes,
    whose chains are shorter than the depth of calls at hand, and whose
    interfaces and partitions are registered. *)
Lemma fix_module_partition_deps_returns cls h0 fuel :
  registered cls h0 ->
  forall node h,
    frame h0 h -> resolved h0 node -> shallow h0 fuel node ->
    exists h', fix_module_partition_deps fuel cls node h = Ok h'.
Proof.
  intros Hreg. induction fuel as [|f IH]; intros node h F Hres Hsh.
  - exfalso. specialize (Hsh 0%nat node (nsteps_O _ _)). lia.
  - cbn [fix_module_partition_deps]. destruct Hres as [[n0 Hn0] Hall].
    destruct (frame_lookup _ _ _ _ F Hn0) as (n & Hn & Hsame).
    unfold deref. rewrite Hn. cbn [of_option mbind result_bind].
    destruct Hsame as (_ & Hchildren & _). rewrite <- Hchildren.
    pose proof (Hall node n0 (rtc_refl _ _) Hn0) as Hnodes.
    assert (Hsub : forall c, In c (children n0) -> In c (children n0)) by auto.
    revert Hsub Hnodes. generalize (children n0) at 1 3 4 as cs.
    intros cs. clear n Hn Hchildren. revert h F.
    induction cs as [|c cs IHcs]; intros h F Hsub Hnodes; [cbn [for_each]; eauto|].
    apply Forall_cons in Hnodes as [(b & -> & [nb0 Hb0]) Hnodes].
    cbn [for_each].
    assert (Hfold : exists h1, fold_partition cls node (NodeRef b) h = Ok h1).
    { unfold fold_partition.
      destruct (frame_lookup _ _ _ _ F Hn0) as (n & Hn' & (_ & _ & Ht & Hm & _)).
      rewrite (deref_lookup _ _ _ Hn'). cbn [mbind result_bind].
      destruct (decide (type (data n) = module)) as [Htype|]; [|eauto].
      destruct (frame_lookup _ _ _ _ F Hb0) as (nb & Hb & (_ & _ & Htb & Hmb & _)).
      cbn [deref_child]. rewrite (deref_lookup _ _ _ Hb). cbn [mbind result_bind].
      destruct (decide (type (data nb) = module_partition)) as [Htypeb|]; [|eauto].
      destruct (Hreg node n0 Hn0) as [Hm0 _]. rewrite <- Ht in Htype.
      destruct (Hm0 Htype) as (cn & Hcn & [ncn0 Hncn0]). rewrite <- Hm, Hcn.
      cbn [of_option mbind result_bind].
      destruct (Hreg b nb0 Hb0) as [_ Hp0]. rewrite <- Htb in Htypeb.
      destruct (Hp0 Htypeb) as (cp & Hcp & [ncp0 Hncp0]). rewrite <- Hmb, Hcp.
      cbn [of_option mbind result_bind].
      destruct (frame_lookup _ _ _ _ F Hncn0) as (ncn & Hncn & _).
      destruct (frame_lookup _ _ _ _ F Hncp0) as (ncp & Hncp & _).
      rewrite (deref_lookup _ _ _ Hncn), (deref_lookup _ _ _ Hncp).
      cbn [mbind result_bind]. eauto. }
    destruct Hfold as [h1 Hfold]. rewrite Hfold. cbn [mbind result_bind].
    pose proof (fold_partition_changes _ _ _ _ _ Hfold) as [F1 _].
    pose proof (frame_trans _ _ _ F F1) as F01.
    destruct (frame_lookup _ _ _ _ F01 Hb0) as (nb1 & Hb1 & _).
    cbn [deref_child]. rewrite (deref_lookup _ _ _ Hb1). cbn [mbind result_bind].
    assert (Hedge : edge h0 node b) by (exists n0; split; [exact Hn0|apply Hsub; now left]).
    destruct (IH b h1 F01) as [h2 Hcall].
    + split; [eauto|]. intros x nx Hx Hnx. apply (Hall x nx); [|exact Hnx].
      eapply rtc_l; eassumption.
    + intros m x Hm. specialize (Hsh (S m) x (nsteps_l _ _ _ _ _ Hedge Hm)). lia.
    + rewrite Hcall. cbn [mbind result_bind].
      pose proof (fix_module_partition_deps_changes _ _ _ _ _ Hcall) as [F2 _].
      pose proof (frame_trans _ _ _ F01 F2) as F02.
      apply (IHcs h2 F02).
      * intros c' Hc'. apply Hsub. now right.
      * exact Hnodes.
Qed.

(** Once the imports of a target are resolved, its reduction to a tree
    cannot fail: where [gen_classes] and [build_dependency_tree] return,
    [build_compile_tree] returns, with the same bound on the depth of
    calls. *)
Theorem reduction_returns classify plain_order fuel sources c root_node g :
  gen_classes classify plain_order sources = Ok c ->
  c_root_node c = Some root_node ->
  build_dependency_tree fuel (c_classes c) root_node (c_heap c) = Ok g ->
  exists h tree,
    clip_redundant fuel root_node (g_heap g) = Ok h
    /\ fix_module_partition_deps fuel (c_classes c) root_node h = Ok tree
    /\ build_compile_tree fuel (c_classes c) root_node (g_heap g) = Ok tree.
Proof.
  intros Hgen Hroot Hbuild.
  assert (Hreg : registered (c_classes c) (c_heap c)).
  { unfold gen_classes in Hgen.
    destruct (gen_classes_from classify 0 sources
                (mkClassified ∅ (mkClasses [] ∅ ∅ []) ∅ ∅ None)) as [c0|e] eqn:H0;
      [|discriminate Hgen].
    cbn [mbind result_bind] in Hgen. injection Hgen as <-.
    destruct (gen_classes_from_indexes classify sources [] _ _ (indexes_start classify) H0)
      as [Hidx _].
    apply indexes_registered in Hidx. exact Hidx. }
  pose proof (build_dependency_tree_same_kinds _ _ _ _ _ Hbuild) as Hkinds.
  apply (registered_same_kinds _ _ _ Hkinds) in Hreg.
  unfold build_dependency_tree in Hbuild.
  destruct (attach_plain_sources (c_classes c) root_node (c_heap c)) as [h1|e];
    [|discriminate Hbuild].
  cbn [mbind result_bind] in Hbuild.
  destruct (attach_module_impls (c_classes c) root_node h1) as [h2|e]; [|discriminate Hbuild].
  cbn [mbind result_bind] in Hbuild.
  apply fill_children_explored in Hbuild as [_ Hexp].
  destruct (Hexp (g_heap g) (keeps_refl _)) as [Hres Hsh].
  destruct (clip_redundant_returns fuel root_node (g_heap g) Hres Hsh) as [h Hclip].
  pose proof (clip_redundant_clean _ _ _ _ Hclip) as [Hclips _].
  destruct (fix_module_partition_deps_returns (c_classes c) h fuel
              (registered_same_kinds _ _ _ (clips_same_kinds _ _ Hclips) Hreg)
              root_node h (frame_refl h)
              (clips_resolved _ _ _ Hclips Hres) (clips_shallow _ _ _ _ Hclips Hsh))
    as [tree Hfix].
  exists h, tree. split; [exact Hclip|]. split; [exact Hfix|].
  unfold build_compile_tree. rewrite Hclip. cbn [mbind result_bind]. exact Hfix.
Qed.

(** ** The way from the start node to the root *)

Lemma retains_refl h : retains h h.
Proof. intros a n n' c Hn Hn' Hin _. congruence. Qed.

Lemma retains_trans h1 h2 h3 :
  clips h1 h2 -> retains h1 h2 -> retains h2 h3 -> retains h1 h3.
Proof.
  intros Hc H12 H23 a n1 n3 c Hn1 Hn3 Hin Hown.
  destruct (clips_parent _ _ _ _ Hc Hn1) as (n2 & Hn2 & _).
  apply (H23 a n2 n3 c Hn2 Hn3).
  - now apply (H12 a n1 n2 c).
  - now apply (clips_owned h1 h2).
Qed.

Lemma first_stale_Some_stale h node cs i :
  first_stale h node cs = Ok (Some i) ->
  exists c, cs !! i = Some c /\ ~ owned h node c.
Proof.
  revert i. induction cs as [|c cs IH]; intros i H; simpl in H; [discriminate|].
  destruct (deref_child h c) as [[b nb]|e] eqn:Ec; simpl in H; [|discriminate].
  destruct (decide (parent nb = Some node)) as [Hp|Hp].
  - destruct (first_stale h node cs) as [[j|]|e]; simpl in H; try discriminate.
    injection H as <-. destruct (IH j eq_refl) as (c' & Hc' & Hnot). exists c'. auto.
  - injection H as <-. exists c. split; [reflexivity|].
    intros (b' & nb' & -> & Hb' & Hp'). simpl in Ec. unfold deref in Ec. rewrite Hb' in Ec.
    simpl in Ec. injection Ec as <- <-. contradiction.
Qed.

Lemma In_delete {A} (l : list A) i x y :
  In x l -> l !! i = Some y -> x <> y -> In x (delete i l).
Proof.
  revert i. induction l as [|z l IH]; intros i Hin Hi Hne; [contradiction|].
  destruct i as [|i]; simpl in *.
  - injection Hi as ->. destruct Hin; [congruence|assumption].
  - destruct Hin as [->|Hin]; [now left|]. right. now apply (IH i).
Qed.

Lemma retains_delete h node n i c :
  h !! node = Some n -> children n !! i = Some c -> ~ owned h node c ->
  retains h (<[node := set_children (delete i (children n)) n]> h).
Proof.
  intros Hn Hi Hnot a na na' c' Hna Hna' Hin Hown.
  destruct (decide (node = a)) as [<-|Hne].
  - rewrite lookup_insert_eq in Hna'. injection Hna' as <-. rewrite Hn in Hna.
    injection Hna as <-. simpl. apply (In_delete _ i c' c); [exact Hin|exact Hi|].
    intros ->. contradiction.
  - rewrite lookup_insert_ne in Hna' by done. congruence.
Qed.

Lemma clip_loop_retains rounds node h h' :
  clip_loop rounds node h = Ok h' -> clips h h' /\ retains h h'.
Proof.
  revert h. induction rounds as [|r IH]; intros h H; [discriminate|].
  simpl in H. inv_ok. unfold deref in Hx. inv_ok. destruct x0 as [i|].
  - destruct (first_stale_Some _ _ _ _ Hx0) as [_ Hnot].
    destruct (first_stale_Some_stale _ _ _ _ Hx0) as (c & Hc & Hstale).
    destruct (IH _ H) as [Hc' Hr'].
    pose proof (clips_delete h node x i Hx Hnot) as Hc1.
    split; [eapply clips_trans; eassumption|].
    eapply retains_trans; [exact Hc1| |exact Hr']. eapply retains_delete; eassumption.
  - inv_ok. subst. split; [apply clips_refl|apply retains_refl].
Qed.

(** [clip_redundant] deletes no child from the node that owns it. *)
Lemma clip_redundant_retains fuel node h h' :
  clip_redundant fuel node h = Ok h' -> clips h h' /\ retains h h'.
Proof.
  revert node h h'. induction fuel as [|f IH]; intros node h h' H; [discriminate|].
  rewrite clip_redundant_S in H. inv_ok.
  destruct (clip_loop_retains _ _ _ _ Hx0) as [Hc1 Hr1].
  assert (Hloop : clips x0 h' /\ retains x0 h').
  { clear Hx1 Hc1 Hr1 Hx0 Hx. revert x0 H. generalize (children x1) as cs.
    induction cs as [|c cs IHcs]; intros h0 H; simpl in H.
    - inv_ok. subst. split; [apply clips_refl|apply retains_refl].
    - inv_ok.
      match goal with
      | Hr : clip_redundant f _ h0 = Ok _ |- _ => destruct (IH _ _ _ Hr) as [Hc Hr']
      end.
      destruct (IHcs _ H) as [Hc' Hr''].
      split; [eapply clips_trans; eassumption|eapply retains_trans; eassumption]. }
  destruct Hloop as [Hc2 Hr2].
  split; [eapply clips_trans; eassumption|eapply retains_trans; eassumption].
Qed.

Lemma reach_untouched g0 node depth c g a g' :
  untouched g0 g -> reach node depth c g = Ok (a, g') -> untouched g0 g'.
Proof.
  unfold reach. intros Hg H.
  destruct (deref_child (g_heap g) c) as [[b nb]|e] eqn:Ec; simpl in H; [|discriminate].
  assert (Hb : g_heap g !! b = Some nb).
  { destruct c as [s|b']; simpl in Ec; [discriminate|]. unfold deref in Ec. inv_ok.
    now simplify_eq. }
  destruct (deeper (node_depth g) b depth); injection H as <- <-; [|exact Hg].
  intros x Hx. cbn [node_depth g_heap] in *.
  destruct (decide (b = x)) as [->|Hne]; [now rewrite lookup_insert_eq in Hx|].
  rewrite lookup_insert_ne in Hx by done. rewrite lookup_insert_ne by done. now apply Hg.
Qed.

Lemma fill_children_untouched fuel cls g0 :
  forall node depth g g',
    untouched g0 g -> fill_children fuel cls node depth g = Ok g' -> untouched g0 g'.
Proof.
  induction fuel as [|f IH]; intros node depth g g' Hg H; [discriminate|].
  rewrite fill_children_S in H. cbv zeta in H. inv_ok. unfold deref in Hx. inv_ok.
  match goal with
  | H : for_each _ ?cs ?g1 = Ok g' |- _ =>
      assert (Hg1 : untouched g0 g1); [|revert Hg1 H; generalize g1; generalize cs]
  end.
  { intros y Hy. cbn [node_depth g_heap] in *.
    assert (Hy' : node_depth g !! y = None)
      by (destruct (last_node_depth g <? depth)%Z; exact Hy).
    destruct (Hg y Hy') as [H0 Hp]. split; [exact H0|]. rewrite <- Hp.
    assert (Hh : g_heap (if (last_node_depth g <? depth)%Z
                         then mkGraph (g_heap g) (node_depth g) depth (Some node) (g_reached g)
                         else g) = g_heap g)
      by (destruct (last_node_depth g <? depth)%Z; reflexivity).
    rewrite Hh in Hx |- *.
    destruct (decide (node = y)) as [->|Hne].
    - rewrite lookup_insert_eq, Hx. reflexivity.
    - now rewrite lookup_insert_ne. }
  intros cs. induction cs as [|c cs IHcs]; intros g1 Hg1 H; simpl in H.
  - inv_ok. now subst.
  - inv_ok. eapply IHcs; [|exact H]. eapply IH; [|eassumption].
    eapply reach_untouched; eassumption.
Qed.

Lemma grows_refl g : grows g g.
Proof. intros x d Hd. exists d. split; [exact Hd|lia]. Qed.

Lemma grows_trans g1 g2 g3 : grows g1 g2 -> grows g2 g3 -> grows g1 g3.
Proof.
  intros H12 H23 x d Hd. destruct (H12 x d Hd) as (d2 & Hd2 & Hle).
  destruct (H23 x d2 Hd2) as (d3 & Hd3 & Hle'). exists d3. split; [exact Hd3|lia].
Qed.

Lemma arrived_grows root_node g g' x depth :
  grows g g' -> arrived_at root_node g x depth -> arrived_at root_node g' x depth.
Proof.
  intros Hg [H|(d & Hd & Hle)]; [now left|]. right.
  destruct (Hg x d Hd) as (d' & Hd' & Hle'). exists d'. split; [exact Hd'|lia].
Qed.

Lemma reach_arrived root_node node depth c g a g' :
  reach node depth c g = Ok (a, g') ->
  last_node g' = last_node g /\ last_node_depth g' = last_node_depth g
  /\ arrived_at root_node g' a (depth + 1) /\ grows g g'
  /\ forall x d, node_depth g' !! x = Some d -> node_depth g !! x = Some d \/ d = depth.
Proof.
  unfold reach. intros H.
  destruct (deref_child (g_heap g) c) as [[b nb]|e] eqn:Ec; simpl in H; [|discriminate].
  assert (Hnew : forall seen : option Z,
             node_depth g !! b = seen ->
             match seen with Some d => (d < depth)%Z | None => True end ->
             arrived_at root_node
               (mkGraph (<[b := set_parent (Some node) nb]> (g_heap g))
                  (<[b := depth]> (node_depth g)) (last_node_depth g) (last_node g)
                  (g_reached g ++ [mkReach node b depth])) b (depth + 1)
             /\ grows g
                  (mkGraph (<[b := set_parent (Some node) nb]> (g_heap g))
                     (<[b := depth]> (node_depth g)) (last_node_depth g) (last_node g)
                     (g_reached g ++ [mkReach node b depth]))
             /\ forall x d, <[b := depth]> (node_depth g) !! x = Some d ->
                            node_depth g !! x = Some d \/ d = depth).
  { intros seen Hseen Hlt. split; [|split].
    - right. exists depth. cbn [node_depth]. rewrite lookup_insert_eq. split; [reflexivity|lia].
    - intros x d Hd. cbn [node_depth]. destruct (decide (b = x)) as [->|Hne].
      + rewrite lookup_insert_eq. exists depth. split; [reflexivity|].
        rewrite Hd in Hseen. subst seen. lia.
      + rewrite lookup_insert_ne by done. exists d. split; [exact Hd|lia].
    - intros x d Hd. destruct (decide (b = x)) as [->|Hne].
      + rewrite lookup_insert_eq in Hd. injection Hd as <-. now right.
      + rewrite lookup_insert_ne in Hd by done. now left. }
  unfold deeper in H. destruct (node_depth g !! b) as [d|] eqn:Hd.
  - destruct (d <? depth)%Z eqn:E; injection H as <- <-; cbn [last_node last_node_depth].
    + split; [reflexivity|]. split; [reflexivity|]. apply (Hnew (Some d) eq_refl).
      now apply Z.ltb_lt.
    + split; [reflexivity|]. split; [reflexivity|]. apply Z.ltb_ge in E.
      split; [right; exists d; cbn [node_depth]; split; [exact Hd|lia]|].
      split; [intros x d0 Hd0; exists d0; split; [exact Hd0|lia]|]. cbn [node_depth]. auto.
  - injection H as <- <-; cbn [last_node last_node_depth].
    split; [reflexivity|]. split; [reflexivity|]. now apply (Hnew None eq_refl).
Qed.

(** [self.last_node] is a node that the walk has arrived at, at the depth
    [self.last_node_depth]. *)
Lemma fill_children_last fuel cls root_node :
  forall node depth g g',
    fill_children fuel cls node depth g = Ok g' ->
    arrived_at root_node g node depth ->
    (last_node_depth g < depth)%Z \/ last_arrived root_node g ->
    last_arrived root_node g' /\ grows g g'.
Proof.
  induction fuel as [|f IH]; intros node depth g g' H Hnode Hlast; [discriminate|].
  rewrite fill_children_S in H. cbv zeta in H. inv_ok.
  match goal with
  | H : for_each _ ?cs ?g1 = Ok g' |- _ =>
      assert (Hg1 : last_arrived root_node g1 /\ grows g g1);
        [|revert Hg1 H; generalize g1; generalize cs]
  end.
  { unfold last_arrived, arrived_at, grows. cbn [last_node node_depth last_node_depth].
    destruct (last_node_depth g <? depth)%Z eqn:E; cbn [last_node node_depth last_node_depth].
    - split; [|apply grows_refl]. exists node. auto.
    - split; [|apply grows_refl]. destruct Hlast as [Hlt|Hl]; [|exact Hl].
      apply Z.ltb_ge in E. lia. }
  intros cs. induction cs as [|c cs IHcs]; intros g1 [Hl1 Hm1] H; simpl in H.
  - inv_ok. now subst.
  - inv_ok.
    match goal with
    | Hr : reach _ _ _ _ = Ok (?a, ?g2), Hf : fill_children f _ _ _ _ = Ok ?g3 |- _ =>
        destruct (reach_arrived root_node _ _ _ _ _ _ Hr) as (El & Ed & Ha & Hm2 & _);
        destruct (IH _ _ _ _ Hf Ha) as [Hl3 Hm3]
    end.
    + right. destruct Hl1 as (y & Hy & Hay). exists y. split; [congruence|].
      rewrite Ed. eapply arrived_grows; eassumption.
    + apply (IHcs _ (conj Hl3 (grows_trans _ _ _ Hm1 (grows_trans _ _ _ Hm2 Hm3))) H).
Qed.

(** Every call of [fill_children] is at a depth that [self.last_node_depth]
    has reached when the call returns, and every arrival is followed by a
    call one deeper. *)
Lemma fill_children_bounded fuel cls :
  forall node depth g g',
    fill_children fuel cls node depth g = Ok g' ->
    (forall x d, node_depth g !! x = Some d -> (d < Z.max (last_node_depth g) depth)%Z) ->
    bounded g' /\ (Z.max (last_node_depth g) depth <= last_node_depth g')%Z.
Proof.
  induction fuel as [|f IH]; intros node depth g g' H Hpre; [discriminate|].
  rewrite fill_children_S in H. cbv zeta in H. inv_ok.
  match goal with
  | H : for_each _ ?cs ?g1 = Ok g' |- _ =>
      assert (Hg1 : bounded g1
                    /\ (Z.max (last_node_depth g) depth <= last_node_depth g1)%Z);
        [|revert Hg1 H; generalize g1; generalize cs]
  end.
  { unfold bounded. cbn [node_depth last_node_depth].
    destruct (last_node_depth g <? depth)%Z eqn:E; cbn [node_depth last_node_depth].
    - apply Z.ltb_lt in E. split; [|lia]. intros y d Hd. specialize (Hpre y d Hd). lia.
    - apply Z.ltb_ge in E. split; [|lia]. intros y d Hd. specialize (Hpre y d Hd). lia. }
  intros cs. induction cs as [|c cs IHcs]; intros g1 [Hb1 Hm1] H; simpl in H.
  - inv_ok. now subst.
  - inv_ok.
    match goal with
    | Hr : reach _ _ _ _ = Ok (?a, ?g2), Hf : fill_children f _ _ _ _ = Ok ?g3 |- _ =>
        destruct (reach_arrived 0%nat _ _ _ _ _ _ Hr) as (_ & Ed & _ & _ & Hnew);
        assert (Hcall : bounded g3
                        /\ (Z.max (last_node_depth g2) (depth + 1) <= last_node_depth g3)%Z)
    end.
    { eapply IH; [eassumption|]. intros y d Hd. destruct (Hnew y d Hd) as [Hold| ->]; [|lia].
      specialize (Hb1 y d Hold). lia. }
    destruct Hcall as [Hb3 Hm3]. rewrite Ed in Hm3.
    eapply IHcs; [|exact H]. split; [exact Hb3|lia].
Qed.

(** What [self.node_depth] says at the end of the resolution, in chains of
    the resolved graph. *)
Lemma recorded_chain fuel cls root_node h g :
  fill_children fuel cls root_node 0 (mkGraph h ∅ (-1) None []) = Ok g ->
  forall c,
    match node_depth g !! c with
    | None => forall k q, nsteps (edge (g_heap g)) k root_node q -> ~ edge (g_heap g) q c
    | Some d =>
        exists k p n,
          d = Z.of_nat k
          /\ nsteps (edge (g_heap g)) k root_node p /\ edge (g_heap g) p c
          /\ (forall k' q, nsteps (edge (g_heap g)) k' root_node q -> edge (g_heap g) q c ->
                           (k' <= k)%nat)
          /\ g_heap g !! c = Some n /\ parent n = Some p
    end.
Proof.
  intros H c.
  assert (Hrec : depths_recorded g).
  { eapply fill_children_recorded; [|exact H]. intros k. unfold depth_recorded. simpl.
    rewrite lookup_empty. intros r []. }
  apply fill_children_fills in H as (_ & _ & tr & T & A).
  cbn [g_reached] in T. rewrite app_nil_l in T. subst tr.
  destruct (A (g_heap g) (keeps_refl _)) as [Aa Ab].
  specialize (Hrec c). unfold depth_recorded in Hrec.
  destruct (node_depth g !! c) as [d|].
  - destruct Hrec as (i & p & n & [Hi Hmax] & Hn & Hp).
    destruct (Ab (mkReach p c d)) as (k & Hd & Hk & Hc).
    { apply list_elem_of_In. eapply list_elem_of_lookup_2. exact Hi. }
    cbn [r_depth r_from r_child] in Hd, Hk, Hc.
    exists k, p, n. split; [lia|]. split; [exact Hk|]. split; [exact Hc|].
    split; [|split; [exact Hn|exact Hp]].
    intros k' q Hk' Hc'. specialize (Aa k' q c Hk' Hc').
    apply list_elem_of_In, list_elem_of_lookup_1 in Aa as [j Hj].
    destruct (Hmax j _ Hj eq_refl) as [Hle _]. cbn [r_depth] in Hle. lia.
  - intros k q Hk Hc. apply (Hrec _ (Aa k q c Hk Hc)). reflexivity.
Qed.

Lemma same_parents_add_children h h1 root_node r cs :
  same_parents h h1 -> h1 !! root_node = Some r ->
  same_parents h (<[root_node := add_children cs r]> h1).
Proof.
  intros H1 Hr x. rewrite <- H1. destruct (decide (root_node = x)) as [->|Hne].
  - rewrite lookup_insert_eq, Hr. reflexivity.
  - now rewrite lookup_insert_ne.
Qed.

Lemma attach_plain_sources_parents cls root_node h h' :
  attach_plain_sources cls root_node h = Ok h' -> same_parents h h'.
Proof.
  unfold attach_plain_sources.
  apply (for_each_inv (same_parents h)); [|intros x; reflexivity].
  intros [index a] h1 h2 _ H1 H. destruct (decide (a = root_node)); [now injection H as <-|].
  unfold deref in H. destruct (h1 !! root_node) as [r|] eqn:Hr; [|discriminate H].
  cbn [of_option mbind result_bind] in H. injection H as <-.
  now apply same_parents_add_children.
Qed.

Lemma attach_module_impls_parents cls root_node h h' :
  attach_module_impls cls root_node h = Ok h' -> same_parents h h'.
Proof.
  unfold attach_module_impls.
  apply (for_each_inv (same_parents h)); [|intros x; reflexivity].
  intros [key impls] h1 h2 _ H1.
  apply (for_each_inv (same_parents h)); [|exact H1].
  intros index h3 h4 _ H3 H. destruct key as [k|]; [|discriminate H].
  cbn [of_option mbind result_bind] in H. unfold deref in H.
  destruct (h3 !! root_node) as [r|] eqn:Hr; [|discriminate H].
  cbn [of_option mbind result_bind] in H. injection H as <-.
  now apply same_parents_add_children.
Qed.

Lemma owned_children h a cs :
  Forall (owned h a) cs ->
  exists siblings,
    cs = NodeRef <$> siblings
    /\ Forall (fun y => exists ny, h !! y = Some ny /\ parent ny = Some a) siblings.
Proof.
  induction 1 as [|c cs (b & nb & -> & Hb & Hp) _ (siblings & -> & Hs)].
  - exists []. split; [reflexivity|constructor].
  - exists (b :: siblings). split; [reflexivity|]. constructor; eauto.
Qed.

Lemma walk_up_frame h h' root_node x levels :
  frame h h' -> walk_up h root_node x levels -> walk_up h' root_node x levels.
Proof.
  intros Hf Hw. induction Hw as [|x p pn siblings levels Hp Hc Hin Hall _ IH]; [constructor|].
  destruct (frame_lookup _ _ _ _ Hf Hp) as (pn' & Hp' & _ & Hc' & _).
  apply (walk_up_level _ _ x p pn' siblings levels); [exact Hp'|congruence|exact Hin| |exact IH].
  eapply Forall_impl; [exact Hall|]. intros y (Hy & ny & Hny & Hpy).
  split; [exact Hy|]. destruct (frame_lookup _ _ _ _ Hf Hny) as (ny' & Hny' & Hpy' & _).
  exists ny'. split; [exact Hny'|congruence].
Qed.

Lemma nsteps_cycle {A} (R : relation A) m a :
  nsteps R m a a -> forall j, nsteps R (j * m) a a.
Proof.
  intros H j. induction j as [|j IH]; simpl; [constructor|].
  eapply nsteps_trans; eassumption.
Qed.

(** A heap whose chains from the root are bounded has no chain that comes
    back to the root. *)
Lemma shallow_root h fuel root_node k q :
  shallow h fuel root_node -> nsteps (edge h) k root_node q -> ~ edge h q root_node.
Proof.
  intros Hs Hk He.
  assert (Hc : nsteps (edge h) (S k) root_node root_node) by (eapply nsteps_r; eassumption).
  specialize (Hs _ _ (nsteps_cycle _ _ _ Hc fuel)). nia.
Qed.

(** A node that [self.node_depth] holds at depth [k] is [k + 1] levels below
    the root in the clipped tree: its parent owns it there, and so on up to
    the root. *)
Lemma way_of_depth fuel0 fuel cls root_node h g h1 r :
  fill_children fuel0 cls root_node 0 (mkGraph h ∅ (-1) None []) = Ok g ->
  g_heap g !! root_node = Some r -> parent r = None ->
  clip_redundant fuel root_node (g_heap g) = Ok h1 ->
  forall k x,
    node_depth g !! x = Some (Z.of_nat k) ->
    rtc (edge h1) root_node x
    /\ exists levels, walk_up h1 root_node x levels /\ length levels = S k.
Proof.
  intros Hfill Hr Hpr Hclip.
  pose proof (recorded_chain _ _ _ _ _ Hfill) as Hrec.
  destruct (clip_redundant_retains _ _ _ _ Hclip) as [Hc Hret].
  destruct (clip_redundant_clean _ _ _ _ Hclip) as [_ Hclean].
  induction k as [k IH] using lt_wf_ind. intros x Hx.
  pose proof (Hrec x) as Rx. rewrite Hx in Rx.
  destruct Rx as (k' & p & n & Hd & Hk & He & Hmax & Hn & Hp).
  apply Nat2Z.inj in Hd. subst k'.
  assert (Hparent : rtc (edge h1) root_node p
                    /\ exists levels, walk_up h1 root_node p levels /\ length levels = k).
  { destruct k as [|k0].
    - inversion Hk; subst. split; [constructor|]. exists []. split; [constructor|reflexivity].
    - pose proof Hk as Hk0. apply nsteps_inv_r in Hk0 as (q & Hq & Hqp).
      pose proof (Hrec p) as Rp. destruct (node_depth g !! p) as [dp|] eqn:Edp.
      + destruct Rp as (kp & pp & np & -> & Hkp & Hep & Hmaxp & _).
        assert (kp = k0) as ->.
        { pose proof (Hmaxp k0 q Hq Hqp).
          assert (Hp1 : nsteps (edge (g_heap g)) (S kp) root_node p)
            by (eapply nsteps_r; eassumption).
          pose proof (Hmax (S kp) p Hp1 He). lia. }
        apply (IH k0); [lia|exact Edp].
      + exfalso. exact (Rp k0 q Hq Hqp). }
  destruct Hparent as (Hrp & levels & Hwp & Hlen).
  destruct He as (pn & Hpn & Hin).
  destruct (clips_parent _ _ _ _ Hc Hpn) as (pn1 & Hpn1 & _).
  destruct (owned_children h1 p (children pn1) (Hclean p Hrp pn1 Hpn1)) as (siblings & Hcs & Hall).
  assert (Hin1 : In (NodeRef x) (children pn1)).
  { apply (Hret p pn pn1 (NodeRef x) Hpn Hpn1 Hin). exists x, n. auto. }
  assert (Hx1 : In x siblings).
  { rewrite Hcs in Hin1. apply in_map_iff in Hin1 as (y & [= ->] & Hy). exact Hy. }
  split.
  - eapply rtc_r; [exact Hrp|]. exists pn1. auto.
  - exists ((x :: remove_first x siblings) :: levels). split; [|simpl; lia].
    apply (walk_up_level _ _ x p pn1 siblings levels); [exact Hpn1|exact Hcs|exact Hx1| |exact Hwp].
    eapply Forall_impl; [exact Hall|]. intros y (ny & Hny & Hpy). split; [|eauto].
    intros ->. destruct (clips_parent _ _ _ _ Hc Hr) as (r1 & Hr1 & Hpr1). congruence.
Qed.

(** The root is the child of no node that the resolution has walked through,
    and has no parent when it had none. *)
Lemma root_without_parent fuel cls root_node h g :
  fill_children fuel cls root_node 0 (mkGraph h ∅ (-1) None []) = Ok g ->
  (forall n, h !! root_node = Some n -> parent n = None) ->
  node_depth g !! root_node = None
  /\ exists r, g_heap g !! root_node = Some r /\ parent r = None.
Proof.
  intros Hfill Hh.
  pose proof (recorded_chain _ _ _ _ _ Hfill root_node) as Hrec.
  destruct (fill_children_explored _ _ _ _ _ _ Hfill) as [Hk Hex].
  destruct (Hex _ (keeps_refl _)) as [[[r Hr] _] Hsh].
  assert (Hnone : node_depth g !! root_node = None).
  { destruct (node_depth g !! root_node) as [d|]; [|reflexivity].
    destruct Hrec as (k & p & _ & _ & Hkp & He & _).
    destruct (shallow_root _ _ _ _ _ Hsh Hkp He). }
  split; [exact Hnone|]. exists r. split; [exact Hr|].
  assert (Hu : untouched (mkGraph h ∅ (-1) None []) g).
  { eapply fill_children_untouched; [|exact Hfill]. intros x _. auto. }
  destruct (Hu root_node Hnone) as [_ Hp]. cbn [g_heap] in Hp. rewrite Hr in Hp.
  destruct (h !! root_node) as [n|] eqn:Hn; [|discriminate Hp].
  injection Hp as ->. now apply Hh.
Qed.

(** The way of the scheduler exists in every tree that the build makes. *)
Lemma way_to_the_root classify plain_order fuel0 fuel sources c root_node g tree :
  gen_classes classify plain_order sources = Ok c ->
  build_dependency_tree fuel0 (c_classes c) root_node (c_heap c) = Ok g ->
  build_compile_tree fuel (c_classes c) root_node (g_heap g) = Ok tree ->
  exists last r levels,
    last_node g = Some last
    /\ tree !! root_node = Some r /\ parent r = None
    /\ walk_up tree root_node last levels
    /\ last_node_depth g = Z.of_nat (length levels)
    /\ bounded g.
Proof.
  intros Hgen Hdep Htree.
  unfold build_dependency_tree in Hdep. inv_ok. rename x into h1, x0 into h2.
  unfold build_compile_tree in Htree. inv_ok. rename x into clipped.
  assert (Hparents : forall n, h2 !! root_node = Some n -> parent n = None).
  { intros n Hn. pose proof (attach_module_impls_parents _ _ _ _ Hx0 root_node) as E2.
    pose proof (attach_plain_sources_parents _ _ _ _ Hx root_node) as E1.
    rewrite Hn, E1 in E2. unfold gen_classes in Hgen. inv_ok. subst c. cbn [c_heap] in E2.
    destruct (gen_classes_from_indexes classify sources [] _ _ (indexes_start classify) Hx2)
      as [(_ & Hheap & _) _].
    rewrite app_nil_l in Hheap. rewrite Hheap in E2.
    destruct (data_at classify sources root_node); [|discriminate E2].
    injection E2 as ->. reflexivity. }
  destruct (root_without_parent _ _ _ _ _ Hdep Hparents) as (Hnone & r & Hr & Hpr).
  destruct (clip_redundant_retains _ _ _ _ Hx1) as [Hc _].
  destruct (clips_parent _ _ _ _ Hc Hr) as (r1 & Hr1 & Hpr1).
  apply fix_module_partition_deps_changes in Htree as [F _].
  destruct (frame_lookup _ _ _ _ F Hr1) as (r2 & Hr2 & Hpr2 & _).
  destruct (fill_children_last _ _ root_node _ _ _ _ Hdep) as [(last & Hlast & Harr) _].
  { now left. }
  { left. simpl. lia. }
  destruct (fill_children_bounded _ _ _ _ _ _ Hdep) as [Hbound _].
  { intros y d Hd. cbn [node_depth] in Hd. now rewrite lookup_empty in Hd. }
  exists last, r2. destruct Harr as [[-> Hzero]|(d & Hd & Hle)].
  - exists []. split; [exact Hlast|]. split; [exact Hr2|]. split; [congruence|].
    split; [constructor|]. split; [exact Hzero|exact Hbound].
  - pose proof (recorded_chain _ _ _ _ _ Hdep last) as Rl. rewrite Hd in Rl.
    destruct Rl as (k & _ & _ & -> & _).
    destruct (way_of_depth _ _ _ _ _ _ _ _ Hdep Hr Hpr Hx1 k last Hd) as (_ & levels & Hw & Hlen).
    exists levels. split; [exact Hlast|]. split; [exact Hr2|]. split; [congruence|].
    split; [eapply walk_up_frame; eassumption|]. split; [|exact Hbound].
    specialize (Hbound last _ Hd). lia.
Qed.

(** In every tree that the build of a target makes, the scheduler has its
    way: [self.last_node], where [compile_all] starts, is a node from which
    a chain of parents leads to the root, every node on the chain being among
    the children that its parent has kept, and the root having no parent.  The
    chain has as many levels as [self.last_node_depth] says, and no node was
    reached at a depth as great as that: the scheduler starts among the
    deepest nodes. *)
Theorem scheduler_has_its_way classify plain_order fuel sources c root_node g tree :
  gen_classes classify plain_order sources = Ok c ->
  build_dependency_tree fuel (c_classes c) root_node (c_heap c) = Ok g ->
  build_compile_tree fuel (c_classes c) root_node (g_heap g) = Ok tree ->
  exists last r levels,
    last_node g = Some last
    /\ tree !! root_node = Some r /\ parent r = None
    /\ walk_up tree root_node last levels
    /\ last_node_depth g = Z.of_nat (length levels)
    /\ forall x d, node_depth g !! x = Some d -> (d < Z.of_nat (length levels))%Z.
Proof.
  intros Hgen Hdep Htree.
  destruct (way_to_the_root _ _ _ _ _ _ _ _ _ Hgen Hdep Htree)
    as (last & r & levels & Hlast & Hr & Hpr & Hw & Hdepth & Hbound).
  exists last, r, levels. repeat split; try assumption.
  intros x d Hd. rewrite <- Hdepth. exact (Hbound x d Hd).
Qed.

(** ** Header units, and a target that is up to date *)

(** The loop of [make_header_units] over a list of headers. *)
Lemma header_units_loop tc st (headers : list string) :
  forall w,
    ((forall header, In header headers -> exists_ (fs w) (header_bmi_path st header) = true) ->
     for_each (fun header w' =>
                 let bmi_path :=
                   Py.join (dir_header_units st) (Py.replace "/" "-" header) +:+ ".pcm" in
                 if negb (exists_ (fs w') bmi_path) then
                   run tc (cxx st ++ base_flags st
                           ++ ["-Wno-pragma-system-header-outside-header"; "--precompile";
                               "-xc++-system-header"; header; "-o"; bmi_path]) w'
                 else Ok w') headers w = Ok w)
    /\ (forall w',
          for_each (fun header w' =>
                      let bmi_path :=
                        Py.join (dir_header_units st) (Py.replace "/" "-" header) +:+ ".pcm" in
                      if negb (exists_ (fs w') bmi_path) then
                        run tc (cxx st ++ base_flags st
                                ++ ["-Wno-pragma-system-header-outside-header"; "--precompile";
                                    "-xc++-system-header"; header; "-o"; bmi_path]) w'
                      else Ok w') headers w = Ok w' ->
          exists made,
            made `sublist_of` headers
            /\ cmds w' = cmds w ++ (precompile_args st <$> made))
    /\ ((forall args files, is_Some (tc args files)) ->
        exists w',
          for_each (fun header w' =>
                      let bmi_path :=
                        Py.join (dir_header_units st) (Py.replace "/" "-" header) +:+ ".pcm" in
                      if negb (exists_ (fs w') bmi_path) then
                        run tc (cxx st ++ base_flags st
                                ++ ["-Wno-pragma-system-header-outside-header"; "--precompile";
                                    "-xc++-system-header"; header; "-o"; bmi_path]) w'
                      else Ok w') headers w = Ok w').
Proof.
  induction headers as [|header rest IH]; intros w.
  - split; [reflexivity|]. split; [|eauto].
    intros w' [= <-]. exists []. split; [constructor|]. now rewrite app_nil_r.
  - cbn [for_each]. cbv zeta. fold (header_bmi_path st header). fold (precompile_args st header).
    split; [|split].
    + intros Hall. rewrite (Hall header (or_introl eq_refl)). cbn [negb mbind result_bind].
      apply IH. intros h' Hh'. apply Hall. now right.
    + intros w' H. destruct (exists_ (fs w) (header_bmi_path st header)); cbn [negb] in H.
      * cbn [mbind result_bind] in H. destruct (IH w) as (_ & Hmade & _).
        destruct (Hmade w' H) as (made & Hsub & Hcmds). exists made.
        split; [now apply sublist_cons|exact Hcmds].
      * unfold run in H. destruct (tc (precompile_args st header) (fs w)) as [files|];
          [|discriminate H].
        cbn [mbind result_bind] in H. destruct (IH (mkWorld files (cmds w ++ [precompile_args st header])))
          as (_ & Hmade & _).
        destruct (Hmade w' H) as (made & Hsub & Hcmds). exists (header :: made).
        split; [now apply sublist_skip|]. rewrite Hcmds. cbn [cmds fmap list_fmap].
        now rewrite <- app_assoc.
    + intros Htc. destruct (exists_ (fs w) (header_bmi_path st header)); cbn [negb].
      * cbn [mbind result_bind]. now apply IH.
      * unfold run. destruct (Htc (precompile_args st header) (fs w)) as [files ->].
        cbn [mbind result_bind]. now apply IH.
Qed.

(** With every interface file there, [make_header_units] runs nothing. *)
Lemma make_header_units_loop_none tc st headers w :
  (forall header, header ∈ headers -> exists_ (fs w) (header_bmi_path st header) = true) ->
  make_header_units tc st headers w = Ok w.
Proof.
  intros Hall. unfold make_header_units.
  destruct (header_units_loop tc st (elements headers) w) as (Hnone & _).
  apply Hnone. intros header Hin. apply Hall.
  apply elem_of_elements. apply list_elem_of_In. exact Hin.
Qed.

(** [make_header_units] precompiles the header units whose interface file is
    missing, and those only.  When every interface file exists it runs
    nothing.  When it returns, the commands it has run are precompilations
    of header units of the target, each header at most once and nothing else.
    It raises only when a command fails. *)
Theorem make_header_units_precompiles tc st headers w :
  ((forall header, header ∈ headers -> exists_ (fs w) (header_bmi_path st header) = true) ->
   make_header_units tc st headers w = Ok w)
  /\ (forall w', make_header_units tc st headers w = Ok w' ->
        exists made,
          NoDup made /\ (forall header, In header made -> header ∈ headers)
          /\ cmds w' = cmds w ++ (precompile_args st <$> made))
  /\ ((forall args files, is_Some (tc args files)) ->
      exists w', make_header_units tc st headers w = Ok w').
Proof.
  unfold make_header_units.
  destruct (header_units_loop tc st (elements headers) w) as (Hnone & Hmade & Htotal).
  split; [|split].
  - intros Hall. apply Hnone. intros header Hin. apply Hall.
    apply elem_of_elements. apply list_elem_of_In. exact Hin.
  - intros w' H. destruct (Hmade w' H) as (made & Hsub & Hcmds). exists made.
    split; [exact (sublist_NoDup _ _ (NoDup_elements headers) Hsub)|].
    split; [|exact Hcmds]. intros header Hin. apply elem_of_elements.
    eapply elem_of_sublist; [|exact Hsub]. apply list_elem_of_In. exact Hin.
  - exact Htotal.
Qed.

(** The scheduler on a way whose nodes are all up to date. *)
Lemma up_to_date_run tc fuel st root_node h r last levels rounds w :
  rebuild st = false ->
  h !! root_node = Some r -> parent r = None ->
  walk_up h root_node last levels ->
  (forall a n, h !! a = Some n -> out_of_date st (fs w) n = Ok false) ->
  (length (concat levels) < rounds)%nat ->
  exists sib,
    compile_all rounds tc fuel st root_node last h w
    = Ok (mkSched root_node sib false false 0 [] w).
Proof.
  intros Hrebuild Hr Hpr Hw Hfresh Hrounds.
  destruct (walk_up_is_node h root_node r last levels Hr Hw) as [nl Hl].
  destruct (walk_up_siblings root_node h r Hr Hpr last levels nl Hw Hl) as (sib & Hsib & _).
  unfold compile_all. rewrite (deref_Some h _ _ Hl). cbn [mbind result_bind].
  pose proof Hsib as Hsib0. unfold siblings_of in Hsib0. rewrite Hsib0.
  cbn [mbind result_bind]. rewrite Hrebuild.
  assert (exists k, rounds = (length (concat levels) + S k)%nat) as [k ->]
    by (exists (rounds - length (concat levels) - 1)%nat; lia).
  rewrite <- (app_nil_r levels) in Hw.
  destruct (walk_up_to_date tc fuel st root_node h r Hr Hpr levels last [] nl sib
              0%nat [] w (S k) Hw Hl Hsib)
    as (x & nx & sibx & Hwx & Hx & Hsibx & ->).
  { apply Forall_forall. intros z _ nz Hnz. now apply (Hfresh z). }
  assert (x = root_node) as -> by (inversion Hwx; congruence).
  rewrite Hr in Hx. injection Hx as <-.
  exists sibx. cbn [sched_loop].
  rewrite (round_root_skip tc fuel st root_node h (mkSched root_node sibx false false 0 [] w) r
             eq_refl Hr eq_refl (Hfresh _ _ Hr)).
  reflexivity.
Qed.

(** A target that is up to date is built without a command.  Let the
    directory of the sources be a directory of the project, named by one
    plain name, so that [gen_classes] comes back to the project when it leaves
    it and the paths of the files are looked up from there; let the sources
    be classified, resolved and reduced to a tree; let no full rebuild be
    asked for, the interface file of every header unit exist, and every node
    of the tree be up to date.  Then, given rounds enough for the way of the
    scheduler, the build of the target returns, has compiled nothing, and
    leaves the files and the list of commands as they were: no
    precompilation, no compilation, no link.  (With a directory of sources of
    several levels the process stays in the parent of that directory, the
    files are not found from there, and everything is built again: of that
    case nothing is said.) *)
Theorem up_to_date_target_runs_nothing classify plain_order tc fuel st target sources w
    c root_node g tree :
  beneath_the_project (source_dir st) ->
  gen_classes classify plain_order sources = Ok c ->
  c_root_node c = Some root_node ->
  build_dependency_tree fuel (c_classes c) root_node (c_heap c) = Ok g ->
  build_compile_tree fuel (c_classes c) root_node (g_heap g) = Ok tree ->
  rebuild st = false ->
  (forall header, header ∈ c_header_units c ->
     exists_ (fs w) (header_bmi_path st header) = true) ->
  (forall a n, tree !! a = Some n -> out_of_date st (fs w) n = Ok false) ->
  exists rounds0,
    forall rounds, (rounds0 <= rounds)%nat ->
      exists b,
        make_target classify plain_order tc fuel rounds st target sources w = Ok b
        /\ b_tree b = tree /\ b_root_node b = root_node
        /\ s_compiles (b_sched b) = 0%nat /\ s_compiled (b_sched b) = []
        /\ b_world b = w.
Proof.
  intros _ Hgen Hroot Hdep Htree Hrebuild Hheaders Hfresh.
  destruct (way_to_the_root _ _ _ _ _ _ _ _ _ Hgen Hdep Htree)
    as (last & r & levels & Hlast & Hr & Hpr & Hw & _).
  exists (S (length (concat levels))). intros rounds Hrounds.
  destruct (up_to_date_run tc fuel st root_node tree r last levels rounds w
              Hrebuild Hr Hpr Hw Hfresh) as [sib Hrun]; [lia|].
  pose proof (make_header_units_loop_none tc st (c_header_units c) w Hheaders) as Hh.
  exists (mkBuilt (c_classes c) root_node last tree
            (mkSched root_node sib false false 0 [] w) w).
  split; [|repeat split].
  unfold make_target. rewrite Hgen. cbn [mbind result_bind]. rewrite Hh.
  cbn [mbind result_bind]. rewrite Hroot. cbn [of_option mbind result_bind].
  rewrite Hdep. cbn [mbind result_bind]. rewrite Htree. cbn [mbind result_bind].
  rewrite Hlast. cbn [of_option mbind result_bind]. rewrite Hrun.
  cbn [mbind result_bind s_compiles s_world link Nat.ltb Nat.leb]. reflexivity.
Qed.

(** ** The commands of a build *)

(** The commands of the loop of [compile_all] are the compilations of the
    nodes it has compiled, in that order. *)
Lemma sched_loop_log tc fuel st root_node h rounds :
  forall s s',
    sched_loop rounds tc fuel st root_node h s = Ok s' ->
    exists done log,
      s_compiled s' = s_compiled s ++ done
      /\ cmds (s_world s') = cmds (s_world s) ++ log
      /\ Forall2 (compile_command fuel st h) done log.
Proof.
  induction rounds as [|r IH]; intros s s' H; [discriminate|].
  cbn [sched_loop] in H.
  destruct (sched_round tc fuel st root_node h s) as [[s1 stop]|e] eqn:Hround;
    [|discriminate H].
  cbn [mbind result_bind] in H.
  assert (Hone : exists done log,
             s_compiled s1 = s_compiled s ++ done
             /\ cmds (s_world s1) = cmds (s_world s) ++ log
             /\ Forall2 (compile_command fuel st h) done log).
  { apply sched_round_effect in Hround
      as (n & Hn & [(_ & -> & ->)|(args & files' & Hargs & _ & -> & _ & ->)]).
    - exists [], []. rewrite !app_nil_r. auto.
    - exists [s_node s], [args]. split; [reflexivity|]. split; [reflexivity|].
      constructor; [|constructor]. exists n. auto. }
  destruct stop; [injection H as <-; exact Hone|].
  destruct Hone as (done & log & Hd & Hl & Hall).
  destruct (IH _ _ H) as (done' & log' & Hd' & Hl' & Hall').
  exists (done ++ done'), (log ++ log'). rewrite Hd', Hl', Hd, Hl, <- !app_assoc.
  split; [reflexivity|]. split; [reflexivity|]. now apply Forall2_app.
Qed.

(** The commands of the build of a target, when it returns: first the
    precompilations of header units, each at most once; then the
    compilations of the nodes that [compile_all] has compiled, in that
    order, which are nodes of the way of the scheduler, taken in the order of
    the way; then, exactly when something was compiled, the one command of
    [link], which names the objects that [collect_objects] gathers from the
    root.  Nothing else is run. *)
Theorem commands_of_a_build classify plain_order tc fuel rounds st target sources w b :
  make_target classify plain_order tc fuel rounds st target sources w = Ok b ->
  exists c made log levels,
    gen_classes classify plain_order sources = Ok c
    /\ NoDup made /\ (forall header, In header made -> header ∈ c_header_units c)
    /\ walk_up (b_tree b) (b_root_node b) (b_last_node b) levels
    /\ s_compiled (b_sched b) `sublist_of` (concat levels ++ [b_root_node b])
    /\ s_compiles (b_sched b) = length (s_compiled (b_sched b))
    /\ Forall2 (compile_command fuel st (b_tree b)) (s_compiled (b_sched b)) log
    /\ match s_compiled (b_sched b) with
       | [] => cmds (b_world b) = cmds w ++ (precompile_args st <$> made)
       | _ :: _ =>
           exists objects,
             collect_objects fuel st (b_tree b) (b_root_node b) [] = Ok objects
             /\ cmds (b_world b)
                = cmds w ++ (precompile_args st <$> made) ++ log
                  ++ [link_args st objects target]
       end.
Proof.
  unfold make_target. intros H. inv_ok.
  rename x into c, x0 into w1, x1 into root_node, x2 into g, x3 into tree, x4 into last,
    x5 into s, x6 into w2.
  subst b. cbn [b_tree b_root_node b_last_node b_sched b_world].
  unfold make_header_units in Hx0.
  destruct (header_units_loop tc st (elements (c_header_units c)) w) as (_ & Hmade & _).
  destruct (Hmade w1 Hx0) as (made & Hsubm & Hcmds1).
  pose proof (sublist_NoDup _ _ (NoDup_elements (c_header_units c)) Hsubm) as Hnd.
  destruct (way_to_the_root _ _ _ _ _ _ _ _ _ Hx Hx2 Hx3)
    as (last' & r & levels & Hlast & Hr & Hpr & Hw & _).
  rewrite Hx4 in Hlast. injection Hlast as <-.
  unfold compile_all in Hx5.
  destruct (deref tree last) as [nl|e] eqn:Hl; [|discriminate Hx5].
  cbn [mbind result_bind] in Hx5. unfold deref in Hl. apply of_option_Ok in Hl.
  destruct (walk_up_siblings root_node tree r Hr Hpr last levels nl Hw Hl) as (sib & Hsib & _).
  pose proof Hsib as Hsib0. unfold siblings_of in Hsib0. rewrite Hsib0 in Hx5.
  cbn [mbind result_bind] in Hx5.
  destruct (walk_along tc fuel st root_node tree r last levels Hr Hpr Hw nl
              (mkSched last sib (rebuild st) false 0 [] w1) rounds s eq_refl Hl Hsib Hx5)
    as (done & Hsub & Hd & Hc).
  destruct (sched_loop_log _ _ _ _ _ _ _ _ Hx5) as (done' & log & Hd' & Hlog & Hall).
  cbn [s_compiled s_compiles s_world app] in Hd, Hc, Hd', Hlog. subst done'.
  exists c, made, log, levels. rewrite Hd in Hall |- *.
  split; [exact Hx|]. split; [exact Hnd|].
  split; [intros header Hin; apply elem_of_elements;
          eapply elem_of_sublist; [|exact Hsubm]; apply list_elem_of_In; exact Hin|].
  split; [exact Hw|]. split; [exact Hsub|]. split; [rewrite Hc; lia|].
  split; [exact Hall|].
  unfold link in Hx6. rewrite Hc in Hx6. destruct done as [|a done].
  - cbn [length Nat.ltb Nat.leb] in Hx6. injection Hx6 as <-. inversion Hall; subst.
    rewrite Hlog, Hcmds1. now rewrite app_nil_r.
  - cbn [length Nat.ltb Nat.leb] in Hx6.
    destruct (collect_objects fuel st tree root_node []) as [objects|e] eqn:Hobj;
      [|discriminate Hx6].
    cbn [mbind result_bind] in Hx6. exists objects. split; [reflexivity|].
    fold (link_args st objects target) in Hx6. unfold run in Hx6.
    destruct (tc _ (fs (s_world s))) as [files|]; [|discriminate Hx6]. injection Hx6 as <-.
    cbn [cmds]. rewrite Hlog, Hcmds1, <- !app_assoc. reflexivity.
Qed.

(** ** The examples at work *)

(** The way of the scheduler in [app]: from C (node 3) by its sibling E
    (node 5) to A and B (nodes 1 and 2), and to the root. *)
Lemma app_way : walk_up (reduced_tree app_sources) 0 3 [[3; 5]; [1; 2]]%nat.
Proof.
  apply (walk_up_level _ _ 3%nat 1%nat
           (mkNode (Some 0%nat) [NodeRef 3; NodeRef 5]
              (mkData module (Some "A") "app/a.cppm" ["C"; "E"] []))
           [3; 5]%nat [[1; 2]]%nat).
  - vm_compute. reflexivity.
  - reflexivity.
  - left. reflexivity.
  - apply Forall_cons. split; [split; [discriminate|]|apply Forall_cons; split;
                                 [split; [discriminate|]|apply Forall_nil]];
      eexists; (split; [vm_compute; reflexivity|reflexivity]).
  - apply (walk_up_level _ _ 1%nat 0%nat
             (mkNode None [NodeRef 1; NodeRef 2]
                (mkData plain None "app/main.cpp" ["A"; "B"] []))
             [1; 2]%nat []).
    + vm_compute. reflexivity.
    + reflexivity.
    + left. reflexivity.
    + apply Forall_cons. split; [split; [discriminate|]|apply Forall_cons; split;
                                   [split; [discriminate|]|apply Forall_nil]];
        eexists; (split; [vm_compute; reflexivity|reflexivity]).
    + apply walk_up_root.
Qed.

Lemma app_root :
  reduced_tree app_sources !! 0%nat
  = Some (mkNode None [NodeRef 1; NodeRef 2] (mkData plain None "app/main.cpp" ["A"; "B"] [])).
Proof. vm_compute. reflexivity. Qed.

Lemma app_args_gathered_rebuild a na :
  reduced_tree app_sources !! a = Some na ->
  exists args,
    compile_args example_fuel (example_settings true) (reduced_tree app_sources)
      (source_path (example_settings true) na) (target_path (example_settings true) na) a
    = Ok args.
Proof.
  revert a na.
  assert (H : map_Forall
                (fun a na =>
                   match compile_args example_fuel (example_settings true)
                           (reduced_tree app_sources)
                           (source_path (example_settings true) na)
                           (target_path (example_settings true) na) a with
                   | Ok _ => true
                   | Err _ => false
                   end = true) (reduced_tree app_sources))
    by (apply (bool_decide_unpack _); vm_compute; exact I).
  intros a na Hna. specialize (H a na Hna). cbv beta in H.
  destruct (compile_args _ _ _ _ _ a); [eauto|discriminate H].
Qed.

(** The full rebuild of [app] from its sources compiles C, E, A, B and the
    root. *)
Lemma full_rebuild_compiles_the_way_witness :
  exists s,
    compile_all 50 example_toolchain example_fuel (example_settings true) 0 3
      (reduced_tree app_sources) (mkWorld app_files_fresh []) = Ok s
    /\ s_compiled s = (concat [[3; 5]; [1; 2]] ++ [0])%nat
    /\ s_compiles s = length (s_compiled s)
    /\ length (cmds (s_world s))
       = (length (cmds (mkWorld app_files_fresh [])) + length (s_compiled s))%nat.
Proof.
  apply (full_rebuild_compiles_the_way example_toolchain example_fuel (example_settings true)
           0 (reduced_tree app_sources)
           (mkNode None [NodeRef 1; NodeRef 2]
              (mkData plain None "app/main.cpp" ["A"; "B"] []))
           3 [[3; 5]; [1; 2]]%nat 50 (mkWorld app_files_fresh [])).
  - exact example_toolchain_succeeds.
  - exact app_args_gathered_rebuild.
  - reflexivity.
  - exact app_root.
  - reflexivity.
  - exact app_way.
  - vm_compute. lia.
Defined.

(** [app] right after a build: nothing is compiled and nothing is linked. *)
Lemma up_to_date_build_runs_nothing_witness :
  exists s,
    compile_all 50 example_toolchain example_fuel (example_settings false) 0 3
      (reduced_tree app_sources) (mkWorld app_files []) = Ok s
    /\ s_compiles s = 0%nat /\ s_compiled s = [] /\ s_world s = mkWorld app_files []
    /\ link example_toolchain example_fuel (example_settings false) 0
         (reduced_tree app_sources) (s_compiles s) "app" (s_world s)
       = Ok (mkWorld app_files []).
Proof.
  apply (up_to_date_build_runs_nothing example_toolchain example_fuel (example_settings false)
           0 (reduced_tree app_sources)
           (mkNode None [NodeRef 1; NodeRef 2]
              (mkData plain None "app/main.cpp" ["A"; "B"] []))
           3 [[3; 5]; [1; 2]]%nat 50 (mkWorld app_files []) "app").
  - reflexivity.
  - exact app_root.
  - reflexivity.
  - exact app_way.
  - repeat (apply Forall_cons; split; [intros nz Hnz; vm_compute in Hnz; injection Hnz as <-;
                                        vm_compute; reflexivity|]).
    apply Forall_nil. exact I.
  - vm_compute. lia.
Defined.

(** [app] after [c.cppm] was touched: what the run compiles lies on the way. *)
Lemma compiles_along_the_way_only_witness :
  s_compiled app_touched_sched `sublist_of` (concat [[3; 5]; [1; 2]] ++ [0])%nat
  /\ s_compiles app_touched_sched = length (s_compiled app_touched_sched)
  /\ length (cmds (s_world app_touched_sched))
     = (length (cmds (mkWorld app_files_touched [])) + s_compiles app_touched_sched)%nat.
Proof.
  apply (compiles_along_the_way_only example_toolchain example_fuel (example_settings false)
           0 (reduced_tree app_sources)
           (mkNode None [NodeRef 1; NodeRef 2]
              (mkData plain None "app/main.cpp" ["A"; "B"] []))
           3 [[3; 5]; [1; 2]]%nat 50 (mkWorld app_files_touched []) app_touched_sched).
  - exact app_root.
  - reflexivity.
  - exact app_way.
  - vm_compute. reflexivity.
Defined.

(** [tools]: the root gets ['@1'] and ['@2'], which resolve to the second and
    the third source. *)
Lemma plain_sources_round_trip_witness :
  exists r',
    with_plain_sources (classified tools_sources) !! 0%nat = Some r'
    /\ children r'
       = children (mkNode None [Ident "A"; Ident "B"]
                     (mkData plain None "app/main.cpp" ["A"; "B"] []))
         ++ ((fun ia => Ident ("@" +:+ Py.str ia.1))
               <$> filter (fun ia => ia.2 <> 0%nat)
                     (imap pair (cls_plain (c_classes (classified tools_sources)))))
    /\ forall index a,
         cls_plain (c_classes (classified tools_sources)) !! index = Some a ->
         cls_module (c_classes (classified tools_sources)) !! Some ("@" +:+ Py.str index) = None ->
         cls_module_partition (c_classes (classified tools_sources))
           !! Some ("@" +:+ Py.str index) = None ->
         resolve (c_classes (classified tools_sources)) None (Ident ("@" +:+ Py.str index))
         = Ok (NodeRef a).
Proof.
  apply (plain_sources_round_trip (c_classes (classified tools_sources)) 0
           (c_heap (classified tools_sources)) (with_plain_sources (classified tools_sources))
           (mkNode None [Ident "A"; Ident "B"]
              (mkData plain None "app/main.cpp" ["A"; "B"] [])) None).
  - vm_compute. reflexivity.
  - vm_compute. reflexivity.
Defined.

(** [eng]: the root gets ['%K,0'] and ['%K,1'], which resolve to [k.cpp] and
    [k2.cpp]. *)
Lemma module_impls_round_trip_witness :
  (exists r',
     with_module_impls eng_classified !! 0%nat = Some r'
     /\ children r'
        = children (mkNode None [Ident "K"] (mkData plain None "eng/main.cpp" ["K"] []))
          ++ flat_map (fun entry =>
                         (fun index => Ident ("%" +:+ default "" entry.1 +:+ "," +:+ Py.str index))
                           <$> seq 0 (length entry.2))
                      (cls_module_impl (c_classes eng_classified)))
  /\ forall key impls index,
       assoc (Some key) (cls_module_impl (c_classes eng_classified)) = Some impls ->
       cls_module (c_classes eng_classified) !! Some ("%" +:+ key +:+ "," +:+ Py.str index) = None ->
       cls_module_partition (c_classes eng_classified)
         !! Some ("%" +:+ key +:+ "," +:+ Py.str index) = None ->
       (Py.contains "," key = false ->
        forall a, impls !! index = Some a ->
          resolve (c_classes eng_classified) None (Ident ("%" +:+ key +:+ "," +:+ Py.str index))
          = Ok (NodeRef a))
       /\ (Py.contains "," key = true ->
           resolve (c_classes eng_classified) None (Ident ("%" +:+ key +:+ "," +:+ Py.str index))
           = Err PyValueError).
Proof.
  apply (module_impls_round_trip (c_classes eng_classified) 0
           (c_heap eng_classified) (with_module_impls eng_classified)
           (mkNode None [Ident "K"] (mkData plain None "eng/main.cpp" ["K"] [])) None).
  - vm_compute. reflexivity.
  - vm_compute. reflexivity.
Defined.

(** The lines that [walk] prints of [app]. *)
Lemma app_walk :
  walk example_fuel (reduced_tree app_sources) 0 0 []
  = Ok [(0, 0, None); (1, 1, Some 0); (2, 3, Some 1); (2, 5, Some 1);
        (1, 2, Some 0); (2, 4, Some 2)]%nat.
Proof. vm_compute. reflexivity. Qed.

(** [app]: the linker gets the six object files, in the order of [walk]. *)
Lemma link_names_the_objects_of_the_tree_witness :
  let printed := [(0, 0, None); (1, 1, Some 0); (2, 3, Some 1); (2, 5, Some 1);
                  (1, 2, Some 0); (2, 4, Some 2)]%nat in
  let st := example_settings false in
  let h := reduced_tree app_sources in
  Forall (fun line => exists n, h !! line.1.2 = Some n /\ object_of st h line = target_path st n)
         printed
  /\ (forall compiles, (0 < compiles)%nat ->
        link example_toolchain example_fuel st 0 h compiles "app" (mkWorld app_files [])
        = run example_toolchain
            (cxx st ++ base_flags st ++ type_flags st ++ (object_of st h <$> printed)
             ++ ["-o"; Py.join (dir_build st) "app"]) (mkWorld app_files []))
  /\ link example_toolchain example_fuel st 0 h 0 "app" (mkWorld app_files [])
     = Ok (mkWorld app_files []).
Proof.
  apply (link_names_the_objects_of_the_tree example_toolchain example_fuel
           (example_settings false) 0 (reduced_tree app_sources) "app" (mkWorld app_files [])).
  exact app_walk.
Defined.

(** [app]: the compilation of A (node 1) names the interfaces of A, C and
    E. *)
Lemma compile_names_the_interfaces_below_witness :
  let lines := [(0, 1, Some 0); (1, 3, Some 1); (1, 5, Some 1)]%nat in
  let st := example_settings false in
  let h := reduced_tree app_sources in
  collect_modules example_fuel st h 1 [] = Ok (omap (module_of st h) lines)
  /\ ((forall line n, In line lines -> h !! line.1.2 = Some n ->
         is_module_type (type (data n)) = true ->
         Py.endswith (filename (data n)) ".cppm" = true) ->
      collect_modules example_fuel st h 1 []
      = Ok (omap (fun line => n ← h !! line.1.2;
                              if is_module_type (type (data n))
                              then Some (module_ (data n), bmi_target_path st n)
                              else None) lines)).
Proof.
  apply (compile_names_the_interfaces_below example_fuel (example_settings false)
           (reduced_tree app_sources) 1 0).
  vm_compute. reflexivity.
Defined.

(** [app]: six sources, six nodes, one plain source, five interfaces. *)
Lemma gen_classes_indexes_the_sources_witness :
  let c := classified app_sources in
  Forall (source_accepted example_classify) app_sources
  /\ (forall i, c_heap c !! i = node_of <$> data_at example_classify app_sources i)
  /\ cls_plain (c_classes c) = id (positions_of_kind example_classify app_sources plain)
  /\ (forall m, cls_module (c_classes c) !! m
                = last (positions example_classify app_sources module m))
  /\ (forall m, cls_module_partition (c_classes c) !! m
                = last (positions example_classify app_sources module_partition m))
  /\ (forall m, assoc m (cls_module_impl (c_classes c))
                = match positions example_classify app_sources module_impl m with
                  | [] => None
                  | l => Some l
                  end)
  /\ (c_root_node c = Some 0%nat
      /\ exists d, example_classify "app/main.cpp" = Ok d /\ type d = plain
                   /\ Py.endswith "app/main.cpp" ".cpp" = true).
Proof.
  apply (gen_classes_indexes_the_sources example_classify id app_sources
           (classified app_sources)).
  exact app_classified.
Defined.

(** [app]: the reduction of the resolved graph returns. *)
Lemma reduction_returns_witness :
  exists h tree,
    clip_redundant example_fuel 0 (g_heap (resolved_graph app_sources)) = Ok h
    /\ fix_module_partition_deps example_fuel (c_classes (classified app_sources)) 0 h = Ok tree
    /\ build_compile_tree example_fuel (c_classes (classified app_sources)) 0
         (g_heap (resolved_graph app_sources)) = Ok tree.
Proof.
  apply (reduction_returns example_classify id example_fuel app_sources
           (classified app_sources) 0 (resolved_graph app_sources)).
  - exact app_classified.
  - vm_compute. reflexivity.
  - exact app_resolved.
Defined.

(** ** The command line and the settings *)

Lemma assoc_In {V} (name : string) (l : list (string * V)) v :
  assoc name l = Some v -> In (name, v) l.
Proof.
  induction l as [|[k v'] l IH]; simpl; [discriminate|].
  destruct (decide (k = name)) as [->|]; [intros [= ->]; now left|]. intros H. right. auto.
Qed.

(** The loop of [parse_args] stops, and what it has read is what the command
    line holds. *)
Lemma parse_loop_reads argv rounds :
  forall i args,
    (0 < i)%nat -> (length argv - i < rounds)%nat ->
    (forall name values, args !! name = Some values -> read_at argv name values) ->
    match parse_loop rounds argv i args with
    | Args args' => forall name values, args' !! name = Some values -> read_at argv name values
    | RequiresArguments current count =>
        assoc current args_nature = Some count
        /\ exists j, argv !! j = Some current /\ (length argv <= j + count)%nat
    | UnknownArgument current => assoc current args_nature = None /\ In current argv
    | StillParsing => False
    end.
Proof.
  induction rounds as [|r IH]; intros i args Hi Hlen Hargs.
  - lia.
  - cbn [parse_loop]. destruct (argv !! i) as [current|] eqn:Hcur; [|exact Hargs].
    pose proof (lookup_lt_Some _ _ _ Hcur) as Hlt.
    destruct (assoc current args_nature) as [count|] eqn:Hnat.
    + destruct (length argv <=? i + count)%nat eqn:Hle.
      * apply Nat.leb_le in Hle. split; [exact Hnat|]. exists i. auto.
      * apply Nat.leb_gt in Hle. apply IH; [lia|lia|].
        intros name values Hname.
        destruct (decide (current = name)) as [->|Hne].
        -- rewrite lookup_insert_eq in Hname. injection Hname as <-.
           assert (Hl : length (take count (drop (i + 1) argv)) = count).
           { rewrite length_take, length_drop. lia. }
           unfold read_at. rewrite Hl. split; [exact Hnat|]. exists i.
           replace (S i) with (i + 1)%nat by lia. repeat split; auto.
        -- rewrite lookup_insert_ne in Hname by done. now apply Hargs.
    + split; [exact Hnat|]. apply list_elem_of_In. eapply list_elem_of_lookup_2. exact Hcur.
Qed.

(** [parse_args] stops after at most one round for each argument and one
    more.  When it returns, every name in [self.args] is an argument of the
    command line that Baker knows, and its value is the list of the arguments
    that follow it there, as many as [args_nature] says: none, or one after
    [run], which is taken as it is, be it the name of another argument.  It
    raises its first [ValueError] at an argument that is known and is
    followed by fewer arguments than it needs, and its second at an argument
    that is not known. *)
Theorem parse_args_reads_the_command_line argv rounds :
  (length argv - 1 < rounds)%nat ->
  match parse_args rounds argv with
  | Args args =>
      forall name values, args !! name = Some values ->
        In (name, length values) args_nature
        /\ exists i, (0 < i)%nat /\ argv !! i = Some name
                     /\ values = take (length values) (drop (S i) argv)
                     /\ (i + length values < length argv)%nat
  | RequiresArguments current count =>
      In (current, count) args_nature /\ (0 < count)%nat
      /\ exists i, argv !! i = Some current /\ (length argv <= i + count)%nat
  | UnknownArgument current =>
      In current argv /\ forall count, ~ In (current, count) args_nature
  | StillParsing => False
  end.
Proof.
  intros Hrounds. unfold parse_args.
  assert (Hempty : forall name values,
             (∅ : gmap string (list string)) !! name = Some values -> read_at argv name values).
  { intros n v Hv. now rewrite lookup_empty in Hv. }
  pose proof (parse_loop_reads argv rounds 1 ∅ (Nat.lt_0_1) Hrounds Hempty) as H.
  destruct (parse_loop rounds argv 1 ∅) as [args|current count|current|].
  - intros name values Hname. destruct (H name values Hname) as [Hn Hi].
    split; [now apply assoc_In|exact Hi].
  - destruct H as (Hn & i & Hi & Hle).
    split; [now apply assoc_In|]. split; [|eauto].
    pose proof (lookup_lt_Some _ _ _ Hi). lia.
  - destruct H as [Hn Hin].
    split; [exact Hin|]. intros count Hc.
    clear -Hn Hc. unfold args_nature in *. simpl in Hc.
    repeat (destruct Hc as [Hc|Hc]; [injection Hc as <- <-; vm_compute in Hn; discriminate Hn|]).
    exact Hc.
  - exact H.
Qed.

(** At the end of [make_targets], after a command line that [parse_args]
    has accepted: without [run] nothing is run; with [run], its value is one
    argument of the command line, so that [self.args['run'][0]] is there; a
    value that is not the name of a target raises the [ValueError] of the
    invalid target, and no command is run; else the one command that is run is
    the file of that name in the build directory. *)
Theorem run_target_after_parse tc dir_build targets argv rounds args w :
  parse_args rounds argv = Args args ->
  match args !! "run" with
  | None => run_target tc dir_build targets args w = NotAsked
  | Some values =>
      exists i target,
        (0 < i)%nat /\ argv !! i = Some "run" /\ argv !! S i = Some target
        /\ values = [target]
        /\ run_target tc dir_build targets args w
           = if bool_decide (is_Some (targets !! target)) then
               match tc [Py.join dir_build target] (fs w) with
               | Some files => Ran_ (mkWorld files (cmds w ++ [[Py.join dir_build target]]))
               | None => RunRaised CommandFailed
               end
             else InvalidTarget target
  end.
Proof.
  intros Hparse. unfold run_target.
  destruct (args !! "run") as [values|] eqn:Hrun; [|reflexivity].
  assert (Hread : read_at argv "run" values).
  { destruct rounds as [|r]; [discriminate Hparse|].
    assert (Hsame : parse_loop (length argv + S r) argv 1 ∅ = Args args).
    { unfold parse_args in Hparse. revert Hparse.
      generalize (∅ : gmap string (list string)). generalize 1%nat.
      generalize (S r) as k. intros k. generalize (length argv) as extra.
      induction k as [|k IHk]; intros extra i a Hp; [discriminate Hp|].
      replace (extra + S k)%nat with (S (extra + k)) by lia. cbn [parse_loop] in Hp |- *.
      destruct (argv !! i); [|exact Hp].
      destruct (assoc s args_nature); [|exact Hp].
      destruct (length argv <=? i + n)%nat; [exact Hp|]. now apply IHk. }
    assert (Hempty : forall name values,
               (∅ : gmap string (list string)) !! name = Some values
               -> read_at argv name values).
    { intros n v Hv. now rewrite lookup_empty in Hv. }
    pose proof (parse_loop_reads argv (length argv + S r) 1 ∅ Nat.lt_0_1 ltac:(lia) Hempty)
      as H.
    rewrite Hsame in H. now apply H. }
  destruct Hread as (Hnat & i & Hi & Hname & Hvalues & Hlen).
  vm_compute in Hnat. injection Hnat as Hnat.
  destruct values as [|target [|more]]; try discriminate Hnat.
  clear Hnat. cbn [length take] in Hvalues.
  destruct (drop (S i) argv) as [|t rest] eqn:Hdrop; [discriminate Hvalues|].
  cbn [take] in Hvalues. injection Hvalues as ->.
  assert (Ht : argv !! S i = Some t).
  { rewrite <- (Nat.add_0_r (S i)), <- lookup_drop, Hdrop. reflexivity. }
  exists i, t. split; [exact Hi|]. split; [exact Hname|]. split; [exact Ht|].
  split; [reflexivity|]. cbn [lookup list_lookup].
  destruct (bool_decide (is_Some (targets !! t))); [|reflexivity].
  unfold run. destruct (tc [Py.join dir_build t] (fs w)); reflexivity.
Qed.

(** After [load_bakerfile], every option that Baker knows is there, with a
    value of the type of its default; it is the default when the file has
    not the key. *)
Lemma loaded_option file options key defaults subkey value_def :
  load_bakerfile (Some file) = Ok options ->
  In (key, defaults) options_default -> In (subkey, value_def) defaults ->
  exists v, option_of options key subkey = Ok v /\ py_type v = py_type value_def
            /\ (file !! key = None -> v = value_def).
Proof.
  unfold load_bakerfile. intros H Hin Hsub.
  destruct (negb _); [discriminate|]. inv_ok. subst.
  pose proof (load_keys_loaded _ _ _ _ _ _ options_default_NoDup Hx Hin) as Hl.
  unfold key_loaded in Hl. unfold option_of. rewrite pass_through_lookup.
  pose proof (options_default_sub_NoDup _ _ Hin) as Hnd.
  destruct (file !! key) as [given|] eqn:Hk.
  - destruct Hl as (sub & Hsubs & ->). cbn [of_option mbind result_bind py_getitem].
    destruct (load_subkeys_loaded _ _ _ _ _ _ _ Hnd Hsubs Hsub) as [[_ ->]|(v & _ & _ & Ht & ->)].
    + exists value_def. split; [reflexivity|]. split; [reflexivity|discriminate].
    + exists v. split; [reflexivity|]. split; [exact Ht|discriminate].
  - rewrite Hl. cbn [of_option mbind result_bind py_getitem].
    exists value_def. split; [|auto].
    replace (list_to_map defaults !! subkey) with (Some value_def); [reflexivity|].
    symmetry. apply elem_of_list_to_map; [exact Hnd|]. now apply list_elem_of_In.
Qed.

Lemma str_typed v s : py_type v = py_type (JStr s) -> exists s', v = JStr s'.
Proof. destruct v; try discriminate. eauto. Qed.

Lemma list_typed v l : py_type v = py_type (JList l) -> exists l', v = JList l'.
Proof. destruct v; try discriminate. eauto. Qed.

(** After [load_bakerfile], [process_args] returns. *)
Lemma process_args_returns file options args :
  load_bakerfile (Some file) = Ok options -> exists started, process_args options args = Ok started.
Proof.
  intros Hload. unfold process_args.
  destruct (given args "help"); [eauto|].
  destruct (given args "default_bakerfile"); [eauto|].
  destruct (given args "dump_bakerfile"); [eauto|].
  assert (Hopt : forall key defaults subkey value_def,
             In (key, defaults) options_default -> In (subkey, value_def) defaults ->
             exists v, option_of options key subkey = Ok v /\ py_type v = py_type value_def).
  { intros key defaults subkey value_def Hin Hsub.
    destruct (loaded_option _ _ _ _ _ _ Hload Hin Hsub) as (v & Hv & Ht & _). eauto. }
  destruct (Hopt "flags" _ "debug" _ ltac:(right; left; reflexivity) ltac:(left; reflexivity))
    as (debug & Hdebug & _).
  destruct (Hopt "flags" _ "release" _ ltac:(right; left; reflexivity)
              ltac:(right; left; reflexivity)) as (release & Hrelease & _).
  destruct (Hopt "flags" _ "base" _ ltac:(right; left; reflexivity)
              ltac:(right; right; left; reflexivity)) as (base & Hbase & _).
  destruct (Hopt "dirs" _ "build" _ ltac:(left; reflexivity) ltac:(right; left; reflexivity))
    as (vb & Hb & Tb). apply str_typed in Tb as [build ->].
  destruct (Hopt "dirs" _ "object" _ ltac:(left; reflexivity)
              ltac:(right; right; left; reflexivity)) as (vo & Ho & To).
  apply str_typed in To as [object ->].
  destruct (Hopt "dirs" _ "header_units" _ ltac:(left; reflexivity)
              ltac:(right; right; right; left; reflexivity)) as (vh & Hh & Th).
  apply str_typed in Th as [header_units ->].
  destruct (Hopt "options" _ "cxx" _ ltac:(right; right; left; reflexivity)
              ltac:(left; reflexivity)) as (vc & Hc & _).
  rewrite Hbase, Hb, Ho, Hh, Hc.
  destruct (given args "release"); cbn [String.eqb Ascii.eqb Bool.eqb]; cbv iota;
    [rewrite Hrelease|rewrite Hdebug]; cbn [mbind result_bind path_join]; eauto.
Qed.

(** After [load_bakerfile] has returned, [process_args] raises nothing: no
    key is missing and every directory is a string.  It exits after printing
    when [help], [default_bakerfile] or [dump_bakerfile] is given, in this
    order of precedence.  Else the build type is [release] when that argument
    is given and [debug] otherwise; the flags of the type and the base flags
    are lists; the build directory is the configured one joined with the
    type, the object directory is joined to that, and the directory of the
    header units is joined to the configured build directory, not to that of
    the type. *)
Theorem process_args_after_load file options args :
  load_bakerfile (Some file) = Ok options ->
  exists started,
    process_args options args = Ok started
    /\ match started with
       | Exit0 printed =>
           printed = (if given args "help" then PrintedArgsNature
                      else if given args "default_bakerfile" then PrintedOptionsDefault
                      else PrintedOptions options)
           /\ (given args "help" || given args "default_bakerfile"
               || given args "dump_bakerfile" = true)
       | Proceed p =>
           given args "help" || given args "default_bakerfile"
             || given args "dump_bakerfile" = false
           /\ p_show p = given args "show" /\ p_rebuild p = given args "rebuild"
           /\ p_type p = (if given args "release" then "release" else "debug")
           /\ option_of options "flags" (p_type p) = Ok (p_type_flags p)
           /\ option_of options "flags" "base" = Ok (p_base_flags p)
           /\ py_type (p_type_flags p) = list_ /\ py_type (p_base_flags p) = list_
           /\ exists build object header_units cxx,
                option_of options "dirs" "build" = Ok (JStr build)
                /\ option_of options "dirs" "object" = Ok (JStr object)
                /\ option_of options "dirs" "header_units" = Ok (JStr header_units)
                /\ option_of options "options" "cxx" = Ok (JStr cxx)
                /\ p_dir_build p = Py.join build (p_type p)
                /\ p_dir_object p = Py.join (p_dir_build p) object
                /\ p_dir_header_units p = Py.join build header_units
                /\ p_cxx p = [JStr cxx]
       end.
Proof.
  intros Hload. unfold process_args.
  destruct (given args "help").
  { exists (Exit0 PrintedArgsNature). split; [reflexivity|]. split; reflexivity. }
  destruct (given args "default_bakerfile").
  { exists (Exit0 PrintedOptionsDefault). split; [reflexivity|]. split; reflexivity. }
  destruct (given args "dump_bakerfile").
  { exists (Exit0 (PrintedOptions options)). split; [reflexivity|]. split; reflexivity. }
  assert (Hopt : forall key defaults subkey value_def,
             In (key, defaults) options_default -> In (subkey, value_def) defaults ->
             exists v, option_of options key subkey = Ok v /\ py_type v = py_type value_def).
  { intros key defaults subkey value_def Hin Hsub.
    destruct (loaded_option _ _ _ _ _ _ Hload Hin Hsub) as (v & Hv & Ht & _). eauto. }
  destruct (Hopt "flags" _ "debug" _ ltac:(right; left; reflexivity) ltac:(left; reflexivity))
    as (debug & Hdebug & Tdebug).
  destruct (Hopt "flags" _ "release" _ ltac:(right; left; reflexivity)
              ltac:(right; left; reflexivity)) as (release & Hrelease & Trelease).
  destruct (Hopt "flags" _ "base" _ ltac:(right; left; reflexivity)
              ltac:(right; right; left; reflexivity)) as (base & Hbase & Tbase).
  destruct (Hopt "dirs" _ "build" _ ltac:(left; reflexivity) ltac:(right; left; reflexivity))
    as (vb & Hb & Tb). apply str_typed in Tb as [build ->].
  destruct (Hopt "dirs" _ "object" _ ltac:(left; reflexivity)
              ltac:(right; right; left; reflexivity)) as (vo & Ho & To).
  apply str_typed in To as [object ->].
  destruct (Hopt "dirs" _ "header_units" _ ltac:(left; reflexivity)
              ltac:(right; right; right; left; reflexivity)) as (vh & Hh & Th).
  apply str_typed in Th as [header_units ->].
  destruct (Hopt "options" _ "cxx" _ ltac:(right; right; left; reflexivity)
              ltac:(left; reflexivity)) as (vc & Hc & Tc).
  apply str_typed in Tc as [cxx ->].
  rewrite Hbase, Hb, Ho, Hh, Hc.
  destruct (given args "release"); cbn [String.eqb Ascii.eqb Bool.eqb]; cbv iota;
    [rewrite Hrelease|rewrite Hdebug];
    cbn [mbind result_bind path_join]; eexists; (split; [reflexivity|]);
    cbn [p_show p_rebuild p_type p_type_flags p_base_flags p_dir_build p_dir_object
         p_dir_header_units p_cxx];
    repeat split; try assumption; exists build, object, header_units, cxx; repeat split.
Qed.

(** A configuration file that says nothing of directories, flags and
    compiler gives the settings of [options_default]: sources in [src],
    [clang++] with the base flags, and for a debug build [-g -DDEBUG] and the
    directories [build/debug], [build/debug/object] and [build/header_units];
    for a release build [-O3 -DNDEBUG] and [build/release],
    [build/release/object], and again [build/header_units]. *)
Theorem default_settings file options args :
  load_bakerfile (Some file) = Ok options ->
  file !! "dirs" = None -> file !! "flags" = None -> file !! "options" = None ->
  given args "help" || given args "default_bakerfile" || given args "dump_bakerfile" = false ->
  exists p,
    process_args options args = Ok (Proceed p)
    /\ settings_of options p
       = Some (if given args "release"
               then mkSettings (given args "show") (given args "rebuild") ["clang++"]
                      ["-std=c++23"; "-Wno-experimental-header-units"] ["-O3"; "-DNDEBUG"]
                      "src" "build/release" "build/release/object" "build/header_units"
               else mkSettings (given args "show") (given args "rebuild") ["clang++"]
                      ["-std=c++23"; "-Wno-experimental-header-units"] ["-g"; "-DDEBUG"]
                      "src" "build/debug" "build/debug/object" "build/header_units").
Proof.
  intros Hload Hdirs Hflags Hoptions Hgo.
  assert (Hopt : forall key defaults subkey value_def,
             In (key, defaults) options_default -> In (subkey, value_def) defaults ->
             file !! key = None -> option_of options key subkey = Ok value_def).
  { intros key defaults subkey value_def Hin Hsub Hnone.
    destruct (loaded_option _ _ _ _ _ _ Hload Hin Hsub) as (v & Hv & _ & Hdef).
    now rewrite Hv, (Hdef Hnone). }
  pose proof (Hopt "flags" _ "debug" _ ltac:(right; left; reflexivity)
                ltac:(left; reflexivity) Hflags) as Hdebug.
  pose proof (Hopt "flags" _ "release" _ ltac:(right; left; reflexivity)
                ltac:(right; left; reflexivity) Hflags) as Hrelease.
  pose proof (Hopt "flags" _ "base" _ ltac:(right; left; reflexivity)
                ltac:(right; right; left; reflexivity) Hflags) as Hbase.
  pose proof (Hopt "dirs" _ "build" _ ltac:(left; reflexivity)
                ltac:(right; left; reflexivity) Hdirs) as Hb.
  pose proof (Hopt "dirs" _ "object" _ ltac:(left; reflexivity)
                ltac:(right; right; left; reflexivity) Hdirs) as Ho.
  pose proof (Hopt "dirs" _ "header_units" _ ltac:(left; reflexivity)
                ltac:(right; right; right; left; reflexivity) Hdirs) as Hh.
  pose proof (Hopt "dirs" _ "source" _ ltac:(left; reflexivity)
                ltac:(left; reflexivity) Hdirs) as Hs.
  pose proof (Hopt "options" _ "cxx" _ ltac:(right; right; left; reflexivity)
                ltac:(left; reflexivity) Hoptions) as Hc.
  unfold process_args.
  destruct (given args "help"); [discriminate Hgo|].
  destruct (given args "default_bakerfile"); [discriminate Hgo|].
  destruct (given args "dump_bakerfile"); [discriminate Hgo|].
  rewrite Hbase, Hb, Ho, Hh, Hc.
  destruct (given args "release"); cbn [String.eqb Ascii.eqb Bool.eqb]; cbv iota;
    [rewrite Hrelease|rewrite Hdebug];
    cbn [mbind result_bind path_join]; eexists; (split; [reflexivity|]);
    unfold settings_of; rewrite Hs; reflexivity.
Qed.

(** How Baker starts.  The configuration is loaded before the command line
    is looked at: without a valid [Bakerfile.json] every command line ends in
    the exception of [load_bakerfile], [help] included.  With the
    configuration loaded, a command line with an unknown argument, or with
    [run] as its last argument, is refused whatever else it holds, [help]
    included.  Beyond that nothing is raised before the build: Baker prints
    and exits, or goes on to build. *)
Theorem startup_outcomes file rounds argv :
  (length argv - 1 < rounds)%nat ->
  match init file rounds argv with
  | Raised e => load_bakerfile file = Err e
  | Refused refused =>
      parse_args rounds argv = refused
      /\ ((exists current, refused = UnknownArgument current /\ In current argv)
          \/ (refused = RequiresArguments "run" 1 /\ last argv = Some "run"))
  | Exited printed =>
      exists options args,
        load_bakerfile file = Ok options /\ parse_args rounds argv = Args args
        /\ process_args options args = Ok (Exit0 printed)
        /\ (given args "help" || given args "default_bakerfile"
            || given args "dump_bakerfile" = true)
  | Building options args p =>
      load_bakerfile file = Ok options /\ parse_args rounds argv = Args args
      /\ process_args options args = Ok (Proceed p)
      /\ (given args "help" || given args "default_bakerfile"
          || given args "dump_bakerfile" = false)
  end.
Proof.
  intros Hrounds. unfold init.
  destruct (load_bakerfile file) as [options|e] eqn:Hload; [|reflexivity].
  assert (Hfile : exists f, file = Some f).
  { destruct file as [f|]; [eauto|discriminate Hload]. }
  destruct Hfile as [f ->].
  unfold handle_args.
  assert (Hempty : forall name values,
             (∅ : gmap string (list string)) !! name = Some values -> read_at argv name values).
  { intros n v Hv. now rewrite lookup_empty in Hv. }
  pose proof (parse_loop_reads argv rounds 1 ∅ (Nat.lt_0_1) Hrounds Hempty) as H.
  fold (parse_args rounds argv) in H.
  destruct (parse_args rounds argv) as [args|current count|current|] eqn:Hparse.
  - destruct (process_args_returns f options args Hload) as [started Hstarted].
    rewrite Hstarted. destruct started as [printed|p].
    + exists options, args. repeat split; try assumption.
      unfold process_args in Hstarted.
      destruct (given args "help"); [reflexivity|].
      destruct (given args "default_bakerfile"); [reflexivity|].
      destruct (given args "dump_bakerfile"); [reflexivity|].
      exfalso. inv_ok. discriminate Hstarted.
    + repeat split; try assumption.
      unfold process_args in Hstarted.
      destruct (given args "help"); [discriminate Hstarted|].
      destruct (given args "default_bakerfile"); [discriminate Hstarted|].
      destruct (given args "dump_bakerfile"); [discriminate Hstarted|]. reflexivity.
  - split; [reflexivity|]. right. destruct H as (Hn & i & Hi & Hle).
    assert (current = "run" /\ count = 1%nat) as [-> ->].
    { apply assoc_In in Hn. unfold args_nature in Hn. simpl in Hn.
      pose proof (lookup_lt_Some _ _ _ Hi) as Hlt.
      repeat (destruct Hn as [Hn|Hn]; [injection Hn as <- <-; try lia; auto|]).
      contradiction. }
    split; [reflexivity|].
    pose proof (lookup_lt_Some _ _ _ Hi) as Hlt.
    rewrite last_lookup. replace (pred (length argv)) with i by lia. exact Hi.
  - split; [reflexivity|]. left. exists current. split; [reflexivity|apply H].
  - contradiction.
Qed.

(** ** What can stop a build *)

Lemma frame_edge h h' a b : frame h h' -> edge h a b -> edge h' a b.
Proof.
  intros F (n & Hn & Hin). destruct (frame_lookup _ _ _ _ F Hn) as (n' & Hn' & _ & Hc & _).
  exists n'. split; [exact Hn'|]. now rewrite <- Hc.
Qed.

Lemma frame_rtc h h' a b : frame h h' -> rtc (edge h) a b -> rtc (edge h') a b.
Proof.
  intros F Hr. induction Hr as [|x y z Hxy _ IH]; [constructor|].
  econstructor; [eapply frame_edge; eassumption|exact IH].
Qed.

Lemma frame_nsteps h h' m a b : frame h h' -> nsteps (edge h) m a b -> nsteps (edge h') m a b.
Proof.
  intros F Hr. induction Hr as [|m x y z Hxy _ IH]; [constructor|].
  econstructor; [eapply frame_edge; eassumption|exact IH].
Qed.

Lemma frame_resolved h h' a : frame h h' -> resolved h a -> resolved h' a.
Proof.
  intros F [[n Hn] Hall]. destruct (frame_lookup _ _ _ _ F Hn) as (n' & Hn' & _).
  split; [eauto|]. intros b nb' Hb Hnb'.
  destruct (frame_lookup _ _ _ _ (frame_sym _ _ F) Hnb') as (nb & Hnb & _ & Hc & _).
  rewrite Hc. specialize (Hall b nb (frame_rtc _ _ _ _ (frame_sym _ _ F) Hb) Hnb).
  eapply Forall_impl; [exact Hall|]. intros c (d & -> & [nd Hd]).
  destruct (frame_lookup _ _ _ _ F Hd) as (nd' & Hd' & _). exists d. eauto.
Qed.

Lemma frame_shallow h h' k a : frame h h' -> shallow h k a -> shallow h' k a.
Proof.
  intros F Hs m b Hm. apply (Hs m b). eapply frame_nsteps; [apply frame_sym|]; eassumption.
Qed.

(** What is known of the reduced tree of a target. *)
Lemma reduction_explored classify plain_order fuel sources c root_node g :
  gen_classes classify plain_order sources = Ok c ->
  build_dependency_tree fuel (c_classes c) root_node (c_heap c) = Ok g ->
  exists tree,
    build_compile_tree fuel (c_classes c) root_node (g_heap g) = Ok tree
    /\ resolved tree root_node /\ shallow tree fuel root_node
    /\ same_kinds (c_heap c) tree.
Proof.
  intros Hgen Hbuild.
  assert (Hreg : registered (c_classes c) (c_heap c)).
  { unfold gen_classes in Hgen.
    destruct (gen_classes_from classify 0 sources
                (mkClassified ∅ (mkClasses [] ∅ ∅ []) ∅ ∅ None)) as [c0|e] eqn:H0;
      [|discriminate Hgen].
    cbn [mbind result_bind] in Hgen. injection Hgen as <-.
    destruct (gen_classes_from_indexes classify sources [] _ _ (indexes_start classify) H0)
      as [Hidx _].
    apply indexes_registered in Hidx. exact Hidx. }
  pose proof (build_dependency_tree_same_kinds _ _ _ _ _ Hbuild) as Hkinds.
  apply (registered_same_kinds _ _ _ Hkinds) in Hreg.
  unfold build_dependency_tree in Hbuild.
  destruct (attach_plain_sources (c_classes c) root_node (c_heap c)) as [h1|e];
    [|discriminate Hbuild].
  cbn [mbind result_bind] in Hbuild.
  destruct (attach_module_impls (c_classes c) root_node h1) as [h2|e]; [|discriminate Hbuild].
  cbn [mbind result_bind] in Hbuild.
  apply fill_children_explored in Hbuild as [_ Hexp].
  destruct (Hexp (g_heap g) (keeps_refl _)) as [Hres Hsh].
  destruct (clip_redundant_returns fuel root_node (g_heap g) Hres Hsh) as [h Hclip].
  pose proof (clip_redundant_clean _ _ _ _ Hclip) as [Hclips _].
  destruct (fix_module_partition_deps_returns (c_classes c) h fuel
              (registered_same_kinds _ _ _ (clips_same_kinds _ _ Hclips) Hreg)
              root_node h (frame_refl h)
              (clips_resolved _ _ _ Hclips Hres) (clips_shallow _ _ _ _ Hclips Hsh))
    as [tree Hfix].
  exists tree. unfold build_compile_tree. rewrite Hclip. cbn [mbind result_bind].
  split; [exact Hfix|].
  pose proof (fix_module_partition_deps_changes _ _ _ _ _ Hfix) as [F _].
  split; [eapply frame_resolved; [exact F|]; eapply clips_resolved; eassumption|].
  split; [eapply frame_shallow; [exact F|]; eapply clips_shallow; eassumption|].
  eapply same_kinds_trans; [exact Hkinds|].
  eapply same_kinds_trans; [apply clips_same_kinds; exact Hclips|].
  apply frame_same_kinds. exact F.
Qed.

(** Below a node that can be reached from an explored root, all is
    explored. *)
Lemma explored_below h fuel root_node a :
  resolved h root_node -> shallow h fuel root_node -> rtc (edge h) root_node a ->
  is_Some (h !! a) -> resolved h a /\ shallow h fuel a.
Proof.
  intros [_ Hall] Hsh Hr Ha. split.
  - split; [exact Ha|]. intros b n Hb Hn. apply (Hall b n); [|exact Hn]. etrans; eassumption.
  - intros m b Hm. apply rtc_nsteps in Hr as [k Hk].
    specialize (Hsh _ _ (nsteps_trans _ _ _ _ _ Hk Hm)). lia.
Qed.

Lemma explored_child h f a n b :
  resolved h a -> shallow h (S f) a -> h !! a = Some n -> In (NodeRef b) (children n) ->
  resolved h b /\ shallow h f b.
Proof.
  intros [_ Hall] Hsh Hn Hin.
  assert (Hedge : edge h a b) by (exists n; auto).
  pose proof (Hall a n (rtc_refl _ _) Hn) as Hnodes. rewrite Forall_forall in Hnodes.
  destruct (Hnodes (NodeRef b)) as (d & [= <-] & Hb); [now apply list_elem_of_In|].
  split.
  - split; [exact Hb|]. intros c nc Hc Hnc. apply (Hall c nc); [|exact Hnc].
    eapply rtc_l; eassumption.
  - intros m c Hm. specialize (Hsh (S m) c (nsteps_l _ _ _ _ _ Hedge Hm)). lia.
Qed.

(** On an explored tree [collect_modules] returns; a module without name
    among what it gathers is the name of a nameless node. *)
Lemma collect_modules_returns st h fuel :
  forall a collected,
    resolved h a -> shallow h fuel a ->
    exists added,
      collect_modules fuel st h a collected = Ok (collected ++ added)
      /\ Forall (fun e => e.1 = None -> nameless h) added.
Proof.
  induction fuel as [|f IH]; intros a collected Hres Hsh.
  - exfalso. specialize (Hsh 0%nat a (nsteps_O _ _)). lia.
  - cbn [collect_modules]. pose proof Hres as [[n Hn] _]. unfold deref. rewrite Hn.
    cbn [of_option mbind result_bind].
    assert (Hfirst : exists first,
               (if is_module_type (type (data n))
                then collected ++ [(module_ (data n),
                                    Py.join (dir_object st)
                                      (Py.removesuffix (filename (data n)) ".cppm" +:+ ".pcm"))]
                else collected) = collected ++ first
               /\ Forall (fun e => e.1 = None -> nameless h) first).
    { destruct (is_module_type (type (data n))) eqn:Et.
      - eexists. split; [reflexivity|]. constructor; [|constructor].
        intros Hnone. exists a, n. auto.
      - exists []. split; [now rewrite app_nil_r|constructor]. }
    destruct Hfirst as (first & -> & Hfirst).
    assert (Hloop : forall cs col,
               (forall c, In c cs -> In c (children n)) ->
               exists added,
                 for_each (fun c col => '(a, _) ← deref_child h c; collect_modules f st h a col)
                          cs col = Ok (col ++ added)
                 /\ Forall (fun e => e.1 = None -> nameless h) added).
    { induction cs as [|c cs IHcs]; intros col Hsub.
      - exists []. split; [simpl; now rewrite app_nil_r|constructor].
      - assert (Hin : In c (children n)) by (apply Hsub; now left).
        pose proof Hres as [_ Hall].
        pose proof (Hall a n (rtc_refl _ _) Hn) as Hnodes. rewrite Forall_forall in Hnodes.
        destruct (Hnodes c) as (b & -> & [nb Hb]); [now apply list_elem_of_In|].
        destruct (explored_child h f a n b Hres Hsh Hn Hin) as [Hresb Hshb].
        destruct (IH b col Hresb Hshb) as (added1 & E1 & H1).
        destruct (IHcs (col ++ added1)) as (added2 & E2 & H2).
        { intros c' Hc'. apply Hsub. now right. }
        exists (added1 ++ added2). cbn [for_each deref_child]. unfold deref. rewrite Hb.
        cbn [of_option mbind result_bind]. rewrite E1. cbn [mbind result_bind].
        rewrite E2, app_assoc. split; [reflexivity|now apply Forall_app]. }
    destruct (Hloop (children n) (collected ++ first)) as (added & E & Hadded); [auto|].
    exists (first ++ added). rewrite E, app_assoc. split; [reflexivity|now apply Forall_app].
Qed.

(** On an explored tree [collect_objects] returns. *)
Lemma collect_objects_returns st h fuel :
  forall a collected,
    resolved h a -> shallow h fuel a ->
    exists out, collect_objects fuel st h a collected = Ok out.
Proof.
  induction fuel as [|f IH]; intros a collected Hres Hsh.
  - exfalso. specialize (Hsh 0%nat a (nsteps_O _ _)). lia.
  - cbn [collect_objects]. pose proof Hres as [[n Hn] _]. unfold deref. rewrite Hn.
    cbn [of_option mbind result_bind].
    generalize (collected ++ [removesuffixes [".cpp"; ".cppm"]
                                (Py.join (dir_object st) (filename (data n))) +:+ ".o"]).
    assert (Hsub : forall c, In c (children n) -> In c (children n)) by auto.
    revert Hsub. generalize (children n) at 1 3 as cs.
    induction cs as [|c cs IHcs]; intros Hsub col; [simpl; eauto|].
    assert (Hin : In c (children n)) by (apply Hsub; now left).
    pose proof Hres as [_ Hall].
    pose proof (Hall a n (rtc_refl _ _) Hn) as Hnodes. rewrite Forall_forall in Hnodes.
    destruct (Hnodes c) as (b & -> & [nb Hb]); [now apply list_elem_of_In|].
    destruct (explored_child h f a n b Hres Hsh Hn Hin) as [Hresb Hshb].
    destruct (IH b col Hresb Hshb) as (out1 & E1).
    cbn [for_each deref_child]. unfold deref. rewrite Hb.
    cbn [of_option mbind result_bind]. rewrite E1. cbn [mbind result_bind].
    apply IHcs. intros c' Hc'. apply Hsub. now right.
Qed.

(** The arguments of a compilation can be gathered, unless a module has no
    name. *)
Lemma compile_args_errors st h fuel source target a e :
  resolved h a -> shallow h fuel a ->
  compile_args fuel st h source target a = Err e -> e = PyTypeError /\ nameless h.
Proof.
  intros Hres Hsh H. unfold compile_args in H. pose proof Hres as [[n Hn] _].
  unfold deref in H. rewrite Hn in H. cbn [of_option mbind result_bind] in H.
  destruct (collect_modules_returns st h fuel a [] Hres Hsh) as (added & E & Hadded).
  rewrite E in H. cbn [mbind result_bind app] in H.
  assert (Hflags : forall e',
             mapM (fun '(s_module, s_bmi_path) =>
                     m ← of_option PyTypeError s_module;
                     Ok ("-fmodule-file=" +:+ m +:+ "=" +:+ s_bmi_path)) added = Err e' ->
             e' = PyTypeError /\ nameless h).
  { clear E H. induction Hadded as [|[m path] rest Hm _ IHrest]; intros e' He'.
    - discriminate He'.
    - rewrite mapM_cons in He'. destruct m as [m|].
      + cbn [of_option mbind result_bind] in He'.
        destruct (mapM _ rest) as [flags|e''] eqn:Erest; [discriminate He'|].
        cbn [mbind result_bind] in He'. injection He' as <-. now apply IHrest.
      + cbn [of_option mbind result_bind] in He'. injection He' as <-.
        split; [reflexivity|]. now apply Hm. }
  destruct (mapM _ added) as [flags|e'] eqn:Eflags; [discriminate H|].
  cbn [mbind result_bind] in H. injection H as <-. now apply Hflags.
Qed.

(** The look at the files raises the [OSError] of [getmtime] only. *)
Lemma out_of_date_errors st files n e : out_of_date st files n = Err e -> e = PyOSError.
Proof.
  assert (Hlater : forall p p' e', is_later files p p' = Err e' -> e' = PyOSError).
  { intros p p' e' H. unfold is_later, getmtime in H.
    destruct (files !! p); [|now injection H as <-].
    cbn [of_option mbind result_bind] in H.
    destruct (files !! p'); [discriminate H|now injection H as <-]. }
  unfold out_of_date. intros H.
  destruct (negb (exists_ files (target_path st n))).
  - cbn [mbind result_bind] in H. discriminate H.
  - destruct (is_later files (source_path st n) (target_path st n)) as [[|]|e'] eqn:E1.
    + discriminate H.
    + cbn [mbind result_bind] in H. destruct (is_module_type (type (data n))); [|discriminate H].
      destruct (negb (exists_ files (bmi_target_path st n))); [discriminate H|].
      eapply Hlater. exact H.
    + cbn [mbind result_bind] in H. injection H as <-. eapply Hlater. exact E1.
Qed.

Lemma In_remove_first x y l : In y (remove_first x l) -> In y l.
Proof.
  induction l as [|z l IH]; simpl; [auto|].
  destruct (decide (z = x)); [auto|]. intros [->|H]; auto.
Qed.

Lemma length_remove_first x l : In x l -> S (length (remove_first x l)) = length l.
Proof.
  induction l as [|z l IH]; simpl; [contradiction|].
  destruct (decide (z = x)) as [->|Hne]; [reflexivity|].
  intros [->|H]; [contradiction|]. simpl. now rewrite IH.
Qed.

Lemma Forall_remove_first (P : nat -> Prop) x l : Forall P l -> Forall P (remove_first x l).
Proof.
  intros H. apply Forall_forall. intros y Hy. rewrite Forall_forall in H. apply H.
  apply list_elem_of_In. eapply In_remove_first. apply list_elem_of_In. exact Hy.
Qed.

Lemma walk_up_reachable h root_node x levels :
  walk_up h root_node x levels -> rtc (edge h) root_node x.
Proof.
  induction 1 as [|x p pn siblings levels Hp Hc Hin _ _ IH]; [constructor|].
  eapply rtc_r; [exact IH|]. exists pn. split; [exact Hp|]. rewrite Hc.
  apply in_map. exact Hin.
Qed.

(** The state of the scheduler when it comes to a node with the children of
    its parent. *)
Lemma on_the_way_arrival h root_node r x levels nx sl s :
  h !! root_node = Some r -> parent r = None ->
  walk_up h root_node x levels -> h !! x = Some nx ->
  siblings_of h nx = Ok sl -> s_node s = x -> s_siblings_left s = sl ->
  on_the_way h root_node s (S (length (concat levels))).
Proof.
  intros Hr Hpr Hw Hx Hsib Hs Hsl. unfold on_the_way. rewrite Hs, Hsl. clear Hs Hsl.
  destruct (decide (x = root_node)) as [->|Hne]; [lia|].
  destruct Hw as [|x p pn siblings levels' Hp Hc Hin Hlv Hup]; [contradiction|].
  exists p, pn, siblings, levels'.
  assert (Hpx : parent nx = Some p).
  { rewrite Forall_forall in Hlv. destruct (Hlv x) as (_ & n1 & Hn1 & Hp1);
      [now apply list_elem_of_In|]. congruence. }
  unfold siblings_of in Hsib. rewrite Hpx in Hsib. unfold deref in Hsib. rewrite Hp in Hsib.
  cbn [of_option mbind result_bind] in Hsib. injection Hsib as <-.
  split; [exact Hp|]. split; [now rewrite Hc|]. split; [exact Hin|]. split; [exact Hlv|].
  split.
  - apply Forall_forall. intros y Hy. eapply rtc_r; [eapply walk_up_reachable; exact Hup|].
    exists pn. split; [exact Hp|]. rewrite Hc. apply in_map. now apply list_elem_of_In.
  - split; [exact Hup|]. rewrite concat_cons, length_app. cbn [length].
    rewrite (length_remove_first x siblings Hin). lia.
Qed.

(** The first half of a round, the look at the files and the compilation,
    raises nothing but what comes from outside. *)
Lemma sched_round_front tc fuel st root_node h s n :
  h !! s_node s = Some n -> resolved h (s_node s) -> shallow h fuel (s_node s) ->
  (exists e, sched_round tc fuel st root_node h s = Err e /\ from_outside h e)
  \/ exists s1,
       s_siblings_left s1 = s_siblings_left s
       /\ sched_round tc fuel st root_node h s
          = if decide (s_node s = root_node) then Ok (s1, true)
            else
              siblings ← of_option PyAttributeError (s_siblings_left s1);
              siblings_left ← of_option PyValueError (Py.remove (NodeRef (s_node s)) siblings);
              match siblings_left with
              | next :: _ =>
                  '(a, _) ← deref_child h next;
                  Ok (mkSched a (Some siblings_left) (s_triggered_recompile s1)
                              (s_triggered_recompile_next s1) (s_compiles s1) (s_compiled s1)
                              (s_world s1), false)
              | [] =>
                  let triggered := s_triggered_recompile_next s1 || s_triggered_recompile s1 in
                  p ← of_option PyAttributeError (parent n);
                  pn ← deref h p;
                  siblings' ← match parent pn with
                              | Some pp => ppn ← deref h pp; Ok (Some (children ppn))
                              | None => Ok None
                              end;
                  Ok (mkSched p siblings' triggered (s_triggered_recompile_next s1)
                              (s_compiles s1) (s_compiled s1) (s_world s1), false)
              end.
Proof.
  intros Hn Hres Hsh. unfold sched_round. rewrite (deref_lookup h _ _ Hn).
  cbn [mbind result_bind].
  assert (Hstale : forall stale : bool,
    (exists e,
       (if stale then
          w ← compile tc fuel st h (source_path st n) (target_path st n) (s_node s)
                (s_world s);
          Ok (mkSched (s_node s) (s_siblings_left s) (s_triggered_recompile s) true
                (S (s_compiles s)) (s_compiled s ++ [s_node s]) w)
        else Ok s) = Err e
       /\ from_outside h e)
    \/ exists s1,
         s_siblings_left s1 = s_siblings_left s
         /\ (if stale then
               w ← compile tc fuel st h (source_path st n) (target_path st n) (s_node s)
                     (s_world s);
               Ok (mkSched (s_node s) (s_siblings_left s) (s_triggered_recompile s) true
                     (S (s_compiles s)) (s_compiled s ++ [s_node s]) w)
             else Ok s) = Ok s1).
  { intros [|]; [|right; eauto].
    unfold compile.
    destruct (compile_args fuel st h (source_path st n) (target_path st n) (s_node s))
      as [args|e] eqn:Eargs.
    - cbn [mbind result_bind]. unfold run. destruct (tc args (fs (s_world s))) as [files|].
      + right. eexists. split; [|reflexivity]. reflexivity.
      + left. exists CommandFailed. split; [reflexivity|]. now left.
    - left. exists e. split; [reflexivity|].
      destruct (compile_args_errors _ _ _ _ _ _ _ Hres Hsh Eargs) as [-> Hnameless].
      right. right. auto. }
  destruct (if s_triggered_recompile s then Ok true else out_of_date st (fs (s_world s)) n)
    as [stale|e] eqn:Estale.
  - cbn [mbind result_bind]. destruct (Hstale stale) as [(e & He & Hout)|(s1 & Hsl & Hs1)].
    + left. exists e. split; [|exact Hout]. rewrite He. reflexivity.
    + right. exists s1. split; [exact Hsl|]. rewrite Hs1. cbn [mbind result_bind]. reflexivity.
  - left. exists e. split; [reflexivity|].
    destruct (s_triggered_recompile s); [discriminate Estale|].
    apply out_of_date_errors in Estale as ->. right. now left.
Qed.

(** A round on the way raises nothing but what comes from outside, and
    leaves the scheduler at the root with the loop ended, or one node further
    on the way. *)
Lemma sched_round_on_the_way tc fuel st root_node h r s k :
  h !! root_node = Some r -> parent r = None ->
  resolved h root_node -> shallow h fuel root_node ->
  on_the_way h root_node s k ->
  match sched_round tc fuel st root_node h s with
  | Ok (s', stop) =>
      stop = true \/ exists k', (k' < k)%nat /\ on_the_way h root_node s' k'
  | Err e => from_outside h e
  end.
Proof.
  intros Hr Hpr Hres Hsh Hway. unfold on_the_way in Hway.
  destruct (decide (s_node s = root_node)) as [Hroot|Hne].
  - destruct (sched_round_front tc fuel st root_node h s r) as [(e & -> & He)|(s1 & _ & ->)];
      [now rewrite Hroot|now rewrite Hroot|now rewrite Hroot|exact He|].
    destruct (decide (s_node s = root_node)); [now left|contradiction].
  - destruct Hway as (p & pn & left & levels & Hp & Hsl & Hin & Hlv & Hreach & Hup & Hk).
    pose proof Hlv as Hlv0. unfold level_of in Hlv0. rewrite Forall_forall in Hlv0.
    destruct (Hlv0 (s_node s)) as (_ & n & Hn & Hpn); [now apply list_elem_of_In|].
    pose proof Hreach as Hreach0. rewrite Forall_forall in Hreach0.
    assert (Hrn : rtc (edge h) root_node (s_node s))
      by (apply Hreach0; now apply list_elem_of_In).
    destruct (explored_below h fuel root_node (s_node s) Hres Hsh Hrn) as [Hresn Hshn]; [eauto|].
    destruct (sched_round_front tc fuel st root_node h s n Hn Hresn Hshn)
      as [(e & -> & He)|(s1 & Hsl1 & ->)]; [exact He|].
    destruct (decide (s_node s = root_node)); [contradiction|].
    rewrite Hsl1, Hsl. cbn [of_option mbind result_bind].
    rewrite (remove_NodeRef _ _ Hin). cbn [of_option mbind result_bind].
    pose proof (length_remove_first _ _ Hin) as Hlen.
    destruct (remove_first (s_node s) left) as [|next rest] eqn:Hrem.
    + cbn [fmap list_fmap]. cbv zeta. rewrite Hpn. cbn [of_option mbind result_bind].
      rewrite (deref_lookup h _ _ Hp). cbn [mbind result_bind].
      destruct (decide (p = root_node)) as [->|Hpne].
      * rewrite Hr in Hp. injection Hp as <-. rewrite Hpr. cbn [mbind result_bind].
        right. exists (k - 1)%nat. split; [lia|]. unfold on_the_way. cbn [s_node].
        destruct (decide (root_node = root_node)); [|contradiction]. simpl in Hlen. lia.
      * inversion Hup as [Heq|x' pp ppn siblings levels' Hpp Hc Hinp Hlvp Hupp Hx' Hlevels];
          [congruence|]. subst x'. rewrite <- Hlevels in Hk. clear Hlevels.
        assert (Hppn : parent pn = Some pp).
        { unfold level_of in Hlvp. rewrite Forall_forall in Hlvp.
          destruct (Hlvp p) as (_ & n1 & Hn1 & Hp1); [now apply list_elem_of_In|]. congruence. }
        rewrite Hppn, (deref_lookup h _ _ Hpp). cbn [mbind result_bind].
        right. exists (k - 1)%nat. split; [lia|]. unfold on_the_way. cbn [s_node s_siblings_left].
        destruct (decide (p = root_node)); [contradiction|].
        exists pp, ppn, siblings, levels'. split; [exact Hpp|]. split; [now rewrite Hc|].
        split; [exact Hinp|]. split; [exact Hlvp|]. split.
        -- apply Forall_forall. intros y Hy.
           eapply rtc_r; [eapply walk_up_reachable; exact Hupp|].
           exists ppn. split; [exact Hpp|]. rewrite Hc. apply in_map. now apply list_elem_of_In.
        -- split; [exact Hupp|]. rewrite concat_cons, length_app in Hk. cbn [length] in Hk.
           rewrite (length_remove_first p siblings Hinp) in Hk. simpl in Hlen. lia.
    + cbn [fmap list_fmap deref_child].
      assert (Hnext : In next left) by (eapply In_remove_first; rewrite Hrem; now left).
      destruct (Hlv0 next) as (_ & nn & Hnn & _); [now apply list_elem_of_In|].
      rewrite (deref_lookup h _ _ Hnn). cbn [mbind result_bind].
      right. exists (k - 1)%nat. split; [lia|]. unfold on_the_way. cbn [s_node s_siblings_left].
      destruct (decide (next = root_node)) as [->|Hnne].
      * destruct (Hlv0 root_node) as (Hcontra & _); [now apply list_elem_of_In|]. contradiction.
      * exists p, pn, (next :: rest), levels. split; [exact Hp|]. split; [reflexivity|].
        split; [now left|]. rewrite <- Hrem.
        split; [now apply Forall_remove_first|]. split; [now apply Forall_remove_first|].
        split; [exact Hup|]. rewrite Hrem. simpl in Hlen |- *. lia.
Qed.

(** The loop of [compile_all], begun on the way, raises nothing but what
    comes from outside, and stops within the rounds that the way needs. *)
Lemma sched_loop_on_the_way tc fuel st root_node h r :
  h !! root_node = Some r -> parent r = None ->
  resolved h root_node -> shallow h fuel root_node ->
  forall rounds s k e,
    on_the_way h root_node s k ->
    sched_loop rounds tc fuel st root_node h s = Err e ->
    from_outside h e \/ (e = Diverges /\ (rounds < k)%nat).
Proof.
  intros Hr Hpr Hres Hsh. induction rounds as [|rounds IH]; intros s k e Hway H.
  - injection H as <-. right. split; [reflexivity|].
    unfold on_the_way in Hway. destruct (decide (s_node s = root_node)); [exact Hway|].
    destruct Hway as (p & pn & left & levels & _ & _ & _ & _ & _ & _ & Hk). lia.
  - cbn [sched_loop] in H.
    pose proof (sched_round_on_the_way tc fuel st root_node h r s k Hr Hpr Hres Hsh Hway)
      as Hround.
    destruct (sched_round tc fuel st root_node h s) as [[s' stop]|e'].
    + cbn [mbind result_bind] in H. destruct stop; [discriminate H|].
      destruct Hround as [Hstop|(k' & Hk' & Hway')]; [discriminate Hstop|].
      destruct (IH s' k' e Hway' H) as [Hout|[-> Hlt]]; [now left|].
      right. split; [reflexivity|lia].
    + cbn [mbind result_bind] in H. injection H as <-. now left.
Qed.

(** [make_header_units] raises only when a command fails. *)
Lemma make_header_units_errors tc st headers w e :
  make_header_units tc st headers w = Err e -> e = CommandFailed.
Proof.
  unfold make_header_units. revert w.
  induction (elements headers) as [|header rest IH]; intros w H; [discriminate H|].
  cbn [for_each] in H. cbv zeta in H.
  destruct (negb (exists_ (fs w) _)).
  - unfold run in H. destruct (tc _ (fs w)) as [files|].
    + cbn [mbind result_bind] in H. eapply IH. exact H.
    + cbn [mbind result_bind] in H. now injection H as <-.
  - cbn [mbind result_bind] in H. eapply IH. exact H.
Qed.

(** A nameless node of the tree is a nameless source. *)
Lemma nameless_source classify plain_order sources c tree :
  gen_classes classify plain_order sources = Ok c ->
  same_kinds (c_heap c) tree -> nameless tree ->
  exists source d, In source sources /\ classify source = Ok d
                   /\ is_module_type (type d) = true /\ module_ d = None.
Proof.
  intros Hgen Hkinds (b & nb & Hb & Ht & Hm).
  destruct (same_kinds_Some_inv _ _ _ _ Hkinds Hb) as (n & Hn & Et & Em).
  unfold gen_classes in Hgen.
  destruct (gen_classes_from classify 0 sources
              (mkClassified ∅ (mkClasses [] ∅ ∅ []) ∅ ∅ None)) as [c0|e] eqn:H0;
    [|discriminate Hgen].
  cbn [mbind result_bind] in Hgen. injection Hgen as <-. cbn [c_heap] in Hn.
  destruct (gen_classes_from_indexes classify sources [] _ _ (indexes_start classify) H0)
    as [(_ & Hheap & _) _].
  rewrite app_nil_l in Hheap. rewrite Hheap in Hn. unfold data_at in Hn.
  destruct (sources !! b) as [source|] eqn:Hsource; [|discriminate Hn].
  cbn [mbind option_bind] in Hn.
  destruct (classify source) as [d|] eqn:Hd; [|discriminate Hn].
  cbn [fmap option_fmap option_map] in Hn. injection Hn as <-. cbn [node_of data] in Et, Em.
  exists source, d. split; [|split; [exact Hd|split; congruence]].
  apply list_elem_of_In. eapply list_elem_of_lookup_2. exact Hsource.
Qed.

Lemma shallow_mono h k k' a : (k <= k')%nat -> shallow h k a -> shallow h k' a.
Proof. intros Hk Hs m b Hm. specialize (Hs m b Hm). lia. Qed.

(** No chain of children of the resolved graph is longer than
    [self.last_node_depth] says. *)
Lemma resolution_shallow fuel cls root_node h g :
  fill_children fuel cls root_node 0 (mkGraph h ∅ (-1) None []) = Ok g ->
  shallow (g_heap g) (S (Z.to_nat (last_node_depth g))) root_node.
Proof.
  intros Hfill m b Hm. destruct m as [|k]; [lia|].
  apply nsteps_inv_r in Hm as (q & Hq & Hqb).
  destruct (fill_children_bounded _ _ _ _ _ _ Hfill) as [Hbound _].
  { intros y d Hd. cbn [node_depth] in Hd. now rewrite lookup_empty in Hd. }
  pose proof (recorded_chain _ _ _ _ _ Hfill b) as Rb.
  destruct (node_depth g !! b) as [d|] eqn:Ed.
  - destruct Rb as (k0 & _ & _ & -> & _ & _ & Hmax & _).
    specialize (Hmax k q Hq Hqb). specialize (Hbound b _ Ed). lia.
  - exfalso. exact (Rb k q Hq Hqb).
Qed.

(** The reduction of a resolved graph returns when it has the depth of the
    graph for its calls, and what is known of the tree it makes. *)
Lemma reduction_explored_at classify plain_order fuel0 fuel sources c root_node g :
  gen_classes classify plain_order sources = Ok c ->
  build_dependency_tree fuel0 (c_classes c) root_node (c_heap c) = Ok g ->
  (Z.to_nat (last_node_depth g) < fuel)%nat ->
  exists tree,
    build_compile_tree fuel (c_classes c) root_node (g_heap g) = Ok tree
    /\ resolved tree root_node
    /\ shallow tree (S (Z.to_nat (last_node_depth g))) root_node
    /\ same_kinds (c_heap c) tree.
Proof.
  intros Hgen Hbuild Hdepth.
  assert (Hreg : registered (c_classes c) (c_heap c)).
  { unfold gen_classes in Hgen.
    destruct (gen_classes_from classify 0 sources
                (mkClassified ∅ (mkClasses [] ∅ ∅ []) ∅ ∅ None)) as [c0|e] eqn:H0;
      [|discriminate Hgen].
    cbn [mbind result_bind] in Hgen. injection Hgen as <-.
    destruct (gen_classes_from_indexes classify sources [] _ _ (indexes_start classify) H0)
      as [Hidx _].
    apply indexes_registered in Hidx. exact Hidx. }
  pose proof (build_dependency_tree_same_kinds _ _ _ _ _ Hbuild) as Hkinds.
  apply (registered_same_kinds _ _ _ Hkinds) in Hreg.
  unfold build_dependency_tree in Hbuild.
  destruct (attach_plain_sources (c_classes c) root_node (c_heap c)) as [h1|e];
    [|discriminate Hbuild].
  cbn [mbind result_bind] in Hbuild.
  destruct (attach_module_impls (c_classes c) root_node h1) as [h2|e]; [|discriminate Hbuild].
  cbn [mbind result_bind] in Hbuild.
  pose proof (resolution_shallow _ _ _ _ _ Hbuild) as Hdeep.
  apply fill_children_explored in Hbuild as [_ Hexp].
  destruct (Hexp (g_heap g) (keeps_refl _)) as [Hres _].
  assert (Hsh : shallow (g_heap g) fuel root_node)
    by (eapply shallow_mono; [|exact Hdeep]; lia).
  destruct (clip_redundant_returns fuel root_node (g_heap g) Hres Hsh) as [h Hclip].
  pose proof (clip_redundant_clean _ _ _ _ Hclip) as [Hclips _].
  destruct (fix_module_partition_deps_returns (c_classes c) h fuel
              (registered_same_kinds _ _ _ (clips_same_kinds _ _ Hclips) Hreg)
              root_node h (frame_refl h)
              (clips_resolved _ _ _ Hclips Hres) (clips_shallow _ _ _ _ Hclips Hsh))
    as [tree Hfix].
  exists tree. unfold build_compile_tree. rewrite Hclip. cbn [mbind result_bind].
  split; [exact Hfix|].
  pose proof (fix_module_partition_deps_changes _ _ _ _ _ Hfix) as [F _].
  split; [eapply frame_resolved; [exact F|]; eapply clips_resolved; eassumption|].
  split; [eapply frame_shallow; [exact F|]; eapply clips_shallow; eassumption|].
  eapply same_kinds_trans; [exact Hkinds|].
  eapply same_kinds_trans; [apply clips_same_kinds; exact Hclips|].
  apply frame_same_kinds. exact F.
Qed.

(** A pass that returns with some depth of calls returns the same with
    more. *)
Lemma for_each_mono {A S} (body body' : A -> S -> result S) (xs : list A) :
  (forall x s s', body x s = Ok s' -> body' x s = Ok s') ->
  forall s s', for_each body xs s = Ok s' -> for_each body' xs s = Ok s'.
Proof.
  intros Hbody. induction xs as [|x xs IH]; intros s s' H; [exact H|].
  cbn [for_each] in H |- *. destruct (body x s) as [s1|e] eqn:E; [|discriminate H].
  rewrite (Hbody _ _ _ E). cbn [mbind result_bind] in H |- *. now apply IH.
Qed.

Lemma clip_redundant_fuel f f' node h h' :
  (f <= f')%nat -> clip_redundant f node h = Ok h' -> clip_redundant f' node h = Ok h'.
Proof.
  revert f' node h h'. induction f as [|f IH]; intros f' node h h' Hle H; [discriminate H|].
  destruct f' as [|f']; [lia|]. rewrite clip_redundant_S in H |- *.
  destruct (deref h node) as [n|e]; cbn [mbind result_bind] in H |- *; [|discriminate H].
  destruct (clip_loop (S (length (children n))) node h) as [h1|e];
    cbn [mbind result_bind] in H |- *; [|discriminate H].
  destruct (deref h1 node) as [n1|e]; cbn [mbind result_bind] in H |- *; [|discriminate H].
  eapply for_each_mono; [|exact H]. intros c s s' Hc. cbv beta in Hc |- *.
  destruct (deref_child s c) as [[a na]|e]; cbn [mbind result_bind] in Hc |- *;
    [|discriminate Hc].
  apply (IH f'); [lia|exact Hc].
Qed.

Lemma fix_module_partition_deps_fuel cls f f' node h h' :
  (f <= f')%nat ->
  fix_module_partition_deps f cls node h = Ok h' ->
  fix_module_partition_deps f' cls node h = Ok h'.
Proof.
  revert f' node h h'. induction f as [|f IH]; intros f' node h h' Hle H; [discriminate H|].
  destruct f' as [|f']; [lia|]. cbn [fix_module_partition_deps] in H |- *.
  destruct (deref h node) as [n|e]; cbn [mbind result_bind] in H |- *; [|discriminate H].
  eapply for_each_mono; [|exact H]. intros c s s' Hc. cbv beta in Hc |- *.
  destruct (fold_partition cls node c s) as [s1|e]; cbn [mbind result_bind] in Hc |- *;
    [|discriminate Hc].
  destruct (deref_child s1 c) as [[a na]|e]; cbn [mbind result_bind] in Hc |- *;
    [|discriminate Hc].
  apply (IH f'); [lia|exact Hc].
Qed.

Lemma build_compile_tree_fuel cls f f' root_node h tree :
  (f <= f')%nat ->
  build_compile_tree f cls root_node h = Ok tree ->
  build_compile_tree f' cls root_node h = Ok tree.
Proof.
  intros Hle H. unfold build_compile_tree in H |- *.
  destruct (clip_redundant f root_node h) as [h1|e] eqn:E; [|discriminate H].
  rewrite (clip_redundant_fuel _ _ _ _ _ Hle E). cbn [mbind result_bind] in H |- *.
  exact (fix_module_partition_deps_fuel _ _ _ _ _ _ Hle H).
Qed.

(** Once the sources of a target are classified and their imports
    resolved, nothing inside Baker stops the build, as long as the limit of
    the recursion is not reached: let each of the later passes, the reduction,
    [collect_modules] under [compile] and [collect_objects] under [link], have
    more depth of calls left than [self.last_node_depth], the depth of the
    graph.  Then there is no missing key, no index out of range, no missing
    attribute and no failed unpacking: the build of the target ends in an
    exception only when a command exits with another status than 0, when
    [getmtime] finds no file, or when an interface or a partition has no
    module name, whose flag cannot be written; and its loop needs no more
    rounds than a number that the sources determine.  (The commands are those
    of a [Toolchain], which gives every command an exit status, and the flags
    are the strings of [Settings]: a program that cannot be started and a flag
    that is no string are not among the cases.) *)
Theorem only_the_outside_stops_a_build classify plain_order fuel sources c root_node g :
  gen_classes classify plain_order sources = Ok c ->
  c_root_node c = Some root_node ->
  build_dependency_tree fuel (c_classes c) root_node (c_heap c) = Ok g ->
  exists rounds0,
    forall tc fuel_reduce fuel_compile fuel_link rounds st target w e,
      (Z.to_nat (last_node_depth g) < fuel_reduce)%nat ->
      (Z.to_nat (last_node_depth g) < fuel_compile)%nat ->
      (Z.to_nat (last_node_depth g) < fuel_link)%nat ->
      make_target_at classify plain_order tc fuel fuel_reduce fuel_compile fuel_link
        rounds st target sources w = Err e ->
      e = CommandFailed \/ e = PyOSError
      \/ (e = PyTypeError
          /\ exists source d, In source sources /\ classify source = Ok d
                              /\ is_module_type (type d) = true /\ module_ d = None)
      \/ (e = Diverges /\ (rounds < rounds0)%nat).
Proof.
  intros Hgen Hroot Hdep.
  destruct (reduction_explored_at _ _ _ (S (Z.to_nat (last_node_depth g))) _ _ _ _
              Hgen Hdep (Nat.lt_succ_diag_r _))
    as (tree & Htree & Hres & Hsh & Hkinds).
  destruct (way_to_the_root _ _ _ _ _ _ _ _ _ Hgen Hdep Htree)
    as (last & r & levels & Hlast & Hr & Hpr & Hw & _).
  exists (S (length (concat levels))).
  intros tc fuel_reduce fuel_compile fuel_link rounds st target w e Hreduce Hcompile Hlink H.
  assert (Hshc : shallow tree fuel_compile root_node)
    by (eapply shallow_mono; [|exact Hsh]; lia).
  assert (Hshl : shallow tree fuel_link root_node)
    by (eapply shallow_mono; [|exact Hsh]; lia).
  assert (Htree' : build_compile_tree fuel_reduce (c_classes c) root_node (g_heap g) = Ok tree)
    by (eapply build_compile_tree_fuel; [|exact Htree]; lia).
  assert (Hout : forall e', from_outside tree e' ->
             e' = CommandFailed \/ e' = PyOSError
             \/ (e' = PyTypeError
                 /\ exists source d, In source sources /\ classify source = Ok d
                                     /\ is_module_type (type d) = true /\ module_ d = None)
             \/ (e' = Diverges /\ (rounds < S (length (concat levels)))%nat)).
  { intros e' [->|[->|[-> Hnameless]]]; [now left|right; now left|].
    right. right. left. split; [reflexivity|]. eapply nameless_source; eassumption. }
  unfold make_target_at in H. rewrite Hgen in H. cbn [mbind result_bind] in H.
  destruct (make_header_units tc st (c_header_units c) w) as [w1|e1] eqn:Hheaders.
  - cbn [mbind result_bind] in H. rewrite Hroot in H. cbn [of_option mbind result_bind] in H.
    rewrite Hdep in H. cbn [mbind result_bind] in H. rewrite Htree' in H.
    cbn [mbind result_bind] in H. rewrite Hlast in H. cbn [of_option mbind result_bind] in H.
    destruct (compile_all rounds tc fuel_compile st root_node last tree w1) as [s|e2] eqn:Hrun.
    + cbn [mbind result_bind] in H. unfold link in H.
      destruct (0 <? s_compiles s)%nat; [|discriminate H].
      destruct (collect_objects_returns st tree fuel_link root_node [] Hres Hshl)
        as [objects Hobj].
      rewrite Hobj in H. cbn [mbind result_bind] in H. unfold run in H.
      destruct (tc _ (fs (s_world s))); [discriminate H|].
      cbn [mbind result_bind] in H. injection H as <-. now left.
    + cbn [mbind result_bind] in H. injection H as <-.
      unfold compile_all in Hrun.
      destruct (walk_up_is_node tree root_node r last levels Hr Hw) as [nl Hl].
      rewrite (deref_lookup tree _ _ Hl) in Hrun. cbn [mbind result_bind] in Hrun.
      destruct (walk_up_siblings root_node tree r Hr Hpr last levels nl Hw Hl)
        as (sib & Hsib & _).
      pose proof Hsib as Hsib0. unfold siblings_of in Hsib0. rewrite Hsib0 in Hrun.
      cbn [mbind result_bind] in Hrun.
      pose proof (on_the_way_arrival tree root_node r last levels nl sib
                    (mkSched last sib (rebuild st) false 0 [] w1)
                    Hr Hpr Hw Hl Hsib eq_refl eq_refl) as Hway.
      destruct (sched_loop_on_the_way tc fuel_compile st root_node tree r Hr Hpr Hres Hshc
                  rounds _ _ _ Hway Hrun) as [Hfrom|Hdiv].
      * now apply Hout.
      * right. right. right. exact Hdiv.
  - cbn [mbind result_bind] in H. injection H as <-.
    apply make_header_units_errors in Hheaders as ->. now left.
Qed.

(** ** Two sources, one object *)

(** [removesuffixes(['.cpp', '.cppm'], path)] takes [.cpp] away and then
    [.cppm], so that a unit [stem.cpp] and an interface [stem.cppm] of the
    same directory, two sources, have one and the same object file [stem.o]:
    the compilation of the one overwrites the object of the other, and each
    is out of date or up to date by the time of that one file. *)
Theorem unit_and_interface_share_an_object st n n' stem :
  filename (data n) = stem +:+ ".cpp" ->
  filename (data n') = stem +:+ ".cppm" ->
  Py.endswith stem ".cppm" = false ->
  target_path st n = Py.join (dir_object st) (stem +:+ ".o")
  /\ target_path st n' = target_path st n
  /\ source_path st n' <> source_path st n.
Proof.
  intros Hn Hn' Hstem.
  assert (E1 : removesuffixes [".cpp"; ".cppm"] (stem +:+ ".cpp") = stem).
  { unfold removesuffixes. cbn [fold_left]. rewrite removesuffix_app by discriminate.
    now apply removesuffix_other. }
  assert (E2 : removesuffixes [".cpp"; ".cppm"] (stem +:+ ".cppm") = stem).
  { unfold removesuffixes. cbn [fold_left]. rewrite (removesuffix_other (stem +:+ ".cppm") ".cpp").
    - now rewrite removesuffix_app by discriminate.
    - rewrite endswith_app by (simpl; lia). reflexivity. }
  assert (Ht : target_path st n = Py.join (dir_object st) (stem +:+ ".o"))
    by (unfold target_path; now rewrite Hn, E1).
  assert (Ht' : target_path st n' = Py.join (dir_object st) (stem +:+ ".o"))
    by (unfold target_path; now rewrite Hn', E2).
  split; [exact Ht|]. split; [congruence|].
  unfold source_path. rewrite Hn, Hn'. intros Heq.
  assert (Hlen : String.length (Py.join (source_dir st) (stem +:+ ".cppm"))
                 = String.length (Py.join (source_dir st) (stem +:+ ".cpp")))
    by now rewrite Heq.
  assert (Hj : forall e, Py.join (source_dir st) (stem +:+ String "." e)
                         = (if Py.startswith stem "/" then "" else joined_dir (source_dir st))
                           +:+ stem +:+ String "." e).
  { intros e. destruct (Py.startswith stem "/") eqn:Es.
    - rewrite join_absolute by now rewrite startswith_app_dot. reflexivity.
    - rewrite join_relative by now rewrite startswith_app_dot. reflexivity. }
  rewrite !Hj, !length_app_string in Hlen. simpl in Hlen. lia.
Qed.

(** ** The graph after the resolution *)

(** When the resolution of a target returns, every import that can be
    reached from the root has become a node; no chain of imports from the
    root is as long as the depth of calls that was allowed; and no node that
    can be reached from the root is on a cycle.  [self.last_node_depth] is
    below the allowed depth too. *)
Theorem resolution_leaves_no_cycle fuel cls root_node h g :
  build_dependency_tree fuel cls root_node h = Ok g ->
  (forall a n, rtc (edge (g_heap g)) root_node a -> g_heap g !! a = Some n ->
               Forall (is_node (g_heap g)) (children n))
  /\ (forall m a, nsteps (edge (g_heap g)) m root_node a -> (m < fuel)%nat)
  /\ (forall a, rtc (edge (g_heap g)) root_node a -> ~ tc (edge (g_heap g)) a a)
  /\ (last_node_depth g < Z.of_nat fuel)%Z.
Proof.
  unfold build_dependency_tree. intros H. inv_ok.
  pose proof (fill_children_explored _ _ _ _ _ _ H) as [_ Hexp].
  destruct (Hexp (g_heap g) (keeps_refl _)) as [[_ Hres] Hsh].
  split; [exact Hres|]. split; [exact Hsh|]. split.
  - intros a Ha Hcyc. apply rtc_nsteps in Ha as [k Hk].
    apply tc_nsteps in Hcyc as (m & Hm & Hsteps).
    pose proof (nsteps_cycle _ _ _ Hsteps fuel) as Hlong.
    specialize (Hsh _ _ (nsteps_trans _ _ _ _ _ Hk Hlong)). nia.
  - destruct (fill_children_last _ _ root_node _ _ _ _ H) as [(last & Hlast & Harr) _].
    { now left. }
    { left. simpl. lia. }
    destruct Harr as [[_ ->]|(d & Hd & Hle)].
    + destruct fuel; [discriminate H|lia].
    + pose proof (recorded_chain _ _ _ _ _ H last) as Rl. rewrite Hd in Rl.
      destruct Rl as (k & p & _ & -> & Hk & He & _).
      assert (Hp1 : nsteps (edge (g_heap g)) (S k) root_node last)
        by (eapply nsteps_r; eassumption).
      specialize (Hsh _ _ Hp1). lia.
Qed.

(** ** Showing a target instead of building it *)

(** On an explored tree [walk] returns, and prints the node it is called
    with first. *)
Lemma walk_returns h fuel :
  forall a depth printed,
    resolved h a -> shallow h fuel a ->
    exists n lines,
      h !! a = Some n
      /\ walk fuel h a depth printed = Ok (printed ++ (depth, a, parent n) :: lines).
Proof.
  induction fuel as [|f IH]; intros a depth printed Hres Hsh.
  - exfalso. specialize (Hsh 0%nat a (nsteps_O _ _)). lia.
  - cbn [walk]. pose proof Hres as [[n Hn] _]. rewrite (deref_lookup h _ _ Hn).
    cbn [mbind result_bind]. exists n.
    assert (Hloop : forall cs out,
               (forall c, In c cs -> In c (children n)) ->
               exists lines,
                 for_each (fun c out => '(a, _) ← deref_child h c; walk f h a (S depth) out)
                          cs out = Ok (out ++ lines)).
    { induction cs as [|c cs IHcs]; intros out Hsub.
      - exists []. simpl. now rewrite app_nil_r.
      - assert (Hin : In c (children n)) by (apply Hsub; now left).
        pose proof Hres as [_ Hall].
        pose proof (Hall a n (rtc_refl _ _) Hn) as Hnodes. rewrite Forall_forall in Hnodes.
        destruct (Hnodes c) as (b & -> & [nb Hb]); [now apply list_elem_of_In|].
        destruct (explored_child h f a n b Hres Hsh Hn Hin) as [Hresb Hshb].
        destruct (IH b (S depth) out Hresb Hshb) as (nb' & lines1 & _ & E1).
        destruct (IHcs (out ++ (S depth, b, parent nb') :: lines1)) as (lines2 & E2).
        { intros c' Hc'. apply Hsub. now right. }
        exists (((S depth, b, parent nb') :: lines1) ++ lines2).
        cbn [for_each deref_child]. rewrite (deref_lookup h _ _ Hb).
        cbn [mbind result_bind]. rewrite E1. cbn [mbind result_bind].
        rewrite E2, <- app_assoc. reflexivity. }
    destruct (Hloop (children n) (printed ++ [(depth, a, parent n)])) as (lines & E); [auto|].
    exists lines. split; [exact Hn|]. rewrite E, <- app_assoc. reflexivity.
Qed.

(** With [deptree] or [tree] on the command line a target is shown instead
    of built: nothing is compiled and nothing is linked, whatever the files
    say; the header units whose interface file is missing are precompiled all
    the same, and these are the only commands.  [deptree] comes first: with
    both given, what is printed is the graph as the resolution left it, and the
    reduction is not even run.  Once the sources are classified and resolved,
    only a failing precompilation can stop the showing; the first line printed
    is the root, at depth 0 and without parent.  With neither argument the
    target is built. *)
Theorem shown_without_building args classify plain_order tc fuel rounds st target sources w
    c root_node g :
  gen_classes classify plain_order sources = Ok c ->
  c_root_node c = Some root_node ->
  build_dependency_tree fuel (c_classes c) root_node (c_heap c) = Ok g ->
  (given args "deptree" || given args "tree" = false ->
   make_target_as args classify plain_order tc fuel rounds st target sources w
   = Built_ <$> make_target classify plain_order tc fuel rounds st target sources w)
  /\ (given args "deptree" || given args "tree" = true ->
      (forall e,
         make_target_as args classify plain_order tc fuel rounds st target sources w = Err e ->
         e = CommandFailed)
      /\ forall m,
           make_target_as args classify plain_order tc fuel rounds st target sources w = Ok m ->
           exists lines w' made shown,
             m = Shown ((0, root_node, None) :: lines)%nat w'
             /\ NoDup made /\ (forall header, In header made -> header ∈ c_header_units c)
             /\ cmds w' = cmds w ++ (precompile_args st <$> made)
             /\ (if given args "deptree" then shown = g_heap g
                 else build_compile_tree fuel (c_classes c) root_node (g_heap g) = Ok shown)
             /\ walk fuel shown root_node 0 [] = Ok ((0, root_node, None) :: lines)%nat).
Proof.
  intros Hgen Hroot Hdep.
  destruct (reduction_explored _ _ _ _ _ _ _ Hgen Hdep) as (tree & Htree & Hres & Hsh & _).
  destruct (way_to_the_root _ _ _ _ _ _ _ _ _ Hgen Hdep Htree)
    as (last & r & levels & _ & Hr & Hpr & _).
  assert (Hgraph : resolved (g_heap g) root_node /\ shallow (g_heap g) fuel root_node
                   /\ exists r0, g_heap g !! root_node = Some r0 /\ parent r0 = None).
  { pose proof Hdep as Hdep0. unfold build_dependency_tree in Hdep0. inv_ok.
    pose proof (fill_children_explored _ _ _ _ _ _ Hdep0) as [_ Hexp].
    destruct (Hexp (g_heap g) (keeps_refl _)) as [Hres0 Hsh0].
    split; [exact Hres0|]. split; [exact Hsh0|].
    unfold build_compile_tree in Htree. inv_ok.
    destruct (clip_redundant_retains _ _ _ _ Hx1) as [Hc _].
    pose proof (fix_module_partition_deps_changes _ _ _ _ _ Htree) as [F _].
    destruct (frame_lookup _ _ _ _ (frame_sym _ _ F) Hr) as (r1 & Hr1 & Hp1 & _).
    pose proof (Hc root_node) as Hcr. rewrite Hr1 in Hcr.
    destruct (g_heap g !! root_node) as [r0|]; [|contradiction].
    exists r0. split; [reflexivity|]. destruct Hcr as (Hp0 & _). congruence. }
  destruct Hgraph as (Hres0 & Hsh0 & r0 & Hr0 & Hpr0).
  unfold make_target_as, make_target. rewrite Hgen. cbn [mbind result_bind].
  split.
  - intros Hnone. apply orb_false_elim in Hnone as [-> ->].
    destruct (make_header_units tc st (c_header_units c) w) as [w1|e]; [|reflexivity].
    cbn [mbind result_bind]. rewrite Hroot. cbn [of_option mbind result_bind].
    rewrite Hdep. cbn [mbind result_bind]. rewrite Htree. cbn [mbind result_bind].
    destruct (last_node g) as [l|]; [|reflexivity]. cbn [of_option mbind result_bind].
    destruct (compile_all rounds tc fuel st root_node l tree w1) as [s|e]; [|reflexivity].
    cbn [mbind result_bind].
    destruct (link tc fuel st root_node tree (s_compiles s) target (s_world s));
      reflexivity.
  - intros Hsome.
    destruct (walk_returns (g_heap g) fuel root_node 0 [] Hres0 Hsh0)
      as (r0' & lines0 & Hr0' & Hwalk0).
    rewrite Hr0 in Hr0'. injection Hr0' as <-. rewrite Hpr0 in Hwalk0. cbn [app] in Hwalk0.
    destruct (walk_returns tree fuel root_node 0 [] Hres Hsh) as (r' & lines & Hr' & Hwalk).
    rewrite Hr in Hr'. injection Hr' as <-. rewrite Hpr in Hwalk. cbn [app] in Hwalk.
    destruct (make_header_units tc st (c_header_units c) w) as [w1|e1] eqn:Hheaders.
    + cbn [mbind result_bind]. rewrite Hroot. cbn [of_option mbind result_bind].
      rewrite Hdep. cbn [mbind result_bind].
      unfold make_header_units in Hheaders.
      destruct (header_units_loop tc st (elements (c_header_units c)) w) as (_ & Hmade & _).
      destruct (Hmade w1 Hheaders) as (made & Hsubm & Hcmds1).
      pose proof (sublist_NoDup _ _ (NoDup_elements (c_header_units c)) Hsubm) as Hnd.
      assert (Hin : forall header, In header made -> header ∈ c_header_units c).
      { intros header Hh. apply elem_of_elements.
        eapply elem_of_sublist; [|exact Hsubm]. apply list_elem_of_In. exact Hh. }
      destruct (given args "deptree").
      * rewrite Hwalk0. cbn [mbind result_bind]. split; [discriminate|].
        intros m [= <-]. exists lines0, w1, made, (g_heap g). auto 10.
      * rewrite Htree. cbn [mbind result_bind]. cbn [orb] in Hsome. rewrite Hsome.
        rewrite Hwalk. cbn [mbind result_bind]. split; [discriminate|].
        intros m [= <-]. exists lines, w1, made, tree. auto 10.
    + cbn [mbind result_bind]. split; [|discriminate].
      intros e [= <-]. eapply make_header_units_errors. exact Hheaders.
Qed.

(** ** The imports, resolved where they stand *)

Lemma resolve_is_ref cls m c c' : resolve cls m c = Ok c' -> is_ref c'.
Proof.
  destruct c as [s|a]; [|intros [= <-]; exact I]. unfold resolve.
  destruct (cls_module cls !! Some s); [intros [= <-]; exact I|].
  destruct (cls_module_partition cls !! Some s).
  - intros H. inv_ok. destruct (negb _); [discriminate H|]. injection H as <-. exact I.
  - destruct s as [|c0 rest]; [discriminate|].
    destruct (Ascii.eqb c0 "%").
    + destruct (Py.split "," rest) as [|x [|y [|z l]]]; try discriminate.
      intros H. inv_ok. subst. exact I.
    + destruct (Ascii.eqb c0 "@"); [|discriminate].
      intros H. inv_ok. subst. exact I.
Qed.

Lemma mapM_resolve_is_ref cls m cs cs' :
  mapM (resolve cls m) cs = Ok cs' -> Forall is_ref cs'.
Proof.
  revert cs'. induction cs as [|c cs IH]; intros cs' H.
  - injection H as <-. constructor.
  - rewrite mapM_cons in H. inv_ok. subst. constructor; [|now apply IH].
    eapply resolve_is_ref. eassumption.
Qed.

Lemma resolves_refl cls h : resolves cls h h.
Proof. intros a n Hn. exists n. auto. Qed.

Lemma resolves_set_parent cls h0 h a n p :
  resolves cls h0 h -> h !! a = Some n -> resolves cls h0 (<[a := set_parent p n]> h).
Proof.
  intros Hr Hn b n0 Hb. destruct (Hr b n0 Hb) as (nb & Hnb & Hd & Hc).
  destruct (decide (a = b)) as [->|Hne].
  - rewrite lookup_insert_eq. rewrite Hn in Hnb. injection Hnb as <-. eauto.
  - rewrite lookup_insert_ne by done. eauto.
Qed.

Lemma resolves_set_children cls h0 h a n cs :
  resolves cls h0 h -> h !! a = Some n ->
  mapM (resolve cls (module_ (data n))) (children n) = Ok cs ->
  resolves cls h0 (<[a := set_children cs n]> h).
Proof.
  intros Hr Hn Hcs b n0 Hb. destruct (Hr b n0 Hb) as (nb & Hnb & Hd & Hc).
  destruct (decide (a = b)) as [->|Hne].
  - rewrite lookup_insert_eq. rewrite Hn in Hnb. injection Hnb as <-.
    exists (set_children cs n). split; [reflexivity|]. split; [exact Hd|]. right.
    cbn [set_children children]. rewrite Hd in Hcs. destruct Hc as [Hc|Hc].
    + now rewrite <- Hc.
    + pose proof (mapM_resolve_is_ref _ _ _ _ Hc) as Hrefs.
      rewrite (mapM_resolve_refs _ _ _ Hrefs) in Hcs. injection Hcs as <-. exact Hc.
  - rewrite lookup_insert_ne by done. eauto.
Qed.

Lemma reach_resolves cls h0 node depth c g a g' :
  resolves cls h0 (g_heap g) -> reach node depth c g = Ok (a, g') ->
  resolves cls h0 (g_heap g').
Proof.
  unfold reach. intros Hg H.
  destruct (deref_child (g_heap g) c) as [[b nb]|e] eqn:Ec; simpl in H; [|discriminate].
  assert (Hb : g_heap g !! b = Some nb).
  { destruct c as [s|b']; simpl in Ec; [discriminate|]. unfold deref in Ec. inv_ok.
    now simplify_eq. }
  destruct (deeper (node_depth g) b depth); injection H as <- <-; [|exact Hg].
  cbn [g_heap]. now apply resolves_set_parent.
Qed.

Lemma fill_children_resolves fuel cls h0 :
  forall node depth g g',
    resolves cls h0 (g_heap g) -> fill_children fuel cls node depth g = Ok g' ->
    resolves cls h0 (g_heap g').
Proof.
  induction fuel as [|f IH]; intros node depth g g' Hg H; [discriminate|].
  rewrite fill_children_S in H. cbv zeta in H. inv_ok. unfold deref in Hx. inv_ok.
  assert (Hh : g_heap (if (last_node_depth g <? depth)%Z
                       then mkGraph (g_heap g) (node_depth g) depth (Some node) (g_reached g)
                       else g) = g_heap g)
    by (destruct (last_node_depth g <? depth)%Z; reflexivity).
  rewrite Hh in Hx.
  match goal with
  | H : for_each _ ?cs ?g1 = Ok g' |- _ =>
      assert (Hg1 : resolves cls h0 (g_heap g1)); [|revert Hg1 H; generalize g1; generalize cs]
  end.
  { cbn [g_heap]. rewrite Hh. now apply resolves_set_children. }
  intros cs. induction cs as [|c cs IHcs]; intros g1 Hg1 H; simpl in H.
  - inv_ok. now subst.
  - inv_ok. eapply IHcs; [|exact H]. eapply IH; [|eassumption].
    eapply reach_resolves; eassumption.
Qed.

(** The resolution replaces imports where they stand.  Let [h2] be the
    nodes after [attach_plain_sources] and [attach_module_impls].  Every node
    that the root reaches in the resolved graph has the data it had, and its
    children are the resolutions of the children it had in [h2], one for one
    and in their order: the first loop of [fill_children] neither adds nor
    drops nor reorders a child. *)
Theorem imports_resolved_in_place fuel cls root_node h g :
  build_dependency_tree fuel cls root_node h = Ok g ->
  exists h1 h2,
    attach_plain_sources cls root_node h = Ok h1
    /\ attach_module_impls cls root_node h1 = Ok h2
    /\ forall a n, rtc (edge (g_heap g)) root_node a -> g_heap g !! a = Some n ->
         exists n0,
           h2 !! a = Some n0 /\ data n = data n0
           /\ mapM (resolve cls (module_ (data n0))) (children n0) = Ok (children n)
           /\ length (children n) = length (children n0).
Proof.
  unfold build_dependency_tree. intros H. inv_ok. rename x into h1, x0 into h2.
  exists h1, h2. split; [exact Hx|]. split; [exact Hx0|].
  pose proof (fill_children_resolves fuel cls h2 root_node 0 (mkGraph h2 ∅ (-1) None []) g
                (resolves_refl cls h2) H) as Hres.
  pose proof (fill_children_explored _ _ _ _ _ _ H) as [Hkeeps Hexp].
  destruct (Hexp (g_heap g) (keeps_refl _)) as [[_ Hnodes] _].
  intros a n Ha Hn.
  assert (Hin2 : is_Some (h2 !! a)).
  { pose proof (fill_children_same_kinds _ _ _ _ _ _ H a) as Hk. cbn [g_heap] in Hk.
    rewrite Hn in Hk. destruct (h2 !! a); [eauto|discriminate Hk]. }
  destruct Hin2 as [n0 Hn0]. destruct (Hres a n0 Hn0) as (n' & Hn' & Hd & Hc).
  rewrite Hn in Hn'. injection Hn' as <-.
  assert (Hm : mapM (resolve cls (module_ (data n0))) (children n0) = Ok (children n)).
  { destruct Hc as [Hc|Hc]; [|exact Hc]. rewrite <- Hc. apply mapM_resolve_refs.
    eapply Forall_impl; [exact (Hnodes a n Ha Hn)|]. intros c (d & -> & _). exact I. }
  exists n0. split; [exact Hn0|]. split; [exact Hd|]. split; [exact Hm|].
  clear -Hm. revert Hm. generalize (children n) as cs'. generalize (children n0) as cs.
  induction cs as [|c cs IH]; intros cs' Hm.
  - injection Hm as <-. reflexivity.
  - rewrite mapM_cons in Hm. inv_ok. subst. simpl. f_equal. now apply IH.
Qed.

(** ** What the clip keeps *)

Lemma filter_delete_stale {A} (P : A -> Prop) `{forall x, Decision (P x)} (l : list A) i c :
  l !! i = Some c -> ~ P c -> filter P (delete i l) = filter P l.
Proof.
  revert i. induction l as [|x l IH]; intros i Hi Hc; [discriminate Hi|].
  destruct i as [|i]; simpl in *.
  - injection Hi as ->. now rewrite filter_cons_False.
  - rewrite !filter_cons, (IH i Hi Hc). reflexivity.
Qed.

Lemma keeps_owned_refl h : keeps_owned h h.
Proof. intros a n n' Hn Hn'. congruence. Qed.

Lemma keeps_owned_trans h1 h2 h3 :
  clips h1 h2 -> keeps_owned h1 h2 -> keeps_owned h2 h3 -> keeps_owned h1 h3.
Proof.
  intros Hc H12 H23 a n1 n3 Hn1 Hn3.
  destruct (clips_parent _ _ _ _ Hc Hn1) as (n2 & Hn2 & _).
  rewrite <- (H12 a n1 n2 Hn1 Hn2).
  rewrite (filter_iff_in (owned h1 a) (owned h2 a) (children n3)),
          (filter_iff_in (owned h1 a) (owned h2 a) (children n2)).
  - now apply H23.
  - intros c _. split; [now apply clips_owned|now apply clips_owned_inv].
  - intros c _. split; [now apply clips_owned|now apply clips_owned_inv].
Qed.

Lemma keeps_owned_delete h node n i c :
  h !! node = Some n -> children n !! i = Some c -> ~ owned h node c ->
  keeps_owned h (<[node := set_children (delete i (children n)) n]> h).
Proof.
  intros Hn Hi Hnot a na na' Hna Hna'.
  destruct (decide (node = a)) as [<-|Hne].
  - rewrite lookup_insert_eq in Hna'. injection Hna' as <-. rewrite Hn in Hna.
    injection Hna as <-. simpl. eapply filter_delete_stale; eassumption.
  - rewrite lookup_insert_ne in Hna' by done. congruence.
Qed.

Lemma clip_loop_keeps_owned rounds node h h' :
  clip_loop rounds node h = Ok h' -> clips h h' /\ keeps_owned h h'.
Proof.
  revert h. induction rounds as [|r IH]; intros h H; [discriminate|].
  simpl in H. inv_ok. unfold deref in Hx. inv_ok. destruct x0 as [i|].
  - destruct (first_stale_Some _ _ _ _ Hx0) as [_ Hnot].
    destruct (first_stale_Some_stale _ _ _ _ Hx0) as (c & Hc & Hstale).
    destruct (IH _ H) as [Hc' Hr'].
    pose proof (clips_delete h node x i Hx Hnot) as Hc1.
    split; [eapply clips_trans; eassumption|].
    eapply keeps_owned_trans; [exact Hc1| |exact Hr']. eapply keeps_owned_delete; eassumption.
  - inv_ok. subst. split; [apply clips_refl|apply keeps_owned_refl].
Qed.

Lemma clip_redundant_keeps_owned fuel node h h' :
  clip_redundant fuel node h = Ok h' -> clips h h' /\ keeps_owned h h'.
Proof.
  revert node h h'. induction fuel as [|f IH]; intros node h h' H; [discriminate|].
  rewrite clip_redundant_S in H. inv_ok.
  destruct (clip_loop_keeps_owned _ _ _ _ Hx0) as [Hc1 Hr1].
  assert (Hloop : clips x0 h' /\ keeps_owned x0 h').
  { clear Hx1 Hc1 Hr1 Hx0 Hx. revert x0 H. generalize (children x1) as cs.
    induction cs as [|c cs IHcs]; intros h0 H; simpl in H.
    - inv_ok. subst. split; [apply clips_refl|apply keeps_owned_refl].
    - inv_ok.
      match goal with
      | Hr : clip_redundant f _ h0 = Ok _ |- _ => destruct (IH _ _ _ Hr) as [Hc Hr']
      end.
      destruct (IHcs _ H) as [Hc' Hr''].
      split; [eapply clips_trans; eassumption|eapply keeps_owned_trans; eassumption]. }
  destruct Hloop as [Hc2 Hr2].
  split; [eapply clips_trans; eassumption|eapply keeps_owned_trans; eassumption].
Qed.

(** What [clip_redundant] makes of the children of a node.  Every node that
    the root reaches in the clipped tree has its parent and its data as
    before, and for children exactly those of its children before that have it
    as their parent, each as often as it stood there and in the same order:
    the clip deletes every child held by a node that is not its parent, and
    no other. *)
Theorem clip_keeps_exactly_the_owned fuel root_node h h' :
  clip_redundant fuel root_node h = Ok h' ->
  forall a n', rtc (edge h') root_node a -> h' !! a = Some n' ->
    exists n, h !! a = Some n /\ parent n' = parent n /\ data n' = data n
              /\ children n' = filter (owned h a) (children n).
Proof.
  intros H a n' Ha Hn'.
  destruct (clip_redundant_keeps_owned _ _ _ _ H) as [Hc Hk].
  destruct (clip_redundant_clean _ _ _ _ H) as [_ Hclean].
  pose proof (Hc a) as Hca. rewrite Hn' in Hca.
  destruct (h !! a) as [n|] eqn:Hn; [|contradiction].
  destruct Hca as (Hp & Hd & _ & _).
  exists n. split; [reflexivity|]. split; [exact Hp|]. split; [exact Hd|].
  rewrite <- (Hk a n n' Hn Hn'). symmetry.
  pose proof (Hclean a Ha n' Hn') as Hall.
  clear -Hall Hc. induction Hall as [|c cs Hown _ IH]; [reflexivity|].
  rewrite filter_cons_True by (eapply clips_owned_inv; eassumption). now rewrite IH.
Qed.

(** ** C4: the tree after the clip, node by node *)

Lemma filter_filter_all {A} (P Q : A -> Prop)
    `{forall x, Decision (P x)} `{forall x, Decision (Q x)} (l : list A) :
  (forall x, Q x -> P x) -> filter Q (filter P l) = filter Q l.
Proof.
  intros HQP. induction l as [|x l IH]; [reflexivity|].
  destruct (decide (P x)) as [HP|HP].
  - rewrite (filter_cons_True P) by exact HP.
    destruct (decide (Q x)) as [HQ|HQ].
    + rewrite !(filter_cons_True Q) by exact HQ. now rewrite IH.
    + rewrite !(filter_cons_False Q) by exact HQ. exact IH.
  - rewrite (filter_cons_False P) by exact HP.
    rewrite (filter_cons_False Q) by (intros HQ; apply HP, HQP, HQ). exact IH.
Qed.

Lemma filter_filter_none {A} (P Q : A -> Prop)
    `{forall x, Decision (P x)} `{forall x, Decision (Q x)} (l : list A) :
  (forall x, Q x -> ~ P x) -> filter Q (filter P l) = [].
Proof.
  intros HQP. induction l as [|x l IH]; [reflexivity|].
  destruct (decide (P x)) as [HP|HP].
  - rewrite (filter_cons_True P) by exact HP.
    rewrite (filter_cons_False Q) by (intros HQ; exact (HQP x HQ HP)). exact IH.
  - rewrite (filter_cons_False P) by exact HP. exact IH.
Qed.

(** The children of a node of the clipped tree: those of its children before
    that have it as their parent. *)
Lemma clipped_children fuel root_node h h' :
  clip_redundant fuel root_node h = Ok h' ->
  forall a n', rtc (edge h') root_node a -> h' !! a = Some n' ->
    exists n, h !! a = Some n /\ children n' = filter (owned h a) (children n).
Proof.
  intros H a n' Ha Hn'.
  destruct (clip_redundant_keeps_owned _ _ _ _ H) as [Hc Hk].
  destruct (clip_redundant_clean _ _ _ _ H) as [_ Hclean].
  pose proof (Hc a) as Hca. rewrite Hn' in Hca.
  destruct (h !! a) as [n|] eqn:Hn; [|contradiction].
  exists n. split; [reflexivity|].
  rewrite <- (Hk a n n' Hn Hn'). symmetry.
  pose proof (Hclean a Ha n' Hn') as Hall.
  clear -Hall Hc. induction Hall as [|c cs Hown _ IH]; [reflexivity|].
  rewrite filter_cons_True by (eapply clips_owned_inv; eassumption). now rewrite IH.
Qed.

(** How often a node stands among the children of a node of the clipped tree:
    as often as before under its parent, and not at all elsewhere. *)
Lemma clipped_held fuel root_node h h' :
  clip_redundant fuel root_node h = Ok h' ->
  forall a na x nx nx',
    rtc (edge h') root_node x ->
    h !! a = Some na -> h !! x = Some nx -> h' !! x = Some nx' ->
    held a (children nx')
    = if decide (parent na = Some x) then held a (children nx) else 0%nat.
Proof.
  intros H a na x nx nx' Hx Ha Hnx Hnx'.
  destruct (clipped_children _ _ _ _ H x nx' Hx Hnx') as (n & Hn & Hcs).
  assert (n = nx) as -> by congruence.
  unfold held. rewrite Hcs. destruct (decide (parent na = Some x)) as [Hp|Hp].
  - rewrite filter_filter_all; [reflexivity|].
    intros c ->. exists a, na. auto.
  - rewrite filter_filter_none; [reflexivity|].
    intros c -> (b & nb & [= <-] & Hb & Hpb). congruence.
Qed.

(** Every node that the resolution has recorded a depth of is in the clipped
    tree. *)
Lemma recorded_stays fuel0 fuel cls root_node h g h1 :
  fill_children fuel0 cls root_node 0 (mkGraph h ∅ (-1) None []) = Ok g ->
  clip_redundant fuel root_node (g_heap g) = Ok h1 ->
  forall k x, node_depth g !! x = Some (Z.of_nat k) -> rtc (edge h1) root_node x.
Proof.
  intros Hfill Hclip.
  pose proof (recorded_chain _ _ _ _ _ Hfill) as Hrec.
  destruct (clip_redundant_retains _ _ _ _ Hclip) as [Hc Hret].
  induction k as [k IH] using lt_wf_ind. intros x Hx.
  pose proof (Hrec x) as Rx. rewrite Hx in Rx.
  destruct Rx as (k' & p & n & Hd & Hk & He & Hmax & Hn & Hp).
  apply Nat2Z.inj in Hd. subst k'.
  assert (Hrp : rtc (edge h1) root_node p).
  { destruct k as [|k0].
    - inversion Hk; subst. constructor.
    - pose proof Hk as Hk0. apply nsteps_inv_r in Hk0 as (q & Hq & Hqp).
      pose proof (Hrec p) as Rp. destruct (node_depth g !! p) as [dp|] eqn:Edp.
      + destruct Rp as (kp & pp & np & -> & Hkp & Hep & Hmaxp & _).
        assert (kp = k0) as ->.
        { pose proof (Hmaxp k0 q Hq Hqp).
          assert (Hp1 : nsteps (edge (g_heap g)) (S kp) root_node p)
            by (eapply nsteps_r; eassumption).
          pose proof (Hmax (S kp) p Hp1 He). lia. }
        apply (IH k0); [lia|exact Edp].
      + exfalso. exact (Rp k0 q Hq Hqp). }
  destruct He as (pn & Hpn & Hin).
  destruct (clips_parent _ _ _ _ Hc Hpn) as (pn1 & Hpn1 & _).
  eapply rtc_r; [exact Hrp|]. exists pn1. split; [exact Hpn1|].
  apply (Hret p pn pn1 (NodeRef x) Hpn Hpn1 Hin). exists x, n. auto.
Qed.

(** Every node that the root reaches in the graph of the resolution is in the
    clipped tree. *)
Lemma reached_stays fuel0 fuel cls root_node h0 g h1 :
  build_dependency_tree fuel0 cls root_node h0 = Ok g ->
  clip_redundant fuel root_node (g_heap g) = Ok h1 ->
  forall a, rtc (edge (g_heap g)) root_node a -> rtc (edge h1) root_node a.
Proof.
  intros Hdep Hclip a Ha.
  unfold build_dependency_tree in Hdep. inv_ok.
  apply rtc_nsteps_1 in Ha as [m Hm]. destruct m as [|m].
  - inversion Hm; subst. constructor.
  - apply nsteps_inv_r in Hm as (q & Hq & Hqa).
    pose proof (recorded_chain _ _ _ _ _ Hdep a) as Ra.
    destruct (node_depth g !! a) as [d|] eqn:Ed.
    + destruct Ra as (k & _ & _ & -> & _).
      exact (recorded_stays _ _ _ _ _ _ _ Hdep Hclip k a Ed).
    + exfalso. exact (Ra m q Hq Hqa).
Qed.

(** In a tree whose nodes own their children, two nodes that reach the same
    node are one below the other. *)
Lemma one_below_the_other h root_node :
  (forall a, rtc (edge h) root_node a -> clean h a) ->
  forall c a, rtc (edge h) root_node c -> rtc (edge h) c a ->
  forall c', rtc (edge h) root_node c' -> rtc (edge h) c' a ->
             rtc (edge h) c c' \/ rtc (edge h) c' c.
Proof.
  intros Hclean c a Hc Ha. revert a Ha.
  apply (rtc_ind_r (fun a => forall c', rtc (edge h) root_node c' -> rtc (edge h) c' a ->
                                        rtc (edge h) c c' \/ rtc (edge h) c' c)).
  - intros c' _ Hc'. now right.
  - intros y z Hy Hyz IH c' Hrc' Hc'. apply rtc_inv_r in Hc' as [->|(y' & Hy' & Hy'z)].
    + left. eapply rtc_r; eassumption.
    + assert (Hry : rtc (edge h) root_node y) by (etrans; [exact Hc|exact Hy]).
      assert (Hry' : rtc (edge h) root_node y') by (etrans; [exact Hrc'|exact Hy']).
      destruct (clean_edge h y z (Hclean y Hry) Hyz) as (nz & Hnz & Hpz).
      destruct (clean_edge h y' z (Hclean y' Hry') Hy'z) as (nz' & Hnz' & Hpz').
      assert (y' = y) as -> by congruence.
      apply IH; assumption.
Qed.

(** Of the children of a node of such a tree, one at most reaches a given
    node. *)
Lemma one_child_above h root_node x b1 b2 a :
  (forall a, rtc (edge h) root_node a -> clean h a) ->
  (forall a, rtc (edge h) root_node a -> ~ tc (edge h) a a) ->
  rtc (edge h) root_node x ->
  edge h x b1 -> edge h x b2 -> rtc (edge h) b1 a -> rtc (edge h) b2 a -> b1 = b2.
Proof.
  intros Hclean Hacyc Hx H1 H2 Ha1 Ha2.
  assert (Hr1 : rtc (edge h) root_node b1) by (eapply rtc_r; [exact Hx|exact H1]).
  assert (Hr2 : rtc (edge h) root_node b2) by (eapply rtc_r; [exact Hx|exact H2]).
  assert (Hbelow : forall c c', edge h x c -> edge h x c' -> rtc (edge h) root_node c ->
                                rtc (edge h) c c' -> c = c').
  { intros c c' Hc Hc' Hrc Hcc'. apply rtc_inv_r in Hcc' as [->|(y & Hy & Hyc')]; [reflexivity|].
    assert (Hry : rtc (edge h) root_node y) by (etrans; [exact Hrc|exact Hy]).
    destruct (clean_edge h y c' (Hclean y Hry) Hyc') as (n & Hn & Hp).
    destruct (clean_edge h x c' (Hclean x Hx) Hc') as (n' & Hn' & Hp').
    assert (y = x) as -> by congruence.
    exfalso. apply (Hacyc x Hx). eapply tc_rtc_r; [apply tc_once; exact Hc|exact Hy]. }
  destruct (one_below_the_other h root_node Hclean b1 a Hr1 Ha1 b2 Hr2 Ha2) as [H|H].
  - exact (Hbelow b1 b2 H1 H2 Hr1 H).
  - symmetry. exact (Hbelow b2 b1 H2 H1 Hr2 H).
Qed.

Lemma lines_of_app a out lines : lines_of a (out ++ lines) = (lines_of a out + lines_of a lines)%nat.
Proof. unfold lines_of. now rewrite filter_app, length_app. Qed.

(** A round of the loop of [walk]. *)
Lemma walk_round h f depth c cs out printed :
  for_each (fun c out => '(a, _) ← deref_child h c; walk f h a (S depth) out)
           (c :: cs) out = Ok printed ->
  exists b nb out2,
    c = NodeRef b /\ h !! b = Some nb
    /\ walk f h b (S depth) out = Ok out2
    /\ for_each (fun c out => '(a, _) ← deref_child h c; walk f h a (S depth) out)
                cs out2 = Ok printed.
Proof.
  intros H. simpl in H. apply bind_Ok in H as (out2 & Hbody & Hrest).
  apply bind_Ok in Hbody as ([b nb] & Hc & Hwalk).
  destruct c as [s|b']; [discriminate|]. simpl in Hc.
  apply bind_Ok in Hc as (nb' & Hnb & [= <- <-]). apply of_option_Ok in Hnb.
  exists b', nb', out2. auto.
Qed.

(** [walk] prints no line of a node that the node it starts at does not
    reach. *)
Lemma walk_lines_none h a fuel :
  forall x depth out printed,
    ~ rtc (edge h) x a -> walk fuel h x depth out = Ok printed ->
    lines_of a printed = lines_of a out.
Proof.
  induction fuel as [|f IH]; intros x depth out printed Hx H; [discriminate|].
  cbn [walk] in H. inv_ok. rename x0 into n. unfold deref in Hx0. inv_ok.
  assert (Hloop : forall cs out1 printed1,
             (forall c, In c cs -> In c (children n)) ->
             for_each (fun c out => '(a, _) ← deref_child h c; walk f h a (S depth) out)
                      cs out1 = Ok printed1 ->
             lines_of a printed1 = lines_of a out1).
  { induction cs as [|c cs IHcs]; intros out1 printed1 Hsub Hfor.
    - now injection Hfor as ->.
    - apply walk_round in Hfor as (b & nb & out2 & -> & Hnb & Hwalk & Hfor).
      rewrite (IHcs _ _ (fun c Hc => Hsub c (or_intror Hc)) Hfor).
      eapply IH; [|exact Hwalk]. intros Hb. apply Hx. eapply rtc_l; [|exact Hb].
      exists n. split; [exact Hx0|]. apply Hsub. now left. }
  rewrite (Hloop _ _ _ (fun c Hc => Hc) H), lines_of_app.
  unfold lines_of at 2. cbn [filter list_filter].
  rewrite decide_False; [simpl; lia|]. simpl. intros ->. apply Hx. constructor.
Qed.

(** [walk] prints a line at least of every node that the node it starts at
    reaches. *)
Lemma walk_lines_some h a fuel :
  forall x depth out printed,
    walk fuel h x depth out = Ok printed ->
    (lines_of a out <= lines_of a printed)%nat
    /\ (rtc (edge h) x a -> (lines_of a out + 1 <= lines_of a printed)%nat).
Proof.
  induction fuel as [|f IH]; intros x depth out printed H; [discriminate|].
  cbn [walk] in H. inv_ok. rename x0 into n. unfold deref in Hx. inv_ok.
  assert (Hloop : forall cs out1 printed1,
             for_each (fun c out => '(a, _) ← deref_child h c; walk f h a (S depth) out)
                      cs out1 = Ok printed1 ->
             (lines_of a out1 <= lines_of a printed1)%nat
             /\ (forall b, In (NodeRef b) cs -> rtc (edge h) b a ->
                           (lines_of a out1 + 1 <= lines_of a printed1)%nat)).
  { induction cs as [|c cs IHcs]; intros out1 printed1 Hfor.
    - injection Hfor as ->. split; [lia|]. intros b [].
    - apply walk_round in Hfor as (b & nb & out2 & -> & Hnb & Hwalk & Hfor).
      destruct (IH _ _ _ _ Hwalk) as [Hle Hb]. destruct (IHcs _ _ Hfor) as [Hle' Hcs].
      split; [lia|]. intros b0 [[= <-]|Hin] Hb0.
      + specialize (Hb Hb0). lia.
      + specialize (Hcs b0 Hin Hb0). lia. }
  destruct (Hloop _ _ _ H) as [Hle Hcs]. rewrite lines_of_app in Hle, Hcs.
  split; [lia|]. intros Ha. apply rtc_inv in Ha as [<-|(b & (n' & Hn' & Hin) & Hb)].
  - unfold lines_of at 2 in Hle. cbn [filter list_filter] in Hle.
    rewrite decide_True in Hle by reflexivity. simpl in Hle. lia.
  - assert (n' = n) as -> by congruence. specialize (Hcs b Hin Hb). lia.
Qed.

(** In a tree whose nodes own their children and list none twice, [walk]
    prints one line of every node that the node it starts at reaches. *)
Lemma walk_lines_once h root_node a fuel :
  (forall a, rtc (edge h) root_node a -> clean h a) ->
  (forall a, rtc (edge h) root_node a -> ~ tc (edge h) a a) ->
  no_repeat h root_node ->
  forall x depth out printed,
    rtc (edge h) root_node x -> rtc (edge h) x a ->
    walk fuel h x depth out = Ok printed ->
    lines_of a printed = (lines_of a out + 1)%nat.
Proof.
  intros Hclean Hacyc Hrep.
  induction fuel as [|f IH]; intros x depth out printed Hrx Hxa H; [discriminate|].
  cbn [walk] in H. inv_ok. rename x0 into n. unfold deref in Hx. inv_ok.
  assert (Hnone : forall cs out1 printed1,
             (forall c, In c cs -> In c (children n)) ->
             (forall b, In (NodeRef b) cs -> ~ rtc (edge h) b a) ->
             for_each (fun c out => '(a, _) ← deref_child h c; walk f h a (S depth) out)
                      cs out1 = Ok printed1 ->
             lines_of a printed1 = lines_of a out1).
  { induction cs as [|c cs IHcs]; intros out1 printed1 Hsub Hno Hfor.
    - now injection Hfor as ->.
    - apply walk_round in Hfor as (b & nb & out2 & -> & Hnb & Hwalk & Hfor).
      rewrite (IHcs _ _ (fun c Hc => Hsub c (or_intror Hc))
                 (fun b0 Hb0 => Hno b0 (or_intror Hb0)) Hfor).
      eapply walk_lines_none; [|exact Hwalk]. apply Hno. now left. }
  assert (Hone : forall cs out1 printed1 b0,
             (forall c, In c cs -> In c (children n)) -> NoDup cs ->
             In (NodeRef b0) cs -> rtc (edge h) b0 a ->
             for_each (fun c out => '(a, _) ← deref_child h c; walk f h a (S depth) out)
                      cs out1 = Ok printed1 ->
             lines_of a printed1 = (lines_of a out1 + 1)%nat).
  { induction cs as [|c cs IHcs]; intros out1 printed1 b0 Hsub Hnd Hin Hb0 Hfor; [destruct Hin|].
    apply walk_round in Hfor as (b & nb & out2 & -> & Hnb & Hwalk & Hfor).
    apply NoDup_cons in Hnd as [Hnotin Hnd].
    assert (Hxb : edge h x b) by (exists n; split; [exact Hx|apply Hsub; now left]).
    destruct Hin as [[= <-]|Hin].
    - rewrite (Hnone cs _ _ (fun c Hc => Hsub c (or_intror Hc))) with (2 := Hfor).
      + apply (IH b (S depth) out1 out2); [eapply rtc_r; [exact Hrx|exact Hxb]|exact Hb0|exact Hwalk].
      + intros b1 Hb1 Hreach. apply Hnotin.
        assert (Hxb1 : edge h x b1) by (exists n; split; [exact Hx|apply Hsub; now right]).
        rewrite (one_child_above h root_node x b b1 a Hclean Hacyc Hrx Hxb Hxb1 Hb0 Hreach).
        now apply list_elem_of_In.
    - rewrite (IHcs _ _ b0 (fun c Hc => Hsub c (or_intror Hc)) Hnd Hin Hb0 Hfor).
      f_equal. eapply walk_lines_none; [|exact Hwalk]. intros Hb. apply Hnotin.
      assert (Hxb0 : edge h x b0) by (exists n; split; [exact Hx|apply Hsub; now right]).
      rewrite (one_child_above h root_node x b b0 a Hclean Hacyc Hrx Hxb Hxb0 Hb Hb0).
      now apply list_elem_of_In. }
  destruct (decide (x = a)) as [->|Hne].
  - rewrite (Hnone _ _ _ (fun c Hc => Hc)) with (2 := H).
    + rewrite lines_of_app. unfold lines_of at 2. cbn [filter list_filter].
      rewrite decide_True by reflexivity. reflexivity.
    + intros b Hb Hba. apply (Hacyc a Hrx).
      eapply tc_rtc_r; [apply tc_once; exists n; split; [exact Hx|exact Hb]|exact Hba].
  - apply rtc_inv in Hxa as [->|(b & (n' & Hn' & Hin) & Hb)]; [contradiction|].
    assert (n' = n) as -> by congruence.
    rewrite (Hone _ _ _ b (fun c Hc => Hc) (Hrep x n Hrx Hx) Hin Hb H), lines_of_app.
    unfold lines_of at 2. cbn [filter list_filter].
    rewrite decide_False by (simpl; exact Hne). simpl. lia.
Qed.

(** C4, amended.  After [clip_redundant] on a root that has no parent.  Every
    edge that leaves a node of the tree goes to a child whose parent is that
    node; no node of the tree is on a cycle and the root is the child of
    none, so the root is the one node of the tree that no node of the tree
    holds; every other node of the tree is held by one node of the tree only,
    its parent.  The pass has deleted children and changed nothing else: a
    node of the tree keeps exactly those of its children that have it as
    their parent, in their order, so that a node stands among the children
    of its parent as often as it stood there before, and among those of no
    other node.  When the heap is the graph of the resolution, the nodes of the
    tree are the nodes that the root reached there: none is lost.  [walk]
    prints a line at least of every node of the tree and none of any other
    node, and one line only of every node of the tree when no node of the
    tree lists a child twice.  (A classified node that nothing imports is not
    reached, and a node that its parent imports twice is held twice.) *)
Theorem clip_redundant_tree fuel root_node h h' r :
  h !! root_node = Some r ->
  parent r = None ->
  clip_redundant fuel root_node h = Ok h' ->
  (forall a b, rtc (edge h') root_node a -> edge h' a b ->
               rtc (edge h') root_node b
               /\ exists nb, h' !! b = Some nb /\ parent nb = Some a)
  /\ (forall a, rtc (edge h') root_node a -> ~ tc (edge h') a a)
  /\ (forall a, rtc (edge h') root_node a -> ~ edge h' a root_node)
  /\ (forall a a' b, rtc (edge h') root_node a -> rtc (edge h') root_node a' ->
                     edge h' a b -> edge h' a' b -> a = a')
  /\ clips h h'
  /\ (forall a n', rtc (edge h') root_node a -> h' !! a = Some n' ->
        exists n, h !! a = Some n /\ children n' = filter (owned h a) (children n))
  /\ (forall a na x nx nx',
        rtc (edge h') root_node x ->
        h !! a = Some na -> h !! x = Some nx -> h' !! x = Some nx' ->
        held a (children nx')
        = if decide (parent na = Some x) then held a (children nx) else 0%nat)
  /\ (forall fuel0 cls h0 g,
        build_dependency_tree fuel0 cls root_node h0 = Ok g -> g_heap g = h ->
        forall a, rtc (edge h) root_node a <-> rtc (edge h') root_node a)
  /\ (forall fuel1 printed,
        walk fuel1 h' root_node 0 [] = Ok printed ->
        forall a,
          (rtc (edge h') root_node a -> (1 <= lines_of a printed)%nat)
          /\ (~ rtc (edge h') root_node a -> lines_of a printed = 0%nat)
          /\ (no_repeat h' root_node -> rtc (edge h') root_node a ->
              lines_of a printed = 1%nat)).
Proof.
  intros Hr Hp H.
  destruct (clip_redundant_shape _ _ _ _ _ Hr Hp H) as (Hedges & Hacyc & Hroot & Hone & Hc).
  destruct (clip_redundant_clean _ _ _ _ H) as [_ Hclean].
  split; [exact Hedges|]. split; [exact Hacyc|]. split; [exact Hroot|].
  split; [exact Hone|]. split; [exact Hc|].
  split; [exact (clipped_children _ _ _ _ H)|].
  split; [exact (clipped_held _ _ _ _ H)|].
  split.
  - intros fuel0 cls h0 g Hdep <- a. split.
    + exact (reached_stays _ _ _ _ _ _ _ Hdep H a).
    + exact (clips_rtc _ _ _ _ Hc).
  - intros fuel1 printed Hwalk a. split; [|split].
    + intros Ha. destruct (walk_lines_some h' a _ _ _ _ _ Hwalk) as [_ Hsome].
      specialize (Hsome Ha). unfold lines_of at 1 in Hsome. simpl in Hsome. lia.
    + intros Ha. exact (walk_lines_none h' a _ _ _ _ _ Ha Hwalk).
    + intros Hrep Ha.
      exact (walk_lines_once h' root_node a _ Hclean Hacyc Hrep _ _ _ _ (rtc_refl _ _) Ha Hwalk).
Qed.

(** ** C4: a second counterexample, and the witness *)

Lemma rep_classified_run : gen_classes rep_classify id rep_sources = Ok rep_classified.
Proof. vm_compute. reflexivity. Qed.

Lemma rep_resolved_run :
  build_dependency_tree example_fuel (c_classes rep_classified) 0 (c_heap rep_classified)
  = Ok rep_resolved.
Proof. vm_compute. reflexivity. Qed.

Lemma rep_clipped_run : clip_redundant example_fuel 0 (g_heap rep_resolved) = Ok rep_clipped.
Proof. vm_compute. reflexivity. Qed.

(** With an import repeated: [main.cpp] imports [R] twice, keeps it twice
    among its children after the clip, and [walk] prints it twice. *)
Lemma reduced_tree_claim_fails_on_a_repeat :
  ~ reduced_tree_claim rep_classify id example_fuel rep_sources.
Proof.
  intros H.
  destruct (H rep_classified 0%nat rep_resolved rep_clipped
              [(0, 0, None); (1, 1, Some 0); (1, 1, Some 0)]%nat)
    as (_ & _ & Hcount).
  - exact rep_classified_run.
  - reflexivity.
  - exact rep_resolved_run.
  - exact rep_clipped_run.
  - vm_compute. reflexivity.
  - specialize (Hcount 1%nat). vm_compute in Hcount.
    assert (E : 2%nat = 1%nat) by (apply Hcount; eauto). discriminate E.
Qed.

(** In [dia] the clip has an edge to delete: [main] loses [Q], which [P]
    owns, every node reached stays in the tree, and [walk] prints each once. *)
Lemma clip_redundant_tree_witness :
  (forall a b, rtc (edge (clipped_tree dia_sources)) 0%nat a ->
               edge (clipped_tree dia_sources) a b ->
               rtc (edge (clipped_tree dia_sources)) 0%nat b
               /\ exists nb, clipped_tree dia_sources !! b = Some nb /\ parent nb = Some a)
  /\ (forall a, rtc (edge (clipped_tree dia_sources)) 0%nat a ->
                ~ tc (edge (clipped_tree dia_sources)) a a)
  /\ (forall a, rtc (edge (clipped_tree dia_sources)) 0%nat a ->
                ~ edge (clipped_tree dia_sources) a 0%nat)
  /\ (forall a a' b, rtc (edge (clipped_tree dia_sources)) 0%nat a ->
                     rtc (edge (clipped_tree dia_sources)) 0%nat a' ->
                     edge (clipped_tree dia_sources) a b ->
                     edge (clipped_tree dia_sources) a' b -> a = a')
  /\ clips (g_heap (resolved_graph dia_sources)) (clipped_tree dia_sources)
  /\ (exists n,
        g_heap (resolved_graph dia_sources) !! 0%nat = Some n
        /\ [NodeRef 1] = filter (owned (g_heap (resolved_graph dia_sources)) 0) (children n))
  /\ held 2 [NodeRef 1] = 0%nat
  /\ held 2 [NodeRef 2] = 1%nat
  /\ (forall a, rtc (edge (g_heap (resolved_graph dia_sources))) 0%nat a
                <-> rtc (edge (clipped_tree dia_sources)) 0%nat a)
  /\ (forall a, rtc (edge (clipped_tree dia_sources)) 0%nat a ->
                lines_of a [(0, 0, None); (1, 1, Some 0); (2, 2, Some 1)]%nat = 1%nat).
Proof.
  destruct (clip_redundant_tree example_fuel 0 (g_heap (resolved_graph dia_sources))
              (clipped_tree dia_sources)
              (mkNode None [NodeRef 2; NodeRef 1]
                 (mkData plain None "dia/main.cpp" ["Q"; "P"] [])))
    as (Hedges & Hacyc & Hroot & Hone & Hc & Hkept & Hheld & Hreached & Hwalk).
  - vm_compute. reflexivity.
  - reflexivity.
  - exact dia_clipped.
  - split; [exact Hedges|]. split; [exact Hacyc|]. split; [exact Hroot|].
    split; [exact Hone|]. split; [exact Hc|].
    split; [|split; [|split; [|split]]].
    + apply (Hkept 0%nat (mkNode None [NodeRef 1]
                            (mkData plain None "dia/main.cpp" ["Q"; "P"] [])));
        [constructor|vm_compute; reflexivity].
    + apply (Hheld 2%nat (mkNode (Some 1%nat) [] (mkData module (Some "Q") "dia/q.cppm" [] []))
               0%nat
               (mkNode None [NodeRef 2; NodeRef 1]
                  (mkData plain None "dia/main.cpp" ["Q"; "P"] []))
               (mkNode None [NodeRef 1] (mkData plain None "dia/main.cpp" ["Q"; "P"] [])));
        [constructor|vm_compute; reflexivity..].
    + apply (Hheld 2%nat (mkNode (Some 1%nat) [] (mkData module (Some "Q") "dia/q.cppm" [] []))
               1%nat
               (mkNode (Some 0%nat) [NodeRef 2] (mkData module (Some "P") "dia/p.cppm" ["Q"] []))
               (mkNode (Some 0%nat) [NodeRef 2] (mkData module (Some "P") "dia/p.cppm" ["Q"] [])));
        [|vm_compute; reflexivity..].
      eapply rtc_once. exists (mkNode None [NodeRef 1]
                                 (mkData plain None "dia/main.cpp" ["Q"; "P"] [])).
      split; [vm_compute; reflexivity|now left].
    + exact (Hreached example_fuel (c_classes (classified dia_sources))
               (c_heap (classified dia_sources)) (resolved_graph dia_sources)
               dia_resolved eq_refl).
    + intros a Ha.
      apply (Hwalk example_fuel [(0, 0, None); (1, 1, Some 0); (2, 2, Some 1)]%nat);
        [vm_compute; reflexivity| |exact Ha].
      intros x nx _ Hx. revert x nx Hx.
      assert (Hall : map_Forall (fun _ n => NoDup (children n)) (clipped_tree dia_sources))
        by (apply (bool_decide_unpack _); vm_compute; exact I).
      exact Hall.
Defined.

(** [app]: the scheduler starts at C, two levels below the root. *)
Lemma scheduler_has_its_way_witness :
  exists last r levels,
    last_node (resolved_graph app_sources) = Some last
    /\ reduced_tree app_sources !! 0%nat = Some r /\ parent r = None
    /\ walk_up (reduced_tree app_sources) 0 last levels
    /\ last_node_depth (resolved_graph app_sources) = Z.of_nat (length levels)
    /\ forall x d, node_depth (resolved_graph app_sources) !! x = Some d ->
                   (d < Z.of_nat (length levels))%Z.
Proof.
  apply (scheduler_has_its_way example_classify id example_fuel app_sources
           (classified app_sources) 0 (resolved_graph app_sources) (reduced_tree app_sources)).
  - exact app_classified.
  - exact app_resolved.
  - exact app_reduced.
Defined.

(** [app] right after a build, built again. *)
Lemma up_to_date_target_runs_nothing_witness :
  exists rounds0,
    forall rounds, (rounds0 <= rounds)%nat ->
      exists b,
        make_target example_classify id example_toolchain example_fuel rounds
          (example_settings false) "app" app_sources (mkWorld app_files []) = Ok b
        /\ b_tree b = reduced_tree app_sources /\ b_root_node b = 0%nat
        /\ s_compiles (b_sched b) = 0%nat /\ s_compiled (b_sched b) = []
        /\ b_world b = mkWorld app_files [].
Proof.
  apply (up_to_date_target_runs_nothing example_classify id example_toolchain example_fuel
           (example_settings false) "app" app_sources (mkWorld app_files [])
           (classified app_sources) 0 (resolved_graph app_sources) (reduced_tree app_sources)).
  - split; [vm_compute; reflexivity|]. split; [discriminate|]. split; discriminate.
  - exact app_classified.
  - vm_compute. reflexivity.
  - exact app_resolved.
  - exact app_reduced.
  - reflexivity.
  - intros header Hin. exfalso.
    assert (E : c_header_units (classified app_sources) = ∅) by (vm_compute; reflexivity).
    rewrite E in Hin. exact (not_elem_of_empty header Hin).
  - assert (H : map_Forall
                  (fun (a : nat) n =>
                     out_of_date (example_settings false) (fs (mkWorld app_files [])) n
                     = Ok false) (reduced_tree app_sources))
      by (apply (bool_decide_unpack _); vm_compute; exact I).
    exact H.
Defined.

Lemma app_rebuild_returns :
  make_target example_classify id example_toolchain example_fuel 50
    (example_settings true) "app" app_sources (mkWorld app_files_fresh []) = Ok app_rebuilt.
Proof. vm_compute. reflexivity. Qed.

(** The full rebuild of [app]: five compilations and the link. *)
Lemma commands_of_a_build_witness :
  exists c made log levels,
    gen_classes example_classify id app_sources = Ok c
    /\ NoDup made /\ (forall header, In header made -> header ∈ c_header_units c)
    /\ walk_up (b_tree app_rebuilt) (b_root_node app_rebuilt) (b_last_node app_rebuilt) levels
    /\ s_compiled (b_sched app_rebuilt) `sublist_of` (concat levels ++ [b_root_node app_rebuilt])
    /\ s_compiles (b_sched app_rebuilt) = length (s_compiled (b_sched app_rebuilt))
    /\ Forall2 (compile_command example_fuel (example_settings true) (b_tree app_rebuilt))
         (s_compiled (b_sched app_rebuilt)) log
    /\ match s_compiled (b_sched app_rebuilt) with
       | [] => cmds (b_world app_rebuilt)
               = cmds (mkWorld app_files_fresh [])
                 ++ (precompile_args (example_settings true) <$> made)
       | _ :: _ =>
           exists objects,
             collect_objects example_fuel (example_settings true) (b_tree app_rebuilt)
               (b_root_node app_rebuilt) [] = Ok objects
             /\ cmds (b_world app_rebuilt)
                = cmds (mkWorld app_files_fresh [])
                  ++ (precompile_args (example_settings true) <$> made) ++ log
                  ++ [link_args (example_settings true) objects "app"]
       end.
Proof.
  apply (commands_of_a_build example_classify id example_toolchain example_fuel 50
           (example_settings true) "app" app_sources (mkWorld app_files_fresh []) app_rebuilt).
  exact app_rebuild_returns.
Defined.

(** [baker rebuild run app] *)
Lemma parse_args_reads_the_command_line_witness :
  match parse_args 4 example_argv with
  | Args args =>
      forall name values, args !! name = Some values ->
        In (name, length values) args_nature
        /\ exists i, (0 < i)%nat /\ example_argv !! i = Some name
                     /\ values = take (length values) (drop (S i) example_argv)
                     /\ (i + length values < length example_argv)%nat
  | RequiresArguments current count =>
      In (current, count) args_nature /\ (0 < count)%nat
      /\ exists i, example_argv !! i = Some current /\ (length example_argv <= i + count)%nat
  | UnknownArgument current =>
      In current example_argv /\ forall count, ~ In (current, count) args_nature
  | StillParsing => False
  end.
Proof.
  apply (parse_args_reads_the_command_line example_argv 4).
  vm_compute. lia.
Defined.

Lemma run_target_after_parse_witness :
  match example_args !! "run" with
  | None => run_target example_toolchain "build/debug" (list_to_map [("app", JList [])])
              example_args (mkWorld app_files []) = NotAsked
  | Some values =>
      exists i target,
        (0 < i)%nat /\ example_argv !! i = Some "run" /\ example_argv !! S i = Some target
        /\ values = [target]
        /\ run_target example_toolchain "build/debug" (list_to_map [("app", JList [])])
             example_args (mkWorld app_files [])
           = if bool_decide (is_Some ((list_to_map [("app", JList [])] : gmap string json)
                                        !! target)) then
               match example_toolchain [Py.join "build/debug" target]
                       (fs (mkWorld app_files [])) with
               | Some files =>
                   Ran_ (mkWorld files (cmds (mkWorld app_files [])
                                        ++ [[Py.join "build/debug" target]]))
               | None => RunRaised CommandFailed
               end
             else InvalidTarget target
  end.
Proof.
  apply (run_target_after_parse example_toolchain "build/debug"
           (list_to_map [("app", JList [])]) example_argv 4 example_args (mkWorld app_files [])).
  vm_compute. reflexivity.
Defined.

Lemma example_bakerfile_loaded :
  load_bakerfile (Some example_bakerfile) = Ok (loaded example_bakerfile).
Proof. vm_compute. reflexivity. Qed.

Lemma plain_bakerfile_loaded :
  load_bakerfile (Some plain_bakerfile) = Ok (loaded plain_bakerfile).
Proof. vm_compute. reflexivity. Qed.

Lemma process_args_after_load_witness :
  exists started,
    process_args (loaded example_bakerfile) example_args = Ok started
    /\ match started with
       | Exit0 printed =>
           printed = (if given example_args "help" then PrintedArgsNature
                      else if given example_args "default_bakerfile" then PrintedOptionsDefault
                      else PrintedOptions (loaded example_bakerfile))
           /\ (given example_args "help" || given example_args "default_bakerfile"
               || given example_args "dump_bakerfile" = true)
       | Proceed p =>
           given example_args "help" || given example_args "default_bakerfile"
             || given example_args "dump_bakerfile" = false
           /\ p_show p = given example_args "show" /\ p_rebuild p = given example_args "rebuild"
           /\ p_type p = (if given example_args "release" then "release" else "debug")
           /\ option_of (loaded example_bakerfile) "flags" (p_type p) = Ok (p_type_flags p)
           /\ option_of (loaded example_bakerfile) "flags" "base" = Ok (p_base_flags p)
           /\ py_type (p_type_flags p) = list_ /\ py_type (p_base_flags p) = list_
           /\ exists build object header_units cxx,
                option_of (loaded example_bakerfile) "dirs" "build" = Ok (JStr build)
                /\ option_of (loaded example_bakerfile) "dirs" "object" = Ok (JStr object)
                /\ option_of (loaded example_bakerfile) "dirs" "header_units"
                   = Ok (JStr header_units)
                /\ option_of (loaded example_bakerfile) "options" "cxx" = Ok (JStr cxx)
                /\ p_dir_build p = Py.join build (p_type p)
                /\ p_dir_object p = Py.join (p_dir_build p) object
                /\ p_dir_header_units p = Py.join build header_units
                /\ p_cxx p = [JStr cxx]
       end.
Proof.
  apply (process_args_after_load example_bakerfile (loaded example_bakerfile) example_args).
  exact example_bakerfile_loaded.
Defined.

(** With no argument, the file of one target gives the settings of the
    examples. *)
Lemma default_settings_witness :
  exists p,
    process_args (loaded plain_bakerfile) ∅ = Ok (Proceed p)
    /\ settings_of (loaded plain_bakerfile) p = Some (example_settings false).
Proof.
  destruct (default_settings plain_bakerfile (loaded plain_bakerfile) ∅) as (p & Hp & Hs).
  - exact plain_bakerfile_loaded.
  - reflexivity.
  - reflexivity.
  - reflexivity.
  - reflexivity.
  - exists p. split; [exact Hp|]. rewrite Hs. reflexivity.
Defined.

Lemma startup_outcomes_witness :
  match init (Some plain_bakerfile) 4 example_argv with
  | Raised e => load_bakerfile (Some plain_bakerfile) = Err e
  | Refused refused =>
      parse_args 4 example_argv = refused
      /\ ((exists current, refused = UnknownArgument current /\ In current example_argv)
          \/ (refused = RequiresArguments "run" 1 /\ last example_argv = Some "run"))
  | Exited printed =>
      exists options args,
        load_bakerfile (Some plain_bakerfile) = Ok options
        /\ parse_args 4 example_argv = Args args
        /\ process_args options args = Ok (Exit0 printed)
        /\ (given args "help" || given args "default_bakerfile"
            || given args "dump_bakerfile" = true)
  | Building options args p =>
      load_bakerfile (Some plain_bakerfile) = Ok options
      /\ parse_args 4 example_argv = Args args
      /\ process_args options args = Ok (Proceed p)
      /\ (given args "help" || given args "default_bakerfile"
          || given args "dump_bakerfile" = false)
  end.
Proof.
  apply (startup_outcomes (Some plain_bakerfile) 4 example_argv).
  vm_compute. lia.
Defined.

(** [app], whose graph has the depth 2, with a depth of 3 calls for each of
    the later passes; with a compiler that fails, the first compilation stops
    the build. *)
Lemma only_the_outside_stops_a_build_witness :
  make_target_at example_classify id (fun _ _ => None) example_fuel 3 3 3 50
    (example_settings true) "app" app_sources (mkWorld app_files_fresh []) = Err CommandFailed
  /\ exists rounds0,
       forall tc rounds st target w e,
         make_target_at example_classify id tc example_fuel 3 3 3 rounds st target
           app_sources w = Err e ->
         e = CommandFailed \/ e = PyOSError
         \/ (e = PyTypeError
             /\ exists source d, In source app_sources /\ example_classify source = Ok d
                                 /\ is_module_type (type d) = true /\ module_ d = None)
         \/ (e = Diverges /\ (rounds < rounds0)%nat).
Proof.
  split; [vm_compute; reflexivity|].
  destruct (only_the_outside_stops_a_build example_classify id example_fuel app_sources
              (classified app_sources) 0 (resolved_graph app_sources)) as [rounds0 H].
  - exact app_classified.
  - vm_compute. reflexivity.
  - exact app_resolved.
  - exists rounds0. intros tc rounds st target w e. apply H; vm_compute; lia.
Defined.

(** [eng]: [k.cpp] and [k.cppm] are both compiled into [eng/k.o]. *)
Lemma unit_and_interface_share_an_object_witness :
  let st := example_settings false in
  let n := mkNode None [] (mkData module_impl (Some "K") "eng/k.cpp" [] []) in
  let n' := mkNode None [] (mkData module (Some "K") "eng/k.cppm" [] []) in
  target_path st n = Py.join (dir_object st) ("eng/k" +:+ ".o")
  /\ target_path st n' = target_path st n
  /\ source_path st n' <> source_path st n.
Proof.
  apply (unit_and_interface_share_an_object (example_settings false)
           (mkNode None [] (mkData module_impl (Some "K") "eng/k.cpp" [] []))
           (mkNode None [] (mkData module (Some "K") "eng/k.cppm" [] [])) "eng/k").
  - reflexivity.
  - reflexivity.
  - reflexivity.
Defined.

Lemma resolution_leaves_no_cycle_witness :
  let g := resolved_graph dia_sources in
  (forall a n, rtc (edge (g_heap g)) 0%nat a -> g_heap g !! a = Some n ->
               Forall (is_node (g_heap g)) (children n))
  /\ (forall m a, nsteps (edge (g_heap g)) m 0%nat a -> (m < example_fuel)%nat)
  /\ (forall a, rtc (edge (g_heap g)) 0%nat a -> ~ tc (edge (g_heap g)) a a)
  /\ (last_node_depth g < Z.of_nat example_fuel)%Z.
Proof.
  apply (resolution_leaves_no_cycle example_fuel (c_classes (classified dia_sources)) 0
           (c_heap (classified dia_sources)) (resolved_graph dia_sources)).
  exact dia_resolved.
Defined.

(** [baker tree] on [app]. *)
Lemma shown_without_building_witness :
  let args : gmap string (list string) := {["tree" := []]} in
  let w := mkWorld app_files_fresh [] in
  (given args "deptree" || given args "tree" = false ->
   make_target_as args example_classify id example_toolchain example_fuel 50
     (example_settings false) "app" app_sources w
   = Built_ <$> make_target example_classify id example_toolchain example_fuel 50
                  (example_settings false) "app" app_sources w)
  /\ (given args "deptree" || given args "tree" = true ->
      (forall e,
         make_target_as args example_classify id example_toolchain example_fuel 50
           (example_settings false) "app" app_sources w = Err e ->
         e = CommandFailed)
      /\ forall m,
           make_target_as args example_classify id example_toolchain example_fuel 50
             (example_settings false) "app" app_sources w = Ok m ->
           exists lines w' made shown,
             m = Shown ((0, 0, None) :: lines)%nat w'
             /\ NoDup made
             /\ (forall header, In header made ->
                                header ∈ c_header_units (classified app_sources))
             /\ cmds w' = cmds w ++ (precompile_args (example_settings false) <$> made)
             /\ (if given args "deptree" then shown = g_heap (resolved_graph app_sources)
                 else build_compile_tree example_fuel (c_classes (classified app_sources)) 0
                        (g_heap (resolved_graph app_sources)) = Ok shown)
             /\ walk example_fuel shown 0 0 [] = Ok ((0, 0, None) :: lines)%nat).
Proof.
  apply (shown_without_building {["tree" := []]} example_classify id example_toolchain
           example_fuel 50 (example_settings false) "app" app_sources
           (mkWorld app_files_fresh []) (classified app_sources) 0 (resolved_graph app_sources)).
  - exact app_classified.
  - vm_compute. reflexivity.
  - exact app_resolved.
Defined.

Lemma imports_resolved_in_place_witness :
  let cls := c_classes (classified dia_sources) in
  let g := resolved_graph dia_sources in
  exists h1 h2,
    attach_plain_sources cls 0 (c_heap (classified dia_sources)) = Ok h1
    /\ attach_module_impls cls 0 h1 = Ok h2
    /\ forall a n, rtc (edge (g_heap g)) 0%nat a -> g_heap g !! a = Some n ->
         exists n0,
           h2 !! a = Some n0 /\ data n = data n0
           /\ mapM (resolve cls (module_ (data n0))) (children n0) = Ok (children n)
           /\ length (children n) = length (children n0).
Proof.
  apply (imports_resolved_in_place example_fuel (c_classes (classified dia_sources)) 0
           (c_heap (classified dia_sources)) (resolved_graph dia_sources)).
  exact dia_resolved.
Defined.

(** [dia]: the clip takes Q from the children of the root, which P owns. *)
Lemma clip_keeps_exactly_the_owned_witness :
  let root := mkNode None [NodeRef 1] (mkData plain None "dia/main.cpp" ["Q"; "P"] []) in
  exists n, g_heap (resolved_graph dia_sources) !! 0%nat = Some n
            /\ parent root = parent n /\ data root = data n
            /\ children root
               = filter (owned (g_heap (resolved_graph dia_sources)) 0) (children n).
Proof.
  apply (clip_keeps_exactly_the_owned example_fuel 0 (g_heap (resolved_graph dia_sources))
           (clipped_tree dia_sources) dia_clipped 0
           (mkNode None [NodeRef 1] (mkData plain None "dia/main.cpp" ["Q"; "P"] []))).
  - apply rtc_refl.
  - vm_compute. reflexivity.
Defined.
